(* ===== verification/_CoqProject ===== *)
-Q . S2P
Prelude.v
CalcTables.v
CalcSyntax.v
CalcParser.v
CalcAbstract.v
CalcRefine.v
CalcLexer.v
CalcProps.v
Result.v
FlexTables.v
FlexScanner.v
FlexSpec.v
FlexRefine.v
FlexProps.v
FlexStack.v
FlexStackProps.v
Myext2File.v
ChangeMagic.v
SpmcQueue.v
SpmcProps.v
SpmcAbstract.v
SpmcIpc.v
SpmcIpcProps.v
SpmcTests.v
SpmcTestsProps.v
SpmcQuotaProps.v
SpmcPrograms.v
SpmcLauncher.v
ChatWire.v
ChatServer.v
ChatProps.v
ChatClient.v
Crossing.v
CrossingProps.v
ObjWire.v
ObjWireProps.v
ObjConn.v
ObjConnProps.v
ObjStore.v
ObjStoreProps.v
ObjShared.v
ObjLocal.v
ObjSerial.v
ObjSharedProps.v
ObjFaults.v
ObjClient.v
ObjBench.v
ObjLoop.v
ObjLoopProps.v
ThreadPool.v
CoChannel.v
CoChannelProps.v
CoTimer.v
CoTask.v
CoChain.v
CoChainProps.v
CoDemo.v
CoDemoProps.v
CoDemoReceived.v
CoGenerator.v
CoSeries.v
CoPrint.v
MmapTest.v
KernelProbes.v
Reflect.v
