(* ===== verification/Prelude.v ===== *)
(** * A verification library for the C programs of this repository

    The repository is a collection of independent programs. This library models
    twelve of them, those with the most logic of their own: a desk calculator with a
    table driven parser, a word counter with a generated scanner, a chat server and
    its client, a lock free queue with its programs, a simulation of a crossing, the file operations
    of an encrypting file system and the program that changes the magic number of
    its image, an object storage with its server and clients, a library of coroutines
    with its demonstration, a benchmark of mapped files, two kernel probes, and a header of
    templates for the fields of structs. The programs share no code; what their models share is this file
    (checked arrays, fixed width integers, machines with fuel) and [Result] (the
    outcome of a C function: a value, a fatal error, undefined behaviour; memory
    blocks).

    ** The programs, their files and their models

    Desk calculator, src/compiler/lab3. [CalcTables] holds the tables of y.tab.c,
    entry by entry. [CalcParser] is [yyparse], one definition per label, over a
    state with the two stacks; [yystep] goes from label to label and [yyparse] runs
    it with fuel. [CalcLexer] is [yylex] over the characters of the standard input,
    with [scanf("%lf")] as the automaton of the C standard. [CalcSyntax] is the
    language: the rules and precedence declarations of lab3_3150102210.y, the trees
    they select and their values. [CalcAbstract] is an operator precedence machine
    without tables, [CalcRefine] the simulation between it and [CalcParser], and
    [CalcProps] the theorems: what is printed is the values of the lines of the
    input, for every token sequence and for every text; sequences of lines are
    accepted; a token sequence has one reading. The numbers are any type with the
    operations ([Arith], [FloatLit]), since rounding plays no part in parsing.

    Word counter, src/compiler/lab1. [FlexTables] holds the tables of lex.yy.c,
    [FlexScanner] the buffer, its refilling ([yy_get_next_buffer], [YY_INPUT],
    [yyrestart]) and [yylex], label by label, with [main]. [FlexSpec] says what
    words, lines and tokens are. [FlexRefine] shows that [yylex] delivers these
    tokens whatever part of the input the buffer holds; [FlexProps] has the counts
    that [main] prints and their independence of the size of the buffer. [FlexStack] is
    the part of lex.yy.c that the program does not call: [unput] and [input], the stack of
    buffers over a heap, scanning from memory and [yylex_destroy]; [FlexStackProps] shows
    what they do to the characters to come, and what [yylex_destroy] leaves allocated.

    Chat, src/network. [ChatWire] describes the packets and their memory image by
    codecs with a round trip law. [ChatServer] is server.c: the handlers of the
    requests, the transfer loop [recvOrSendAll], and a step relation in which the
    accepting thread and the threads of the clients interleave. A step is one of
    the three parts of accepting a client (up to the closed old connection, filling
    the list, creating the thread), the start of a thread, a received request or an
    answer; requests are not interleaved below that. [ChatProps] proves transfers,
    responses and the invariant of the list, and shows the executions in which the
    list and the connections fall apart. [ChatClient] is client.c: the menu, its
    commands and the receiving thread, with its theorems.

    Queue, src/opencode-demo2/include/SPMCQueue.h (src/opencode-vibe-demo has the same
    files, character by character). [SpmcQueue] has a step for every
    atomic operation and every access to a segment, interleaved sequentially
    consistently; the code asks for acquire and release order only, so executions
    of weaker memory models are outside the model. [SpmcProps] holds the
    invariant and its consequences: no undefined step, no item twice, every
    consumer in order, the size, and the bounded number of steps of a push.
    [SpmcAbstract] specifies the queue as a list, shows that calls that do not
    overlap implement it, and that overlapping calls can lose an item. [SpmcTests] has the
    tests of the queue: those with one thread as programs, which pass, and the one with a
    producer and several consumers as steps of its threads; [SpmcTestsProps] shows that it
    passes in every interleaving since its items fit into one segment, and that it can fail
    with smaller segments; [SpmcQuotaProps] that the test whose consumers stop at a number of
    items can always go on to its end. [SpmcIpc] puts the
    same steps into several processes, which share the header and have the segments for
    themselves, with the constructor store by store and the destructor; [SpmcIpcProps] shows
    that no item crosses from one process to another, that a process that opens the queue
    traps the others, and that one process alone has the queue of [SpmcQueue]. The programs
    around it are in [SpmcPrograms] (producer.cpp and consumer.cpp: the message, the loops
    and the progress reports, over an interface of what is around them) and [SpmcLauncher]
    (ipc_launcher.cpp: the forks, the signals and who is killed at the end).

    Crossing, src/os/p1.c. [Crossing] has a step for every operation on a shared
    variable, semaphore or condition of the threads of the cars and of the deadlock
    thread; the thread functions of the four directions are one definition with the
    direction as parameter. [main] is atomic: it creates all cars before they move.
    [CrossingProps]: mutual exclusion of the areas, the deadlock, its resolution,
    a lost wakeup and the queues.

    File system, src/os/file.c and changeMN.c. [Myext2File] has the shifting read
    and write over an interface of the kernel's services, fsync and release;
    [ChangeMagic] the whole program that patches an image.

    Object storage, src/cpp-object-storage-demo. [ObjWire] has the messages of
    object.cpp, over memory blocks with checked bounds and sockets given by what
    arrives and what the kernel takes; [ObjWireProps] the format and its round trips.
    [ObjConn] is one connection of server.cpp: [handleRead], [handle], [handleWrite]
    and the branches of the loop for it, over the interface [Storage]. [ObjConnProps]:
    every state is well formed whatever arrives, and against the interface [Contract],
    what a storage promises, a stream of requests is answered by the stream of the
    responses however it is cut. [ObjStore] is meta.cpp, file.cpp and the handlers of
    PUT, GET and DELETE, with an environment that can fail every library call;
    [ObjStoreProps] shows that they implement a map, what survives failures and what
    does not. [ObjShared] cuts the handlers into programs of library calls that threads
    run under the mutexes of the keys, interleaved between any two calls; a program run
    alone is the handler of [ObjStore]. [ObjLocal]: each program reads and changes only what
    belongs to its key, whatever fails. [ObjSerial]: threads whose calls interleave, each
    with the failures of its own calls, do what the handlers do one after the other in the
    order of the answers. [ObjSharedProps]: when the libraries work, what the threads answer
    is what the map answers one request after the other, and all are answered; with two
    flaws, the [unlock] of a shared lock and the temporary files, which have mutexes of their
    own. [ObjFaults]: when calls fail, what they answer is what a map answers whose
    operations may fail but are never done in part.
    [ObjClient] is client.cpp and the theorems about both ends together. [ObjBench] is
    client_main.cpp, the test client: what a thread sends and counts, the keys of the
    threads, and the functional test against the map.
    [ObjLoop] is [Server::loop] run by several workers, a step per system call, and
    [ObjLoopProps] the ownership of connections by workers and registrations.
    [ThreadPool] is threadpool.h with its theorems.

    Coroutines, src/coroutine. [CoChannel] is channel.h with the awaiters of
    channel_awaiter.h and awaiter.h and the executors of executor.h: a step is a critical
    section of the channel's lock or a function that an executor runs, so every
    interleaving of coroutines is an execution. [CoChannelProps] has the invariant (who
    waits and why, the order of values and readers, one resumption for each suspended
    coroutine), what closing does, and how it deadlocks or loses a value. [CoTimer] is
    timer.h over an interface of the priority queue ([PriorityQueue], with a sorted list
    as its instance), and [LooperExecutor]; calls that are due are made once and not
    early, unless a push and the end of a wait cross. [CoTask] is the promise of
    task_promise.h with the handlers of task.h and the awaiting of task_awaiter.h: who
    gets the result, which handlers are called, and three hazards. [CoDemo] is the
    producer and the two consumers of main.cpp over [CoChannel], [CoDemoProps] what they
    receive and that they are never stuck. [CoChain] has tasks that await tasks, sleep or
    wait for futures (sleep_awaiter.h, future_awaiter.h and the simple tasks of main.cpp)
    over the promises of [CoTask]; [CoChainProps] shows that every interleaving delivers the
    result of the program without threads, and not before its sleeps are over. [CoGenerator] is generator.h: the generators
    made of other generators against functions on lists; [CoSeries] has the two generators
    of main.cpp and what is printed of them; [CoPrint] is ioutils.cpp without the clock.

    Mapped files, src/mmap-test.c. [MmapTest] has the content, the arguments of the
    threads and the loops of the thread functions, with the sizes for which they are
    defined.

    Kernel probes, src/bcc-python. [KernelProbes] has the two probes written in C over an
    interface of BCC's tables, which have room for a number of keys: what the counters of
    switches and the histogram of latencies contain.

    Fields of structs, src/reflect.h. [Reflect] has the schemas and the calls of a function
    for every field, in order.

    ** Conventions

    A C array is a list and every access is checked: an access outside is [None] or
    [Undefined]. Integers are in [Z], with the wrap-around of their width where the
    source has it. A loop whose rounds are not bounded by data takes fuel, and a
    theorem about it says that some amount of fuel is enough and that more does not
    change the result. What the kernel, the user or another thread decides is an
    input: the replies of calls, or the list of events that says who steps next.

    Parameters stand for what is not in the repository: whether an allocation
    succeeds ([stack_alloc], [alloc_ok]), what fresh memory contains ([junk]),
    whether the input is a terminal ([isatty]), the kernel's file operations
    ([SyncFile] and its law), what is around the programs of the queue ([World], with its
    laws and a list of messages as its instance), the blocks of the object storage ([Malloc], with the
    blocks of glibc as its instance), the hash of a key and what [unlock] does to a shared
    lock ([hasher], [unlock_shared]), the body of a coroutine ([Lawful]: more fuel does
    not change what it does), the tables of BCC ([Table] with [TableLaws], bounded maps
    as their instance) and its logarithm. Theorems that need memory assume that allocations
    succeed; the witnesses instantiate the parameters.

    Bounds: the word counter is proved for inputs below 2^31 - 2 bytes, where the
    [int] of a token's length does not overflow; the parser for stacks up to
    [YYMAXDEPTH]; the crossing for up to 1000 letters, beyond which it is shown to
    leave its arrays; the queue for any capacity above 0 and any number of threads;
    the object storage for messages below 2^31 bytes, and its event loop and thread
    pool for any number of workers. A session of the object storage takes fuel; the
    theorem gives an amount after which the whole input is served. So do the generators
    and the mapped files.

    ** Not modelled

    Printing, sleeping and the set-up of sockets; the accessors of the flex runtime for
    variables that nothing reads; the release of memory, but for the buffers of the flex
    runtime. In the object storage:
    directories, the buffering between [fwrite] and the file, the opening of the database,
    and lookups in the metadata that fail while handlers interleave (a PUT takes such a key
    for a new one and writes in place; [ObjStore] has this for one handler). In the
    coroutines: functions that throw inside
    handlers, the frames of coroutines (a generator made of another one owns it in the
    model, while the code keeps a pointer), the request over HTTP in [main], and weaker
    memory orders than sequential consistency. In the queue: processes that open it twice,
    or that are forked after they opened it; of its tests the rates that are measured. Of
    the repository: the programs in other languages, the files that the build made, and the
    entry point of the object server. What is left of the modelled programs is printing, set-up and
    release: it has no behaviour of its own to state. *)

(** ** Shared vocabulary

    C arrays with checked access, fixed width integers with their wrap-around,
    small list lemmas, the tactics and the hint database of the component files. *)

From Stdlib Require Export ZArith Lia.
From stdpp Require Export base tactics option list numbers relations gmap.

#[global] Open Scope Z_scope.

Create HintDb carray.

(** ** Checked array access

    A C array is a list; reading or writing outside it is undefined behaviour
    and is the value [None] of the model. *)
Definition aget {A} (a : list A) (i : Z) : option A :=
  if 0 <=? i then a !! Z.to_nat i else None.

Definition aset {A} (a : list A) (i : Z) (x : A) : option (list A) :=
  if (0 <=? i) && (i <? Z.of_nat (length a)) then Some (<[Z.to_nat i := x]> a) else None.

(** ** Integers of a fixed width *)

(** The value of [z] reduced to an unsigned integer of [w] bits. *)
Definition wrap_u (w z : Z) : Z := z mod 2 ^ w.

(** The value of [z] reduced to a two's complement integer of [w] bits. *)
Definition wrap_s (w z : Z) : Z := (z + 2 ^ (w - 1)) mod 2 ^ w - 2 ^ (w - 1).

Declare Scope cint_scope.
Delimit Scope cint_scope with cint.
Notation "'int32' z" := (wrap_s 32 z) (at level 10, z at level 9) : cint_scope.
Notation "'char8' z" := (wrap_s 8 z) (at level 10, z at level 9) : cint_scope.
Notation "'uint64' z" := (wrap_u 64 z) (at level 10, z at level 9) : cint_scope.
Notation "'uint32' z" := (wrap_u 32 z) (at level 10, z at level 9) : cint_scope.
Notation "'uint8' z" := (wrap_u 8 z) (at level 10, z at level 9) : cint_scope.

(** ** Tactics *)

(** Case analysis on the boolean tests of the goal or of a hypothesis, each
    comparison turned into its proposition. *)
Ltac case_bool :=
  repeat match goal with
  | |- context [?a =? ?b] => destruct (Z.eqb_spec a b)
  | |- context [?a <? ?b] => destruct (Z.ltb_spec a b)
  | |- context [?a <=? ?b] => destruct (Z.leb_spec a b)
  | H : context [?a =? ?b] |- _ => destruct (Z.eqb_spec a b)
  | H : context [?a <? ?b] |- _ => destruct (Z.ltb_spec a b)
  | H : context [?a <=? ?b] |- _ => destruct (Z.leb_spec a b)
  end.

(** Split the matches of a hypothesis [H : match .. end = v]. *)
Ltac split_match H :=
  repeat match type of H with
  | context [match ?x with _ => _ end] => destruct x eqn:?; try discriminate H
  end.

(** ** Lemmas on arrays *)

Lemma aget_nat {A} (a : list A) (n : nat) : aget a (Z.of_nat n) = a !! n.
Proof. unfold aget. rewrite Nat2Z.id. by destruct (Z.leb_spec 0 (Z.of_nat n)); [|lia]. Qed.

Lemma aget_Some {A} (a : list A) i x :
  aget a i = Some x -> 0 <= i < Z.of_nat (length a) /\ a !! Z.to_nat i = Some x.
Proof.
  unfold aget. case_bool; [|done]. intros Hl.
  split; [apply lookup_lt_Some in Hl; lia|done].
Qed.

Lemma aget_in_range {A} (a : list A) i :
  0 <= i < Z.of_nat (length a) -> exists x, aget a i = Some x.
Proof.
  intros H. unfold aget. case_bool; [|lia].
  apply lookup_lt_is_Some_2. lia.
Qed.

Lemma aget_out_of_range {A} (a : list A) i :
  i < 0 \/ Z.of_nat (length a) <= i -> aget a i = None.
Proof. intros H. unfold aget. case_bool; [|done]. apply lookup_ge_None_2. lia. Qed.

Lemma aset_in_range {A} (a : list A) i x :
  0 <= i < Z.of_nat (length a) -> aset a i x = Some (<[Z.to_nat i := x]> a).
Proof. intros H. unfold aset. by case_bool; simpl; try lia. Qed.

Lemma aset_Some {A} (a b : list A) i x :
  aset a i x = Some b -> 0 <= i < Z.of_nat (length a) /\ b = <[Z.to_nat i := x]> a.
Proof. unfold aset. case_bool; simpl; intros ?; simplify_eq; split; (lia || done). Qed.

Lemma aset_length {A} (a b : list A) i x : aset a i x = Some b -> length b = length a.
Proof. intros [_ ->]%aset_Some. by rewrite length_insert. Qed.

Lemma aget_aset_eq {A} (a b : list A) i x : aset a i x = Some b -> aget b i = Some x.
Proof.
  intros [? ->]%aset_Some. unfold aget. case_bool; [|lia].
  apply list_lookup_insert_eq. lia.
Qed.

Lemma aget_aset_ne {A} (a b : list A) i j x : aset a i x = Some b -> i <> j -> aget b j = aget a j.
Proof.
  intros [? ->]%aset_Some ?. unfold aget. case_bool; [|done].
  apply list_lookup_insert_ne. lia.
Qed.

Lemma aset_nat {A} (a : list A) (n : nat) x :
  (n < length a)%nat -> aset a (Z.of_nat n) x = Some (<[n := x]> a).
Proof. intros H. by rewrite aset_in_range, Nat2Z.id by lia. Qed.

Lemma Z_of_nat_succ (n : nat) : Z.of_nat n + 1 = Z.of_nat (S n).
Proof. lia. Qed.

(** ** Lemmas on fixed width integers *)

Lemma wrap_u_bounds w z : 0 <= w -> 0 <= wrap_u w z < 2 ^ w.
Proof. intros. apply Z.mod_pos_bound. lia. Qed.

Lemma wrap_u_small w z : 0 <= z < 2 ^ w -> wrap_u w z = z.
Proof. apply Z.mod_small. Qed.

Lemma wrap_s_small w z : 0 < w -> - 2 ^ (w - 1) <= z < 2 ^ (w - 1) -> wrap_s w z = z.
Proof.
  intros ? H. unfold wrap_s. assert (2 ^ w = 2 * 2 ^ (w - 1)) as E.
  { rewrite <- Z.pow_succ_r by lia. f_equal; lia. }
  rewrite Z.mod_small; lia.
Qed.

Lemma wrap_s_bounds w z : 0 < w -> - 2 ^ (w - 1) <= wrap_s w z < 2 ^ (w - 1).
Proof.
  intros. unfold wrap_s. assert (2 ^ w = 2 * 2 ^ (w - 1)) as E.
  { rewrite <- Z.pow_succ_r by lia. f_equal; lia. }
  pose proof (Z.mod_pos_bound (z + 2 ^ (w - 1)) (2 ^ w)). lia.
Qed.

(** ** Paths of a machine that runs with fuel

    [run fuel c] is the result of the machine from the configuration [c]. *)
Section Paths.
Context {C R : Type} (run : nat -> C -> R).

(** After some steps from [c] the machine is in [c']. *)
Definition leads_to (c c' : C) : Prop :=
  exists n, forall fuel, run (n + fuel)%nat c = run fuel c'.

Lemma leads_to_refl c : leads_to c c.
Proof. by exists 0%nat. Qed.

Lemma leads_to_step c c1 c' :
  (forall fuel, run (S fuel) c = run fuel c1) -> leads_to c1 c' -> leads_to c c'.
Proof. intros H [n Hn]. exists (S n). intros fuel. simpl. by rewrite H. Qed.

Lemma leads_to_trans c c1 c' : leads_to c c1 -> leads_to c1 c' -> leads_to c c'.
Proof.
  intros [n Hn] [m Hm]. exists (n + m)%nat. intros fuel. by rewrite <- Nat.add_assoc, Hn, Hm.
Qed.

End Paths.

(** ** Lemmas on lists *)

(** A decidable test on a bounded range of integers decides the property. *)
Definition zrange (lo : Z) (n : nat) : list Z := map (fun k => lo + Z.of_nat k) (seq 0 n).

Lemma zrange_forallb lo n (P : Z -> bool) :
  forallb P (zrange lo n) = true -> forall z, lo <= z < lo + Z.of_nat n -> P z = true.
Proof.
  intros H z Hz. rewrite forallb_forall in H. apply H. unfold zrange. apply in_map_iff.
  exists (Z.to_nat (z - lo)). split; [lia|]. apply in_seq. lia.
Qed.

#[export] Hint Resolve aget_in_range aset_in_range : carray.
