(* ===== verification/CalcTables.v ===== *)
(** The constant tables of the desk calculator's parser
    (src/compiler/lab3/y.tab.c, generated by Bison from the grammar of
    lab3_3150102210.y): the token translation, the packed action and goto
    tables and the rule descriptions, copied entry by entry. *)

From S2P Require Import Prelude.

Definition YYFINAL : Z := 2.
Definition YYLAST : Z := 39.
Definition YYNTOKENS : Z := 13.
Definition YYNSTATES : Z := 23.
Definition YYUNDEFTOK : Z := 2.
Definition YYMAXUTOK : Z := 259.
Definition NUM : Z := 258.
Definition YYEMPTY : Z := -2.
Definition YYEOF : Z := 0.
Definition YYTERROR : Z := 1.
Definition YYPACT_NINF : Z := -9.
Definition YYINITDEPTH : Z := 200.
Definition YYMAXDEPTH : Z := 10000.

Definition yytranslate : list Z := [
    0; 2; 2; 2; 2; 2; 2; 2; 2; 2; 10; 2; 2; 2; 2; 2;
    2; 2; 2; 2; 2; 2; 2; 2; 2; 2; 2; 2; 2; 2; 2; 2;
    2; 2; 2; 2; 2; 2; 2; 2; 11; 12; 6; 5; 2; 4; 2; 7;
    2; 2; 2; 2; 2; 2; 2; 2; 2; 2; 2; 2; 2; 2; 2; 2;
    2; 2; 2; 2; 2; 2; 2; 2; 2; 2; 2; 2; 2; 2; 2; 2;
    2; 2; 2; 2; 2; 2; 2; 2; 2; 2; 2; 2; 2; 2; 9; 2;
    2; 2; 2; 2; 2; 2; 2; 2; 2; 2; 2; 2; 2; 2; 2; 2;
    2; 2; 2; 2; 2; 2; 2; 2; 2; 2; 2; 2; 2; 2; 2; 2;
    2; 2; 2; 2; 2; 2; 2; 2; 2; 2; 2; 2; 2; 2; 2; 2;
    2; 2; 2; 2; 2; 2; 2; 2; 2; 2; 2; 2; 2; 2; 2; 2;
    2; 2; 2; 2; 2; 2; 2; 2; 2; 2; 2; 2; 2; 2; 2; 2;
    2; 2; 2; 2; 2; 2; 2; 2; 2; 2; 2; 2; 2; 2; 2; 2;
    2; 2; 2; 2; 2; 2; 2; 2; 2; 2; 2; 2; 2; 2; 2; 2;
    2; 2; 2; 2; 2; 2; 2; 2; 2; 2; 2; 2; 2; 2; 2; 2;
    2; 2; 2; 2; 2; 2; 2; 2; 2; 2; 2; 2; 2; 2; 2; 2;
    2; 2; 2; 2; 2; 2; 2; 2; 2; 2; 2; 2; 2; 2; 2; 2;
    1; 2; 3; 8 ].

Definition yypact : list Z := [
    -9; 12; -9; -9; 2; -9; 2; -9; 29; -8; 20; 2; 2; 2; 2; 2;
    -9; -9; 11; 11; -8; -8; -8 ].

Definition yydefact : list Z := [
    2; 0; 1; 6; 0; 4; 0; 3; 0; 12; 0; 0; 0; 0; 0; 0;
    5; 13; 8; 7; 9; 10; 11 ].

Definition yypgoto : list Z := [
    -9; -9; -9; -4 ].

Definition yydefgoto : list Z := [
    -1; 1; 7; 8 ].

Definition yytable : list Z := [
    9; 15; 10; 0; 0; 3; 4; 18; 19; 20; 21; 22; 2; 6; 0; 3;
    4; 13; 14; 0; 15; 0; 5; 6; 11; 12; 13; 14; 0; 15; 0; 0;
    17; 11; 12; 13; 14; 0; 15; 16 ].

Definition yycheck : list Z := [
    4; 9; 6; -1; -1; 3; 4; 11; 12; 13; 14; 15; 0; 11; -1; 3;
    4; 6; 7; -1; 9; -1; 10; 11; 4; 5; 6; 7; -1; 9; -1; -1;
    12; 4; 5; 6; 7; -1; 9; 10 ].

Definition yystos : list Z := [
    0; 14; 0; 3; 4; 10; 11; 15; 16; 16; 16; 4; 5; 6; 7; 9;
    10; 12; 16; 16; 16; 16; 16 ].

Definition yyr1 : list Z := [
    0; 13; 14; 14; 15; 15; 16; 16; 16; 16; 16; 16; 16; 16 ].

Definition yyr2 : list Z := [
    0; 2; 0; 2; 1; 2; 1; 3; 3; 3; 3; 3; 2; 3 ].

(** [YYTRANSLATE]: the comparison is on [unsigned int]. *)
Definition YYTRANSLATE (yyx : Z) : option Z :=
  if wrap_u 32 yyx <=? YYMAXUTOK then aget yytranslate yyx else Some YYUNDEFTOK.

(** [yypact_value_is_default]. *)
Definition yypact_value_is_default (yyn : Z) : bool := yyn =? YYPACT_NINF.
