(* ===== verification/CalcSyntax.v ===== *)
(** The language of the desk calculator (the rules and precedence declarations
    of src/compiler/lab3/lab3_3150102210.y): tokens, expression trees, the trees
    the precedence declarations select, their value and their token sequence.

    This is the specification side: the parser of CalcParser never mentions
    these trees. *)

From S2P Require Import Prelude CalcTables.
From stdpp Require Import strings.
#[local] Open Scope Z_scope.

(** The arithmetic of the semantic actions ([YYSTYPE] is [double]); every
    theorem holds for each interpretation of the five operators and [pow]. *)
Class Arith (V : Type) := {
  vadd : V -> V -> V;
  vsub : V -> V -> V;
  vmul : V -> V -> V;
  vdiv : V -> V -> V;
  vpow : V -> V -> V;
  vneg : V -> V
}.

(** What [yylex] hands over: [NUM] with its value, or a character. *)
Inductive tok (V : Type) :=
| TNum (v : V)
| TCh (c : Z).
Arguments TNum {V} v.
Arguments TCh {V} c.

Inductive binop := OpSub | OpAdd | OpMul | OpDiv | OpPow.

#[export] Instance binop_eq_dec : EqDecision binop.
Proof. solve_decision. Defined.

(** The character of an operator token. *)
Definition op_char (o : binop) : Z :=
  match o with OpSub => 45 | OpAdd => 43 | OpMul => 42 | OpDiv => 47 | OpPow => 94 end.

Definition ch_lpar : Z := 40.
Definition ch_rpar : Z := 41.
Definition ch_nl : Z := 10.

(** Expression trees: one constructor per production of [exp]. *)
Inductive exp (V : Type) :=
| Num (v : V)
| Bin (o : binop) (a b : exp V)
| Neg (a : exp V)
| Paren (a : exp V).
Arguments Num {V} v.
Arguments Bin {V} o a b.
Arguments Neg {V} a.
Arguments Paren {V} a.

(** The two productions of [line]. *)
Inductive line (V : Type) :=
| LEmpty
| LExp (e : exp V).
Arguments LEmpty {V}.
Arguments LExp {V} e.

(** ** Precedence declarations

    [%left '-' '+'], [%left '*' '/'], [%left NEGATIVE], [%right '^']: the level
    of a pending production and of a token, and Yacc's rule for a conflict
    between reducing that production and shifting that token. *)
Inductive pending := PBin (o : binop) | PNeg.

Definition op_level (o : binop) : Z :=
  match o with OpSub | OpAdd => 1 | OpMul | OpDiv => 2 | OpPow => 4 end.

Definition pending_level (p : pending) : Z :=
  match p with PBin o => op_level o | PNeg => 3 end.

(** Shift the operator [o] while [p] is pending: a higher level wins, and at the
    same level only a right associative operator is shifted. *)
Definition shifts (p : pending) (o : binop) : bool :=
  (pending_level p <? op_level o)
  || ((pending_level p =? op_level o) && (op_level o =? 4)).

Section Trees.
Context {V : Type}.

(** The operators whose production ends where the tree ends. *)
Fixpoint right_spine (e : exp V) : list pending :=
  match e with
  | Num _ | Paren _ => []
  | Bin o _ b => PBin o :: right_spine b
  | Neg a => PNeg :: right_spine a
  end.

(** The operators whose production begins where the tree begins. *)
Fixpoint left_spine (e : exp V) : list binop :=
  match e with
  | Num _ | Paren _ | Neg _ => []
  | Bin o a _ => o :: left_spine a
  end.

(** All productions that end with the tree are reduced in front of [o]. *)
Definition ends_before (e : exp V) (o : binop) : bool :=
  forallb (fun p => negb (shifts p o)) (right_spine e).

(** All operators that begin with the tree are shifted while [p] is pending. *)
Definition binds_under (p : pending) (e : exp V) : bool :=
  forallb (shifts p) (left_spine e).

(** The trees that respect the precedence declarations. *)
Fixpoint wf_exp (e : exp V) : bool :=
  match e with
  | Num _ => true
  | Paren a => wf_exp a
  | Neg a => wf_exp a && binds_under PNeg a
  | Bin o a b => wf_exp a && wf_exp b && ends_before a o && binds_under (PBin o) b
  end.

Definition wf_line (l : line V) : bool :=
  match l with LEmpty => true | LExp e => wf_exp e end.

(** ** Tokens of a tree *)
Fixpoint exp_toks (e : exp V) : list (tok V) :=
  match e with
  | Num v => [TNum v]
  | Bin o a b => exp_toks a ++ TCh (op_char o) :: exp_toks b
  | Neg a => TCh (op_char OpSub) :: exp_toks a
  | Paren a => TCh ch_lpar :: exp_toks a ++ [TCh ch_rpar]
  end.

Definition line_toks (l : line V) : list (tok V) :=
  match l with LEmpty => [TCh ch_nl] | LExp e => exp_toks e ++ [TCh ch_nl] end.

Definition lines_toks (ls : list (line V)) : list (tok V) := concat (map line_toks ls).

(** The stack entries needed on top of the context to recognise the tree. *)
Fixpoint need (e : exp V) : Z :=
  match e with
  | Num _ => 1
  | Bin _ a b => Z.max (need a) (2 + need b)
  | Neg a => 1 + need a
  | Paren a => Z.max 3 (1 + need a)
  end.

Definition line_need (l : line V) : Z :=
  match l with LEmpty => 1 | LExp e => Z.max 2 (need e) end.

(** ** Value of a tree *)
Context `{!Arith V}.

Definition apply_op (o : binop) : V -> V -> V :=
  match o with
  | OpSub => vsub | OpAdd => vadd | OpMul => vmul | OpDiv => vdiv | OpPow => vpow
  end.

Fixpoint eval (e : exp V) : V :=
  match e with
  | Num v => v
  | Bin o a b => apply_op o (eval a) (eval b)
  | Neg a => vneg (eval a)
  | Paren a => eval a
  end.

(** What the parser prints for a line. *)
Definition line_values (l : line V) : list V :=
  match l with LEmpty => [] | LExp e => [eval e] end.

Definition lines_values (ls : list (line V)) : list V := concat (map line_values ls).

End Trees.

(** The free interpretation: a value is the tree that was evaluated, so a
    statement about printed values is one about the recognised structure. *)
Inductive term :=
| TmLit (n : Z)
| TmOp (o : binop) (a b : term)
| TmNeg (a : term).

#[export] Instance term_arith : Arith term := {|
  vadd := TmOp OpAdd; vsub := TmOp OpSub; vmul := TmOp OpMul;
  vdiv := TmOp OpDiv; vpow := TmOp OpPow; vneg := TmNeg
|}.
