(* ===== verification/CalcParser.v ===== *)
(** The table driven parser of the desk calculator (the function [yyparse] of
    src/compiler/lab3/y.tab.c), label by label.

    Each label of [yyparse] is a definition from the parser's variables to the
    next label or to the returned value; an access outside a table or a stack, which
    has [yystacksize] elements, is [None]. The lexer is a parameter, described by the class [Lexer]. *)

From S2P Require Import Prelude CalcTables CalcSyntax.
From stdpp Require Import strings.
#[local] Open Scope Z_scope.

(** The interface of the scanner: its state (the rest of the input) and the
    global [yylval] before the call, to the token code, [yylval] and its state
    after the call. *)
Class Lexer (V L : Type) := {
  yylex : L -> V -> Z * V * L
}.

(** Lines on the standard output. *)
Inductive event (V : Type) :=
| Value (v : V)          (* printf("\tValue = %f\n", v) *)
| ErrorMsg (msg : string). (* yyerror: printf("Error: %s\n", msg) *)
Arguments Value {V} v.
Arguments ErrorMsg {V} msg.

Section Parser.
Context {V L : Type} `{!Arith V} `{!Lexer V L}.
(** [YYSTACK_ALLOC] succeeds for a stack of this many elements. *)
Variable stack_alloc : Z -> bool.
(** The content of a stack slot that was never written. *)
Variable junk : V.

(** The variables of [yyparse]; the stacks have their top first and contain
    the elements up to [yyssp] and [yyvsp]. *)
Record pstate := PState {
  yystate : Z;
  yyerrstatus : Z;
  yynerrs : Z;
  yyss : list Z;
  yyvs : list V;
  yystacksize : Z;
  yychar : Z;
  yylval : V;
  lexst : L;
  out : list (event V)
}.

Definition with_stacks (st : pstate) (state : Z) (ss : list Z) (vs : list V) : pstate :=
  PState state (yyerrstatus st) (yynerrs st) ss vs (yystacksize st) (yychar st)
         (yylval st) (lexst st) (out st).

Definition with_stacksize (st : pstate) (n : Z) : pstate :=
  PState (yystate st) (yyerrstatus st) (yynerrs st) (yyss st) (yyvs st) n (yychar st)
         (yylval st) (lexst st) (out st).

Definition with_char (st : pstate) (c : Z) : pstate :=
  PState (yystate st) (yyerrstatus st) (yynerrs st) (yyss st) (yyvs st) (yystacksize st) c
         (yylval st) (lexst st) (out st).

Definition with_errors (st : pstate) (status nerrs : Z) : pstate :=
  PState (yystate st) status nerrs (yyss st) (yyvs st) (yystacksize st) (yychar st)
         (yylval st) (lexst st) (out st).

Definition emit (st : pstate) (evs : list (event V)) : pstate :=
  PState (yystate st) (yyerrstatus st) (yynerrs st) (yyss st) (yyvs st) (yystacksize st)
         (yychar st) (yylval st) (lexst st) (out st ++ evs).

(** [yychar = yylex ();] *)
Definition read_token (st : pstate) : pstate :=
  let '(c, v, l) := yylex (lexst st) (yylval st) in
  PState (yystate st) (yyerrstatus st) (yynerrs st) (yyss st) (yyvs st) (yystacksize st)
         c v l (out st).

Inductive label :=
| Lnewstate
| Lsetstate
| Lbackup
| Ldefault
| Lreduce (yyn : Z)
| Lerrlab
| Lerrlab1
| Lerrpop
| Laccept
| Labort
| Lexhausted.

Inductive outcome :=
| Goto (l : label) (st : pstate)
| Return (yyresult : Z) (st : pstate).

(** A store above the top of a stack, which has [yystacksize] elements. *)
Definition push {A} (st : pstate) (x : A) (stack : list A) : option (list A) :=
  if Z.of_nat (length stack) <? yystacksize st then Some (x :: stack) else None.

(** [yynewstate]: the state stack grows by one entry, [*yyssp = yystate]. *)
Definition yynewstate (st : pstate) : option outcome :=
  ss ← push st (yystate st) (yyss st);
  Some (Goto Lsetstate (with_stacks st (yystate st) ss (yyvs st))).

(** [yysetstate]: extend the stacks when they are full, accept in [YYFINAL]. *)
Definition yysetstate (st : pstate) : option outcome :=
  let top := Z.of_nat (length (yyss st)) - 1 in
  let enter st' := Some (Goto (if yystate st' =? YYFINAL then Laccept else Lbackup) st') in
  if yystacksize st - 1 <=? top then
    if YYMAXDEPTH <=? yystacksize st then Some (Goto Lexhausted st)
    else
      let doubled := yystacksize st * 2 in
      let size := if YYMAXDEPTH <? doubled then YYMAXDEPTH else doubled in
      let st' := with_stacksize st size in
      if stack_alloc size then
        if size - 1 <=? top then Some (Goto Labort st') else enter st'
      else Some (Goto Lexhausted st')
  else enter st.

(** The shift at the end of [yybackup]. *)
Definition shift_token (st : pstate) (yyn : Z) : option outcome :=
  let status := if yyerrstatus st =? 0 then 0 else yyerrstatus st - 1 in
  let st1 := with_char (with_errors st status (yynerrs st)) YYEMPTY in
  vs ← push st1 (yylval st) (yyvs st1);
  Some (Goto Lnewstate (with_stacks st1 yyn (yyss st1) vs)).

(** The lookahead token of [yybackup], read when there is none, with its
    internal number. *)
Definition lookahead (st : pstate) : option (Z * pstate) :=
  let st1 := if yychar st =? YYEMPTY then read_token st else st in
  if yychar st1 <=? YYEOF then Some (YYEOF, with_char st1 YYEOF)
  else t ← YYTRANSLATE (yychar st1); Some (t, st1).

(** [yybackup]: decide from the state alone, or look the state and the lookahead
    token up in [yycheck] and [yytable]. *)
Definition yybackup (st : pstate) : option outcome :=
  yyn ← aget yypact (yystate st);
  if yypact_value_is_default yyn then Some (Goto Ldefault st)
  else
    '(yytoken, st2) ← lookahead st;
    let yyn := yyn + yytoken in
    if (yyn <? 0) || (YYLAST <? yyn) then Some (Goto Ldefault st2)
    else
      chk ← aget yycheck yyn;
      if negb (chk =? yytoken) then Some (Goto Ldefault st2)
      else
        act ← aget yytable yyn;
        if act <=? 0 then Some (Goto (Lreduce (- act)) st2)
        else shift_token st2 act.

(** [yydefault]. *)
Definition yydefault (st : pstate) : option outcome :=
  yyn ← aget yydefact (yystate st);
  if yyn =? 0 then Some (Goto Lerrlab st) else Some (Goto (Lreduce yyn) st).

(** The semantic actions: [yyval] and the printed lines, from the values of the
    right hand side (top of the stack first) and the default [$$ = $1]. *)
Definition yyaction (yyn : Z) (vs : list V) (yyval : V) : option (V * list (event V)) :=
  match yyn with
  | 5 => v ← vs !! 1%nat; Some (yyval, [Value v])
  | 6 => v ← vs !! 0%nat; Some (v, [])
  | 7 => a ← vs !! 2%nat; b ← vs !! 0%nat; Some (vadd a b, [])
  | 8 => a ← vs !! 2%nat; b ← vs !! 0%nat; Some (vsub a b, [])
  | 9 => a ← vs !! 2%nat; b ← vs !! 0%nat; Some (vmul a b, [])
  | 10 => a ← vs !! 2%nat; b ← vs !! 0%nat; Some (vdiv a b, [])
  | 11 => a ← vs !! 2%nat; b ← vs !! 0%nat; Some (vpow a b, [])
  | 12 => a ← vs !! 0%nat; Some (vneg a, [])
  | 13 => a ← vs !! 1%nat; Some (a, [])
  | _ => Some (yyval, [])
  end.

(** The state reached from [top] on the left hand side of rule [yyn]. *)
Definition goto_state (yyn top : Z) : option Z :=
  lhs ← aget yyr1 yyn;
  base ← aget yypgoto (lhs - YYNTOKENS);
  let i := base + top in
  if (0 <=? i) && (i <=? YYLAST) then
    chk ← aget yycheck i;
    if chk =? top then aget yytable i else aget yydefgoto (lhs - YYNTOKENS)
  else aget yydefgoto (lhs - YYNTOKENS).

(** [yyreduce]. *)
Definition yyreduce (yyn : Z) (st : pstate) : option outcome :=
  yylen ← aget yyr2 yyn;
  let n := Z.to_nat yylen in
  dflt ← (if yylen =? 0 then Some junk else yyvs st !! (n - 1)%nat);
  '(yyval, evs) ← yyaction yyn (yyvs st) dflt;
  let ss := drop n (yyss st) in
  top ← head ss;
  state ← goto_state yyn top;
  vs ← push st yyval (drop n (yyvs st));
  Some (Goto Lnewstate (emit (with_stacks st state ss vs) evs)).

(** [yyerrlab]: report, and discard the lookahead if it was already reused. *)
Definition yyerrlab (st : pstate) : option outcome :=
  let st1 := if yyerrstatus st =? 0
             then emit (with_errors st (yyerrstatus st) (yynerrs st + 1))
                       [ErrorMsg "syntax error"]
             else st in
  if yyerrstatus st1 =? 3 then
    if yychar st1 <=? YYEOF then
      if yychar st1 =? YYEOF then Some (Goto Labort st1) else Some (Goto Lerrlab1 st1)
    else Some (Goto Lerrlab1 (with_char st1 YYEMPTY))
  else Some (Goto Lerrlab1 st1).

(** [yyerrlab1]: three tokens must be shifted before the next report. *)
Definition yyerrlab1 (st : pstate) : option outcome :=
  Some (Goto Lerrpop (with_errors st 3 (yynerrs st))).

(** The state after shifting the error token, if the state has that transition. *)
Definition error_shift (state : Z) : option (option Z) :=
  yyn ← aget yypact state;
  if yypact_value_is_default yyn then Some None
  else
    let i := yyn + YYTERROR in
    if (0 <=? i) && (i <=? YYLAST) then
      chk ← aget yycheck i;
      if chk =? YYTERROR then
        t ← aget yytable i; Some (if 0 <? t then Some t else None)
      else Some None
    else Some None.

(** One round of the loop of [yyerrlab1]. *)
Definition yyerrpop (st : pstate) : option outcome :=
  sh ← error_shift (yystate st);
  match sh with
  | Some t => vs ← push st (yylval st) (yyvs st); Some (Goto Lnewstate (with_stacks st t (yyss st) vs))
  | None =>
    match yyss st with
    | [] => None
    | [_] => Some (Goto Labort st)
    | _ :: below :: ss => Some (Goto Lerrpop (with_stacks st below (below :: ss) (tail (yyvs st))))
    end
  end.

(** [yyexhaustedlab]. *)
Definition yyexhaustedlab (st : pstate) : option outcome :=
  Some (Return 2 (emit st [ErrorMsg "memory exhausted"])).

Definition yystep (l : label) (st : pstate) : option outcome :=
  match l with
  | Lnewstate => yynewstate st
  | Lsetstate => yysetstate st
  | Lbackup => yybackup st
  | Ldefault => yydefault st
  | Lreduce yyn => yyreduce yyn st
  | Lerrlab => yyerrlab st
  | Lerrlab1 => yyerrlab1 st
  | Lerrpop => yyerrpop st
  | Laccept => Some (Return 0 st)
  | Labort => Some (Return 1 st)
  | Lexhausted => yyexhaustedlab st
  end.

Inductive presult :=
| PDone (yyresult : Z) (st : pstate)
| PUndefined
| PFuel.

Fixpoint yyrun (fuel : nat) (l : label) (st : pstate) : presult :=
  match fuel with
  | O => PFuel
  | S fuel =>
    match yystep l st with
    | None => PUndefined
    | Some (Goto l' st') => yyrun fuel l' st'
    | Some (Return r st') => PDone r st'
    end
  end.

(** The variables at the first [goto yysetstate]. *)
Definition yyinit (l : L) (lval : V) : pstate :=
  PState 0 0 0 [0] [junk] YYINITDEPTH YYEMPTY lval l [].

Definition yyparse (fuel : nat) (l : L) (lval : V) : presult :=
  yyrun fuel Lsetstate (yyinit l lval).

End Parser.

Arguments pstate V L : clear implicits.
Arguments outcome V L : clear implicits.
Arguments presult V L : clear implicits.

(** ** A scanner that reads a list of tokens, for examples *)
#[export] Instance list_lexer {V} : Lexer V (list (tok V)) := {|
  yylex l v := match l with
               | [] => (0, v, [])
               | TNum x :: l' => (NUM, x, l')
               | TCh c :: l' => (c, v, l')
               end
|}.

Definition lit (n : Z) : tok term := TNum (TmLit n).

(** [1 - 2 * 3 ^ 4 \n] *)
Example yyparse_example :
  match yyparse (fun _ => true) (TmLit 0) 200
          [lit 1; TCh 45; lit 2; TCh 42; lit 3; TCh 94; lit 4; TCh 10] (TmLit 0) with
  | PDone 0 st => out st = [Value (TmOp OpSub (TmLit 1) (TmOp OpMul (TmLit 2)
                                   (TmOp OpPow (TmLit 3) (TmLit 4))))]
  | _ => False
  end.
Proof. vm_compute. reflexivity. Qed.

(** [1 + \n] *)
Example yyparse_error_example :
  match yyparse (fun _ => true) (TmLit 0) 200 [lit 1; TCh 43; TCh 10] (TmLit 0) with
  | PDone 1 st => out st = [ErrorMsg "syntax error"]
  | _ => False
  end.
Proof. vm_compute. reflexivity. Qed.
