(* ===== verification/CalcAbstract.v ===== *)
(** An operator precedence machine for the desk calculator: the abstract
    specification of the parser. Its state is a context of unfinished
    productions and the item being recognised; its decisions come from the
    precedence declarations (CalcSyntax), not from tables. CalcRefine shows
    that the table driven parser implements it.

    The second half proves the machine correct: it always stops, what it
    accepts is the token sequence of lines of well-formed trees, and it accepts
    every such sequence that fits its stack. *)

From S2P Require Import Prelude CalcTables CalcSyntax.

Section Abstract.
Context {V : Type}.

(** A production of [exp] whose last operand is being recognised. *)
Inductive frame :=
| FNeg
| FParen
| FBin (e : exp V) (o : binop).

Inductive config :=
| CInit                             (* nothing on the stack *)
| COperand (k : list frame)         (* an operand (or a line) must follow *)
| CNum (k : list frame) (v : V)     (* [NUM] on top *)
| CExp (k : list frame) (e : exp V) (* [exp] on top *)
| CClose (k : list frame) (e : exp V) (* '(' [exp] ')' on top *)
| CNl                               (* '\n' on top *)
| CExpNl (e : exp V)                (* [exp] '\n' on top *)
| CLine.                            (* [line] on top *)

Definition op_of_char (c : Z) : option binop :=
  if c =? 45 then Some OpSub else if c =? 43 then Some OpAdd else
  if c =? 42 then Some OpMul else if c =? 47 then Some OpDiv else
  if c =? 94 then Some OpPow else None.

(** The production that is pending on top of a context, if it is an operator. *)
Definition pending_of (k : list frame) : option pending :=
  match k with
  | FNeg :: _ => Some PNeg
  | FBin _ o :: _ => Some (PBin o)
  | _ => None
  end.

Definition shifts_in (k : list frame) (o : binop) : bool :=
  match pending_of k with Some p => shifts p o | None => true end.

(** Complete the pending production with the expression on top. *)
Definition reduce_exp (k : list frame) (e : exp V) : option config :=
  match k with
  | FNeg :: k' => Some (CExp k' (Neg e))
  | FBin a o :: k' => Some (CExp k' (Bin o a e))
  | _ => None
  end.

Inductive aout :=
| AGo (c : config) (ls : list (line V)) (rest : list (tok V))
| AAccept (ls : list (line V))
| AError (ls : list (line V)).

Definition areduce (k : list frame) (e : exp V) (ls : list (line V)) (rest : list (tok V)) : aout :=
  match reduce_exp k e with Some c => AGo c ls rest | None => AError ls end.

(** One step: [ls] are the lines completed so far, [rest] the tokens that are
    not on the stack yet. *)
Definition astep (c : config) (ls : list (line V)) (rest : list (tok V)) : aout :=
  match c with
  | CInit => AGo (COperand []) ls rest
  | COperand k =>
    match rest with
    | TNum v :: r => AGo (CNum k v) ls r
    | TCh d :: r =>
      if d =? 45 then AGo (COperand (FNeg :: k)) ls r
      else if d =? ch_lpar then AGo (COperand (FParen :: k)) ls r
      else match k with
           | [] => if d =? ch_nl then AGo CNl ls r else AError ls
           | _ => AError ls
           end
    | [] => match k with [] => AAccept ls | _ => AError ls end
    end
  | CNum k v => AGo (CExp k (Num v)) ls rest
  | CExp k e =>
    match rest with
    | TCh d :: r =>
      match op_of_char d with
      | Some o => if shifts_in k o then AGo (COperand (FBin e o :: k)) ls r
                  else areduce k e ls rest
      | None =>
        match k with
        | [] => if d =? ch_nl then AGo (CExpNl e) ls r else AError ls
        | FParen :: k' => if d =? ch_rpar then AGo (CClose k' e) ls r else AError ls
        | _ => areduce k e ls rest
        end
      end
    | _ => areduce k e ls rest
    end
  | CClose k e => AGo (CExp k (Paren e)) ls rest
  | CNl => AGo CLine (ls ++ [LEmpty]) rest
  | CExpNl e => AGo CLine (ls ++ [LExp e]) rest
  | CLine => AGo (COperand []) ls rest
  end.

(** The stack entries a configuration stands for. *)
Fixpoint ctx_depth (k : list frame) : Z :=
  match k with
  | [] => 2
  | FBin _ _ :: k' => 2 + ctx_depth k'
  | _ :: k' => 1 + ctx_depth k'
  end.

Definition depth (c : config) : Z :=
  match c with
  | CInit => 1
  | COperand k => ctx_depth k
  | CNum k _ | CExp k _ => 1 + ctx_depth k
  | CClose k _ => 3 + ctx_depth k
  | CNl | CLine => 3
  | CExpNl _ => 4
  end.

(** Result 0: accepted, 1: syntax error, 2: stack exhausted; with the lines
    completed before. *)
Inductive ares :=
| ADone (r : Z) (ls : list (line V))
| AFuel.

Fixpoint arun (fuel : nat) (c : config) (ls : list (line V)) (rest : list (tok V)) : ares :=
  match fuel with
  | O => AFuel
  | S fuel =>
    match astep c ls rest with
    | AGo c' ls' rest' =>
      if YYMAXDEPTH <=? depth c' then ADone 2 ls' else arun fuel c' ls' rest'
    | AAccept ls' => ADone 0 ls'
    | AError ls' => ADone 1 ls'
    end
  end.

(** A bound on the remaining steps. *)
Fixpoint ctx_weight (k : list frame) : nat :=
  match k with
  | [] => 0
  | FBin _ _ :: k' => 1 + ctx_weight k'
  | _ :: k' => 1 + ctx_weight k'
  end%nat.

Definition weight (c : config) (rest : list (tok V)) : nat :=
  (match c with
   | CInit => 2
   | COperand k => 1 + ctx_weight k
   | CNum k _ => 2 + ctx_weight k
   | CExp k _ => 1 + ctx_weight k
   | CClose k _ => 2 + ctx_weight k
   | CNl | CExpNl _ => 3
   | CLine => 2
   end + 4 * length rest)%nat.

Definition aparse (ts : list (tok V)) : ares := arun (S (weight CInit ts)) CInit [] ts.

(** ** Termination *)

Lemma areduce_go k e ls rest c' ls' rest' :
  areduce k e ls rest = AGo c' ls' rest' ->
  ls' = ls /\ rest' = rest /\
  ((exists k', k = FNeg :: k' /\ c' = CExp k' (Neg e))
   \/ (exists a o k', k = FBin a o :: k' /\ c' = CExp k' (Bin o a e))).
Proof.
  unfold areduce, reduce_exp. intros H.
  destruct k as [|[| |a o] k]; simplify_eq; split_and!; eauto 10.
Qed.

Lemma areduce_stop k e ls rest :
  (forall ls', areduce k e ls rest <> AAccept ls')
  /\ (forall ls', areduce k e ls rest = AError ls' -> ls' = ls).
Proof.
  unfold areduce. split; intros ls' H; destruct (reduce_exp k e); by simplify_eq.
Qed.

(** All the ways a step can be taken. *)
Ltac astep_cases c H :=
  unfold astep in H; destruct c as [|?k|?k ?v|?k ?e|?k ?e| |?e|];
  split_match H; simplify_eq;
  try (apply areduce_go in H as (-> & -> & [(?k' & -> & ->)|(?a & ?o & ?k' & -> & ->)]));
  try (by apply areduce_stop in H);
  repeat match goal with
  | E : (_ =? _) = true |- _ => apply Z.eqb_eq in E; subst
  end.

Lemma astep_weight c ls rest c' ls' rest' :
  astep c ls rest = AGo c' ls' rest' -> (weight c' rest' < weight c rest)%nat.
Proof.
  intros H. astep_cases c H; unfold weight; simpl; lia.
Qed.

Lemma arun_done fuel c ls rest :
  (weight c rest < fuel)%nat -> exists r ls', arun fuel c ls rest = ADone r ls' /\ 0 <= r <= 2.
Proof.
  revert c ls rest. induction fuel as [|fuel IH]; intros c ls rest Hf; [lia|]. simpl.
  destruct (astep c ls rest) as [c' ls' rest'| |] eqn:E; [|eauto with lia..].
  apply astep_weight in E. destruct (YYMAXDEPTH <=? depth c'); [eauto with lia|].
  apply IH. lia.
Qed.

(** ** Tokens on the stack *)

Fixpoint ctx_toks (k : list frame) : list (tok V) :=
  match k with
  | [] => []
  | FNeg :: k' => ctx_toks k' ++ [TCh 45]
  | FParen :: k' => ctx_toks k' ++ [TCh ch_lpar]
  | FBin e o :: k' => ctx_toks k' ++ exp_toks e ++ [TCh (op_char o)]
  end.

Definition cfg_toks (c : config) : list (tok V) :=
  match c with
  | CInit | CLine => []
  | COperand k => ctx_toks k
  | CNum k v => ctx_toks k ++ [TNum v]
  | CExp k e => ctx_toks k ++ exp_toks e
  | CClose k e => ctx_toks k ++ TCh ch_lpar :: exp_toks e ++ [TCh ch_rpar]
  | CNl => [TCh ch_nl]
  | CExpNl e => exp_toks e ++ [TCh ch_nl]
  end.

Lemma op_of_char_Some d o : op_of_char d = Some o -> d = op_char o.
Proof. unfold op_of_char. intros H. case_bool; simplify_eq; done. Qed.

Lemma op_of_char_op o : op_of_char (op_char o) = Some o.
Proof. by destruct o. Qed.

Lemma lines_toks_snoc (ls : list (line V)) l :
  lines_toks (ls ++ [l]) = lines_toks ls ++ line_toks l.
Proof. unfold lines_toks. by rewrite map_app, concat_app; simpl; rewrite app_nil_r. Qed.

(** Every token is on the stack, in a completed line or in the rest. *)
Lemma astep_toks c ls rest c' ls' rest' :
  astep c ls rest = AGo c' ls' rest' ->
  lines_toks ls' ++ cfg_toks c' ++ rest' = lines_toks ls ++ cfg_toks c ++ rest.
Proof.
  intros H. astep_cases c H; simpl;
    repeat match goal with
    | E : op_of_char _ = Some _ |- _ => apply op_of_char_Some in E; subst
    end;
    rewrite ?lines_toks_snoc; simpl; rewrite <- ?(assoc_L (++)); simpl; try done;
    repeat (rewrite <- ?(assoc_L (++)); simpl); try done.
Qed.

(** ** Well-formedness of the stack *)

Definition under (k : list frame) (e : exp V) : bool :=
  match pending_of k with Some p => binds_under p e | None => true end.

Fixpoint ctx_wf (k : list frame) : Prop :=
  match k with
  | [] => True
  | FBin e o :: k' =>
    wf_exp e = true /\ ends_before e o = true /\ under k' e = true
    /\ shifts_in k' o = true /\ ctx_wf k'
  | _ :: k' => ctx_wf k'
  end.

(** In front of the rest of the input all productions of [e] are complete. *)
Definition closed_before (e : exp V) (rest : list (tok V)) : Prop :=
  match rest with
  | TCh d :: _ => match op_of_char d with Some o => ends_before e o = true | None => True end
  | _ => True
  end.

Definition cfg_wf (c : config) (rest : list (tok V)) : Prop :=
  match c with
  | COperand k | CNum k _ => ctx_wf k
  | CExp k e => ctx_wf k /\ wf_exp e = true /\ under k e = true /\ closed_before e rest
  | CClose k e => ctx_wf k /\ wf_exp e = true
  | CExpNl e => wf_exp e = true
  | _ => True
  end.

Definition lines_wf (ls : list (line V)) : Prop := forallb wf_line ls = true.

Lemma under_bin k o a b : under k a = true -> shifts_in k o = true -> under k (Bin o a b) = true.
Proof.
  unfold under, shifts_in, binds_under. destruct (pending_of k); [|done].
  simpl. intros -> ->. done.
Qed.

Lemma under_bin_inv k o a b :
  under k (Bin o a b) = true -> under k a = true /\ shifts_in k o = true.
Proof.
  unfold under, shifts_in, binds_under. destruct (pending_of k); [|done].
  simpl. intros [? ?]%andb_prop. done.
Qed.

Lemma under_leaf k (e : exp V) : left_spine e = [] -> under k e = true.
Proof. unfold under, binds_under. intros ->. by destruct (pending_of k). Qed.

(** Reducing on a token that is not shifted extends [closed_before]. *)
Lemma closed_neg e (rest : list (tok V)) :
  closed_before e rest ->
  (forall d r o, rest = TCh d :: r -> op_of_char d = Some o -> shifts PNeg o = false) ->
  closed_before (Neg e) rest.
Proof.
  unfold closed_before. destruct rest as [|[v|d] r]; try done. intros He Hs.
  destruct (op_of_char d) as [o|] eqn:E; [|done].
  unfold ends_before in *. simpl. rewrite (Hs d r o) by done. simpl. done.
Qed.

Lemma closed_bin o' a e (rest : list (tok V)) :
  closed_before e rest ->
  (forall d r o, rest = TCh d :: r -> op_of_char d = Some o -> shifts (PBin o') o = false) ->
  closed_before (Bin o' a e) rest.
Proof.
  unfold closed_before. destruct rest as [|[v|d] r]; try done. intros He Hs.
  destruct (op_of_char d) as [o|] eqn:E; [|done].
  unfold ends_before in *. simpl. rewrite (Hs d r o) by done. simpl. done.
Qed.

Lemma areduce_wf k e ls rest c' ls' rest' :
  ctx_wf k -> wf_exp e = true -> under k e = true -> closed_before e rest ->
  (forall d r o, rest = TCh d :: r -> op_of_char d = Some o -> shifts_in k o = false) ->
  areduce k e ls rest = AGo c' ls' rest' ->
  cfg_wf c' rest' /\ ls' = ls.
Proof.
  unfold areduce, reduce_exp. intros Hk He Hu Hc Hs H.
  destruct k as [|[| |a o] k]; simplify_eq; simpl in *.
  - split; [|done]. split_and!; [done| |by apply under_leaf|by apply closed_neg].
    unfold under in Hu. simpl in Hu. by rewrite He, Hu.
  - destruct Hk as (Ha & Hao & Hua & Hsh & Hk). split; [|done].
    split_and!; [done| |by apply under_bin|by apply closed_bin].
    unfold under in Hu. simpl in Hu. by rewrite Ha, He, Hao, Hu.
Qed.

Lemma lines_wf_snoc ls l : lines_wf ls -> wf_line l = true -> lines_wf (ls ++ [l]).
Proof. unfold lines_wf. intros H1 H2. by rewrite forallb_app, H1; simpl; rewrite H2. Qed.

Lemma closed_leaf (e : exp V) (rest : list (tok V)) : right_spine e = [] -> closed_before e rest.
Proof.
  unfold closed_before, ends_before. intros ->. destruct rest as [|[v|d] r]; try done.
  by destruct (op_of_char d).
Qed.

Lemma astep_wf c ls rest c' ls' rest' :
  astep c ls rest = AGo c' ls' rest' -> cfg_wf c rest -> lines_wf ls ->
  cfg_wf c' rest' /\ lines_wf ls'.
Proof.
  intros H Hc Hl. destruct c as [|k|k v|k e|k e| |e|]; simpl in H, Hc.
  - by simplify_eq.
  - split_match H; simplify_eq; done.
  - simplify_eq. split; [|done]. simpl. split_and!; [done|done|by apply under_leaf|by apply closed_leaf].
  - destruct Hc as (Hk & He & Hu & Hcl). destruct rest as [|[v|d] r].
    + eapply areduce_wf in H as [? ->]; eauto; intros; simplify_eq.
    + eapply areduce_wf in H as [? ->]; eauto; intros; simplify_eq.
    + simpl in Hcl. destruct (op_of_char d) as [o|] eqn:E.
      * destruct (shifts_in k o) eqn:Es; [by simplify_eq|].
        eapply areduce_wf in H as [? ->]; eauto; [by simpl; rewrite E|].
        intros. simplify_eq. congruence.
      * split_match H; simplify_eq; try done;
          (eapply areduce_wf in H as [? ->]; eauto; [by simpl; rewrite E|intros; simplify_eq; congruence]).
  - simplify_eq. destruct Hc. split; [|done]. simpl.
    split_and!; [done|done|by apply under_leaf|by apply closed_leaf].
  - simplify_eq. split; [done|]. by apply lines_wf_snoc.
  - simplify_eq. split; [done|]. by apply lines_wf_snoc.
  - by simplify_eq.
Qed.

(** ** Soundness: what is accepted is well-formed and accounts for the input *)

Lemma astep_accept c ls rest ls' :
  astep c ls rest = AAccept ls' -> ls' = ls /\ rest = [] /\ cfg_toks c = [].
Proof.
  intros H. astep_cases c H; done.
Qed.

Lemma astep_error c ls rest ls' : astep c ls rest = AError ls' -> ls' = ls.
Proof.
  intros H. astep_cases c H; done.
Qed.

Lemma arun_sound fuel c ls rest r ls' :
  cfg_wf c rest -> lines_wf ls -> arun fuel c ls rest = ADone r ls' ->
  lines_wf ls'
  /\ (exists tail, lines_toks ls ++ cfg_toks c ++ rest = lines_toks ls' ++ tail)
  /\ (r = 0 -> lines_toks ls ++ cfg_toks c ++ rest = lines_toks ls').
Proof.
  revert c ls rest. induction fuel as [|fuel IH]; intros c ls rest Hc Hl H; [done|].
  simpl in H. destruct (astep c ls rest) as [c1 ls1 rest1|ls1|ls1] eqn:E.
  - pose proof (astep_toks _ _ _ _ _ _ E) as <-.
    eapply astep_wf in E as [Hc1 Hl1]; [|done..].
    destruct (YYMAXDEPTH <=? depth c1); [|by eapply IH].
    simplify_eq. split_and!; [done|by eexists|done].
  - apply astep_accept in E as (-> & -> & E). simplify_eq. rewrite E.
    split_and!; [done|by exists []|by rewrite !app_nil_r].
  - apply astep_error in E as ->. simplify_eq. split_and!; [done|by eexists|done].
Qed.

(** ** Completeness: every well-formed line that fits is recognised *)

(** One step that stays within the stack. *)
Definition areach (c : config) (ls : list (line V)) (rest : list (tok V))
    (c' : config) (ls' : list (line V)) (rest' : list (tok V)) : Prop :=
  exists n, forall fuel, arun (n + fuel) c ls rest = arun fuel c' ls' rest'.

Lemma areach_refl c ls rest : areach c ls rest c ls rest.
Proof. by exists 0%nat. Qed.

Lemma areach_step c ls rest c1 ls1 rest1 c' ls' rest' :
  astep c ls rest = AGo c1 ls1 rest1 -> depth c1 < YYMAXDEPTH ->
  areach c1 ls1 rest1 c' ls' rest' -> areach c ls rest c' ls' rest'.
Proof.
  intros H Hd [n Hn]. exists (S n). intros fuel. simpl. rewrite H, <- Hn.
  case_bool; [lia|done].
Qed.

Lemma areach_trans c ls rest c1 ls1 rest1 c' ls' rest' :
  areach c ls rest c1 ls1 rest1 -> areach c1 ls1 rest1 c' ls' rest' ->
  areach c ls rest c' ls' rest'.
Proof.
  intros [n Hn] [m Hm]. exists (n + m)%nat. intros fuel.
  by rewrite <- Nat.add_assoc, Hn, Hm.
Qed.

Lemma areach_one c ls rest c' ls' rest' :
  astep c ls rest = AGo c' ls' rest' -> depth c' < YYMAXDEPTH ->
  areach c ls rest c' ls' rest'.
Proof. intros. eapply areach_step; [done|done|apply areach_refl]. Qed.

Lemma need_pos (e : exp V) : 1 <= need e.
Proof. induction e; simpl; lia. Qed.

(** The next token ends [e]: it is an operator in front of which [e] is
    complete, or no operator at all. *)
Lemma closed_before_op (e : exp V) o r :
  ends_before e o = true -> closed_before e (TCh (op_char o) :: r).
Proof. simpl. by rewrite op_of_char_op. Qed.

Lemma closed_bin_inv o a b (rest : list (tok V)) :
  closed_before (Bin o a b) rest ->
  closed_before b rest
  /\ (forall d r o', rest = TCh d :: r -> op_of_char d = Some o' -> shifts (PBin o) o' = false).
Proof.
  unfold closed_before. destruct rest as [|[v|d] r]; try (split; [done|intros; simplify_eq]).
  destruct (op_of_char d) as [o'|] eqn:E; [|by split; [done|intros; simplify_eq]].
  unfold ends_before. simpl. intros [Hs ?]%andb_prop. split; [done|].
  intros. simplify_eq. by destruct (shifts _ _).
Qed.

Lemma closed_neg_inv a (rest : list (tok V)) :
  closed_before (Neg a) rest ->
  closed_before a rest
  /\ (forall d r o', rest = TCh d :: r -> op_of_char d = Some o' -> shifts PNeg o' = false).
Proof.
  unfold closed_before. destruct rest as [|[v|d] r]; try (split; [done|intros; simplify_eq]).
  destruct (op_of_char d) as [o'|] eqn:E; [|by split; [done|intros; simplify_eq]].
  unfold ends_before. simpl. intros [Hs ?]%andb_prop. split; [done|].
  intros. simplify_eq. by destruct (shifts _ _).
Qed.

(** With a pending operator that is not shifted over, the step reduces. *)
Lemma astep_reduce k p e ls rest :
  pending_of k = Some p ->
  (forall d r o', rest = TCh d :: r -> op_of_char d = Some o' -> shifts p o' = false) ->
  astep (CExp k e) ls rest = areduce k e ls rest.
Proof.
  intros Hp Hs. simpl. destruct rest as [|[v|d] r]; try done.
  destruct (op_of_char d) as [o'|] eqn:E.
  - unfold shifts_in. rewrite Hp, (Hs d r o') by done. done.
  - by destruct k as [|[| |] k].
Qed.

Lemma areach_exp (e : exp V) : forall k ls rest,
  wf_exp e = true -> under k e = true -> closed_before e rest ->
  ctx_depth k + need e < YYMAXDEPTH ->
  areach (COperand k) ls (exp_toks e ++ rest) (CExp k e) ls rest.
Proof.
  induction e as [v|o a IHa b IHb|a IHa|a IHa]; intros k ls rest Hw Hu Hc Hd; simpl in *.
  - eapply areach_step; [done|simpl; lia|]. apply areach_one; [done|simpl; lia].
  - apply andb_prop in Hw as [[[Ha Hb]%andb_prop Hab]%andb_prop Hob].
    apply under_bin_inv in Hu as [Hua Hs]. apply closed_bin_inv in Hc as [Hcb Hred].
    pose proof (need_pos a). pose proof (need_pos b). rewrite <- (assoc_L (++)). simpl.
    eapply areach_trans; [apply IHa; [done|done|by apply closed_before_op|lia]|].
    eapply areach_step with (c1 := COperand (FBin a o :: k)).
    { simpl. rewrite op_of_char_op, Hs. done. } { simpl. lia. }
    eapply areach_trans; [apply IHb; [done|done|done|simpl; lia]|].
    apply areach_one; [|simpl; lia].
    by rewrite (astep_reduce _ (PBin o)) by done.
  - apply andb_prop in Hw as [Ha Hn]. apply closed_neg_inv in Hc as [Hca Hred].
    pose proof (need_pos a). eapply areach_step; [done|simpl; lia|].
    eapply areach_trans; [apply IHa; [done|done|done|simpl; lia]|].
    apply areach_one; [|simpl; lia]. by rewrite (astep_reduce _ PNeg) by done.
  - pose proof (need_pos a). eapply areach_step; [done|simpl; lia|].
    rewrite <- (assoc_L (++)). simpl.
    eapply areach_trans; [apply IHa; [done|done|done|simpl; lia]|].
    eapply areach_step with (c1 := CClose k a); [done|simpl; lia|].
    apply areach_one; [done|simpl; lia].
Qed.

Definition fits (ls : list (line V)) : Prop :=
  forallb (fun l => 2 + line_need l <? YYMAXDEPTH) ls = true.

Lemma areach_line l ls rest :
  wf_line l = true -> 2 + line_need l < YYMAXDEPTH ->
  areach (COperand []) ls (line_toks l ++ rest) (COperand []) (ls ++ [l]) rest.
Proof.
  unfold YYMAXDEPTH. intros Hw Hn. destruct l as [|e]; simpl in *.
  - do 2 (eapply areach_step; [done|done|]). apply areach_one; done.
  - rewrite <- (assoc_L (++)). simpl.
    eapply areach_trans; [apply areach_exp; [done|done|done|unfold YYMAXDEPTH; simpl; lia]|].
    do 2 (eapply areach_step; [done|done|]). apply areach_one; done.
Qed.

Lemma areach_lines ls : forall ls0 rest, lines_wf ls -> fits ls ->
  areach (COperand []) ls0 (lines_toks ls ++ rest) (COperand []) (ls0 ++ ls) rest.
Proof.
  unfold lines_wf, fits. induction ls as [|l ls IH]; intros ls0 rest Hw Hf.
  - rewrite app_nil_r. apply areach_refl.
  - simpl in Hw, Hf. apply andb_prop in Hw as [? ?]. apply andb_prop in Hf as [?%Z.ltb_lt ?].
    change (lines_toks (l :: ls)) with (line_toks l ++ lines_toks ls).
    rewrite <- (assoc_L (++)). eapply areach_trans; [by apply areach_line|].
    replace (ls0 ++ l :: ls) with ((ls0 ++ [l]) ++ ls) by by rewrite <- (assoc_L (++)).
    by apply IH.
Qed.

Lemma arun_mono fuel : forall c ls rest r ls' n,
  arun fuel c ls rest = ADone r ls' -> arun (fuel + n) c ls rest = ADone r ls'.
Proof.
  induction fuel as [|fuel IH]; intros c ls rest r ls' n H; simpl in *; [done|].
  destruct (astep c ls rest) as [c1 ls1 rest1| |]; try done.
  destruct (YYMAXDEPTH <=? depth c1); [done|]. by apply IH.
Qed.

Lemma arun_det f1 f2 c ls rest r1 l1 r2 l2 :
  arun f1 c ls rest = ADone r1 l1 -> arun f2 c ls rest = ADone r2 l2 -> r1 = r2 /\ l1 = l2.
Proof.
  intros H1 H2. apply (arun_mono _ _ _ _ _ _ f2) in H1. apply (arun_mono _ _ _ _ _ _ f1) in H2.
  rewrite Nat.add_comm, H1 in H2. by simplify_eq.
Qed.

(** The lines that were completed stay. *)
Lemma arun_prefix fuel : forall c ls rest r ls', arun fuel c ls rest = ADone r ls' -> ls `prefix_of` ls'.
Proof.
  induction fuel as [|fuel IH]; intros c ls rest r ls' H; simpl in H; [done|].
  destruct (astep c ls rest) as [c1 ls1 rest1|ls1|ls1] eqn:E.
  - assert (ls `prefix_of` ls1) as Hp
      by (astep_cases c E; first [reflexivity|by eexists|by apply areduce_go in E as (-> & _)]).
    destruct (YYMAXDEPTH <=? depth c1); [by simplify_eq|]. etrans; [exact Hp|by eapply IH].
  - apply astep_accept in E as (-> & _). by simplify_eq.
  - apply astep_error in E as ->. by simplify_eq.
Qed.

(** Complete lines at the beginning of the input are recognised, whatever follows. *)
Lemma aparse_prefix ts r ls ls' rest : aparse ts = ADone r ls ->
  ts = lines_toks ls' ++ rest -> lines_wf ls' -> fits ls' -> ls' `prefix_of` ls.
Proof.
  intros E -> Hw Hf. destruct (areach_lines ls' [] rest Hw Hf) as [n Hn].
  set (m := S (weight CInit (lines_toks ls' ++ rest))) in *. unfold aparse in E. fold m in E.
  apply (arun_mono _ _ _ _ _ _ (S n)) in E. replace (m + S n)%nat with (S (n + m)) in E by lia.
  change (arun (n + m) (COperand []) [] (lines_toks ls' ++ rest) = ADone r ls) in E. rewrite Hn in E.
  by apply arun_prefix in E.
Qed.

Lemma aparse_complete ls : lines_wf ls -> fits ls -> aparse (lines_toks ls) = ADone 0 ls.
Proof.
  intros Hw Hf. destruct (arun_done (S (weight CInit (lines_toks ls))) CInit [] (lines_toks ls))
    as (r & ls' & E & _); [lia|].
  unfold aparse. rewrite E.
  destruct (areach_lines ls [] [] Hw Hf) as [n Hn]. rewrite app_nil_r in Hn.
  assert (arun (S (n + 1)) CInit [] (lines_toks ls) = ADone 0 ls) as E'.
  { change (arun (n + 1) (COperand []) [] (lines_toks ls) = ADone 0 ls).
    by rewrite Hn. }
  by destruct (arun_det _ _ _ _ _ _ _ _ _ E E') as [-> ->].
Qed.

End Abstract.

Arguments frame V : clear implicits.
Arguments config V : clear implicits.
Arguments aout V : clear implicits.
Arguments ares V : clear implicits.
