(* ===== verification/CalcRefine.v ===== *)
(** The table driven parser of CalcParser implements the operator precedence
    machine of CalcAbstract: from related states, one step of the machine is a
    path through the labels of [yyparse] to a related state. No table or stack
    access is undefined on the way. *)

From S2P Require Import Prelude CalcTables CalcSyntax CalcParser CalcAbstract.
From stdpp Require Import strings.
#[local] Open Scope Z_scope.

Section Refine.
Context {V L : Type} `{!Arith V} `{!Lexer V L}.
Variable stack_alloc : Z -> bool.
Variable junk : V.
(** [malloc] does not fail for a stack of at most [YYMAXDEPTH] elements. *)
Hypothesis alloc_ok : forall n, n <= YYMAXDEPTH -> stack_alloc n = true.

Abbreviation pstate := (pstate V L).
Abbreviation run := (yyrun stack_alloc junk).

(** ** The tokens a scanner state produces *)

(** [yylex] returned the code [c] with [yylval] at [v] for the token [t]. *)
Definition tok_is (t : tok V) (c : Z) (v : V) : Prop :=
  match t with
  | TNum x => c = NUM /\ v = x
  | TCh d => c = d /\ 0 < d < 2 ^ 31 /\ d <> NUM
  end.

Inductive produces : L -> V -> list (tok V) -> Prop :=
| produces_end l v c v' l' :
    yylex l v = (c, v', l') -> c <= YYEOF -> produces l v []
| produces_tok l v c v' l' t ts :
    yylex l v = (c, v', l') -> tok_is t c v' -> produces l' v' ts -> produces l v (t :: ts).

(** The tokens that are not shifted yet: the lookahead, if it was read, and
    what the scanner still produces. *)
Definition la_read (st : pstate) (rest : list (tok V)) : Prop :=
  match rest with
  | [] => yychar st = YYEOF
  | t :: r => tok_is t (yychar st) (yylval st) /\ produces (lexst st) (yylval st) r
  end.

Definition la_ok (st : pstate) (rest : list (tok V)) : Prop :=
  (yychar st = YYEMPTY /\ produces (lexst st) (yylval st) rest) \/ la_read st rest.

(** ** Paths of the parser *)

Abbreviation run_from := (fun fuel (c : label * pstate) => run fuel c.1 c.2).

Definition reaches (l : label) (st : pstate) (l' : label) (st' : pstate) : Prop :=
  leads_to run_from (l, st) (l', st').

Definition returns (l : label) (st : pstate) (r : Z) (evs : list (event V)) : Prop :=
  exists n st', (forall fuel, run (n + fuel)%nat l st = PDone r st') /\ out st' = evs.

Lemma reaches_refl l st : reaches l st l st.
Proof. apply leads_to_refl. Qed.

Lemma reaches_step l st l1 st1 l' st' :
  yystep stack_alloc junk l st = Some (Goto l1 st1) ->
  reaches l1 st1 l' st' -> reaches l st l' st'.
Proof. intros H. apply leads_to_step. intros fuel. simpl. by rewrite H. Qed.

Lemma reaches_one l st l' st' :
  yystep stack_alloc junk l st = Some (Goto l' st') -> reaches l st l' st'.
Proof. intros. eapply reaches_step; [done|apply reaches_refl]. Qed.

Lemma reaches_trans l st l1 st1 l' st' :
  reaches l st l1 st1 -> reaches l1 st1 l' st' -> reaches l st l' st'.
Proof. apply leads_to_trans. Qed.

Lemma returns_one l st r st' :
  yystep stack_alloc junk l st = Some (Return r st') -> returns l st r (out st').
Proof. intros H. exists 1%nat, st'. split; [|done]. intros fuel. simpl. by rewrite H. Qed.

Lemma returns_path l st l1 st1 r evs :
  reaches l st l1 st1 -> returns l1 st1 r evs -> returns l st r evs.
Proof.
  intros [n Hn] (m & st' & Hm & Ho). exists (n + m)%nat, st'. split; [|done].
  intros fuel. by rewrite <- Nat.add_assoc, Hn, Hm.
Qed.

(** ** The stacks of a configuration *)

(** The state after shifting an operator, and after an expression. *)
Definition op_state (o : binop) : Z :=
  match o with OpSub => 11 | OpAdd => 12 | OpMul => 13 | OpDiv => 14 | OpPow => 15 end.

Definition ctx_state (k : list (frame V)) : Z :=
  match k with [] => 1 | FNeg :: _ => 4 | FParen :: _ => 6 | FBin _ o :: _ => op_state o end.

Definition exp_state (k : list (frame V)) : Z :=
  match k with
  | [] => 8
  | FNeg :: _ => 9
  | FParen :: _ => 10
  | FBin _ o :: _ => 7 + op_state o
  end.

(** The rule that completes the pending production. *)
Definition op_rule (o : binop) : Z :=
  match o with OpSub => 8 | OpAdd => 7 | OpMul => 9 | OpDiv => 10 | OpPow => 11 end.

Fixpoint ctx_below (k : list (frame V)) : list Z :=
  match k with
  | [] => [0]
  | FBin _ _ :: k' => exp_state k' :: ctx_state k' :: ctx_below k'
  | _ :: k' => ctx_state k' :: ctx_below k'
  end.

Definition cfg_top (c : config V) : Z :=
  match c with
  | CInit => 0
  | COperand k => ctx_state k
  | CNum _ _ => 3
  | CExp k _ => exp_state k
  | CClose _ _ => 17
  | CNl => 5
  | CExpNl _ => 16
  | CLine => 7
  end.

Definition cfg_below (c : config V) : list Z :=
  match c with
  | CInit => []
  | COperand k => ctx_below k
  | CNum k _ | CExp k _ => ctx_state k :: ctx_below k
  | CClose k _ => 10 :: 6 :: ctx_state k :: ctx_below k
  | CNl | CLine => [1; 0]
  | CExpNl _ => [8; 1; 0]
  end.

(** The values of the stack that later actions use. *)
Fixpoint ctx_vals (k : list (frame V)) : list (option V) :=
  match k with
  | [] => [None; None]
  | FBin e _ :: k' => None :: Some (eval e) :: ctx_vals k'
  | _ :: k' => None :: ctx_vals k'
  end.

Definition cfg_vals (c : config V) : list (option V) :=
  match c with
  | CInit => [None]
  | COperand k => ctx_vals k
  | CNum k v => Some v :: ctx_vals k
  | CExp k e => Some (eval e) :: ctx_vals k
  | CClose k e => None :: Some (eval e) :: None :: ctx_vals k
  | CNl | CLine => None :: ctx_vals []
  | CExpNl e => None :: Some (eval e) :: ctx_vals []
  end.

Definition val_ok (o : option V) (v : V) : Prop := from_option (fun x => v = x) True o.

Definition out_of (ls : list (line V)) : list (event V) := map Value (lines_values ls).

(** [st] with the state stack [ss] represents the configuration. *)
Record R (c : config V) (ls : list (line V)) (rest : list (tok V)) (ss : list Z) (st : pstate) : Prop := {
  R_state : yystate st = cfg_top c;
  R_stack : ss = cfg_top c :: cfg_below c;
  R_vals : Forall2 val_ok (cfg_vals c) (yyvs st);
  R_out : out st = out_of ls;
  R_err : yyerrstatus st = 0;
  R_size : YYINITDEPTH <= yystacksize st <= YYMAXDEPTH;
  R_la : la_ok st rest
}.

Lemma ctx_below_depth k : Z.of_nat (length (ctx_state k :: ctx_below k)) = ctx_depth k.
Proof. induction k as [|[| |e o] k IH]; cbn [ctx_below ctx_depth length] in *; lia. Qed.

Lemma ctx_vals_depth k : Z.of_nat (length (ctx_vals k)) = ctx_depth k.
Proof. induction k as [|[| |e o] k IH]; cbn [ctx_vals ctx_depth length] in *; lia. Qed.

(** The stacks have the same depth. *)
Lemma vals_depth c ls rest ss st : R c ls rest ss st -> length (yyvs st) = length ss.
Proof.
  intros [_ -> Hv _ _ _ _]. apply Forall2_length in Hv. rewrite <- Hv. apply Nat2Z.inj.
  destruct c as [|k|k v|k e|k e| |e|]; cbn [cfg_below cfg_top cfg_vals length]; try done;
    pose proof (ctx_below_depth k); pose proof (ctx_vals_depth k); cbn [length] in *; lia.
Qed.

Lemma stack_push_ok {A} (st : pstate) (x : A) l : Z.of_nat (length l) < yystacksize st -> push st x l = Some (x :: l).
Proof. intros Hl. unfold push. by rewrite (proj2 (Z.ltb_lt _ _)). Qed.

Lemma cfg_depth c : Z.of_nat (length (cfg_top c :: cfg_below c)) = depth c.
Proof.
  destruct c as [|k|k v|k e|k e| |e|]; cbn [cfg_below depth length]; try lia;
    pose proof (ctx_below_depth k); cbn [length] in *; lia.
Qed.

(** ** Pushing a state *)

Lemma push_backup c ls rest st :
  R c ls rest (yystate st :: yyss st) st -> depth c < YYMAXDEPTH ->
  Z.of_nat (length (yyss st)) < yystacksize st ->
  exists st', reaches Lnewstate st Lbackup st' /\ R c ls rest (yyss st') st'
              /\ Z.of_nat (length (yyss st')) < yystacksize st'.
Proof.
  intros H Hd Hl. destruct H as [Hs Hss Hv Ho He Hz Hla].
  assert (Z.of_nat (S (length (yyss st))) = depth c) as Hdep.
  { rewrite <- cfg_depth, <- Hss. done. }
  assert (yystate st <> YYFINAL) as Hnf.
  { rewrite Hs. by destruct c as [|[|[| |? []] ?]| |[|[| |? []] ?]| | | |]. }
  set (st1 := with_stacks st (yystate st) (yystate st :: yyss st) (yyvs st)).
  assert (reaches Lnewstate st Lsetstate st1) as Hn by (apply reaches_one; simpl; unfold yynewstate; by rewrite stack_push_ok).
  unfold YYMAXDEPTH, YYINITDEPTH in *.
  destruct (Z_lt_ge_dec (Z.of_nat (length (yyss st)) + 1) (yystacksize st)) as [Hfit|Hfull].
  - exists st1. split_and!; [|done|cbn [st1 yyss with_stacks yystacksize length]; lia].
    eapply reaches_trans; [done|]. apply reaches_one. simpl. unfold yysetstate.
    cbn [st1 yyss with_stacks yystacksize length yystate].
    rewrite (proj2 (Z.leb_gt _ _)) by lia. by rewrite (proj2 (Z.eqb_neq _ _)).
  - set (size := if 10000 <? yystacksize st * 2 then 10000 else yystacksize st * 2).
    assert (yystacksize st < size <= 10000) as Hsize by (unfold size; case_bool; lia).
    exists (with_stacksize st1 size).
    split_and!; [|split; cbn [st1 with_stacksize with_stacks yystate yyss yyvs yyerrstatus
        yystacksize out]; [done|done|done|done|done|unfold YYINITDEPTH, YYMAXDEPTH; lia|done]
      |cbn [st1 with_stacksize with_stacks yyss yystacksize length]; lia].
    eapply reaches_trans; [done|]. apply reaches_one. simpl. unfold yysetstate, YYMAXDEPTH.
    cbn [st1 yyss with_stacks yystacksize length yystate].
    rewrite (proj2 (Z.leb_le _ _)), (proj2 (Z.leb_gt _ _)) by lia. fold size.
    rewrite alloc_ok by (unfold YYMAXDEPTH; lia). rewrite (proj2 (Z.leb_gt _ _)) by lia.
    cbn [with_stacksize yystate]. by rewrite (proj2 (Z.eqb_neq _ _)).
Qed.

Lemma push_exhausted c ls rest st :
  R c ls rest (yystate st :: yyss st) st -> YYMAXDEPTH <= depth c ->
  Z.of_nat (length (yyss st)) < yystacksize st ->
  returns Lnewstate st 2 (out_of ls ++ [ErrorMsg "memory exhausted"]).
Proof.
  intros H Hd Hl. destruct H as [Hs Hss Hv Ho He Hz Hla].
  assert (Z.of_nat (S (length (yyss st))) = depth c) as Hdep.
  { rewrite <- cfg_depth, <- Hss. done. }
  unfold YYMAXDEPTH, YYINITDEPTH in *. rewrite <- Ho.
  set (st1 := with_stacks st (yystate st) (yystate st :: yyss st) (yyvs st)).
  eapply returns_path; [apply (reaches_one _ _ Lsetstate st1); simpl; unfold yynewstate; by rewrite stack_push_ok|].
  eapply returns_path; [apply (reaches_one _ _ Lexhausted st1)|].
  - simpl. unfold yysetstate, YYMAXDEPTH. cbn [st1 yyss with_stacks yystacksize length].
    by rewrite (proj2 (Z.leb_le _ _)), (proj2 (Z.leb_le _ _)) by lia.
  - by apply (returns_one Lexhausted st1 2 (emit st1 [ErrorMsg "memory exhausted"])).
Qed.

(** ** Decisions of [yybackup] *)

(** The internal number of the next token. *)
Definition itok (rest : list (tok V)) : option Z :=
  match rest with
  | [] => Some 0
  | TNum _ :: _ => Some 3
  | TCh d :: _ => YYTRANSLATE d
  end.

Inductive act := ADefault | AShift (n : Z) | AReduce (n : Z).

(** The entry of the packed table for a state and a token. *)
Definition action (s t : Z) : option act :=
  yyn ← aget yypact s;
  if yypact_value_is_default yyn then Some ADefault
  else
    let yyn := yyn + t in
    if (yyn <? 0) || (YYLAST <? yyn) then Some ADefault
    else
      chk ← aget yycheck yyn;
      if negb (chk =? t) then Some ADefault
      else a ← aget yytable yyn; Some (if a <=? 0 then AReduce (- a) else AShift a).

(** [st'] is [st] up to the lookahead token. *)
Record same_but_la (st st' : pstate) : Prop := {
  same_state : yystate st' = yystate st;
  same_err : yyerrstatus st' = yyerrstatus st;
  same_ss : yyss st' = yyss st;
  same_vs : yyvs st' = yyvs st;
  same_size : yystacksize st' = yystacksize st;
  same_out : out st' = out st
}.

Lemma same_but_la_refl st : same_but_la st st.
Proof. done. Qed.

(** Both results of a decision, the lookahead read where it is needed. *)
Definition decide_label (a : act) (st : pstate) : option (outcome V L) :=
  match a with
  | ADefault => Some (Goto Ldefault st)
  | AReduce n => Some (Goto (Lreduce n) st)
  | AShift n => shift_token st n
  end.

Lemma tok_is_pos t c v : tok_is t c v -> 0 < c < 2 ^ 31.
Proof. destruct t; simpl; [intros [-> _]; unfold NUM; lia|intuition lia]. Qed.

Lemma tok_is_itok t c v r : tok_is t c v -> YYTRANSLATE c = itok (t :: r).
Proof. destruct t; simpl; [intros [-> _]; by vm_compute|by intros [-> _]]. Qed.

Lemma lookahead_ok st rest t :
  la_ok st rest -> itok rest = Some t ->
  exists st', lookahead st = Some (t, st') /\ same_but_la st st' /\ la_read st' rest.
Proof.
  intros Hla Ht.
  assert (exists st1, (if yychar st =? YYEMPTY then read_token st else st) = st1
            /\ same_but_la st st1
            /\ la_read (if yychar st1 <=? YYEOF then with_char st1 YYEOF else st1) rest
            /\ (rest = [] <-> yychar st1 <= YYEOF)) as (st1 & E1 & Hsame & Hr & Hend).
  { destruct Hla as [[He Hp]|Hr].
    - exists (read_token st). rewrite He, Z.eqb_refl. split; [done|]. unfold read_token.
      inversion Hp as [? ? c v' l' Hl Hc|? ? c v' l' tk ts Hl Hc Hts]; subst; rewrite Hl;
        cbn [yychar]; (split; [done|]).
      + by rewrite (proj2 (Z.leb_le _ _) Hc).
      + pose proof (tok_is_pos _ _ _ Hc). unfold YYEOF. rewrite (proj2 (Z.leb_gt _ _)) by lia.
        split; [done|]. split; [done|lia].
    - exists st. destruct rest as [|tk r].
      + simpl in Hr. rewrite Hr. done.
      + pose proof Hr as [Hc _]. pose proof (tok_is_pos _ _ _ Hc). unfold YYEMPTY, YYEOF.
        rewrite (proj2 (Z.eqb_neq _ _)), (proj2 (Z.leb_gt _ _)) by lia.
        split_and!; [done|done|done|]. split; [done|lia]. }
  unfold lookahead. rewrite E1. destruct (Z.leb_spec (yychar st1) YYEOF) as [Hle|Hgt].
  - rewrite (proj2 Hend) in * by done. simpl in Ht. simplify_eq.
    eexists. split_and!; [done| |done]. by destruct Hsame.
  - destruct rest as [|tk r]; [pose proof (proj1 Hend eq_refl); lia|].
    exists st1. split_and!; [|done|done]. destruct Hr as [Hc _].
    by rewrite (tok_is_itok _ _ _ r Hc), Ht.
Qed.

Lemma backup_lookup st rest a t :
  la_ok st rest -> itok rest = Some t -> action (yystate st) t = Some a ->
  yypact_value_is_default (default 0 (aget yypact (yystate st))) = false ->
  exists st', same_but_la st st' /\ la_read st' rest /\ yybackup st = decide_label a st'.
Proof.
  intros Hla Ht Ha Hd. destruct (lookahead_ok st rest t Hla Ht) as (st' & E & Hs & Hr).
  exists st'. split_and!; [done|done|]. unfold yybackup, action in *.
  destruct (aget yypact (yystate st)) as [n|]; [|done]. simpl in *. rewrite Hd in *.
  rewrite E. simpl. destruct ((n + t <? 0) || (YYLAST <? n + t)); [by simplify_eq|].
  destruct (aget yycheck (n + t)) as [chk|]; [|done]. simpl in *.
  destruct (negb (chk =? t)); [by simplify_eq|].
  destruct (aget yytable (n + t)) as [b|]; [|done]. simpl in *. simplify_eq.
  by destruct (b <=? 0).
Qed.

(** ** Shifting, reducing, failing *)

Lemma translate_other d :
  0 < d < 2 ^ 31 -> d <> NUM -> op_of_char d = None -> d <> ch_lpar -> d <> ch_rpar -> d <> ch_nl ->
  YYTRANSLATE d = Some 1 \/ YYTRANSLATE d = Some 2 \/ YYTRANSLATE d = Some 8.
Proof.
  unfold YYTRANSLATE, YYMAXUTOK. intros Hd Hn Ho H1 H2 H3.
  rewrite wrap_u_small by lia. destruct (Z.leb_spec d 259) as [Hle|Hgt]; [|by auto].
  pose proof (zrange_forallb 1 259 (fun z =>
    (z =? NUM) || (z =? ch_lpar) || (z =? ch_rpar) || (z =? ch_nl)
    || match op_of_char z with Some _ => true | None => false end
    || match aget yytranslate z with
       | Some t => (t =? 1) || (t =? 2) || (t =? 8) | None => false end)
    ltac:(vm_compute; reflexivity) d ltac:(lia)) as Hall.
  cbv beta in Hall. rewrite Ho in Hall.
  rewrite !(proj2 (Z.eqb_neq d _)) in Hall by done. cbn [orb] in Hall.
  destruct (aget yytranslate d) as [t|]; [|done].
  case_bool; subst; auto; done.
Qed.

Lemma shift_step st t r i m :
  la_ok st (t :: r) -> itok (t :: r) = Some i -> action (yystate st) i = Some (AShift m) ->
  yypact_value_is_default (default 0 (aget yypact (yystate st))) = false ->
  yyerrstatus st = 0 -> Z.of_nat (length (yyvs st)) < yystacksize st ->
  exists st0, reaches Lbackup st Lnewstate st0 /\ yystate st0 = m /\ yyss st0 = yyss st
    /\ (exists v, yyvs st0 = v :: yyvs st /\ forall x, t = TNum x -> v = x)
    /\ la_ok st0 r /\ yyerrstatus st0 = 0 /\ yystacksize st0 = yystacksize st /\ out st0 = out st.
Proof.
  intros Hla Ht Ha Hd He Hl. destruct (backup_lookup st _ _ _ Hla Ht Ha Hd) as (st' & Hs & [Hc Hp] & E).
  destruct Hs as [S1 S2 S3 S4 S5 S6].
  eexists. split; [apply reaches_one; simpl; rewrite E; simpl; unfold shift_token; rewrite stack_push_ok by (cbn; congruence); reflexivity|].
  cbn. rewrite S2, S3, S4, S5, S6, He. split_and!; try done.
  - eexists. split; [done|]. intros x ->. by destruct Hc.
  - by left.
Qed.

Lemma default_step (st : pstate) s n st0 :
  yystate st = s -> aget yypact s = Some YYPACT_NINF -> aget yydefact s = Some n -> n <> 0 ->
  yyreduce junk n st = Some (Goto Lnewstate st0) -> reaches Lbackup st Lnewstate st0.
Proof.
  intros Hs Hp Hd Hn Hr. eapply reaches_step with (l1 := Ldefault) (st1 := st).
  { simpl. unfold yybackup. by rewrite Hs, Hp. }
  eapply reaches_step with (l1 := Lreduce n) (st1 := st).
  { simpl. unfold yydefault. rewrite Hs, Hd. simpl. by rewrite (proj2 (Z.eqb_neq _ _)). }
  by apply reaches_one.
Qed.

Lemma lookup_default st rest i :
  la_ok st rest -> itok rest = Some i -> action (yystate st) i = Some ADefault ->
  yypact_value_is_default (default 0 (aget yypact (yystate st))) = false ->
  exists st', reaches Lbackup st Ldefault st' /\ same_but_la st st' /\ la_ok st' rest.
Proof.
  intros Hla Ht Ha Hd. destruct (backup_lookup st _ _ _ Hla Ht Ha Hd) as (st' & Hs & Hr & E).
  exists st'. split_and!; [by apply reaches_one|done|by right].
Qed.

Lemma yyreduce_eq (st : pstate) n m pre top below d v evs target :
  aget yyr2 n = Some (Z.of_nat m) -> yyss st = pre ++ top :: below -> length pre = m ->
  match m with O => d = junk | S p => yyvs st !! p = Some d end ->
  yyaction n (yyvs st) d = Some (v, evs) -> goto_state n top = Some target ->
  Z.of_nat (length (yyvs st)) < yystacksize st ->
  yyreduce junk n st =
    Some (Goto Lnewstate (emit (with_stacks st target (top :: below) (v :: drop m (yyvs st))) evs)).
Proof.
  intros Hr Hss Hl Hd Ha Hg Hsz. unfold yyreduce. rewrite Hr. simpl. rewrite Nat2Z.id.
  assert ((if Z.of_nat m =? 0 then Some junk else yyvs st !! (m - 1)%nat) = Some d) as ->.
  { destruct m as [|p]; [by rewrite Hd|]. rewrite (proj2 (Z.eqb_neq _ _)) by lia.
    by replace (S p - 1)%nat with p by lia. }
  simpl. rewrite Ha. simpl. rewrite Hss, <- Hl, drop_app_length. simpl. rewrite Hg. simpl. rewrite stack_push_ok by (rewrite length_drop; lia). by rewrite Hl.
Qed.

(** In every state the error token has no transition: the stack is unwound. *)
Lemma error_shift_none s : 0 <= s < YYNSTATES -> error_shift s = Some None.
Proof.
  intros Hs. pose proof (zrange_forallb 0 23 (fun z =>
    match error_shift z with Some None => true | _ => false end)
    ltac:(vm_compute; reflexivity) s Hs) as H.
  simpl in H. destruct (error_shift s) as [[?|]|]; done.
Qed.

Lemma errpop_returns (st : pstate) s ss :
  yystate st = s -> yyss st = s :: ss -> Forall (fun z => 0 <= z < YYNSTATES) (s :: ss) ->
  returns Lerrpop st 1 (out st).
Proof.
  revert st s. induction ss as [|s' ss IH]; intros st s Hst Hss Hall;
    inversion Hall as [|? ? Hs Hall']; subst.
  - eapply returns_path; [apply (reaches_one _ _ Labort st)|by apply (returns_one Labort st)].
    simpl. unfold yyerrpop. rewrite error_shift_none by done. simpl. by rewrite Hss.
  - set (st1 := with_stacks st s' (s' :: ss) (tail (yyvs st))).
    eapply returns_path; [apply (reaches_one _ _ Lerrpop st1)|].
    + simpl. unfold yyerrpop. rewrite error_shift_none by done. simpl. by rewrite Hss.
    + by apply (IH st1 s').
Qed.

Lemma error_returns (st : pstate) s ss :
  yystate st = s -> yyss st = s :: ss -> Forall (fun z => 0 <= z < YYNSTATES) (s :: ss) ->
  yyerrstatus st = 0 -> aget yydefact s = Some 0 ->
  returns Ldefault st 1 (out st ++ [ErrorMsg "syntax error"]).
Proof.
  intros Hst Hss Hall He Hd.
  set (st1 := emit (with_errors st (yyerrstatus st) (yynerrs st + 1)) [ErrorMsg "syntax error"]).
  set (st2 := with_errors st1 3 (yynerrs st1)).
  eapply returns_path; [apply (reaches_one _ _ Lerrlab st)|].
  { simpl. unfold yydefault. by rewrite Hst, Hd. }
  eapply returns_path; [apply (reaches_one _ _ Lerrlab1 st1)|].
  { simpl. unfold yyerrlab. rewrite He, Z.eqb_refl. cbn [yyerrstatus emit with_errors].
    unfold st1. by rewrite He. }
  eapply returns_path; [by apply (reaches_one _ _ Lerrpop st2)|].
  by apply (errpop_returns st2 s ss).
Qed.

Lemma exp_state_range k : 0 <= exp_state k < YYNSTATES.
Proof. unfold YYNSTATES. destruct k as [|[| |e []] k]; simpl; lia. Qed.

Lemma ctx_state_range k : 0 <= ctx_state k < YYNSTATES.
Proof. unfold YYNSTATES. destruct k as [|[| |e []] k]; simpl; lia. Qed.

Lemma ctx_states_range k : Forall (fun z => 0 <= z < YYNSTATES) (ctx_state k :: ctx_below k).
Proof.
  pose proof (exp_state_range) as He. pose proof (ctx_state_range) as Hc.
  induction k as [|[| |e o] k IH]; constructor; try done; cbn [ctx_below]; [|done..|by constructor].
  repeat (constructor; [done|]). constructor.
Qed.

Lemma goto_exp k n : 6 <= n < 14 -> goto_state n (ctx_state k) = Some (exp_state k).
Proof.
  intros Hn. pose proof (zrange_forallb 6 8 (fun n =>
    forallb (fun k => match goto_state n (ctx_state k) with
                      | Some g => g =? exp_state k | None => false end)
      ([] :: [FNeg] :: [FParen] :: map (fun o => [FBin (Num junk) o]) [OpSub; OpAdd; OpMul; OpDiv; OpPow]))
    ltac:(vm_compute; reflexivity) n ltac:(lia)) as H.
  cbn [forallb map] in H. repeat (apply andb_prop in H as [?H H]).
  destruct k as [|[| |e []] k]; cbn [ctx_state exp_state] in *;
    match goal with |- ?g = _ => destruct g; [|done] end; f_equal; by apply Z.eqb_eq.
Qed.

(** ** Steps of the machine *)

(** The parser pushes a state that represents [c']. *)
Definition pushes (l : label) (st : pstate) (c' : config V) (ls' : list (line V)) (rest' : list (tok V)) : Prop :=
  exists st0, reaches l st Lnewstate st0 /\ R c' ls' rest' (yystate st0 :: yyss st0) st0
              /\ Z.of_nat (length (yyss st0)) < yystacksize st0.

Lemma pushes_path l st l1 st1 c' ls' rest' :
  reaches l st l1 st1 -> pushes l1 st1 c' ls' rest' -> pushes l st c' ls' rest'.
Proof. intros H (st0 & H0 & HR). exists st0. split; [by eapply reaches_trans|done]. Qed.

Definition pact_default (s : Z) : bool :=
  yypact_value_is_default (default 0 (aget yypact s)).

Lemma R_same c ls rest rest' ss st st' :
  R c ls rest ss st -> same_but_la st st' -> la_ok st' rest' -> R c ls rest' ss st'.
Proof.
  intros [H1 H2 H3 H4 H5 H6 _] [S1 S2 S3 S4 S5 S6] Hla. split; try done; congruence.
Qed.

Lemma shift_pushes c ls t r st c' o i :
  R c ls (t :: r) (yyss st) st -> Z.of_nat (length (yyss st)) < yystacksize st ->
  itok (t :: r) = Some i -> action (cfg_top c) i = Some (AShift (cfg_top c')) ->
  pact_default (cfg_top c) = false ->
  cfg_below c' = cfg_top c :: cfg_below c -> cfg_vals c' = o :: cfg_vals c ->
  (forall v, (forall x, t = TNum x -> v = x) -> val_ok o v) ->
  pushes Lbackup st c' ls r.
Proof.
  intros HR Hl Hi Ha Hd Hb Hv Ho. pose proof (vals_depth _ _ _ _ _ HR) as Hvd.
  destruct HR as [H1 H2 H3 H4 H5 H6 H7]. rewrite <- H1 in Ha, Hd.
  destruct (shift_step st t r i _ H7 Hi Ha Hd H5 ltac:(rewrite Hvd; exact Hl))
    as (st0 & Hr & E1 & E2 & (v & E3 & E4) & E5 & E6 & E7 & E8).
  exists st0. split; [done|]. split; [|by rewrite E2, E7]. split; try congruence.
  rewrite E3, Hv. constructor; [by apply Ho|done].
Qed.

(** A reduction by rule [n] replaces [m] entries. *)
Lemma reduce_pushes c ls rest st c' ls' n m :
  R c ls rest (yyss st) st -> Z.of_nat (length (yyss st)) < yystacksize st ->
  aget yyr2 n = Some (Z.of_nat m) ->
  drop m (cfg_top c :: cfg_below c) = cfg_below c' ->
  (exists top below, cfg_below c' = top :: below /\ goto_state n top = Some (cfg_top c')) ->
  (forall vs, Forall2 val_ok (cfg_vals c) vs -> exists d v evs,
     match m with O => d = junk | S p => vs !! p = Some d end
     /\ yyaction n vs d = Some (v, evs)
     /\ Forall2 val_ok (cfg_vals c') (v :: drop m vs)
     /\ out_of ls' = out_of ls ++ evs) ->
  exists st0, yyreduce junk n st = Some (Goto Lnewstate st0)
    /\ R c' ls' rest (yystate st0 :: yyss st0) st0
    /\ Z.of_nat (length (yyss st0)) < yystacksize st0.
Proof.
  intros HR Hl Hr2 Hdrop (top & below & Hb & Hg) Hact. pose proof (vals_depth _ _ _ _ _ HR) as Hvd.
  destruct HR as [H1 H2 H3 H4 H5 H6 H7].
  destruct (Hact _ H3) as (d & v & evs & Hd & Ha & Hv & Ho).
  rewrite Hb in Hdrop. rewrite <- H2 in Hdrop.
  assert (m <= length (yyss st))%nat as Hm.
  { destruct (Nat.le_gt_cases m (length (yyss st))); [done|].
    by rewrite drop_ge in Hdrop by lia. }
  eexists. split.
  - eapply (yyreduce_eq st n m (take m (yyss st)) top below);
      [done| |by apply length_take_le|done|done|done|by rewrite Hvd].
    by rewrite <- Hdrop, take_drop.
  - split.
    + split; cbn; try done; [by rewrite Hb|by rewrite H4, Ho].
    + pose proof (length_drop (yyss st) m) as Hlen. rewrite Hdrop in Hlen. cbn in *. lia.
Qed.

Lemma default_pushes c ls rest st c' ls' n m :
  R c ls rest (yyss st) st -> Z.of_nat (length (yyss st)) < yystacksize st ->
  aget yypact (cfg_top c) = Some YYPACT_NINF -> aget yydefact (cfg_top c) = Some n -> n <> 0 ->
  aget yyr2 n = Some (Z.of_nat m) ->
  drop m (cfg_top c :: cfg_below c) = cfg_below c' ->
  (exists top below, cfg_below c' = top :: below /\ goto_state n top = Some (cfg_top c')) ->
  (forall vs, Forall2 val_ok (cfg_vals c) vs -> exists d v evs,
     match m with O => d = junk | S p => vs !! p = Some d end
     /\ yyaction n vs d = Some (v, evs)
     /\ Forall2 val_ok (cfg_vals c') (v :: drop m vs)
     /\ out_of ls' = out_of ls ++ evs) ->
  pushes Lbackup st c' ls' rest.
Proof.
  intros HR Hl Hp Hd Hn Hr2 Hdrop Hg Hact.
  destruct (reduce_pushes c ls rest st c' ls' n m) as (st0 & E & HR' & Hl'); try done.
  exists st0. split; [|done]. destruct HR as [H1 _ _ _ _ _ _].
  eapply default_step; [done| | |done|done]; by rewrite ?H1.
Qed.

(** The pending operator is reduced when the lookahead is not shifted. *)
Lemma lookahead_pushes c ls rest st c' ls' n m i :
  R c ls rest (yyss st) st -> Z.of_nat (length (yyss st)) < yystacksize st ->
  itok rest = Some i -> action (cfg_top c) i = Some ADefault ->
  pact_default (cfg_top c) = false -> aget yydefact (cfg_top c) = Some n -> n <> 0 ->
  aget yyr2 n = Some (Z.of_nat m) ->
  drop m (cfg_top c :: cfg_below c) = cfg_below c' ->
  (exists top below, cfg_below c' = top :: below /\ goto_state n top = Some (cfg_top c')) ->
  (forall vs, Forall2 val_ok (cfg_vals c) vs -> exists d v evs,
     match m with O => d = junk | S p => vs !! p = Some d end
     /\ yyaction n vs d = Some (v, evs)
     /\ Forall2 val_ok (cfg_vals c') (v :: drop m vs)
     /\ out_of ls' = out_of ls ++ evs) ->
  pushes Lbackup st c' ls' rest.
Proof.
  intros HR Hl Hi Ha Hp Hd Hn Hr2 Hdrop Hg Hact. pose proof HR as [H1 _ _ _ _ _ H7].
  rewrite <- H1 in Ha, Hp.
  destruct (lookup_default st rest i H7 Hi Ha Hp) as (st1 & Hr & Hs & Hla).
  pose proof (R_same _ _ _ _ _ _ _ HR Hs Hla) as HR1. pose proof Hs as [S1 _ S3 _ S5 _].
  rewrite <- S3 in HR1.
  destruct (reduce_pushes c ls rest st1 c' ls' n m) as (st0 & E & HR' & Hl'); try done.
  { by rewrite S3, S5. }
  exists st0. split; [|done]. eapply reaches_trans; [done|].
  eapply reaches_step with (l1 := Lreduce n) (st1 := st1); [|by apply reaches_one].
  simpl. unfold yydefault. rewrite S1, H1, Hd. simpl. by rewrite (proj2 (Z.eqb_neq _ _)).
Qed.

Lemma lookahead_fails c ls rest st i :
  R c ls rest (yyss st) st -> itok rest = Some i -> action (cfg_top c) i = Some ADefault ->
  pact_default (cfg_top c) = false -> aget yydefact (cfg_top c) = Some 0 ->
  Forall (fun z => 0 <= z < YYNSTATES) (cfg_top c :: cfg_below c) ->
  returns Lbackup st 1 (out_of ls ++ [ErrorMsg "syntax error"]).
Proof.
  intros [H1 H2 H3 H4 H5 H6 H7] Hi Ha Hp Hd Hall. rewrite <- H1 in Ha, Hp.
  destruct (lookup_default st rest i H7 Hi Ha Hp) as (st1 & Hr & [S1 S2 S3 S4 S5 S6] & Hla).
  eapply returns_path; [done|]. rewrite <- H4, <- S6.
  apply (error_returns st1 (cfg_top c) (cfg_below c)); [by rewrite S1, H1|by rewrite S3, H2|done|congruence|done].
Qed.

Lemma out_of_snoc ls l : out_of (ls ++ [l]) = out_of ls ++ map Value (line_values l).
Proof.
  unfold out_of, lines_values. by rewrite map_app, concat_app, map_app; simpl; rewrite app_nil_r.
Qed.

Ltac solve_action :=
  let vs := fresh "vs" in let Hvs := fresh "Hvs" in
  intros vs Hvs; cbn [cfg_vals ctx_vals] in Hvs;
  repeat match goal with
  | H : Forall2 val_ok (_ :: _) _ |- _ => apply Forall2_cons_inv_l in H as (? & ? & ? & H & ->)
  end;
  unfold val_ok in *; cbn [from_option] in *; subst;
  do 3 eexists; split_and!; [reflexivity|reflexivity| |];
  [cbn; repeat (constructor; [done|]); done
  |rewrite ?out_of_snoc; cbn [map line_values]; by rewrite ?app_nil_r].

Ltac solve_goto :=
  do 2 eexists; split; [reflexivity|]; first [by vm_compute|apply goto_exp; cbn; lia].

Ltac solve_reduction := first [done | solve_goto | solve_action].

Lemma step_init ls rest st :
  R CInit ls rest (yyss st) st -> Z.of_nat (length (yyss st)) < yystacksize st ->
  pushes Lbackup st (COperand []) ls rest.
Proof.
  intros HR Hl. apply (default_pushes _ _ _ _ (COperand []) ls 2 0 HR Hl); solve_reduction.
Qed.

Lemma step_num k v ls rest st :
  R (CNum k v) ls rest (yyss st) st -> Z.of_nat (length (yyss st)) < yystacksize st ->
  pushes Lbackup st (CExp k (Num v)) ls rest.
Proof.
  intros HR Hl. apply (default_pushes _ _ _ _ (CExp k (Num v)) ls 6 1 HR Hl); solve_reduction.
Qed.

Lemma step_close k e ls rest st :
  R (CClose k e) ls rest (yyss st) st -> Z.of_nat (length (yyss st)) < yystacksize st ->
  pushes Lbackup st (CExp k (Paren e)) ls rest.
Proof.
  intros HR Hl. apply (default_pushes _ _ _ _ (CExp k (Paren e)) ls 13 3 HR Hl); solve_reduction.
Qed.

Lemma step_nl ls rest st :
  R CNl ls rest (yyss st) st -> Z.of_nat (length (yyss st)) < yystacksize st ->
  pushes Lbackup st CLine (ls ++ [LEmpty]) rest.
Proof.
  intros HR Hl. apply (default_pushes _ _ _ _ CLine (ls ++ [LEmpty]) 4 1 HR Hl); solve_reduction.
Qed.

Lemma step_exp_nl e ls rest st :
  R (CExpNl e) ls rest (yyss st) st -> Z.of_nat (length (yyss st)) < yystacksize st ->
  pushes Lbackup st CLine (ls ++ [LExp e]) rest.
Proof.
  intros HR Hl. apply (default_pushes _ _ _ _ CLine (ls ++ [LExp e]) 5 2 HR Hl); solve_reduction.
Qed.

Lemma step_line ls rest st :
  R CLine ls rest (yyss st) st -> Z.of_nat (length (yyss st)) < yystacksize st ->
  pushes Lbackup st (COperand []) ls rest.
Proof.
  intros HR Hl. apply (default_pushes _ _ _ _ (COperand []) ls 3 2 HR Hl); solve_reduction.
Qed.

(** A pending operator is completed on a token that has no transition. *)
Lemma step_reduce k e c' ls rest st i :
  R (CExp k e) ls rest (yyss st) st -> Z.of_nat (length (yyss st)) < yystacksize st ->
  reduce_exp k e = Some c' -> itok rest = Some i ->
  action (exp_state k) i = Some ADefault ->
  pushes Lbackup st c' ls rest.
Proof.
  intros HR Hl Hr Hi Ha. destruct k as [|[| |a o] k]; simpl in Hr; simplify_eq.
  - apply (lookahead_pushes _ _ _ _ (CExp k (Neg e)) ls 12 2 i HR Hl); solve_reduction.
  - apply (lookahead_pushes _ _ _ _ (CExp k (Bin o a e)) ls (op_rule o) 3 i HR Hl); destruct o; solve_reduction.
Qed.

(** What the tables do after an expression. *)
Definition op_tok (o : binop) : Z :=
  match o with OpSub => 4 | OpAdd => 5 | OpMul => 6 | OpDiv => 7 | OpPow => 9 end.

Lemma itok_op o r : itok (TCh (op_char o) :: r) = Some (op_tok o).
Proof. by destruct o. Qed.

Lemma exp_action_op k o :
  action (exp_state k) (op_tok o) =
    Some (if shifts_in k o then AShift (op_state o) else ADefault).
Proof. by destruct k as [|[| |e []] k], o. Qed.

Lemma exp_action_other k i :
  In i [0; 1; 2; 3; 8; 10; 11; 12] ->
  action (exp_state k) i =
    Some (match k with
          | [] => if i =? 10 then AShift 16 else ADefault
          | FParen :: _ => if i =? 12 then AShift 17 else ADefault
          | _ => ADefault
          end).
Proof.
  intros Hi. simpl in Hi.
  repeat (destruct Hi as [<-|Hi]; [by destruct k as [|[| |e []] k]|]). done.
Qed.

Lemma exp_fails k e ls rest st i :
  R (CExp k e) ls rest (yyss st) st -> reduce_exp k e = None ->
  itok rest = Some i -> action (exp_state k) i = Some ADefault ->
  returns Lbackup st 1 (out_of ls ++ [ErrorMsg "syntax error"]).
Proof.
  intros HR Hr Hi Ha. eapply (lookahead_fails (CExp k e)); [done|done|done| | |].
  - by destruct k as [|[| |? []] k].
  - by destruct k as [|[| |? o] k].
  - constructor; [apply exp_state_range|apply ctx_states_range].
Qed.

Ltac solve_itok :=
    split_and!; first [done | by simpl; auto 10 | by eauto | split; first [done | by eauto | by intros [? ?]; simplify_eq]].

(** A token that is no operator has one of these internal numbers. *)
Lemma itok_other (rest : list (tok V)) :
  (forall d r, rest = TCh d :: r -> 0 < d < 2 ^ 31 /\ d <> NUM /\ op_of_char d = None) ->
  exists i, itok rest = Some i /\ In i [0; 1; 2; 3; 8; 10; 11; 12]
    /\ (i = 10 <-> exists r, rest = TCh ch_nl :: r)
    /\ (i = 12 <-> exists r, rest = TCh ch_rpar :: r).
Proof.
  intros H. destruct rest as [|[v|d] r]; [exists 0; solve_itok|exists 3; solve_itok|].
  destruct (H d r eq_refl) as (Hd & Hn & Ho).
  destruct (Z.eq_dec d ch_nl) as [->|H1]; [exists 10; solve_itok|].
  destruct (Z.eq_dec d ch_rpar) as [->|H2]; [exists 12; solve_itok|].
  destruct (Z.eq_dec d ch_lpar) as [->|H3]; [exists 11; solve_itok|].
  destruct (translate_other d) as [E|[E|E]]; try done;
    eexists; (split; [exact E|]); solve_itok.
Qed.

Lemma la_ok_head st d r :
  la_ok st (TCh d :: r) -> 0 < d < 2 ^ 31 /\ d <> NUM.
Proof.
  intros [[_ Hp]|[Hc _]].
  - inversion Hp as [|? ? c v' l' tk ts Hl Hc Hts]; subst. by destruct Hc.
  - by destruct Hc.
Qed.

Lemma step_exp k e ls rest st :
  R (CExp k e) ls rest (yyss st) st -> Z.of_nat (length (yyss st)) < yystacksize st ->
  match astep (CExp k e) ls rest with
  | AGo c' ls' rest' => pushes Lbackup st c' ls' rest'
  | AAccept ls' => returns Lbackup st 0 (out_of ls')
  | AError ls' => returns Lbackup st 1 (out_of ls' ++ [ErrorMsg "syntax error"])
  end.
Proof.
  intros HR Hl. pose proof (R_la _ _ _ _ _ HR) as Hla.
  assert (forall i, itok rest = Some i -> action (exp_state k) i = Some ADefault ->
    match areduce k e ls rest with
    | AGo c' ls' rest' => pushes Lbackup st c' ls' rest'
    | AAccept ls' => returns Lbackup st 0 (out_of ls')
    | AError ls' => returns Lbackup st 1 (out_of ls' ++ [ErrorMsg "syntax error"])
    end) as Hred.
  { intros i Hi Ha. unfold areduce. destruct (reduce_exp k e) as [c'|] eqn:E.
    - by eapply step_reduce.
    - by eapply exp_fails. }
  assert (pact_default (exp_state k) = false) as Hp by by destruct k as [|[| |? []] k].
  destruct (match rest with TCh d :: _ => op_of_char d | _ => None end) as [o|] eqn:Eo.
  - destruct rest as [|[v|d] r]; try done. apply op_of_char_Some in Eo as ->.
    pose proof (exp_action_op k o) as Ha. simpl. rewrite op_of_char_op.
    destruct (shifts_in k o); [|by eapply Hred; [apply itok_op|]].
    eapply (shift_pushes (CExp k e) ls _ r st (COperand (FBin e o :: k)));
      [done|done|apply itok_op|done|done|done|done|done].
  - destruct (itok_other rest) as (i & Hi & Hin & H10 & H12).
    { intros d r ->. apply la_ok_head in Hla as [? ?]. done. }
    pose proof (exp_action_other k i Hin) as Ha. destruct rest as [|[v|d] r].
    1-2: simpl in Hi; simplify_eq; simpl; eapply Hred; [done|]; rewrite Ha;
      by destruct k as [|[| |? ?] k].
    simpl. simpl in Eo. rewrite Eo. destruct k as [|[| |a o] k].
    + destruct (Z.eqb_spec d ch_nl) as [->|Hne].
      * rewrite (proj2 H10 (ex_intro _ r eq_refl)) in *.
        eapply (shift_pushes (CExp [] e) ls _ r st (CExpNl e)); try done.
      * eapply exp_fails; [done|done|done|]. rewrite Ha.
        destruct (Z.eqb_spec i 10) as [->|]; [|done].
        destruct (proj1 H10 eq_refl) as [? ?]. by simplify_eq.
    + eapply Hred; [done|]. by rewrite Ha.
    + destruct (Z.eqb_spec d ch_rpar) as [->|Hne].
      * rewrite (proj2 H12 (ex_intro _ r eq_refl)) in *.
        eapply (shift_pushes (CExp (FParen :: k) e) ls _ r st (CClose k e)); try done.
      * eapply exp_fails; [done|done|done|]. rewrite Ha.
        destruct (Z.eqb_spec i 12) as [->|]; [|done].
        destruct (proj1 H12 eq_refl) as [? ?]. by simplify_eq.
    + eapply Hred; [done|]. by rewrite Ha.
Qed.

(** What the tables do where an operand (or a line) must follow. *)
Lemma operand_action k i :
  In i [0; 1; 2; 3; 4; 5; 6; 7; 8; 9; 10; 11; 12] ->
  action (ctx_state k) i =
    Some (if i =? 3 then AShift 3 else if i =? 4 then AShift 4
          else if i =? 11 then AShift 6
          else match k with
               | [] => if i =? 10 then AShift 5 else if i =? 0 then AShift 2 else ADefault
               | _ => ADefault
               end).
Proof.
  intros Hi. simpl in Hi.
  repeat (destruct Hi as [<-|Hi]; [by destruct k as [|[| |e []] k]|]). done.
Qed.

Lemma operand_fails k ls rest st i :
  R (COperand k) ls rest (yyss st) st ->
  itok rest = Some i -> action (ctx_state k) i = Some ADefault ->
  returns Lbackup st 1 (out_of ls ++ [ErrorMsg "syntax error"]).
Proof.
  intros HR Hi Ha. eapply (lookahead_fails (COperand k)); [done|done|done| | |].
  - by destruct k as [|[| |? []] k].
  - by destruct k as [|[| |? []] k].
  - apply ctx_states_range.
Qed.

Lemma accept_returns ls st :
  R (COperand []) ls [] (yyss st) st -> Z.of_nat (length (yyss st)) < yystacksize st ->
  returns Lbackup st 0 (out_of ls).
Proof.
  intros HR Hl. pose proof (vals_depth _ _ _ _ _ HR) as Hvd. destruct HR as [H1 H2 H3 H4 H5 H6 H7].
  destruct (backup_lookup st [] (AShift 2) 0 H7) as (st1 & [S1 S2 S3 S4 S5 S6] & Hr & E);
    [done|by rewrite H1|by rewrite H1|].
  unfold YYINITDEPTH, YYMAXDEPTH in *.
  eapply returns_path; [apply reaches_one; simpl; rewrite E; simpl; unfold shift_token; rewrite stack_push_ok by (cbn; congruence); reflexivity|].
  eapply returns_path; [apply reaches_one; simpl; unfold yynewstate; rewrite stack_push_ok by (cbn; congruence); reflexivity|].
  eapply returns_path; [apply reaches_one|].
  - simpl. unfold yysetstate. cbn. rewrite S3, H2. cbn [cfg_top cfg_below ctx_state ctx_below length].
    rewrite (proj2 (Z.leb_gt _ _)) by (rewrite S5; lia). reflexivity.
  - rewrite <- H4, <- S6. match goal with
    | |- returns _ ?s _ _ => exact (returns_one Laccept s 0 s eq_refl)
    end.
Qed.

Lemma step_operand k ls rest st :
  R (COperand k) ls rest (yyss st) st -> Z.of_nat (length (yyss st)) < yystacksize st ->
  match astep (COperand k) ls rest with
  | AGo c' ls' rest' => pushes Lbackup st c' ls' rest'
  | AAccept ls' => returns Lbackup st 0 (out_of ls')
  | AError ls' => returns Lbackup st 1 (out_of ls' ++ [ErrorMsg "syntax error"])
  end.
Proof.
  intros HR Hl. pose proof (R_la _ _ _ _ _ HR) as Hla.
  assert (pact_default (ctx_state k) = false) as Hp by by destruct k as [|[| |? []] k].
  pose proof (operand_action k) as Hact. destruct rest as [|[v|d] r].
  - simpl. destruct k as [|f k]; [by apply accept_returns|].
    eapply operand_fails; [done|done|]. rewrite Hact by (simpl; auto). by destruct f.
  - simpl. eapply (shift_pushes (COperand k) ls _ r st (CNum k v) (Some v) 3);
      try done; [rewrite Hact by (simpl; auto 10); done|intros v' Hv'; by apply Hv'].
  - simpl. destruct (Z.eqb_spec d 45) as [->|H45].
    { eapply (shift_pushes (COperand k) ls _ r st (COperand (FNeg :: k)) None 4);
        try done; rewrite Hact by (simpl; auto 10); done. }
    destruct (Z.eqb_spec d ch_lpar) as [->|H40].
    { eapply (shift_pushes (COperand k) ls _ r st (COperand (FParen :: k)) None 11);
        try done; rewrite Hact by (simpl; auto 20); done. }
    destruct (Z.eqb_spec d ch_nl) as [->|H10].
    { destruct k as [|f k].
      - eapply (shift_pushes (COperand []) ls _ r st CNl None 10); try done.
      - eapply operand_fails; [done|done|]. rewrite Hact by (simpl; auto 20). done. }
    assert (exists i, itok (TCh d :: r) = Some i /\ In i [1; 2; 5; 6; 7; 8; 9; 12]) as (i & Hi & Hin).
    { destruct (op_of_char d) as [o|] eqn:Eo.
      - apply op_of_char_Some in Eo as ->. exists (op_tok o). split; [apply itok_op|].
        destruct o; simpl; auto 20.
      - destruct (Z.eq_dec d ch_rpar) as [->|H41]; [exists 12; split; [done|simpl; auto 20]|].
        destruct (la_ok_head _ _ _ Hla).
        destruct (translate_other d) as [E|[E|E]]; try done; eexists; (split; [exact E|simpl; auto 20]). }
    assert (match k with [] => AError ls | _ :: _ => AError ls end = AError ls) as -> by by destruct k.
    eapply operand_fails; [done|done|]. rewrite Hact by (simpl in *; intuition).
    simpl in Hin. repeat (destruct Hin as [<-|Hin]; [by destruct k|]). done.
Qed.

Lemma step_refines c ls rest st :
  R c ls rest (yyss st) st -> Z.of_nat (length (yyss st)) < yystacksize st ->
  match astep c ls rest with
  | AGo c' ls' rest' => pushes Lbackup st c' ls' rest'
  | AAccept ls' => returns Lbackup st 0 (out_of ls')
  | AError ls' => returns Lbackup st 1 (out_of ls' ++ [ErrorMsg "syntax error"])
  end.
Proof.
  intros HR Hl. destruct c as [|k|k v|k e|k e| |e|].
  - by apply step_init.
  - by apply step_operand.
  - by apply step_num.
  - by apply step_exp.
  - by apply step_close.
  - by apply step_nl.
  - by apply step_exp_nl.
  - by apply step_line.
Qed.

(** What is printed for a result of the machine. *)
Definition result_out (r : Z) (ls : list (line V)) : list (event V) :=
  out_of ls ++ (if r =? 0 then [] else
                if r =? 1 then [ErrorMsg "syntax error"] else [ErrorMsg "memory exhausted"]).

Lemma run_refines fuel : forall c ls rest st r ls',
  R c ls rest (yyss st) st -> Z.of_nat (length (yyss st)) < yystacksize st ->
  arun fuel c ls rest = ADone r ls' ->
  returns Lbackup st r (result_out r ls').
Proof.
  induction fuel as [|fuel IH]; intros c ls rest st r ls' HR Hl Hrun; [done|].
  simpl in Hrun. pose proof (step_refines c ls rest st HR Hl) as Hstep.
  destruct (astep c ls rest) as [c1 ls1 rest1|ls1|ls1]; simplify_eq.
  - destruct Hstep as (st0 & Hr0 & HR0 & Hl0).
    destruct (Z.leb_spec YYMAXDEPTH (depth c1)) as [Hd|Hd].
    + simplify_eq. eapply returns_path; [done|]. by eapply push_exhausted.
    + destruct (push_backup _ _ _ _ HR0 Hd Hl0) as (st1 & Hr1 & HR1 & Hl1).
      eapply returns_path; [by eapply reaches_trans|]. by eapply IH.
  - unfold result_out. by rewrite app_nil_r.
  - done.
Qed.

(** The parser stops on every input, without an undefined access, with the
    result and the output of the operator precedence machine. *)
Lemma yyparse_aparse l lval ts :
  produces l lval ts ->
  exists r ls n st, aparse ts = ADone r ls /\ 0 <= r <= 2
    /\ (forall fuel, (n <= fuel)%nat -> yyparse stack_alloc junk fuel l lval = PDone r st)
    /\ out st = result_out r ls.
Proof.
  intros Hp. destruct (arun_done (S (weight CInit ts)) CInit [] ts) as (r & ls & E & Hr); [lia|].
  set (st0 := yyinit junk l lval).
  assert (R CInit [] ts (yyss st0) st0) as HR.
  { split; try done; [by repeat constructor|by left]. }
  assert (reaches Lsetstate st0 Lbackup st0) as H0 by by apply reaches_one.
  pose proof (run_refines _ _ _ _ _ _ _ HR ltac:(done) E) as Hret.
  destruct (returns_path _ _ _ _ _ _ H0 Hret) as (n & st & Hn & Ho).
  exists r, ls, n, st. split; [done|]. split; [done|]. split; [|done].
  intros fuel Hf. unfold yyparse. replace fuel with (n + (fuel - n))%nat by lia. apply Hn.
Qed.

End Refine.
