(* ===== verification/CalcLexer.v ===== *)
(** The scanner of the desk calculator ([yylex] in
    src/compiler/lab3/y.tab.c): blanks are skipped, a digit or a point starts a
    number that [scanf("%lf")] reads, any other character is its own token.

    [scanf] is modelled by the automaton of the C standard: the input item is
    the longest prefix of a matching sequence, and it is converted only when it
    is itself a matching sequence. *)

From S2P Require Import Prelude CalcTables CalcSyntax CalcParser CalcRefine.
#[local] Open Scope Z_scope.

(** The conversion of a literal to a [double]: mantissa and exponent of ten, or
    of two for a hexadecimal literal. *)
Class FloatLit (V : Type) := {
  lit_dec : Z -> Z -> V;
  lit_hex : Z -> Z -> V
}.

Definition EOF : Z := -1.
Definition isblank (c : Z) : bool := (c =? 32) || (c =? 9).
Definition isdigit (c : Z) : bool := (48 <=? c) && (c <=? 57).
Definition isalpha_hex (c : Z) : bool := ((97 <=? c) && (c <=? 102)) || ((65 <=? c) && (c <=? 70)).
Definition isxdigit (c : Z) : bool := isdigit c || isalpha_hex c.
Definition is_e (c : Z) : bool := (c =? 101) || (c =? 69).
Definition is_p (c : Z) : bool := (c =? 112) || (c =? 80).
Definition is_x (c : Z) : bool := (c =? 120) || (c =? 88).
Definition is_sign (c : Z) : bool := (c =? 43) || (c =? 45).

(** ** [scanf("%lf", &yylval)] *)

Inductive sstate :=
| SStart | SZero | SInt | SDot | SFrac | SExp | SExpSign | SExpDig
| SHex | SHexInt | SHexDot | SHexFrac | SHexP | SHexPSign | SHexPDig.

Definition scan_step (s : sstate) (c : Z) : option sstate :=
  match s with
  | SStart => if c =? 48 then Some SZero else if isdigit c then Some SInt
              else if c =? 46 then Some SDot else None
  | SZero => if isdigit c then Some SInt else if c =? 46 then Some SFrac
             else if is_e c then Some SExp else if is_x c then Some SHex else None
  | SInt => if isdigit c then Some SInt else if c =? 46 then Some SFrac
            else if is_e c then Some SExp else None
  | SDot => if isdigit c then Some SFrac else None
  | SFrac => if isdigit c then Some SFrac else if is_e c then Some SExp else None
  | SExp => if is_sign c then Some SExpSign else if isdigit c then Some SExpDig else None
  | SExpSign | SExpDig => if isdigit c then Some SExpDig else None
  | SHex => if isxdigit c then Some SHexInt else if c =? 46 then Some SHexDot else None
  | SHexInt => if isxdigit c then Some SHexInt else if c =? 46 then Some SHexFrac
               else if is_p c then Some SHexP else None
  | SHexDot => if isxdigit c then Some SHexFrac else None
  | SHexFrac => if isxdigit c then Some SHexFrac else if is_p c then Some SHexP else None
  | SHexP => if is_sign c then Some SHexPSign else if isdigit c then Some SHexPDig else None
  | SHexPSign | SHexPDig => if isdigit c then Some SHexPDig else None
  end.

(** The item is a complete number. *)
Definition accepting (s : sstate) : bool :=
  match s with
  | SZero | SInt | SFrac | SExpDig | SHexInt | SHexFrac | SHexPDig => true
  | _ => false
  end.

Record literal := Literal {
  lhex : bool;
  mant : Z;
  scale : Z;     (* digits (decimal) or bits (hexadecimal) after the point *)
  eneg : bool;
  expo : Z
}.

Definition lit0 : literal := Literal false 0 0 false 0.

Definition digit_val (c : Z) : Z := c - 48.
Definition xdigit_val (c : Z) : Z :=
  if isdigit c then c - 48 else if c <? 97 then c - 55 else c - 87.

(** The literal after the character [c] brought the item to the state [s]. *)
Definition scan_acc (s : sstate) (c : Z) (l : literal) : literal :=
  match s with
  | SZero | SInt => Literal false (mant l * 10 + digit_val c) (scale l) (eneg l) (expo l)
  | SFrac => if c =? 46 then l
             else Literal false (mant l * 10 + digit_val c) (scale l + 1) (eneg l) (expo l)
  | SHex => Literal true (mant l) (scale l) (eneg l) (expo l)
  | SHexInt => Literal true (mant l * 16 + xdigit_val c) (scale l) (eneg l) (expo l)
  | SHexFrac => if c =? 46 then l
                else Literal true (mant l * 16 + xdigit_val c) (scale l + 4) (eneg l) (expo l)
  | SExpSign | SHexPSign => Literal (lhex l) (mant l) (scale l) (c =? 45) (expo l)
  | SExpDig | SHexPDig => Literal (lhex l) (mant l) (scale l) (eneg l) (expo l * 10 + digit_val c)
  | _ => l
  end.

Fixpoint scan_item (s : sstate) (l : literal) (cs : list Z) : sstate * literal * list Z :=
  match cs with
  | [] => (s, l, [])
  | c :: cs' =>
    match scan_step s c with
    | Some s' => scan_item s' (scan_acc s' c l) cs'
    | None => (s, l, cs)
    end
  end.

Section Scanner.
Context {V : Type} `{!FloatLit V}.

Definition lit_value (l : literal) : V :=
  let e := (if eneg l then - expo l else expo l) - scale l in
  if lhex l then lit_hex (mant l) e else lit_dec (mant l) e.

(** The new [yylval] (unchanged on a matching failure) and the rest of the input. *)
Definition scanf_lf (cs : list Z) (lval : V) : V * list Z :=
  let '(s, l, rest) := scan_item SStart lit0 cs in
  (if accepting s then lit_value l else lval, rest).

Fixpoint skip_blanks (cs : list Z) : list Z :=
  match cs with
  | c :: cs' => if isblank c then skip_blanks cs' else cs
  | [] => []
  end.

(** [yylex]: [stdin] is the list of the characters still to be read. *)
Definition yylex_chars (cs : list Z) (lval : V) : Z * V * list Z :=
  match skip_blanks cs with
  | [] => (0, lval, [])                       (* c == EOF *)
  | c :: cs' =>
    if (c =? 46) || isdigit c then
      let '(v, rest) := scanf_lf (c :: cs') lval in (NUM, v, rest)
    else if c =? EOF then (0, lval, cs')
    else (c, lval, cs')
  end.

#[export] Instance char_lexer : Lexer V (list Z) := {| yylex := yylex_chars |}.

(** ** Every text is a sequence of tokens *)

Lemma scan_item_length s l cs s' l' rest :
  scan_item s l cs = (s', l', rest) -> (length rest <= length cs)%nat.
Proof.
  revert s l. induction cs as [|c cs IH]; intros s l H; simpl in H; [by simplify_eq|].
  destruct (scan_step s c) as [s1|]; [|by simplify_eq].
  apply IH in H. simpl. lia.
Qed.

Lemma skip_blanks_length cs : (length (skip_blanks cs) <= length cs)%nat.
Proof.
  induction cs as [|c cs IH]; simpl; [done|].
  destruct (isblank c); simpl; lia.
Qed.

Lemma skip_blanks_bytes cs :
  Forall (fun c => 0 <= c < 256) cs -> Forall (fun c => 0 <= c < 256) (skip_blanks cs).
Proof. induction 1; simpl; [done|]. destruct (isblank x); [done|by constructor]. Qed.

Lemma scan_item_bytes s l cs s' l' rest :
  scan_item s l cs = (s', l', rest) -> Forall (fun c => 0 <= c < 256) cs ->
  Forall (fun c => 0 <= c < 256) rest.
Proof.
  intros H Hb. revert s l H. induction Hb as [|c cs Hc Hb IH]; intros s l H; simpl in H.
  - by simplify_eq.
  - destruct (scan_step s c) as [s1|]; [by eapply IH|]. simplify_eq. by constructor.
Qed.

(** A number consumes the character that starts it. *)
Lemma scanf_consumes c cs lval v rest :
  (c =? 46) || isdigit c = true -> scanf_lf (c :: cs) lval = (v, rest) ->
  exists s l s' l', scan_item s l cs = (s', l', rest).
Proof.
  unfold scanf_lf. intros Hc H. simpl in H.
  assert (exists s, (if c =? 48 then Some SZero else if isdigit c then Some SInt
                     else if c =? 46 then Some SDot else None) = Some s) as [s E].
  { destruct (c =? 48), (c =? 46), (isdigit c); simpl in *; eauto; done. }
  rewrite E in H. destruct (scan_item s (scan_acc s c lit0) cs) as [[s1 l1] r1] eqn:Es.
  simplify_eq. eauto.
Qed.

Lemma chars_produce cs : Forall (fun c => 0 <= c < 256) cs ->
  forall lval, exists ts, produces cs lval ts.
Proof.
  induction cs as [cs IH] using (induction_ltof1 _ (@length Z)). unfold ltof in IH.
  intros Hb lval. pose proof (skip_blanks_length cs) as Hlen.
  pose proof (skip_blanks_bytes _ Hb) as Hsb.
  destruct (skip_blanks cs) as [|c cs'] eqn:Es.
  - exists []. eapply produces_end; [simpl; unfold yylex_chars; by rewrite Es|unfold YYEOF; lia].
  - inversion Hsb as [|? ? Hc Hb']; subst. simpl in Hlen.
    destruct ((c =? 46) || isdigit c) eqn:En.
    + destruct (scanf_lf (c :: cs') lval) as [v rest] eqn:Ef.
      destruct (scanf_consumes _ _ _ _ _ En Ef) as (s & l & s' & l' & Ei).
      pose proof (scan_item_length _ _ _ _ _ _ Ei).
      destruct (IH rest ltac:(lia) (scan_item_bytes _ _ _ _ _ _ Ei Hb') v) as [ts Hts].
      exists (TNum v :: ts).
      eapply (produces_tok _ _ NUM v rest); [simpl; unfold yylex_chars; by rewrite Es, En, Ef|done|done].
    + destruct (Z.eq_dec c 0) as [->|Hc0].
      { exists []. eapply produces_end; [simpl; unfold yylex_chars; by rewrite Es|done]. }
      destruct (IH cs' ltac:(lia) Hb' lval) as [ts Hts].
      exists (TCh c :: ts). eapply (produces_tok _ _ c lval cs'); [|cbn; unfold NUM; lia|done].
      simpl. unfold yylex_chars. rewrite Es, En. unfold EOF. by rewrite (proj2 (Z.eqb_neq c (-1))) by lia.
Qed.

(** ** Printing tokens and reading them back *)

(** A decimal literal: integer digits, digits after a point, an exponent. *)
Record dec_lit := DecLit {
  ipart : list Z;
  fpart : option (list Z);
  epart : option (bool * bool * list Z)  (* sign written, negative, digits *)
}.

Definition digits_ok (ds : list Z) : Prop := Forall (fun d => 0 <= d <= 9) ds.

Definition dec_lit_ok (d : dec_lit) : Prop :=
  ipart d <> [] /\ digits_ok (ipart d)
  /\ from_option digits_ok True (fpart d)
  /\ from_option (fun '(s, n, ds) => ds <> [] /\ digits_ok ds /\ (n = true -> s = true)) True (epart d).

Definition digits_chars (ds : list Z) : list Z := map (fun d => 48 + d) ds.
Definition digits_val (acc : Z) (ds : list Z) : Z := fold_left (fun a d => a * 10 + d) ds acc.

Definition dec_lit_chars (d : dec_lit) : list Z :=
  digits_chars (ipart d)
  ++ match fpart d with Some ds => 46 :: digits_chars ds | None => [] end
  ++ match epart d with
     | Some (s, n, ds) =>
       101 :: (if s : bool then [if n : bool then 45 else 43] else []) ++ digits_chars ds
     | None => []
     end.

Definition dec_lit_value (d : dec_lit) : V :=
  let frac := default [] (fpart d) in
  lit_dec (digits_val 0 (ipart d ++ frac))
    (match epart d with
     | Some (_, n, ds) => if n : bool then - digits_val 0 ds else digits_val 0 ds
     | None => 0
     end - Z.of_nat (length frac)).

(** A token as text, with the blanks in front of it. *)
Inductive tok_text :=
| XNum (d : dec_lit)
| XCh (c : Z).

Definition text_tok (x : tok_text) : tok V :=
  match x with XNum d => TNum (dec_lit_value d) | XCh c => TCh c end.

Definition text_chars (x : tok_text) : list Z :=
  match x with XNum d => dec_lit_chars d | XCh c => [c] end.

Definition text_ok (x : tok_text) : Prop :=
  match x with
  | XNum d => dec_lit_ok d
  | XCh c => 0 < c < 256 /\ isblank c = false /\ isdigit c = false /\ c <> 46
  end.

Definition render (xs : list (list Z * tok_text)) : list Z :=
  concat (map (fun p => p.1 ++ text_chars p.2) xs).

(** [c] does not continue a decimal literal. *)
Definition ends_literal (cs : list Z) : Prop :=
  match cs with
  | [] => True
  | c :: _ => isdigit c = false /\ c <> 46 /\ is_e c = false /\ is_x c = false
  end.

(** Blanks are blanks, and what follows a number does not continue it. *)
Fixpoint render_ok (xs : list (list Z * tok_text)) : Prop :=
  match xs with
  | [] => True
  | (bl, x) :: xs' =>
    Forall (fun c => isblank c = true) bl /\ text_ok x
    /\ match x with XNum _ => ends_literal (render xs') | XCh _ => True end
    /\ render_ok xs'
  end.

Lemma isdigit_char d : 0 <= d <= 9 -> isdigit (48 + d) = true /\ digit_val (48 + d) = d.
Proof. unfold isdigit, digit_val. intros. split; [|lia]. by apply andb_true_intro; split; apply Z.leb_le; lia. Qed.

(** The literal after the digits [ds] in the state [s]. *)
Definition add_digits (s : sstate) (ds : list Z) (l : literal) : literal :=
  match s with
  | SFrac => Literal false (digits_val (mant l) ds) (scale l + Z.of_nat (length ds)) (eneg l) (expo l)
  | SExpDig => Literal false (mant l) (scale l) (eneg l) (digits_val (expo l) ds)
  | _ => Literal false (digits_val (mant l) ds) (scale l) (eneg l) (expo l)
  end.

Lemma scan_digits s l ds rest :
  s = SInt \/ s = SFrac \/ s = SExpDig -> digits_ok ds -> lhex l = false ->
  scan_item s l (digits_chars ds ++ rest) = scan_item s (add_digits s ds l) rest.
Proof.
  intros Hs Hds. revert l. induction Hds as [|d ds Hd Hds IH]; intros l Hl.
  - destruct l, Hs as [->|[->| ->]]; simpl in *; subst; by rewrite ?Z.add_0_r.
  - destruct (isdigit_char d Hd) as [E1 E2].
    assert ((48 + d =? 46) = false) as E3 by (apply Z.eqb_neq; lia).
    assert (scan_step s (48 + d) = Some s) as Es.
    { destruct Hs as [->|[->| ->]]; cbn [scan_step]; by rewrite E1. }
    change (digits_chars (d :: ds) ++ rest) with ((48 + d) :: (digits_chars ds ++ rest)).
    cbn [scan_item]. rewrite Es, IH by (destruct Hs as [->|[->| ->]]; cbn [scan_acc lhex]; by rewrite ?E3).
    destruct l, Hs as [->|[->| ->]]; cbn [scan_acc add_digits mant scale eneg expo lhex] in *;
      rewrite ?E3; cbn [mant scale eneg expo lhex length]; unfold digits_val;
      cbn [fold_left]; rewrite ?E2; subst; repeat (lia || f_equal).
Qed.

(** The first digit of a literal. *)
Lemma scan_first l d ds rest :
  digits_ok (d :: ds) -> lhex l = false -> mant l = 0 ->
  exists s, (s = SInt \/ s = SZero /\ ds = []) /\
    scan_item SStart l (digits_chars (d :: ds) ++ rest) =
    scan_item s (add_digits SInt (d :: ds) l) rest.
Proof.
  intros Hds Hl Hm. inversion Hds as [|? ? Hd Hds']; subst.
  destruct (isdigit_char d Hd) as [E1 E2].
  change (digits_chars (d :: ds) ++ rest) with ((48 + d) :: (digits_chars ds ++ rest)).
  cbn [scan_item scan_step]. rewrite E1.
  assert (forall s, s = SInt \/ s = SZero ->
    scan_acc s (48 + d) l = add_digits SInt [d] l) as Hacc.
  { intros s [->| ->]; cbn [scan_acc add_digits digits_val fold_left]; by rewrite E2. }
  destruct (Z.eqb_spec (48 + d) 48) as [E0|E0].
  - rewrite Hacc by auto. destruct ds as [|d' ds]; [by exists SZero; split; [auto|]|].
    exists SInt. split; [auto|]. inversion Hds' as [|? ? Hd' Hds'']; subst.
    destruct (isdigit_char d' Hd') as [E1' E2'].
    change (digits_chars (d' :: ds) ++ rest) with ((48 + d') :: (digits_chars ds ++ rest)).
    cbn [scan_item scan_step]. rewrite E1'. rewrite scan_digits by (auto; done).
    cbn [scan_acc add_digits digits_val fold_left mant scale eneg expo]. by rewrite E2'.
  - rewrite Hacc by auto. exists SInt. split; [auto|]. by rewrite scan_digits by auto.
Qed.

Lemma scan_stops s l rest :
  s = SInt \/ s = SZero \/ s = SFrac \/ s = SExpDig -> ends_literal rest ->
  scan_item s l rest = (s, l, rest).
Proof.
  destruct rest as [|c rest]; [done|]. intros Hs (H1 & H2 & H3 & H4). simpl.
  apply Z.eqb_neq in H2.
  by destruct Hs as [->|[->|[->| ->]]]; simpl; rewrite ?H1, ?H2, ?H3, ?H4.
Qed.

Lemma scan_frac s l fp rest :
  s = SInt \/ s = SZero -> lhex l = false -> scale l = 0 -> from_option digits_ok True fp ->
  exists s', (s' = s \/ s' = SFrac) /\
    scan_item s l (match fp with Some ds => 46 :: digits_chars ds | None => [] end ++ rest) =
    scan_item s' (Literal false (digits_val (mant l) (default [] fp))
                    (Z.of_nat (length (default [] fp))) (eneg l) (expo l)) rest.
Proof.
  intros Hs Hl Hsc Hfp. destruct fp as [ds|]; simpl in Hfp.
  - exists SFrac. split; [auto|].
    assert (scan_step s 46 = Some SFrac) as Es by by destruct Hs as [->| ->].
    cbn [app scan_item]. rewrite Es. cbn [scan_acc]. rewrite scan_digits by auto.
    rewrite Z.eqb_refl. cbn [add_digits default id]. by rewrite Hsc, Z.add_0_l.
  - exists s. split; [auto|]. destruct l. simpl in *. by subst.
Qed.

Lemma scan_exp s l sg n ds rest :
  s = SInt \/ s = SZero \/ s = SFrac -> lhex l = false -> expo l = 0 -> eneg l = false ->
  ds <> [] -> digits_ok ds -> (n = true -> sg = true) ->
  scan_item s l (101 :: (if sg : bool then [if n : bool then 45 else 43] else [])
                     ++ digits_chars ds ++ rest) =
  scan_item SExpDig (Literal false (mant l) (scale l) n (digits_val 0 ds)) rest.
Proof.
  intros Hs Hl He Hn Hne Hds Hsg.
  assert (scan_step s 101 = Some SExp) as Es by by destruct Hs as [->|[->| ->]].
  cbn [scan_item]. rewrite Es. cbn [scan_acc].
  destruct ds as [|d ds]; [done|]. inversion Hds as [|? ? Hd Hds']; subst.
  destruct (isdigit_char d Hd) as [E1 E2].
  change (digits_chars (d :: ds) ++ rest) with ((48 + d) :: (digits_chars ds ++ rest)).
  assert (is_sign (48 + d) = false) as E3.
  { unfold is_sign. by rewrite !(proj2 (Z.eqb_neq _ _)) by lia. }
  destruct sg.
  - assert (scan_step SExp (if n then 45 else 43) = Some SExpSign) as Esg by by destruct n.
    cbn [app scan_item]. rewrite Esg. cbn [scan_step]. rewrite E1, scan_digits by (auto; done).
    cbn [scan_acc add_digits mant scale eneg expo]. rewrite He, E2, ?Hl.
    unfold digits_val. cbn [fold_left]. by destruct n.
  - assert (n = false) as -> by (destruct n; [by specialize (Hsg eq_refl)|done]).
    cbn [app scan_item scan_step]. rewrite E3, E1, scan_digits by (auto; done).
    cbn [scan_acc add_digits mant scale eneg expo]. by rewrite He, E2, ?Hl, ?Hn.
Qed.

(** A decimal literal is read back, and nothing after it. *)
Lemma scanf_literal d rest lval :
  dec_lit_ok d -> ends_literal rest ->
  scanf_lf (dec_lit_chars d ++ rest) lval = (dec_lit_value d, rest).
Proof.
  destruct d as [ip fp ep]. intros (Hne & Hip & Hfp & Hep) Hrest. cbn in Hne, Hip, Hfp, Hep.
  destruct ip as [|d0 ip]; [done|]. unfold scanf_lf, dec_lit_chars. cbn [ipart fpart epart].
  rewrite <- !(assoc_L (++)).
  destruct (scan_first lit0 d0 ip
    (match fp with Some ds => 46 :: digits_chars ds | None => [] end
     ++ match ep with
        | Some (s, n, ds) => 101 :: (if s then [if n then 45 else 43] else []) ++ digits_chars ds
        | None => [] end ++ rest) Hip eq_refl eq_refl) as (s1 & Hs1 & ->).
  assert (s1 = SInt \/ s1 = SZero) as Hs1' by tauto.
  destruct (scan_frac s1 (add_digits SInt (d0 :: ip) lit0) fp
    (match ep with
     | Some (s, n, ds) => 101 :: (if s then [if n then 45 else 43] else []) ++ digits_chars ds
     | None => [] end ++ rest) Hs1' eq_refl eq_refl Hfp) as (s2 & Hs2 & ->).
  cbn [add_digits mant scale eneg expo lit0].
  assert (s2 = SInt \/ s2 = SZero \/ s2 = SFrac) as Hs2' by (destruct Hs2; subst; tauto).
  assert (digits_val (digits_val 0 (d0 :: ip)) (default [] fp)
          = digits_val 0 ((d0 :: ip) ++ default [] fp)) as Hm.
  { unfold digits_val. by rewrite fold_left_app. }
  unfold dec_lit_value. cbn [ipart fpart epart]. rewrite <- Hm.
  destruct ep as [[[sg n] ds]|].
  - destruct Hep as (Hd1 & Hd2 & Hd3). cbn [app]. rewrite <- (assoc_L (++)).
    rewrite scan_exp by done. rewrite scan_stops by auto. cbn [mant scale eneg expo accepting].
    unfold lit_value. cbn [lhex mant scale eneg expo]. by destruct n.
  - cbn [app]. rewrite scan_stops by tauto.
    assert (accepting s2 = true) as -> by (destruct Hs2' as [->|[->| ->]]; done).
    unfold lit_value. cbn [lhex mant scale eneg expo]. done.
Qed.

Lemma skip_blanks_app bl cs :
  Forall (fun c => isblank c = true) bl ->
  match cs with [] => True | c :: _ => isblank c = false end ->
  skip_blanks (bl ++ cs) = cs.
Proof.
  induction 1 as [|c bl Hc Hbl IH]; intros Hcs; simpl.
  - destruct cs as [|c cs]; [done|]. simpl. by rewrite Hcs.
  - by rewrite Hc, IH.
Qed.

Lemma dec_lit_chars_first d rest : dec_lit_ok d ->
  exists c cs, dec_lit_chars d ++ rest = c :: cs /\ isdigit c = true /\ isblank c = false.
Proof.
  destruct d as [ip fp ep]. intros (Hne & Hip & _). cbn in Hne, Hip.
  destruct ip as [|d0 ip]; [done|]. inversion Hip as [|? ? Hd]; subst.
  destruct (isdigit_char d0 Hd) as [E _]. unfold dec_lit_chars. simpl.
  do 2 eexists. split; [done|]. split; [done|]. unfold isblank.
  by rewrite !(proj2 (Z.eqb_neq _ _)) by lia.
Qed.

(** Reading the printed tokens gives the tokens back. *)
Lemma render_produces xs : forall lval,
  render_ok xs -> produces (render xs) lval (map (fun p => text_tok p.2) xs).
Proof.
  induction xs as [|[bl x] xs IH]; intros lval Hok.
  - by eapply produces_end.
  - destruct Hok as (Hbl & Hx & Hsep & Hok).
    change (render ((bl, x) :: xs)) with ((bl ++ text_chars x) ++ render xs).
    rewrite <- (assoc_L (++)). cbn [map snd].
    destruct x as [d|c]; cbn [text_chars text_tok text_ok] in *.
    + eapply (produces_tok _ _ NUM (dec_lit_value d) (render xs)); [|done|by apply IH].
      destruct (dec_lit_chars_first d (render xs) Hx) as (c & cs & E & Hc & Hb).
      cbn. unfold yylex_chars. rewrite skip_blanks_app; [|done|by rewrite E].
      pose proof (scanf_literal d (render xs) lval Hx Hsep) as Es.
      rewrite E in *. by rewrite Hc, orb_true_r, Es.
    + destruct Hx as (Hr & Hb & Hd & Hdot).
      eapply (produces_tok _ _ c lval (render xs)); [|cbn; unfold NUM; lia|by apply IH].
      cbn. unfold yylex_chars. rewrite skip_blanks_app by done. cbn [app].
      rewrite Hd, (proj2 (Z.eqb_neq _ _) Hdot). cbn. unfold EOF.
      by rewrite (proj2 (Z.eqb_neq c (-1))) by lia.
Qed.

End Scanner.
