(* ===== verification/CalcProps.v ===== *)
(** The theorems about the desk calculator: the parser of CalcParser against
    the grammar and the precedence declarations of CalcSyntax, alone and
    together with the scanner of CalcLexer. *)

From S2P Require Import Prelude CalcTables CalcSyntax CalcParser CalcAbstract CalcRefine CalcLexer.
From stdpp Require Import strings.
#[local] Open Scope Z_scope.

(** ** The stack bound *)

Section Bound.
Context {V : Type}.
Implicit Types (c : config V) (k : list (frame V)) (ls : list (line V)).

Lemma exp_toks_pos (e : exp V) : (1 <= length (exp_toks e))%nat.
Proof. destruct e; simpl; rewrite ?length_app; simpl; lia. Qed.

Lemma ctx_depth_toks k : ctx_depth k <= 2 + Z.of_nat (length (ctx_toks k)).
Proof.
  induction k as [|[| |e o] k IH]; simpl; rewrite ?length_app; simpl; [lia..|].
  pose proof (exp_toks_pos e). lia.
Qed.

(** Every stack entry above the first stands for a token, up to three. *)
Lemma depth_toks c : depth c <= 3 + Z.of_nat (length (cfg_toks c)).
Proof.
  destruct c as [|k|k v|k e|k e| |e|]; simpl; rewrite ?length_app; simpl; rewrite ?length_app; simpl;
    try pose proof (ctx_depth_toks k); try pose proof (exp_toks_pos e); lia.
Qed.

Lemma arun_exhausted fuel c ls rest ls' :
  arun fuel c ls rest = ADone 2 ls' ->
  YYMAXDEPTH <= 3 + Z.of_nat (length (lines_toks ls ++ cfg_toks c ++ rest)).
Proof.
  revert c ls rest. induction fuel as [|fuel IH]; intros c ls rest H; [done|].
  simpl in H. destruct (astep c ls rest) as [c1 ls1 rest1|ls1|ls1] eqn:E; [|done..].
  rewrite <- (astep_toks _ _ _ _ _ _ E).
  destruct (Z.leb_spec YYMAXDEPTH (depth c1)); [|by apply IH].
  pose proof (depth_toks c1). rewrite !length_app. lia.
Qed.

End Bound.

(** Printed when the result is not 0. *)
Definition failure_message {V} (r : Z) : list (event V) :=
  if r =? 0 then [] else
  if r =? 1 then [ErrorMsg "syntax error"] else [ErrorMsg "memory exhausted"].

Section Parse.
Context {V L : Type} `{!Arith V} `{!Lexer V L}.
Implicit Types (ts : list (tok V)) (ls : list (line V)).

Lemma aparse_spec ts r ls : aparse ts = ADone r ls ->
  lines_wf ls /\ (exists tail, ts = lines_toks ls ++ tail) /\ (r = 0 -> ts = lines_toks ls)
  /\ (r = 2 -> YYMAXDEPTH <= 3 + Z.of_nat (length ts)).
Proof.
  intros E. pose proof (arun_sound _ CInit [] ts r ls I eq_refl E) as (H1 & H2 & H3).
  simpl in *. split_and!; [done..|]. intros ->. by apply arun_exhausted in E.
Qed.

(** C1: For every token sequence the scanner delivers, [yyparse] stops without an access
    outside its tables and stacks, pushes included, and prints the values of the complete
    lines at the beginning of the input: they are lines that respect the precedences, and
    every sequence of such lines that begins the input, none needing more than the stack, is
    a beginning of them. The result is 0 exactly if the input is made of such lines; with
    result 1 "syntax error" is printed after the values, with result 2 "memory exhausted",
    which takes at least [YYMAXDEPTH - 3] tokens. *)
Theorem yyparse_correct (stack_alloc : Z -> bool) (junk : V)
    (alloc_ok : forall n, n <= YYMAXDEPTH -> stack_alloc n = true)
    (l : L) (lval : V) ts (Hts : produces l lval ts) :
  exists n r st ls,
    (forall fuel, (n <= fuel)%nat -> yyparse stack_alloc junk fuel l lval = PDone r st)
    /\ 0 <= r <= 2 /\ lines_wf ls /\ (exists tail, ts = lines_toks ls ++ tail)
    /\ (forall ls' tail, lines_wf ls' -> fits ls' -> ts = lines_toks ls' ++ tail -> ls' `prefix_of` ls)
    /\ (r = 0 -> ts = lines_toks ls)
    /\ (forall ls', lines_wf ls' -> fits ls' -> ts = lines_toks ls' -> r = 0 /\ ls = ls')
    /\ (r = 2 -> YYMAXDEPTH <= 3 + Z.of_nat (length ts))
    /\ out st = map Value (lines_values ls) ++ failure_message r.
Proof.
  destruct (yyparse_aparse stack_alloc junk alloc_ok l lval ts Hts)
    as (r & ls & n & st & E & Hr & Hn & Ho).
  pose proof (aparse_spec _ _ _ E) as (H1 & H2 & H3 & H4). exists n, r, st, ls. split_and!; try done; [lia..| |].
  - intros ls' tail Hw Hf Ht. by eapply aparse_prefix.
  - intros ls' Hw Hf ->. rewrite (aparse_complete ls' Hw Hf) in E. by simplify_eq.
Qed.

(** C27: An input made of complete lines, each parenthesised or ordered as the
    precedence declarations ask and none needing more than the stack, is
    accepted, and what is printed are the values of its lines, in order. *)
Theorem yyparse_accepts (stack_alloc : Z -> bool) (junk : V)
    (alloc_ok : forall n, n <= YYMAXDEPTH -> stack_alloc n = true)
    (l : L) (lval : V) ls (Hwf : lines_wf ls) (Hfits : fits ls)
    (Hts : produces l lval (lines_toks ls)) :
  exists n st,
    (forall fuel, (n <= fuel)%nat -> yyparse stack_alloc junk fuel l lval = PDone 0 st)
    /\ out st = map Value (lines_values ls).
Proof.
  destruct (yyparse_aparse stack_alloc junk alloc_ok l lval _ Hts)
    as (r & ls' & n & st & E & Hr & Hn & Ho).
  rewrite (aparse_complete ls Hwf Hfits) in E. simplify_eq. exists n, st.
  split; [done|]. rewrite Ho. unfold result_out. simpl. by rewrite app_nil_r.
Qed.

End Parse.

(** ** The calculator on a text *)

Section Text.
Context {V : Type} `{!Arith V} `{!FloatLit V}.

(** [main] returns from [yyparse] on every input text: whatever bytes stand
    on the standard input, the parser stops with a defined result. *)
Theorem calc_total (stack_alloc : Z -> bool) (junk : V)
    (alloc_ok : forall n, n <= YYMAXDEPTH -> stack_alloc n = true)
    (cs : list Z) (lval : V) (Hcs : Forall (fun c => 0 <= c < 256) cs) :
  exists n r st, (forall fuel, (n <= fuel)%nat ->
      yyparse stack_alloc junk fuel cs lval = PDone r st) /\ 0 <= r <= 2.
Proof.
  destruct (chars_produce cs Hcs lval) as [ts Hts].
  destruct (yyparse_aparse stack_alloc junk alloc_ok cs lval ts Hts)
    as (r & ls & n & st & _ & Hr & Hn & _). by exists n, r, st.
Qed.

(** C30: The text of a sequence of lines, its numbers written as decimal
    literals and its tokens separated by any blanks, makes the calculator print
    the values of the lines computed with the numbers the literals denote. *)
Theorem calc_evaluates (stack_alloc : Z -> bool) (junk : V)
    (alloc_ok : forall n, n <= YYMAXDEPTH -> stack_alloc n = true)
    (xs : list (list Z * tok_text)) (ls : list (line V)) (lval : V)
    (Hxs : render_ok xs) (Htoks : map (fun p => text_tok p.2) xs = lines_toks ls)
    (Hwf : lines_wf ls) (Hfits : fits ls) :
  exists n st,
    (forall fuel, (n <= fuel)%nat ->
      yyparse stack_alloc junk fuel (render xs) lval = PDone 0 st)
    /\ out st = map Value (lines_values ls).
Proof.
  pose proof (render_produces xs lval Hxs) as Hp. rewrite Htoks in Hp.
  destruct (yyparse_aparse stack_alloc junk alloc_ok _ _ _ Hp)
    as (r & ls' & n & st & E & _ & Hn & Ho).
  rewrite (aparse_complete ls Hwf Hfits) in E. simplify_eq. exists n, st.
  split; [done|]. rewrite Ho. unfold result_out. simpl. by rewrite app_nil_r.
Qed.

(** A point with no digit after it is returned as a number whose value is
    the value of the number read before it: the result of [scanf] is ignored. *)
Theorem yylex_lone_point (cs : list Z) (lval : V)
    (Hcs : match cs with [] => True | c :: _ => isdigit c = false end) :
  yylex_chars (46 :: cs) lval = (NUM, lval, cs).
Proof.
  unfold yylex_chars, scanf_lf. destruct cs as [|c cs]; [done|].
  cbn [skip_blanks isblank orb scan_item scan_step]. simpl. by rewrite Hcs.
Qed.

End Text.

(** ** The hypotheses hold on concrete inputs *)

(** A literal stands for its mantissa in the free interpretation. *)
#[export] Instance term_lit : FloatLit term := {|
  lit_dec m e := TmOp OpMul (TmLit m) (TmOp OpPow (TmLit 10) (TmLit e));
  lit_hex m e := TmOp OpMul (TmLit m) (TmOp OpPow (TmLit 2) (TmLit e))
|}.

Definition n1 : exp term := Num (TmLit 1).
Definition n2 : exp term := Num (TmLit 2).

(** [2 - 1 * -1 ^ 2 \n \n] *)
Definition sample : list (line term) :=
  [LExp (Bin OpSub n2 (Bin OpMul n1 (Neg (Bin OpPow n1 n2)))); LEmpty].

Lemma list_produces {V} `{!Arith V} (ts : list (tok V)) : forall lval,
  Forall (fun t => match t with TCh d => 0 < d < 2 ^ 31 /\ d <> NUM | _ => True end) ts ->
  produces ts lval ts.
Proof.
  induction ts as [|[v|d] ts IH]; intros lval Hts; inversion Hts; subst.
  - by eapply produces_end.
  - eapply produces_tok; [done|by split|by apply IH].
  - eapply produces_tok; [done|by split|by apply IH].
Qed.

Lemma sample_produces lval : produces (lines_toks sample) lval (lines_toks sample).
Proof. apply list_produces. by repeat constructor. Qed.

(** [2 - 1 * -1 ^ 2 \n \n )] *)
Definition sample_error : list (tok term) := lines_toks sample ++ [TCh ch_rpar].

Lemma yyparse_correct_witness :
  exists n r st ls,
    (forall fuel, (n <= fuel)%nat ->
      yyparse (fun _ => true) (TmLit 0) fuel sample_error (TmLit 0) = PDone r st)
    /\ 0 <= r <= 2 /\ sample `prefix_of` ls
    /\ out st = map Value (lines_values ls) ++ failure_message r.
Proof.
  assert (produces sample_error (TmLit 0) sample_error) as Hp by (apply list_produces; by repeat constructor).
  destruct (yyparse_correct (fun _ => true) (TmLit 0) (fun _ _ => eq_refl) _ _ _ Hp)
    as (n & r & st & ls & Hn & Hr & _ & _ & Hmax & _ & _ & _ & Ho).
  exists n, r, st, ls. split; [exact Hn|]. split; [exact Hr|]. split; [|exact Ho].
  apply (Hmax sample [TCh ch_rpar]); reflexivity.
Defined.

Lemma yyparse_accepts_witness :
  exists n st,
    (forall fuel, (n <= fuel)%nat ->
      yyparse (fun _ => true) (TmLit 0) fuel (lines_toks sample) (TmLit 0) = PDone 0 st)
    /\ out st = map Value (lines_values sample).
Proof.
  apply (yyparse_accepts (fun _ => true) (TmLit 0) (fun _ _ => eq_refl) _ _ sample
           eq_refl eq_refl (sample_produces (TmLit 0))).
Defined.

(** [3-.5 \n \n.] *)
Lemma calc_total_witness :
  exists n r st, (forall fuel, (n <= fuel)%nat ->
      yyparse (fun _ => true) (TmLit 0) fuel [51; 45; 46; 53; 32; 10; 32; 10; 46] (TmLit 0) = PDone r st)
      /\ 0 <= r <= 2.
Proof.
  apply (calc_total (fun _ => true) (TmLit 0) (fun _ _ => eq_refl)). by repeat constructor.
Defined.

(** [" 12.5e-1 -\t(2)\n"] *)
Definition sample_text : list (list Z * tok_text) :=
  [([32], XNum (DecLit [1; 2] (Some [5]) (Some (true, true, [1])))); ([32], XCh 45);
   ([9], XCh 40); ([], XNum (DecLit [2] None None)); ([], XCh 41); ([], XCh 10)].

Definition sample_text_lines : list (line term) :=
  [LExp (Bin OpSub (Num (dec_lit_value (DecLit [1; 2] (Some [5]) (Some (true, true, [1])))))
                   (Paren (Num (dec_lit_value (DecLit [2] None None)))))].

Lemma calc_evaluates_witness :
  exists n st,
    (forall fuel, (n <= fuel)%nat ->
      yyparse (fun _ => true) (TmLit 0) fuel (render sample_text) (TmLit 0) = PDone 0 st)
    /\ out st = map Value (lines_values sample_text_lines).
Proof.
  apply (calc_evaluates (fun _ => true) (TmLit 0) (fun _ _ => eq_refl) sample_text);
    [|done..].
  repeat (split || constructor || done).
Defined.

Lemma yylex_lone_point_witness :
  yylex_chars [46; 10] (TmLit 5) = (NUM, TmLit 5, [10]).
Proof. by apply (yylex_lone_point [10]). Defined.
