(* ===== verification/Result.v ===== *)
(** The outcome of a C function that may end the program or have undefined
    behaviour, as a monad. *)

From S2P Require Import Prelude.
From stdpp Require Import strings.
#[local] Open Scope Z_scope.

Inductive result (A : Type) :=
| Ok (a : A)
| Fatal (msg : string)
| Undefined.
Arguments Ok {A} a.
Arguments Fatal {A} msg.
Arguments Undefined {A}.

#[export] Instance result_ret : MRet result := @Ok.
#[export] Instance result_bind : MBind result := fun A B f r =>
  match r with Ok a => f a | Fatal m => Fatal m | Undefined => Undefined end.

Definition lift {A} (o : option A) : result A :=
  match o with Some a => Ok a | None => Undefined end.

(** A checked access to an array. *)
Definition rget {A} (a : list A) (i : Z) : result A := lift (aget a i).
Definition rset {A} (a : list A) (i : Z) (x : A) : result (list A) := lift (aset a i x).

Lemma rget_Ok {A} (a : list A) i x : rget a i = Ok x -> aget a i = Some x.
Proof. unfold rget. by destruct (aget a i); simpl; intros; simplify_eq. Qed.

(** ** Memory blocks

    A block is a list of bytes in [Z]; the copies check their bounds. *)

(** [memcpy(dst + off, src, length src)] *)
Definition poke (dst : list Z) (off : Z) (src : list Z) : result (list Z) :=
  if (0 <=? off) && (off + Z.of_nat (length src) <=? Z.of_nat (length dst))
  then Ok (take (Z.to_nat off) dst ++ src ++ drop (Z.to_nat off + length src) dst)
  else Undefined.

(** The [n] bytes from [src + off] on. *)
Definition peek (src : list Z) (off n : Z) : result (list Z) :=
  if (0 <=? off) && (0 <=? n) && (off + n <=? Z.of_nat (length src))
  then Ok (take (Z.to_nat n) (drop (Z.to_nat off) src)) else Undefined.
