(* ===== verification/FlexTables.v ===== *)
(** The tables of the generated scanner src/compiler/lab1/lex.yy.c. *)

From S2P Require Import Prelude.

Definition YY_NUM_RULES : Z := 4.
Definition YY_END_OF_BUFFER : Z := 5.
Definition YY_END_OF_BUFFER_CHAR : Z := 0.
Definition YY_BUF_SIZE : Z := 16384.
Definition YY_READ_BUF_SIZE : Z := 8192.
(** [YY_STATE_EOF(INITIAL)] *)
Definition YY_STATE_EOF (state : Z) : Z := YY_END_OF_BUFFER + state + 1.

Definition yy_accept : list Z := [0; 0; 0; 5; 3; 1; 2; 2; 0].

Definition yy_ec : list Z := Eval cbv in
  [0; 1; 1; 1; 1; 1; 1; 1; 1; 1; 2] ++ repeat 1 37 ++ repeat 3 10 ++ repeat 1 7
  ++ repeat 3 26 ++ repeat 1 6 ++ repeat 3 26 ++ repeat 1 133.

Definition yy_meta : list Z := [0; 1; 1; 2].
Definition yy_base : list Z := [0; 0; 0; 5; 6; 6; 0; 0; 6; 2].
Definition yy_def : list Z := [0; 8; 1; 8; 8; 8; 9; 9; 0; 8].
Definition yy_nxt : list Z := [0; 4; 5; 6; 7; 8; 3; 8; 8; 8].
Definition yy_chk : list Z := [0; 1; 1; 1; 9; 3; 8; 8; 8; 8].

(** A state whose base is [YY_JAM_BASE] ends the match; [YY_JAM_STATE] is the
    state without a transition. *)
Definition YY_JAM_BASE : Z := 6.
Definition YY_JAM_STATE : Z := 8.
Definition YY_FIRST_TEMPLATE : Z := 9.
