(* ===== verification/FlexScanner.v ===== *)
(** The generated scanner of the word counter (src/compiler/lab1/lex.yy.c): its
    buffer, the refilling of the buffer and the function [yylex], label by label.

    A pointer into the buffer is an index; every access to a table or to the
    buffer is checked, and an access outside is [Undefined]. Bytes are
    numbers from 0 to 255. *)

From S2P Require Import Prelude Result FlexTables.
From stdpp Require Import strings.
#[local] Open Scope Z_scope.
#[local] Open Scope cint_scope.

(** ** State *)

Inductive buffer_status := YY_BUFFER_NEW | YY_BUFFER_NORMAL | YY_BUFFER_EOF_PENDING.

(** [struct yy_buffer_state], the fields that the scanner reads. *)
Record buffer := Buffer {
  yy_ch_buf : list Z;
  yy_buf_pos : Z;
  yy_buf_size : Z;
  b_n_chars : Z;
  yy_is_our_buffer : bool;
  yy_is_interactive : bool;
  yy_fill_buffer : bool;
  yy_buffer_status : buffer_status
}.

(** A readable stream: the bytes to come, and whether reading past them is an
    error instead of the end of the file. *)
Record file := File { bytes : list Z; ferror : bool }.

(** The globals of the scanner; [buf] is [YY_CURRENT_BUFFER]. *)
Record globals := Globals {
  buf : buffer;
  yytext_ptr : Z;
  yyleng : Z;
  yy_c_buf_p : Z;
  yy_hold_char : Z;
  yy_n_chars : Z;
  yy_last_accepting_state : Z;
  yy_last_accepting_cpos : Z;
  yyin : file;
  lineCount : Z;
  wordCount : Z;
  letterCount : Z
}.

Definition with_buf (g : globals) (b : buffer) : globals :=
  Globals b (yytext_ptr g) (yyleng g) (yy_c_buf_p g) (yy_hold_char g) (yy_n_chars g)
    (yy_last_accepting_state g) (yy_last_accepting_cpos g) (yyin g)
    (lineCount g) (wordCount g) (letterCount g).

Definition with_ch_buf (g : globals) (cs : list Z) : globals :=
  let b := buf g in
  with_buf g (Buffer cs (yy_buf_pos b) (yy_buf_size b) (b_n_chars b) (yy_is_our_buffer b)
                (yy_is_interactive b) (yy_fill_buffer b) (yy_buffer_status b)).

Definition with_status (g : globals) (n : Z) (s : buffer_status) : globals :=
  let b := buf g in
  with_buf g (Buffer (yy_ch_buf b) (yy_buf_pos b) (yy_buf_size b) n (yy_is_our_buffer b)
                (yy_is_interactive b) (yy_fill_buffer b) s).

(** [yytext_ptr], [yy_c_buf_p] and [yy_n_chars] *)
Definition with_ptrs (g : globals) (text cbufp n : Z) : globals :=
  Globals (buf g) text (yyleng g) cbufp (yy_hold_char g) n
    (yy_last_accepting_state g) (yy_last_accepting_cpos g) (yyin g)
    (lineCount g) (wordCount g) (letterCount g).

Definition with_token (g : globals) (text leng cbufp hold : Z) : globals :=
  Globals (buf g) text leng cbufp hold (yy_n_chars g)
    (yy_last_accepting_state g) (yy_last_accepting_cpos g) (yyin g)
    (lineCount g) (wordCount g) (letterCount g).

Definition with_last (g : globals) (state cpos : Z) : globals :=
  Globals (buf g) (yytext_ptr g) (yyleng g) (yy_c_buf_p g) (yy_hold_char g) (yy_n_chars g)
    state cpos (yyin g) (lineCount g) (wordCount g) (letterCount g).

Definition with_in (g : globals) (f : file) : globals :=
  Globals (buf g) (yytext_ptr g) (yyleng g) (yy_c_buf_p g) (yy_hold_char g) (yy_n_chars g)
    (yy_last_accepting_state g) (yy_last_accepting_cpos g) f
    (lineCount g) (wordCount g) (letterCount g).

(** [unsigned long] counters *)
Definition with_counts (g : globals) (l w c : Z) : globals :=
  Globals (buf g) (yytext_ptr g) (yyleng g) (yy_c_buf_p g) (yy_hold_char g) (yy_n_chars g)
    (yy_last_accepting_state g) (yy_last_accepting_cpos g) (yyin g)
    (uint64 l) (uint64 w) (uint64 c).

Definition ch (g : globals) (i : Z) : result Z := lift (aget (yy_ch_buf (buf g)) i).

Definition set_ch (g : globals) (i c : Z) : result globals :=
  cs ← lift (aset (yy_ch_buf (buf g)) i c); Ok (with_ch_buf g cs).

(** ** The automaton *)

(** The transition on the class [yy_c]: follow [yy_def] until the state owns
    the entry. *)
Fixpoint yy_next_state (fuel : nat) (yy_current_state yy_c : Z) : option Z :=
  match fuel with
  | O => None
  | S fuel =>
    base ← aget yy_base yy_current_state;
    chk ← aget yy_chk (base + yy_c);
    if chk =? yy_current_state then aget yy_nxt (base + yy_c)
    else
      def ← aget yy_def yy_current_state;
      yy_c' ← (if YY_FIRST_TEMPLATE <=? def then aget yy_meta yy_c else Some yy_c);
      yy_next_state fuel def yy_c'
  end.

Definition yy_transition (state c : Z) : result Z := lift (yy_next_state 10 state c).

(** [if ( yy_accept[yy_current_state] ) ...] *)
Definition note_accepting (g : globals) (state cp : Z) : result globals :=
  acc ← lift (aget yy_accept state);
  Ok (if acc =? 0 then g else with_last g state cp).

(** The loop of [yy_get_previous_state] from [yy_cp] up to [yy_c_buf_p]. *)
Fixpoint previous_state_loop (n : nat) (cp state : Z) (g : globals) : result (Z * globals) :=
  match n with
  | O => Ok (state, g)
  | S n =>
    c ← ch g cp;
    yy_c ← (if c =? 0 then Ok 1 else lift (aget yy_ec c));
    g ← note_accepting g state cp;
    state ← yy_transition state yy_c;
    previous_state_loop n (cp + 1) state g
  end.

Definition yy_start : Z := 1.
Definition YY_START : Z := (yy_start - 1) / 2.

Definition yy_get_previous_state (g : globals) : result (Z * globals) :=
  previous_state_loop (Z.to_nat (yy_c_buf_p g - yytext_ptr g)) (yytext_ptr g) yy_start g.

(** The state after the NUL character, 0 when there is none. *)
Definition yy_try_NUL_trans (state : Z) (g : globals) : result (Z * globals) :=
  g ← note_accepting g state (yy_c_buf_p g);
  state ← yy_transition state 1;
  Ok (if state =? YY_JAM_STATE then 0 else state, g).

(** [YY_DO_BEFORE_ACTION] *)
Definition YY_DO_BEFORE_ACTION (g : globals) (bp cp : Z) : result globals :=
  hold ← ch g cp;
  g ← set_ch g cp 0;
  Ok (with_token g bp (uint64 (cp - bp)) cp hold).

(** ** Buffers *)

Section Scanner.
(** [isatty(fileno(yyin)) > 0] *)
Variable isatty : bool.
(** [malloc] and [realloc] give a block of this many bytes; its content, where
    it is not the content of the old block. *)
Variable alloc_ok : Z -> bool.
Variable junk : Z.

(** [yy_load_buffer_state] *)
Definition yy_load_buffer_state (g : globals) : result globals :=
  let b := buf g in
  hold ← ch g (yy_buf_pos b);
  Ok (with_token (with_ptrs g (yy_buf_pos b) (yy_buf_pos b) (b_n_chars b))
        (yy_buf_pos b) (yyleng g) (yy_buf_pos b) hold).

(** [yy_flush_buffer] of the current buffer; a buffer that is being created is
    not current yet, and [load] is then false. *)
Definition yy_flush_buffer (load : bool) (g : globals) : result globals :=
  g ← set_ch g 0 YY_END_OF_BUFFER_CHAR;
  g ← set_ch g 1 YY_END_OF_BUFFER_CHAR;
  let b := buf g in
  let g := with_buf g (Buffer (yy_ch_buf b) 0 (yy_buf_size b) 0 (yy_is_our_buffer b)
                         (yy_is_interactive b) (yy_fill_buffer b) YY_BUFFER_NEW) in
  if load then yy_load_buffer_state g else Ok g.

(** [yy_init_buffer] *)
Definition yy_init_buffer (load : bool) (g : globals) : result globals :=
  g ← yy_flush_buffer load g;
  let b := buf g in
  Ok (with_buf g (Buffer (yy_ch_buf b) (yy_buf_pos b) (yy_buf_size b) (b_n_chars b)
                    (yy_is_our_buffer b) isatty true (yy_buffer_status b))).

(** [yyrestart], with a current buffer *)
Definition yyrestart (g : globals) : result globals :=
  g ← yy_init_buffer true g; yy_load_buffer_state g.

(** [yy_create_buffer]: the new buffer becomes the current one. *)
Definition yy_create_buffer (size : Z) (g : globals) : result globals :=
  if alloc_ok (size + 2) then
    yy_init_buffer false
      (with_buf g (Buffer (repeat junk (Z.to_nat (size + 2))) 0 size 0 true false false
                     YY_BUFFER_NEW))
  else Fatal "out of dynamic memory in yy_create_buffer()".

(** [yyrealloc] of the buffer *)
Definition realloc (cs : list Z) (size : Z) : list Z :=
  take (Z.to_nat size) cs ++ repeat junk (Z.to_nat size - length cs).

(** The bytes [getc] delivers up to [max], a newline or the end; whether the
    end was met. *)
Fixpoint getc_line (max : nat) (cs : list Z) : list Z * list Z * bool :=
  match max with
  | O => ([], cs, false)
  | S max =>
    match cs with
    | [] => ([], [], true)
    | c :: cs =>
      if c =? 10 then ([c], cs, false)
      else let '(l, r, e) := getc_line max cs in (c :: l, r, e)
    end
  end.

Fixpoint store (g : globals) (i : Z) (cs : list Z) : result globals :=
  match cs with
  | [] => Ok g
  | c :: cs => g ← set_ch g i c; store g (i + 1) cs
  end.

(** [YY_INPUT] *)
Definition YY_INPUT (g : globals) (dest max_size : Z) : result (globals * Z) :=
  let '(File cs err) := yyin g in
  if yy_is_interactive (buf g) then
    let '(l, r, e) := getc_line (Z.to_nat max_size) cs in
    if e && err then Fatal "input in flex scanner failed"
    else g ← store (with_in g (File r err)) dest l; Ok (g, Z.of_nat (length l))
  else
    let l := take (Z.to_nat max_size) cs in
    if (Z.of_nat (length l) =? 0) && err then Fatal "input in flex scanner failed"
    else
      g ← store (with_in g (File (drop (Z.to_nat max_size) cs) err)) dest l;
      Ok (g, Z.of_nat (length l)).

(** [for ( i = 0; i < number_to_move; ++i ) *dest++ = *source++;] *)
Fixpoint move (n : nat) (dest source : Z) (g : globals) : result globals :=
  match n with
  | O => Ok g
  | S n => c ← ch g source; g ← set_ch g dest c; move n (dest + 1) (source + 1) g
  end.

(** [while ( num_to_read <= 0 )]: the buffer grows. *)
Fixpoint grow (fuel : nat) (number_to_move num_to_read : Z) (g : globals) : result (Z * globals) :=
  match fuel with
  | O => Undefined
  | S fuel =>
    if num_to_read <=? 0 then
      let b := buf g in
      if yy_is_our_buffer b then
        let new_size := uint64 (yy_buf_size b * 2) in
        let size := if new_size <=? 0 then uint64 (yy_buf_size b + yy_buf_size b / 8)
                    else new_size in
        if alloc_ok (uint64 (size + 2)) then
          let b' := Buffer (realloc (yy_ch_buf b) (uint64 (size + 2))) (yy_buf_pos b) size
                      (b_n_chars b) true (yy_is_interactive b) (yy_fill_buffer b)
                      (yy_buffer_status b) in
          let g' := with_ptrs (with_buf g b') (yytext_ptr g) (int32 (yy_c_buf_p g)) (yy_n_chars g) in
          grow fuel number_to_move (uint64 (size - number_to_move - 1)) g'
        else Fatal "fatal error - scanner input buffer overflow"
      else Fatal "fatal error - scanner input buffer overflow"
    else Ok (num_to_read, g)
  end.

Inductive eob_act := EOB_ACT_CONTINUE_SCAN | EOB_ACT_END_OF_FILE | EOB_ACT_LAST_MATCH.

(** The reading part of [yy_get_next_buffer]: [yy_n_chars] is what was read. *)
Definition read_more (g : globals) (number_to_move : Z) : result globals :=
  match yy_buffer_status (buf g) with
  | YY_BUFFER_EOF_PENDING =>
    Ok (with_status (with_ptrs g (yytext_ptr g) (yy_c_buf_p g) 0) 0 YY_BUFFER_EOF_PENDING)
  | s =>
    '(num_to_read, g) ← grow 65 number_to_move
                          (uint64 (yy_buf_size (buf g) - number_to_move - 1)) g;
    let num_to_read := if YY_READ_BUF_SIZE <? num_to_read then YY_READ_BUF_SIZE else num_to_read in
    '(g, n) ← YY_INPUT g number_to_move num_to_read;
    Ok (with_status (with_ptrs g (yytext_ptr g) (yy_c_buf_p g) n) n s)
  end.

(** The end of [yy_get_next_buffer]: the two end-of-buffer characters. *)
Definition close_buffer (g : globals) (number_to_move : Z) : result globals :=
  let n := yy_n_chars g in
  g ← (if yy_buf_size (buf g) <? uint64 (int32 (n + number_to_move)) then
         let new_size := int32 (n + number_to_move + Z.shiftr n 1) in
         if alloc_ok new_size then Ok (with_ch_buf g (realloc (yy_ch_buf (buf g)) new_size))
         else Fatal "out of dynamic memory in yy_get_next_buffer()"
       else Ok g);
  let n := int32 (n + number_to_move) in
  g ← set_ch g n YY_END_OF_BUFFER_CHAR;
  g ← set_ch g (n + 1) YY_END_OF_BUFFER_CHAR;
  Ok (with_ptrs g 0 (yy_c_buf_p g) n).

(** [yy_get_next_buffer] *)
Definition yy_get_next_buffer (g : globals) : result (eob_act * globals) :=
  if yy_n_chars g + 1 <? yy_c_buf_p g then
    Fatal "fatal flex scanner internal error--end of buffer missed"
  else if negb (yy_fill_buffer (buf g)) then
    Ok (if yy_c_buf_p g - yytext_ptr g =? 1 then EOB_ACT_END_OF_FILE else EOB_ACT_LAST_MATCH, g)
  else
    let number_to_move := uint64 (yy_c_buf_p g - yytext_ptr g - 1) in
    g ← move (Z.to_nat number_to_move) 0 (yytext_ptr g) g;
    g ← read_more g number_to_move;
    '(ret_val, g) ←
      (if yy_n_chars g =? 0 then
         if number_to_move =? 0 then
           g ← yyrestart g; Ok (EOB_ACT_END_OF_FILE, g)
         else
           Ok (EOB_ACT_LAST_MATCH, with_status g (b_n_chars (buf g)) YY_BUFFER_EOF_PENDING)
       else Ok (EOB_ACT_CONTINUE_SCAN, g));
    g ← close_buffer g number_to_move;
    Ok (ret_val, g).

(** ** [yylex] *)

(** The labels of [yylex], with its locals [yy_bp], [yy_cp] and
    [yy_current_state]. *)
Inductive label :=
| Ltop
| Lmatch (bp cp cur : Z)
| Lfind (bp cp cur : Z)
| Laction (act bp cp cur : Z).

Inductive outcome :=
| Goto (l : label) (g : globals)
| Return (r : Z) (g : globals).

Definition yywrap : Z := 1.

(** The beginning of the outer loop: undo [YY_DO_BEFORE_ACTION]. *)
Definition scan_token (g : globals) : result outcome :=
  let cp := yy_c_buf_p g in
  g ← set_ch g cp (yy_hold_char g);
  Ok (Goto (Lmatch cp cp yy_start) g).

(** One round of the loop at [yy_match]. *)
Definition yy_match (g : globals) (bp cp cur : Z) : result outcome :=
  c ← ch g cp;
  yy_c ← lift (aget yy_ec c);
  g ← note_accepting g cur cp;
  cur ← yy_transition cur yy_c;
  base ← lift (aget yy_base cur);
  Ok (Goto (if base =? YY_JAM_BASE then Lfind bp (cp + 1) cur else Lmatch bp (cp + 1) cur) g).

(** [yy_find_action] *)
Definition yy_find_action (g : globals) (bp cp cur : Z) : result outcome :=
  act ← lift (aget yy_accept cur);
  let '(cp, cur) := if act =? 0 then (yy_last_accepting_cpos g, yy_last_accepting_state g)
                    else (cp, cur) in
  act ← lift (aget yy_accept cur);
  g ← YY_DO_BEFORE_ACTION g bp cp;
  Ok (Goto (Laction act bp cp cur) g).

(** [YY_BUFFER_NEW] becomes [YY_BUFFER_NORMAL]. *)
Definition accept_new_buffer (g : globals) : globals :=
  match yy_buffer_status (buf g) with
  | YY_BUFFER_NEW =>
    with_status (with_ptrs g (yytext_ptr g) (yy_c_buf_p g) (b_n_chars (buf g)))
      (b_n_chars (buf g)) YY_BUFFER_NORMAL
  | _ => g
  end.

(** A NUL character of the input. *)
Definition real_nul (g : globals) (amount : Z) : result outcome :=
  let g := with_ptrs g (yytext_ptr g) (yytext_ptr g + amount) (yy_n_chars g) in
  '(cur, g) ← yy_get_previous_state g;
  '(next, g) ← yy_try_NUL_trans cur g;
  if next =? 0 then Ok (Goto (Lfind (yytext_ptr g) (yy_c_buf_p g) cur) g)
  else
    let g := with_ptrs g (yytext_ptr g) (yy_c_buf_p g + 1) (yy_n_chars g) in
    Ok (Goto (Lmatch (yytext_ptr g) (yy_c_buf_p g) next) g).

(** [switch ( yy_get_next_buffer() )] *)
Definition after_refill (r : eob_act) (g : globals) (amount bp cp cur : Z) : result outcome :=
  match r with
  | EOB_ACT_END_OF_FILE =>
    if yywrap =? 0 then g ← yyrestart g; Ok (Goto Ltop g)
    else
      Ok (Goto (Laction (YY_STATE_EOF YY_START) bp cp cur)
            (with_ptrs g (yytext_ptr g) (yytext_ptr g) (yy_n_chars g)))
  | EOB_ACT_CONTINUE_SCAN =>
    let g := with_ptrs g (yytext_ptr g) (yytext_ptr g + amount) (yy_n_chars g) in
    '(cur, g) ← yy_get_previous_state g;
    Ok (Goto (Lmatch (yytext_ptr g) (yy_c_buf_p g) cur) g)
  | EOB_ACT_LAST_MATCH =>
    let g := with_ptrs g (yytext_ptr g) (yy_n_chars g) (yy_n_chars g) in
    '(cur, g) ← yy_get_previous_state g;
    Ok (Goto (Lfind (yytext_ptr g) (yy_c_buf_p g) cur) g)
  end.

(** [case YY_END_OF_BUFFER] *)
Definition end_of_buffer (g : globals) (bp cp cur : Z) : result outcome :=
  let amount := int32 (int32 (cp - yytext_ptr g) - 1) in
  g ← set_ch g cp (yy_hold_char g);
  let g := accept_new_buffer g in
  if yy_c_buf_p g <=? yy_n_chars g then real_nul g amount
  else '(r, g) ← yy_get_next_buffer g; after_refill r g amount bp cp cur.

(** [do_action]; the output of [ECHO] is not part of the state. *)
Definition do_action (g : globals) (act bp cp cur : Z) : result outcome :=
  if act =? 0 then
    g ← set_ch g cp (yy_hold_char g);
    Ok (Goto (Lfind bp (yy_last_accepting_cpos g) (yy_last_accepting_state g)) g)
  else if act =? 1 then
    Ok (Goto Ltop (with_counts g (lineCount g + 1) (wordCount g) (letterCount g + 1)))
  else if act =? 2 then
    Ok (Goto Ltop (with_counts g (lineCount g) (wordCount g + 1) (letterCount g + yyleng g)))
  else if act =? 3 then
    Ok (Goto Ltop (with_counts g (lineCount g) (wordCount g) (letterCount g + 1)))
  else if act =? YY_NUM_RULES then Ok (Goto Ltop g)
  else if act =? YY_STATE_EOF 0 then Ok (Return 0 g)
  else if act =? YY_END_OF_BUFFER then end_of_buffer g bp cp cur
  else Fatal "fatal flex scanner internal error--no action found".

Definition step (l : label) (g : globals) : result outcome :=
  match l with
  | Ltop => scan_token g
  | Lmatch bp cp cur => yy_match g bp cp cur
  | Lfind bp cp cur => yy_find_action g bp cp cur
  | Laction act bp cp cur => do_action g act bp cp cur
  end.

(** [None]: the fuel did not suffice. *)
Fixpoint run (fuel : nat) (l : label) (g : globals) : option (result (Z * globals)) :=
  match fuel with
  | O => None
  | S fuel =>
    match step l g with
    | Ok (Goto l g) => run fuel l g
    | Ok (Return r g) => Some (Ok (r, g))
    | Fatal m => Some (Fatal m)
    | Undefined => Some Undefined
    end
  end.

(** The static variables at the start of the program. *)
Definition globals0 (f : file) : globals :=
  Globals (Buffer [] 0 0 0 false false false YY_BUFFER_NEW) 0 0 0 0 0 0 0 f 0 0 0.

(** The first call of [yylex]: [yy_create_buffer] and [yy_load_buffer_state]. *)
Definition yylex_init (size : Z) (f : file) : result globals :=
  g ← yy_create_buffer size (globals0 f); yy_load_buffer_state g.

Definition yylex_from (size : Z) (fuel : nat) (f : file) : option (result (Z * globals)) :=
  match yylex_init size f with
  | Ok g => run fuel Ltop g
  | Fatal m => Some (Fatal m)
  | Undefined => Some Undefined
  end.

Definition yylex (fuel : nat) (f : file) : option (result (Z * globals)) :=
  yylex_from YY_BUF_SIZE fuel f.

(** [main]: the words, characters and lines that are printed. *)
Definition main (fuel : nat) (f : file) : option (result (Z * Z * Z)) :=
  match yylex fuel f with
  | Some (Ok (_, g)) => Some (Ok (wordCount g, letterCount g, lineCount g))
  | Some (Fatal m) => Some (Fatal m)
  | Some Undefined => Some Undefined
  | None => None
  end.

End Scanner.

(** ["ab 1\n\0\0c"] *)
Example main_example :
  main false (fun _ => true) 170 200 (File [97; 98; 32; 49; 10; 0; 0; 99] false)
  = Some (Ok (3, 8, 1)).
Proof. vm_compute. reflexivity. Qed.

(** A buffer of two bytes, and a terminal *)
Example small_example b :
  match yylex_from b (fun _ => true) 170 2 200 (File [97; 98; 32; 49; 10; 0; 0; 99; 99; 99; 0; 98; 99; 10] false) with
  | Some (Ok (0, g)) => wordCount g = 4 /\ letterCount g = 14 /\ lineCount g = 2
  | _ => False
  end.
Proof. destruct b; vm_compute; done. Qed.
