(* ===== verification/FlexSpec.v ===== *)
(** What the word counter counts, and the tokens its rules describe: the
    specification of the generated scanner. *)

From S2P Require Import Prelude Result FlexTables FlexScanner.
#[local] Open Scope Z_scope.

Definition isalnum (c : Z) : bool :=
  ((48 <=? c) && (c <=? 57)) || ((65 <=? c) && (c <=? 90)) || ((97 <=? c) && (c <=? 122)).

Definition bytes_ok (cs : list Z) : Prop := Forall (fun c => 0 <= c < 256) cs.

(** ** Reference counts of a text *)

Fixpoint lines_of (cs : list Z) : Z :=
  match cs with [] => 0 | c :: cs => (if c =? 10 then 1 else 0) + lines_of cs end.

(** A word begins at an alphanumeric character that follows none. *)
Fixpoint words_of (after_word : bool) (cs : list Z) : Z :=
  match cs with
  | [] => 0
  | c :: cs => (if isalnum c && negb after_word then 1 else 0) + words_of (isalnum c) cs
  end.

(** The words of wc, with which the comment in [main] compares the result: what white space
    separates. *)
Definition isspace (c : Z) : bool := (9 <=? c) && (c <=? 13) || (c =? 32).

Fixpoint wc_words (after_word : bool) (cs : list Z) : Z :=
  match cs with
  | [] => 0
  | c :: cs => (if negb (isspace c) && negb after_word then 1 else 0) + wc_words (negb (isspace c)) cs
  end.

(** The two agree on texts of letters, digits and white space; other characters make the
    difference. *)
Lemma words_as_wc b cs : Forall (fun c => isalnum c = negb (isspace c)) cs -> words_of b cs = wc_words b cs.
Proof. intros H. revert b. induction H as [|c cs Hc _ IH]; intros b; [done|]. cbn. by rewrite <- Hc, IH. Qed.

(** ["a-b"] is two words for [main] and one for wc, ["---"] none and one. *)
Example wc_differs : (words_of false [97; 45; 98], wc_words false [97; 45; 98]) = (2, 1)
  /\ (words_of false [45; 45; 45], wc_words false [45; 45; 45]) = (0, 1).
Proof. done. Qed.

(** ** The tokens of the rules: longest match, first rule *)

(** The rule and the length of the next token. *)
Fixpoint run_length (cs : list Z) : nat :=
  match cs with [] => 0 | c :: cs => if isalnum c then S (run_length cs) else 0 end.

Definition token_len (cs : list Z) : nat :=
  match cs with [] => 0 | c :: cs => if isalnum c then S (run_length cs) else 1 end.

Definition token_rule (cs : list Z) : Z :=
  match cs with [] => 0 | c :: _ => if c =? 10 then 1 else if isalnum c then 2 else 3 end.

Lemma run_length_le cs : (run_length cs <= length cs)%nat.
Proof. induction cs as [|c cs IH]; simpl; [lia|]. destruct (isalnum c); lia. Qed.

Lemma run_length_lookup cs i : (i < run_length cs)%nat -> exists c, cs !! i = Some c /\ isalnum c = true.
Proof.
  revert i. induction cs as [|c cs IH]; intros i; simpl; [lia|].
  destruct (isalnum c) eqn:E; [|lia]. destruct i as [|i]; intros H; [by exists c|].
  apply IH. lia.
Qed.

Lemma run_length_stop cs c : cs !! run_length cs = Some c -> isalnum c = false.
Proof.
  induction cs as [|d cs IH]; simpl; [done|].
  destruct (isalnum d) eqn:E; simpl; [done|]. intros. by simplify_eq.
Qed.

Lemma run_length_app cs ds :
  run_length (cs ++ ds) = if decide (run_length cs = length cs)
                          then (length cs + run_length ds)%nat else run_length cs.
Proof.
  induction cs as [|c cs IH]; cbn [run_length app length]; [done|].
  destruct (isalnum c) eqn:E; [rewrite IH|]; repeat destruct (decide _); lia.
Qed.

(** Inside a word all data from its start on are word characters. *)
Lemma run_tail cs k : (k <= run_length cs)%nat -> run_length (drop k cs) = (run_length cs - k)%nat.
Proof.
  revert k. induction cs as [|c cs IH]; intros k Hk; simpl in *; [by rewrite drop_nil|].
  destruct (isalnum c) eqn:E.
  - destruct k as [|k]; simpl; [by rewrite E|]. apply IH. lia.
  - replace k with 0%nat by lia. simpl. by rewrite E.
Qed.

Lemma run_take cs k : (k <= run_length cs)%nat -> run_length (take k cs) = k.
Proof.
  revert k. induction cs as [|c cs IH]; intros k Hk; simpl in Hk.
  - by replace k with 0%nat by lia.
  - destruct k as [|k]; [done|]. simpl. destruct (isalnum c); [|lia]. rewrite IH; lia.
Qed.

Lemma token_len_le cs : (token_len cs <= length cs)%nat.
Proof. destruct cs as [|c cs]; simpl; [lia|]. pose proof (run_length_le cs). destruct (isalnum c); lia. Qed.

(** ** Counting token by token is counting the text *)

Lemma lines_of_run cs : lines_of (drop (run_length cs) cs) = lines_of cs.
Proof.
  induction cs as [|c cs IH]; simpl; [done|]. destruct (isalnum c) eqn:E; simpl; [|done].
  rewrite IH. case_bool; [by subst|lia].
Qed.

Lemma words_of_run cs : words_of false (drop (run_length cs) cs) = words_of true cs.
Proof.
  induction cs as [|c cs IH]; simpl; [done|]. destruct (isalnum c) eqn:E; simpl.
  - by rewrite IH.
  - by rewrite E.
Qed.

Lemma words_of_other c cs : isalnum c = false -> words_of false (c :: cs) = words_of false cs.
Proof. intros E. simpl. by rewrite E. Qed.

Lemma lines_of_token cs : cs <> [] ->
  lines_of cs = (if token_rule cs =? 1 then 1 else 0) + lines_of (drop (token_len cs) cs).
Proof.
  destruct cs as [|c cs]; [done|]. intros _. simpl. destruct (Z.eqb_spec c 10) as [->|Hc]; [done|].
  destruct (isalnum c); simpl; [by rewrite lines_of_run|by rewrite drop_0].
Qed.

Lemma words_of_token cs : cs <> [] ->
  words_of false cs = (if token_rule cs =? 2 then 1 else 0) + words_of false (drop (token_len cs) cs).
Proof.
  destruct cs as [|c cs]; [done|]. intros _. simpl. destruct (Z.eqb_spec c 10) as [->|Hc].
  - simpl. by rewrite drop_0.
  - destruct (isalnum c) eqn:E; simpl; [by rewrite words_of_run|by rewrite drop_0].
Qed.
