(* ===== verification/FlexRefine.v ===== *)
(** The generated scanner of FlexScanner delivers the tokens of FlexSpec: from
    a buffer that holds a part of the stream, [yylex] reaches the action of the
    rule of the next token, however often the buffer is refilled or grown on
    the way. *)

From S2P Require Import Prelude Result FlexTables FlexScanner FlexSpec.
From stdpp Require Import strings.
#[local] Open Scope Z_scope.

(** ** The automaton *)

(** The class of a byte; the NUL character ends a buffer or is like any other
    character that is no word character. *)
Definition byte_class (c : Z) : Z :=
  if c =? 0 then 0 else if c =? 10 then 2 else if isalnum c then 3 else 1.

Lemma yy_ec_spec c : 0 <= c < 256 -> aget yy_ec c = Some (byte_class c).
Proof.
  intros H.
  pose proof (zrange_forallb 0 256
    (fun c => from_option (fun x => x =? byte_class c) false (aget yy_ec c))
    ltac:(vm_compute; reflexivity) c H) as E. cbn beta in E.
  destruct (aget yy_ec c) as [x|]; simpl in E; [|done]. by apply Z.eqb_eq in E as ->.
Qed.

Lemma byte_class_range c : 0 <= byte_class c < 4.
Proof. unfold byte_class. repeat case_match; lia. Qed.

(** The transitions of the states the scanner is in: 1 before a token, 4 after
    a NUL character, 6 and 7 in a word, 3 at the end of the buffer. *)
Definition word_state (q : Z) : Prop := q = 6 \/ q = 7.

Lemma trans_start : map (yy_transition 1) [0; 1; 2; 3] = map Ok [3; 4; 5; 6].
Proof. vm_compute. reflexivity. Qed.

Lemma trans_word q : word_state q -> map (yy_transition q) [0; 1; 2; 3] = map Ok [3; 8; 8; 7].
Proof. intros [->| ->]; vm_compute; reflexivity. Qed.

Lemma trans_nul : map (yy_transition 4) [0; 1; 2; 3] = map Ok [3; 8; 8; 8].
Proof. vm_compute. reflexivity. Qed.

Lemma trans_end c : 0 <= c < 4 -> yy_transition 3 c = Ok 8.
Proof. intros H. assert (c = 0 \/ c = 1 \/ c = 2 \/ c = 3) as [->|[->|[->| ->]]] by lia; done. Qed.

Lemma trans_of q rs c :
  map (yy_transition q) [0; 1; 2; 3] = map Ok rs -> 0 <= c < 4 ->
  exists r, rs !! Z.to_nat c = Some r /\ yy_transition q c = Ok r.
Proof.
  intros E H. destruct rs as [|r0 [|r1 [|r2 [|r3 [|]]]]]; cbn [map] in E; simplify_eq.
  assert (c = 0 \/ c = 1 \/ c = 2 \/ c = 3) as [->|[->|[->| ->]]] by lia; eexists; split; done.
Qed.

(** ** Paths *)

Section Refine.
Variable isatty : bool.
Variable alloc_ok : Z -> bool.
Variable junk : Z.
Hypothesis alloc : forall n, alloc_ok n = true.

Abbreviation run := (run isatty alloc_ok junk).
Abbreviation step := (step isatty alloc_ok junk).

Abbreviation run_from := (fun fuel (c : label * globals) => run fuel c.1 c.2).

Definition reaches (l : label) (g : globals) (l' : label) (g' : globals) : Prop :=
  leads_to run_from (l, g) (l', g').

Lemma reaches_next l g l1 g1 l' g' :
  step l g = Ok (Goto l1 g1) -> reaches l1 g1 l' g' -> reaches l g l' g'.
Proof. intros H. apply leads_to_step. intros fuel. simpl. by rewrite H. Qed.

(** ** The buffer *)

(** The buffer holds [d] and the two end-of-buffer characters; [rest] is still
    to be read. [cs] is the content of the buffer without the NUL character
    that ends [yytext]. *)
Record holds (g : globals) (cs d rest : list Z) : Prop := {
  H_data : take (length d + 2) cs = d ++ [0; 0];
  H_size : Z.of_nat (length cs) = yy_buf_size (buf g) + 2;
  H_room : Z.of_nat (length d) + 1 <= yy_buf_size (buf g) < 2 ^ 62;
  H_n : yy_n_chars g = Z.of_nat (length d);
  H_bn : yy_buffer_status (buf g) = YY_BUFFER_NEW -> b_n_chars (buf g) = Z.of_nat (length d);
  H_total : Z.of_nat (length d + length rest) < 2 ^ 31 - 2;
  H_bytes : bytes_ok (d ++ rest);
  H_in : yyin g = File rest false;
  H_eof : yy_buffer_status (buf g) = YY_BUFFER_EOF_PENDING -> rest = [];
  H_our : yy_is_our_buffer (buf g) = true;
  H_fill : yy_fill_buffer (buf g) = true
}.

(** Only the position and state to back up to changed. *)
Definition upto_last (g g' : globals) : Prop := exists s c, g' = with_last g s c.

Lemma upto_last_refl g : upto_last g g.
Proof. exists (yy_last_accepting_state g), (yy_last_accepting_cpos g). by destruct g. Qed.

Lemma upto_last_trans g1 g2 g3 : upto_last g1 g2 -> upto_last g2 g3 -> upto_last g1 g3.
Proof. intros (s & c & ->) (s' & c' & ->). by exists s', c'. Qed.

Lemma holds_upto g g' cs d rest : upto_last g g' -> holds g cs d rest -> holds g' cs d rest.
Proof. intros (s & c & ->) []. by constructor. Qed.

(** The byte at the position [i]: of the data, or a end-of-buffer character. *)
Lemma holds_at g cs d rest i : holds g cs d rest -> (i < length d + 2)%nat ->
  cs !! i = Some (match d !! i with Some c => c | None => 0 end).
Proof.
  intros [Hd _ _ _ _ _ _ _ _ _ _] Hi.
  rewrite <- (lookup_take_lt cs (length d + 2) i) by done. rewrite Hd.
  destruct (d !! i) as [c|] eqn:E.
  - by apply lookup_app_l_Some.
  - apply lookup_ge_None in E. rewrite lookup_app_r by done.
    assert (i - length d = 0 \/ i - length d = 1)%nat as [-> | ->] by lia; done.
Qed.

Lemma holds_length g cs d rest : holds g cs d rest -> (length d + 3 <= length cs)%nat.
Proof. intros []. lia. Qed.

Lemma holds_byte g cs d rest i c : holds g cs d rest -> d !! i = Some c -> 0 <= c < 256.
Proof.
  intros [_ _ _ _ _ _ Hb _ _ _ _] Hi. apply (Forall_lookup_1 _ _ i _ Hb).
  by apply lookup_app_l_Some.
Qed.

Lemma ch_at g cs i : yy_ch_buf (buf g) = cs -> ch g (Z.of_nat i) = lift (cs !! i).
Proof. intros <-. unfold ch. by rewrite aget_nat. Qed.

Lemma set_ch_at g cs i c : yy_ch_buf (buf g) = cs -> (i < length cs)%nat ->
  set_ch g (Z.of_nat i) c = Ok (with_ch_buf g (<[i := c]> cs)).
Proof. intros <- Hi. unfold set_ch. by rewrite aset_nat. Qed.

Lemma note_accepting_ok g q cp : 0 <= q < 9 ->
  exists g', note_accepting g q cp = Ok g' /\ upto_last g g'
    /\ (aget yy_accept q <> Some 0 -> yy_last_accepting_state g' = q /\ yy_last_accepting_cpos g' = cp).
Proof.
  intros Hq. unfold note_accepting. destruct (aget_in_range yy_accept q) as [a E]; [done|].
  rewrite E. cbn. destruct (Z.eqb_spec a 0) as [->|Ha].
  - exists g. split; [done|]. split; [apply upto_last_refl|done].
  - exists (with_last g q cp). split; [done|]. split; [by exists q, cp|done].
Qed.

(** ** One round of the loop at [yy_match] *)

(** The next byte: the end-of-buffer character after the data. *)
Definition at_or_nul (d : list Z) (i : nat) : Z := default 0 (d !! i).

Lemma at_or_nul_byte g cs d rest i : holds g cs d rest -> 0 <= at_or_nul d i < 256.
Proof.
  intros Hg. unfold at_or_nul. destruct (d !! i) as [c|] eqn:E; simpl; [|lia].
  by eapply holds_byte.
Qed.

Lemma match_step g cs d rest bp i q q' :
  holds g cs d rest -> yy_ch_buf (buf g) = cs -> (i < length d + 2)%nat ->
  0 <= q < 9 -> yy_transition q (byte_class (at_or_nul d i)) = Ok q' -> 0 <= q' < 9 ->
  exists g', upto_last g g'
    /\ (aget yy_accept q <> Some 0 ->
        yy_last_accepting_state g' = q /\ yy_last_accepting_cpos g' = Z.of_nat i)
    /\ step (Lmatch bp (Z.of_nat i) q) g =
       Ok (Goto (if default 0 (aget yy_base q') =? YY_JAM_BASE then Lfind bp (Z.of_nat (S i)) q'
                 else Lmatch bp (Z.of_nat (S i)) q') g').
Proof.
  intros Hg Hcs Hi Hq Ht Hq'. pose proof (at_or_nul_byte g cs d rest i Hg) as Hc.
  destruct (note_accepting_ok g q (Z.of_nat i) Hq) as (g' & En & Hu & Hl).
  exists g'. split; [done|]. split; [done|].
  cbn [FlexScanner.step]. unfold yy_match. rewrite (ch_at g cs i Hcs), (holds_at g cs d rest i Hg Hi).
  change (match d !! i with Some c => c | None => 0 end) with (at_or_nul d i).
  cbn. rewrite (yy_ec_spec _ Hc). cbn. rewrite En. cbn. rewrite Ht. cbn.
  destruct (aget_in_range yy_base q') as [b ->]; [simpl; lia|]. cbn. by rewrite Z_of_nat_succ.
Qed.

Lemma upto_last_ch_buf g g' : upto_last g g' -> yy_ch_buf (buf g') = yy_ch_buf (buf g).
Proof. by intros (s & c & ->). Qed.

Lemma accepting_word q : word_state q -> 0 <= q < 9 /\ aget yy_accept q = Some 2.
Proof. intros [->| ->]; done. Qed.

Lemma word_class q c : word_state q -> c = 3 -> yy_transition q c = Ok 7.
Proof. intros [->| ->] ->; done. Qed.

Lemma byte_class_alnum c : isalnum c = true -> byte_class c = 3.
Proof.
  intros H. unfold byte_class. destruct (Z.eqb_spec c 0) as [->|]; [done|].
  destruct (Z.eqb_spec c 10) as [->|]; [done|]. by rewrite H.
Qed.

(** The characters of a word are skipped. *)
Lemma match_word k : forall g cs d rest bp i q,
  holds g cs d rest -> yy_ch_buf (buf g) = cs -> word_state q ->
  (k <= run_length (drop i d))%nat ->
  exists g' q', upto_last g g' /\ word_state q'
    /\ reaches (Lmatch bp (Z.of_nat i) q) g (Lmatch bp (Z.of_nat (i + k)) q') g'.
Proof.
  induction k as [|k IH]; intros g cs d rest bp i q Hg Hcs Hq Hk.
  - exists g, q. rewrite Nat.add_0_r. split; [apply upto_last_refl|]. split; [done|apply leads_to_refl].
  - destruct (drop i d) as [|c ds] eqn:Ed; simpl in Hk; [lia|].
    destruct (isalnum c) eqn:Ec; [|lia].
    assert (d !! i = Some c) as Ei.
    { rewrite <- (Nat.add_0_r i), <- lookup_drop, Ed. done. }
    assert (drop (S i) d = ds) as Ed'.
    { by rewrite <- Nat.add_1_r, <- drop_drop, Ed. }
    destruct (accepting_word q Hq) as [Hr _].
    destruct (match_step g cs d rest bp i q 7) as (g1 & Hu & _ & Es); try done.
    { apply lookup_lt_Some in Ei. lia. }
    { apply word_class; [done|]. unfold at_or_nul. rewrite Ei. by apply byte_class_alnum. }
    destruct (IH g1 cs d rest bp (S i) 7) as (g2 & q2 & Hu2 & Hq2 & Hr2).
    { by eapply holds_upto. }
    { by rewrite (upto_last_ch_buf g). }
    { by right. }
    { rewrite Ed'. lia. }
    exists g2, q2. split; [by eapply upto_last_trans|]. split; [done|].
    eapply reaches_next; [exact Es|]. by rewrite Nat.add_succ_r in *.
Qed.

(** ** [yy_find_action] *)

(** The token from [bp] to [j] was delimited. *)
Definition delimited (g : globals) (cs : list Z) (bp j : nat) : globals :=
  with_token (with_ch_buf g (<[j := 0]> cs)) (Z.of_nat bp)
    (wrap_u 64 (Z.of_nat j - Z.of_nat bp)) (Z.of_nat j) (default 0 (cs !! j)).

Lemma do_before_action_ok g cs bp j : yy_ch_buf (buf g) = cs -> (j < length cs)%nat ->
  YY_DO_BEFORE_ACTION g (Z.of_nat bp) (Z.of_nat j) = Ok (delimited g cs bp j).
Proof.
  intros Hcs Hj. unfold YY_DO_BEFORE_ACTION. rewrite (ch_at g cs j Hcs).
  destruct (lookup_lt_is_Some_2 cs j Hj) as [h E]. unfold delimited. rewrite E. cbn.
  by rewrite (set_ch_at g cs j 0 Hcs Hj).
Qed.

Lemma find_accepting g cs bp j q act :
  yy_ch_buf (buf g) = cs -> (j < length cs)%nat ->
  aget yy_accept q = Some act -> act <> 0 ->
  step (Lfind (Z.of_nat bp) (Z.of_nat j) q) g =
  Ok (Goto (Laction act (Z.of_nat bp) (Z.of_nat j) q) (delimited g cs bp j)).
Proof.
  intros Hcs Hj Ha Hn. cbn [FlexScanner.step]. unfold yy_find_action. rewrite Ha. cbn.
  rewrite (proj2 (Z.eqb_neq act 0)) by done. rewrite Ha. cbn.
  by rewrite (do_before_action_ok g cs bp j).
Qed.

Lemma find_backup g cs bp cp j q act :
  yy_ch_buf (buf g) = cs -> (j < length cs)%nat ->
  yy_last_accepting_state g = q -> yy_last_accepting_cpos g = Z.of_nat j ->
  aget yy_accept q = Some act ->
  step (Lfind (Z.of_nat bp) cp YY_JAM_STATE) g =
  Ok (Goto (Laction act (Z.of_nat bp) (Z.of_nat j) q) (delimited g cs bp j)).
Proof.
  intros Hcs Hj Hl Hp Ha. cbn [FlexScanner.step]. unfold yy_find_action.
  change (aget yy_accept YY_JAM_STATE) with (Some 0). cbn. rewrite Hl, Hp, Ha. cbn.
  by rewrite (do_before_action_ok g cs bp j).
Qed.

(** ** Delivering a token *)

Definition counts (g : globals) : Z * Z * Z := (lineCount g, wordCount g, letterCount g).

Definition counts_after (rule : Z) (len : nat) (n : Z * Z * Z) : Z * Z * Z :=
  let '(l, w, c) := n in
  (wrap_u 64 (if rule =? 1 then l + 1 else l), wrap_u 64 (if rule =? 2 then w + 1 else w),
   wrap_u 64 (c + Z.of_nat len)).

(** The state in front of the next token: [s] is the stream from there on. *)
Definition at_token (g : globals) (s : list Z) : Prop :=
  exists cs d rest p x, holds g cs d rest /\ (p <= length d)%nat
    /\ yy_ch_buf (buf g) = <[p := x]> cs /\ cs !! p = Some (yy_hold_char g)
    /\ yy_c_buf_p g = Z.of_nat p /\ s = drop p d ++ rest.

Definition token_done (l : label) (g : globals) (s : list Z) : Prop :=
  (s = [] /\ exists n g', (forall fuel, run (n + fuel)%nat l g = Some (Ok (0, g')))
                          /\ counts g' = counts g)
  \/ (s <> [] /\ exists g', reaches l g Ltop g' /\ at_token g' (drop (token_len s) s)
       /\ counts g' = counts_after (token_rule s) (token_len s) (counts g)).

Lemma token_done_path l g l1 g1 s :
  reaches l g l1 g1 -> counts g1 = counts g -> token_done l1 g1 s -> token_done l g s.
Proof.
  intros Hr Hc [(-> & n & g' & Hn & Hg')|(Hs & g' & Hr' & Ha & Hg')].
  - left. split; [done|]. destruct Hr as [m Hm]. exists (m + n)%nat, g'. split; [|congruence].
    intros fuel. by rewrite <- Nat.add_assoc, Hm, Hn.
  - right. split; [done|]. exists g'. split; [by eapply leads_to_trans|]. split; [done|]. congruence.
Qed.

Lemma token_done_step l g l1 g1 s :
  step l g = Ok (Goto l1 g1) -> counts g1 = counts g -> token_done l1 g1 s -> token_done l g s.
Proof.
  intros E. apply token_done_path. eapply reaches_next; [exact E|apply leads_to_refl].
Qed.

Lemma upto_last_counts g g' : upto_last g g' -> counts g' = counts g.
Proof. by intros (s & c & ->). Qed.

(** The action of a rule counts the token and goes on behind it. *)
Lemma action_done g cs d rest bp j q s :
  holds g cs d rest -> yy_ch_buf (buf g) = cs -> (bp <= j <= length d)%nat ->
  s = drop bp d ++ rest -> s <> [] -> (j - bp = token_len s)%nat ->
  token_done (Laction (token_rule s) (Z.of_nat bp) (Z.of_nat j) q) (delimited g cs bp j) s.
Proof.
  intros Hg Hcs Hj Hs Hne Hl. right. split; [done|].
  set (g1 := delimited g cs bp j).
  assert (yyleng g1 = Z.of_nat (token_len s)) as Hleng.
  { cbn. rewrite <- Hl, wrap_u_small; [lia|]. destruct Hg. lia. }
  assert (forall g2, (exists l w c, g2 = with_counts g1 l w c) ->
            at_token g2 (drop (token_len s) s)) as Hat.
  { intros g2 (l & w & c & ->). exists cs, d, rest, j, 0.
    pose proof (holds_length g cs d rest Hg). split; [destruct Hg; by constructor|].
    split; [lia|]. split; [done|]. split.
    { cbn. destruct (lookup_lt_is_Some_2 cs j) as [h E]; [lia|]. by rewrite E. }
    split; [done|]. rewrite <- Hl, Hs, drop_app_le, drop_drop by (rewrite length_drop; lia).
    by replace (bp + (j - bp))%nat with j by lia. }
  assert (forall l w c, step (Laction (token_rule s) (Z.of_nat bp) (Z.of_nat j) q) g1
            = Ok (Goto Ltop (with_counts g1 l w c)) ->
          counts (with_counts g1 l w c) = counts_after (token_rule s) (token_len s) (counts g1) ->
          exists g', reaches (Laction (token_rule s) (Z.of_nat bp) (Z.of_nat j) q) g1 Ltop g'
            /\ at_token g' (drop (token_len s) s)
            /\ counts g' = counts_after (token_rule s) (token_len s) (counts g1)) as Hgo.
  { intros l w c E Ec. exists (with_counts g1 l w c).
    split; [eapply reaches_next; [exact E|apply leads_to_refl]|]. split; [|done].
    apply Hat. by exists l, w, c. }
  clearbody g1. destruct s as [|c s]; [done|]. cbn [token_rule token_len] in *.
  destruct (c =? 10) eqn:E10.
  - apply Z.eqb_eq in E10 as ->. eapply Hgo; done.
  - destruct (isalnum c) eqn:Ea.
    + eapply Hgo; [done|]. unfold counts, counts_after. cbn. by rewrite Hleng.
    + eapply Hgo; done.
Qed.

(** ** Part of a token was matched *)

(** Between [bp] and [i] the data is the beginning of a token that the scanner
    read up to the state [q]. *)
Inductive prefix_state (d : list Z) (bp : nat) : nat -> Z -> Prop :=
| pre_start : prefix_state d bp bp 1
| pre_nul : d !! bp = Some 0 -> prefix_state d bp (S bp) 4
| pre_word i q : (bp < i)%nat -> (i - bp <= run_length (drop bp d))%nat -> word_state q ->
    prefix_state d bp i q.

Lemma prefix_le d bp i q : prefix_state d bp i q -> (bp <= length d -> bp <= i <= length d)%nat.
Proof.
  intros [|H|j q' H1 H2 _] Hb; [lia| |].
  - apply lookup_lt_Some in H. lia.
  - pose proof (run_length_le (drop bp d)) as Hr. rewrite length_drop in Hr. lia.
Qed.

Lemma prefix_trans d bp i q : prefix_state d bp i q ->
  0 <= q < 9 /\ yy_transition q 0 = Ok 3.
Proof. by intros [|H|j q' H1 H2 [->| ->]]. Qed.

Lemma prefix_start d bp i : prefix_state d bp i 1 -> i = bp.
Proof. by inversion 1 as [| |? ? ? ? [|]]. Qed.

Lemma run_alnum cs i c : (i < run_length cs)%nat -> cs !! i = Some c -> isalnum c = true.
Proof. intros Hi Hc. destruct (run_length_lookup cs i Hi) as (c' & Hc' & E). by simplify_eq. Qed.

Lemma previous_word k : forall g cs d rest i q,
  holds g cs d rest -> yy_ch_buf (buf g) = cs -> word_state q ->
  (k <= run_length (drop i d))%nat ->
  exists q' g', previous_state_loop k (Z.of_nat i) q g = Ok (q', g') /\ word_state q' /\ upto_last g g'.
Proof.
  induction k as [|k IH]; intros g cs d rest i q Hg Hcs Hq Hk.
  - exists q, g. split; [done|]. split; [done|apply upto_last_refl].
  - destruct (run_length_lookup (drop i d) 0) as (c & Ec & Ea); [lia|].
    rewrite lookup_drop, Nat.add_0_r in Ec.
    destruct (accepting_word q Hq) as [Hr _].
    destruct (note_accepting_ok g q (Z.of_nat i) Hr) as (g1 & En & Hu & _).
    pose proof (lookup_lt_Some _ _ _ Ec).
    destruct (IH g1 cs d rest (S i) 7) as (q2 & g2 & E2 & Hq2 & Hu2).
    { by eapply holds_upto. }
    { by rewrite (upto_last_ch_buf g). }
    { by right. }
    { rewrite <- Nat.add_1_r, <- drop_drop, run_tail; lia. }
    exists q2, g2. split; [|split; [done|by eapply upto_last_trans]].
    cbn [previous_state_loop]. rewrite (ch_at g cs i Hcs), (holds_at g cs d rest i Hg), Ec by lia.
    cbn. pose proof (holds_byte g cs d rest i c Hg Ec) as Hc.
    rewrite (proj2 (Z.eqb_neq c 0)) by (intros ->; done).
    rewrite (yy_ec_spec c Hc), (byte_class_alnum c Ea). cbn. rewrite En. cbn.
    rewrite (word_class q 3 Hq eq_refl). cbn. by rewrite Z_of_nat_succ.
Qed.

Lemma get_previous g cs d rest bp i q :
  holds g cs d rest -> yy_ch_buf (buf g) = cs -> (bp <= length d)%nat ->
  yytext_ptr g = Z.of_nat bp -> yy_c_buf_p g = Z.of_nat i -> prefix_state d bp i q ->
  exists q' g', yy_get_previous_state g = Ok (q', g') /\ prefix_state d bp i q' /\ upto_last g g'.
Proof.
  intros Hg Hcs Hb Ht Hc Hp. unfold yy_get_previous_state. rewrite Ht, Hc.
  assert (exists k, (k = i - bp)%nat /\ Z.to_nat (Z.of_nat i - Z.of_nat bp) = k) as (k & Hk & ->).
  { exists (i - bp)%nat. split; [done|lia]. }
  destruct (note_accepting_ok g 1 (Z.of_nat bp)) as (g1 & En & Hu & _); [done|].
  destruct Hp as [|H0|i q Hi Hr Hq].
  - exists 1, g. replace k with 0%nat by lia. split; [done|]. split; [constructor|apply upto_last_refl].
  - exists 4, g1. replace k with 1%nat by lia. split; [|by split; [constructor|]].
    pose proof (lookup_lt_Some _ _ _ H0).
    cbn [previous_state_loop]. rewrite (ch_at g cs bp Hcs), (holds_at g cs d rest bp Hg), H0 by lia.
    cbn. change yy_start with 1. rewrite En. done.
  - destruct k as [|k]; [lia|].
    destruct (run_length_lookup (drop bp d) 0) as (c & Ec & Ea); [lia|].
    pose proof Ec as Ec'. rewrite lookup_drop, Nat.add_0_r in Ec'.
    pose proof (lookup_lt_Some _ _ _ Ec').
    destruct (previous_word k g1 cs d rest (S bp) 6) as (q2 & g2 & E2 & Hq2 & Hu2).
    { by eapply holds_upto. }
    { by rewrite (upto_last_ch_buf g). }
    { by left. }
    { rewrite <- Nat.add_1_r, <- drop_drop, run_tail; lia. }
    exists q2, g2. split; [|split; [by constructor|by eapply upto_last_trans]].
    cbn [previous_state_loop]. rewrite (ch_at g cs bp Hcs), (holds_at g cs d rest bp Hg), Ec' by lia.
    cbn. pose proof (holds_byte g cs d rest bp c Hg Ec') as Hcb.
    rewrite (proj2 (Z.eqb_neq c 0)) by (intros ->; done).
    rewrite (yy_ec_spec c Hcb), (byte_class_alnum c Ea). cbn. change yy_start with 1.
    rewrite En. cbn. by rewrite Z_of_nat_succ.
Qed.

(** A matched prefix that cannot go on is the next token. *)
Lemma prefix_token d bp i q rest :
  prefix_state d bp i q -> q <> 1 -> (bp <= length d)%nat ->
  match drop i d ++ rest with [] => True | c :: _ => q = 4 \/ isalnum c = false end ->
  let s := drop bp d ++ rest in
  s <> [] /\ token_len s = (i - bp)%nat /\ aget yy_accept q = Some (token_rule s) /\ token_rule s <> 0.
Proof.
  intros Hp Hq Hb Hend s. destruct Hp as [|H0|i q Hi Hr Hw]; [done| |].
  - assert (s = 0 :: drop (S bp) d ++ rest) as ->.
    { subst s. by rewrite (drop_S d 0 bp H0). }
    split; [done|]. cbn. split; [lia|done].
  - destruct (run_length_lookup (drop bp d) 0) as (c & Ec & Ea); [lia|].
    destruct (drop bp d) as [|c' ds] eqn:Ed; [done|]. cbn in Ec. simplify_eq.
    destruct (accepting_word q Hw) as [_ ->].
    assert (c <> 10) as Hc by (intros ->; done).
    split; [done|]. subst s. cbn [app token_rule token_len run_length] in *.
    rewrite Ea, (proj2 (Z.eqb_neq c 10) Hc) in *. split; [|done].
    assert (drop i d = drop (i - bp - 1) ds) as Edi.
    { transitivity (drop (i - bp) (drop bp d)); [rewrite drop_drop; f_equal; lia|].
      rewrite Ed. destruct (i - bp)%nat eqn:E; [lia|]. cbn. by rewrite Nat.sub_0_r. }
    rewrite Edi in Hend.
    assert (run_length (ds ++ rest) = i - bp - 1)%nat as ->; [|lia].
    rewrite <- (take_drop (i - bp - 1) ds), <- (assoc_L (++)).
    assert (run_length (take (i - bp - 1) ds) = i - bp - 1)%nat as Et.
    { apply run_take. lia. }
    assert (length (take (i - bp - 1) ds) = i - bp - 1)%nat as El.
    { rewrite length_take. pose proof (run_length_le ds). lia. }
    rewrite run_length_app, Et, El. rewrite decide_True by done.
    destruct (drop (i - bp - 1) ds ++ rest) as [|c' r']; [simpl; lia|].
    destruct Hend as [->|Hend]; [destruct Hw; done|]. simpl. rewrite Hend. lia.
Qed.

(** ** Refilling the buffer *)

Lemma move_ok n : forall g cs dest src,
  yy_ch_buf (buf g) = cs -> (dest <= src)%nat -> (src + n <= length cs)%nat ->
  exists cs', move n (Z.of_nat dest) (Z.of_nat src) g = Ok (with_ch_buf g cs')
    /\ length cs' = length cs
    /\ (forall i, (i < dest)%nat -> cs' !! i = cs !! i)
    /\ (forall k, (k < n)%nat -> cs' !! (dest + k)%nat = cs !! (src + k)%nat).
Proof.
  induction n as [|n IH]; intros g cs dest src Hcs Hd Hs.
  - exists cs. split_and!; try done; [|lia]. subst cs. destruct g as [[] ? ? ? ? ? ? ? ? ? ? ?]; done.
  - destruct (lookup_lt_is_Some_2 cs src) as [c Ec]; [lia|].
    cbn [move]. rewrite (ch_at g cs src Hcs), Ec. cbn.
    rewrite (set_ch_at g cs dest c Hcs) by lia. cbn. rewrite !Z_of_nat_succ.
    destruct (IH (with_ch_buf g (<[dest := c]> cs)) (<[dest := c]> cs) (S dest) (S src))
      as (cs' & E & Hlen & Hlo & Hhi); [done|lia|rewrite length_insert; lia|].
    exists cs'. split; [exact E|]. split; [by rewrite Hlen, length_insert|]. split.
    + intros i Hi. rewrite Hlo by lia. apply list_lookup_insert_ne. lia.
    + intros [|k] Hk.
      * rewrite Nat.add_0_r, Hlo, list_lookup_insert_eq by lia. by rewrite Nat.add_0_r, Ec.
      * rewrite !Nat.add_succ_r. change (cs' !! (S dest + k)%nat = cs !! (S src + k)%nat).
        rewrite Hhi by lia. apply list_lookup_insert_ne. lia.
Qed.

Lemma store_ok l : forall g cs i,
  yy_ch_buf (buf g) = cs -> (i + length l <= length cs)%nat ->
  exists cs', store g (Z.of_nat i) l = Ok (with_ch_buf g cs')
    /\ length cs' = length cs /\ take (i + length l) cs' = take i cs ++ l.
Proof.
  induction l as [|c l IH]; intros g cs i Hcs Hl; simpl in Hl.
  - exists cs. rewrite Nat.add_0_r, app_nil_r. split_and!; try done.
    subst cs. destruct g as [[] ? ? ? ? ? ? ? ? ? ? ?]; done.
  - cbn [store]. rewrite (set_ch_at g cs i c Hcs) by lia. cbn. rewrite Z_of_nat_succ.
    destruct (IH (with_ch_buf g (<[i := c]> cs)) (<[i := c]> cs) (S i)) as (cs' & E & Hlen & Ht);
      [done|rewrite length_insert; lia|].
    exists cs'. split; [exact E|]. split; [by rewrite Hlen, length_insert|].
    rewrite <- Nat.add_succ_comm, Ht.
    rewrite (take_S_r (<[i := c]> cs) i c) by (apply list_lookup_insert_eq; lia).
    rewrite take_insert_ge by lia. by rewrite <- (assoc_L (++)).
Qed.

Lemma getc_line_spec max cs l r e :
  getc_line max cs = (l, r, e) ->
  cs = l ++ r /\ (length l <= max)%nat /\ ((0 < max)%nat -> l = [] -> cs = []).
Proof.
  revert cs l r e. induction max as [|max IH]; intros cs l r e; simpl.
  - intros ?; simplify_eq. split_and!; [done|simpl; lia|lia].
  - destruct cs as [|c cs]; [intros; simplify_eq; split_and!; [done|simpl; lia|done]|].
    destruct (c =? 10).
    + intros; simplify_eq. split_and!; [done|simpl; lia|done].
    + destruct (getc_line max cs) as [[l' r'] e'] eqn:E. intros; simplify_eq.
      apply IH in E as (-> & Hl & _). split_and!; [done|simpl; lia|done].
Qed.

Lemma yy_input_ok g cs rest i max :
  yy_ch_buf (buf g) = cs -> yyin g = File rest false ->
  0 < max -> Z.of_nat i + max <= Z.of_nat (length cs) ->
  exists l rest' cs', YY_INPUT g (Z.of_nat i) max
      = Ok (with_ch_buf (with_in g (File rest' false)) cs', Z.of_nat (length l))
    /\ rest = l ++ rest' /\ Z.of_nat (length l) <= max /\ (l = [] -> rest = [])
    /\ length cs' = length cs /\ take (i + length l) cs' = take i cs ++ l.
Proof.
  intros Hcs Hin Hmax Hroom. unfold YY_INPUT. rewrite Hin.
  destruct (yy_is_interactive (buf g)).
  - destruct (getc_line (Z.to_nat max) rest) as [[l r] e] eqn:E.
    apply getc_line_spec in E as (-> & Hl & Hnil). rewrite andb_false_r.
    destruct (store_ok l (with_in g (File r false)) cs i Hcs) as (cs' & Es & Hlen & Ht); [lia|].
    rewrite Es. exists l, r, cs'. split_and!; try done; [lia|].
    intros Hl0. apply Hnil; [lia|done].
  - rewrite andb_false_r. set (l := take (Z.to_nat max) rest).
    assert (length l <= Z.to_nat max)%nat as Hl by (unfold l; rewrite length_take; lia).
    destruct (store_ok l (with_in g (File (drop (Z.to_nat max) rest) false)) cs i Hcs)
      as (cs' & Es & Hlen & Ht); [lia|].
    rewrite Es. exists l, (drop (Z.to_nat max) rest), cs'.
    split_and!; try done; [unfold l; by rewrite take_drop|lia|].
    unfold l. destruct rest as [|c rest]; [done|]. destruct (Z.to_nat max) eqn:E; [lia|done].
Qed.

(** The buffer with the content [cs] and the size [size]. *)
Definition resized (b : buffer) (cs : list Z) (size : Z) : buffer :=
  Buffer cs (yy_buf_pos b) size (b_n_chars b) (yy_is_our_buffer b) (yy_is_interactive b)
    (yy_fill_buffer b) (yy_buffer_status b).

Lemma grow_ok g cs (m : nat) :
  let b := buf g in
  yy_ch_buf b = cs -> Z.of_nat (length cs) = yy_buf_size b + 2 ->
  Z.of_nat m + 1 <= yy_buf_size b < 2 ^ 62 -> Z.of_nat m < 2 ^ 31 ->
  yy_is_our_buffer b = true ->
  exists num cs' size c, grow alloc_ok junk 65 (Z.of_nat m) (wrap_u 64 (yy_buf_size b - Z.of_nat m - 1)) g
      = Ok (num, with_ptrs (with_buf g (resized b cs' size)) (yytext_ptr g) c (yy_n_chars g))
    /\ 0 < num /\ num = size - Z.of_nat m - 1 /\ size < 2 ^ 62
    /\ Z.of_nat (length cs') = size + 2 /\ take (length cs) cs' = cs.
Proof.
  intros b Hcs Hlen Hsize Hm Hour. rewrite wrap_u_small by lia.
  assert (exists n, 65 = S (S n))%nat as [n ->] by by exists 63%nat.
  cbn [grow]. fold b. rewrite Hour.
  destruct (Z.leb_spec (yy_buf_size b - Z.of_nat m - 1) 0) as [Hz|Hz].
  - assert (yy_buf_size b = Z.of_nat m + 1) as Hb by lia. rewrite Hb.
    rewrite (wrap_u_small 64 ((Z.of_nat m + 1) * 2)) by lia.
    destruct (Z.leb_spec ((Z.of_nat m + 1) * 2) 0); [lia|].
    rewrite alloc. rewrite (wrap_u_small 64 ((Z.of_nat m + 1) * 2 + 2)) by lia.
    rewrite (wrap_u_small 64 (_ - Z.of_nat m - 1)) by lia.
    destruct (Z.leb_spec ((Z.of_nat m + 1) * 2 - Z.of_nat m - 1) 0); [lia|].
    eexists _, (realloc junk cs ((Z.of_nat m + 1) * 2 + 2)), ((Z.of_nat m + 1) * 2), _.
    split; [unfold resized; rewrite Hcs, Hour; done|].
    split; [lia|]. split; [lia|]. split; [lia|]. unfold realloc. split.
    + rewrite length_app, length_take, repeat_length. lia.
    + rewrite (take_ge cs) by lia. by rewrite take_app_length.
  - exists (yy_buf_size b - Z.of_nat m - 1), cs, (yy_buf_size b), (yy_c_buf_p g).
    split_and!; try done; try lia; [|by rewrite take_ge].
    f_equal. f_equal. unfold resized. rewrite <- Hcs. by destruct g as [[] ? ? ? ? ? ? ? ? ? ? ?].
Qed.

(** The beginning of the buffer is [x]; the end-of-buffer characters are not
    in place yet. *)
Record filling (g : globals) (cs x rest : list Z) : Prop := {
  F_buf : yy_ch_buf (buf g) = cs;
  F_data : take (length x) cs = x;
  F_size : Z.of_nat (length cs) = yy_buf_size (buf g) + 2;
  F_room : Z.of_nat (length x) + 1 <= yy_buf_size (buf g) < 2 ^ 62;
  F_total : Z.of_nat (length x + length rest) < 2 ^ 31 - 2;
  F_bytes : bytes_ok (x ++ rest);
  F_in : yyin g = File rest false;
  F_eof : yy_buffer_status (buf g) = YY_BUFFER_EOF_PENDING -> rest = [];
  F_our : yy_is_our_buffer (buf g) = true;
  F_fill : yy_fill_buffer (buf g) = true
}.

Lemma read_more_ok g cs x rest :
  filling g cs x rest ->
  exists new rest' cs' g', read_more alloc_ok junk g (Z.of_nat (length x)) = Ok g'
    /\ rest = new ++ rest' /\ (new = [] -> rest = []) /\ filling g' cs' (x ++ new) rest'
    /\ yy_n_chars g' = Z.of_nat (length new) /\ counts g' = counts g
    /\ yy_buffer_status (buf g') = yy_buffer_status (buf g).
Proof.
  intros [Hbuf Hd Hs Hr Ht Hb Hi He Ho Hf]. unfold read_more.
  destruct (yy_buffer_status (buf g)) eqn:Est.
  3:{ specialize (He eq_refl) as ->. exists [], [], cs. eexists. split; [done|].
      rewrite (app_nil_r x). by split_and!. }
  all: destruct (grow_ok g cs (length x)) as (num & cs1 & size & c & Eg & Hn1 & Hn2 & Hsz & Hl1 & Ht1);
    try done; try lia; rewrite Eg; cbn [mbind result_bind].
  all: set (max := if YY_READ_BUF_SIZE <? num then YY_READ_BUF_SIZE else num).
  all: assert (0 < max <= num) as Hmax by
      (unfold max, YY_READ_BUF_SIZE; destruct (Z.ltb_spec 8192 num); lia).
  all: destruct (yy_input_ok (with_ptrs (with_buf g (resized (buf g) cs1 size)) (yytext_ptr g) c (yy_n_chars g))
        cs1 rest (length x) max) as (l & rest' & cs2 & Ei & -> & Hl & Hnil & Hl2 & Ht2); try done; try lia.
  all: exists l, rest', cs2; eexists; rewrite Ei; cbn [mbind result_bind]; split; [done|].
  all: split_and!; try done; constructor; cbn; try done; try (rewrite ?length_app in *; lia).
  all: try (by rewrite <- (assoc_L (++))).
  all: try (rewrite length_app, Ht2; f_equal; rewrite <- Hd at 2; rewrite <- Ht1;
    rewrite take_take; f_equal; rewrite <- Hbuf in *; lia).
  all: by rewrite Est.
Qed.

Lemma take_two_nuls (cs x : list Z) :
  take (length x) cs = x -> (length x + 2 <= length cs)%nat ->
  take (length x + 2) (<[S (length x) := 0]> (<[length x := 0]> cs)) = x ++ [0; 0].
Proof.
  intros Hx Hl. rewrite <- (take_drop (length x) cs), Hx.
  assert (length (drop (length x) cs) = length cs - length x)%nat as Hd by apply length_drop.
  destruct (drop (length x) cs) as [|a [|b ds]]; simpl in Hd; [lia..|].
  rewrite insert_app_r_alt by lia. rewrite Nat.sub_diag.
  rewrite insert_app_r_alt by lia. replace (S (length x) - length x)%nat with 1%nat by lia.
  cbn [insert list_insert]. by rewrite take_app_add.
Qed.

Lemma close_ok g cs x rest m :
  filling g cs x rest -> yy_n_chars g + Z.of_nat m = Z.of_nat (length x) ->
  (yy_buffer_status (buf g) = YY_BUFFER_NEW -> b_n_chars (buf g) = Z.of_nat (length x)) ->
  exists g' cs', close_buffer alloc_ok junk g (Z.of_nat m) = Ok g'
    /\ holds g' cs' x rest /\ yy_ch_buf (buf g') = cs' /\ yytext_ptr g' = 0
    /\ counts g' = counts g.
Proof.
  intros [Hbuf Hd Hs Hr Ht Hb Hi He Ho Hf] Hn Hnew. unfold close_buffer. rewrite Hn.
  rewrite wrap_s_small by lia. rewrite wrap_u_small by lia.
  destruct (Z.ltb_spec (yy_buf_size (buf g)) (Z.of_nat (length x))); [lia|]. cbn [mbind result_bind].
  rewrite (set_ch_at g cs (length x) _ Hbuf) by lia. cbn [mbind result_bind]. rewrite Z_of_nat_succ.
  rewrite (set_ch_at _ (<[length x := YY_END_OF_BUFFER_CHAR]> cs) (S (length x)) _) by
    (done || (rewrite length_insert; lia)). cbn [mbind result_bind].
  eexists _, _. split; [done|]. split; [|done].
  constructor; cbn; try done; try (rewrite ?length_insert; lia).
  apply take_two_nuls; [done|lia].
Qed.

Lemma load_ok g cs : yy_ch_buf (buf g) = cs -> yy_buf_pos (buf g) = 0 -> cs !! 0%nat = Some 0 ->
  yy_load_buffer_state g =
  Ok (with_token (with_ptrs g 0 0 (b_n_chars (buf g))) 0 (yyleng g) 0 0).
Proof.
  intros Hcs Hp H0. unfold yy_load_buffer_state. rewrite Hp.
  change (ch g 0) with (ch g (Z.of_nat 0)). rewrite (ch_at g cs 0 Hcs), H0. done.
Qed.

(** The content of a flushed buffer. *)
Definition flushed (cs : list Z) : list Z := <[1%nat := 0]> (<[0%nat := 0]> cs).

Lemma flush_ok load g cs : yy_ch_buf (buf g) = cs -> (2 <= length cs)%nat ->
  let b := buf g in
  let g1 := with_buf g (Buffer (flushed cs) 0 (yy_buf_size b) 0 (yy_is_our_buffer b)
                          (yy_is_interactive b) (yy_fill_buffer b) YY_BUFFER_NEW) in
  yy_flush_buffer load g =
  Ok (if load then with_token (with_ptrs g1 0 0 0) 0 (yyleng g) 0 0 else g1).
Proof.
  intros Hcs Hl b g1. unfold yy_flush_buffer.
  change (set_ch g 0) with (set_ch g (Z.of_nat 0)).
  rewrite (set_ch_at g cs 0 _ Hcs) by lia. cbn [mbind result_bind].
  change (set_ch ?g0 1) with (set_ch g0 (Z.of_nat 1)).
  rewrite (set_ch_at _ (<[0%nat := YY_END_OF_BUFFER_CHAR]> cs) 1 _) by
    (done || (rewrite length_insert; lia)). cbn [mbind result_bind].
  destruct load; [|done]. unfold flushed, YY_END_OF_BUFFER_CHAR in *.
  rewrite (load_ok _ (flushed cs)); [done|done|done|].
  unfold flushed. rewrite list_lookup_insert_ne, list_lookup_insert_eq by (done || lia). done.
Qed.

Lemma yyrestart_ok g cs x :
  filling g cs x [] ->
  exists g' cs', yyrestart isatty g = Ok g' /\ filling g' cs' [] []
    /\ yy_n_chars g' = 0 /\ b_n_chars (buf g') = 0 /\ counts g' = counts g.
Proof.
  intros [Hbuf Hd Hs Hr Ht Hb Hi He Ho Hf]. unfold yyrestart, yy_init_buffer.
  rewrite (flush_ok true g cs Hbuf) by lia. cbn [mbind result_bind].
  rewrite (load_ok _ (flushed cs)); [|done|done|].
  2:{ unfold flushed. rewrite list_lookup_insert_ne, list_lookup_insert_eq by (done || lia). done. }
  eexists _, (flushed cs). split; [done|]. split_and!; try done.
  constructor; cbn; try done; unfold flushed; rewrite ?length_insert; first [lia | constructor].
Qed.

(** The unfinished token moves to the beginning of the buffer. *)
Lemma move_filling g cs d rest bp :
  holds g cs d rest -> yy_ch_buf (buf g) = cs -> (bp <= length d)%nat ->
  yy_buffer_status (buf g) <> YY_BUFFER_NEW ->
  exists cs1, move (length (drop bp d)) 0 (Z.of_nat bp) g = Ok (with_ch_buf g cs1)
    /\ filling (with_ch_buf g cs1) cs1 (drop bp d) rest.
Proof.
  intros Hg Hcs Hb Hnew. pose proof Hg as [Hd Hs Hr Hn _ Ht Hby Hi He Ho Hf].
  set (m := length (drop bp d)). assert (m = length d - bp)%nat as Hm by apply length_drop.
  destruct (move_ok m g cs 0 bp Hcs) as (cs1 & Em & Hl1 & _ & Hhi); [lia|lia|].
  exists cs1. split; [exact Em|]. constructor; cbn; try done; fold m; try lia.
  - apply list_eq. intros i. destruct (decide (i < m)%nat) as [Him|Him].
    + rewrite lookup_take_lt by done. specialize (Hhi i Him). cbn [Nat.add] in Hhi.
      rewrite Hhi, lookup_drop.
      destruct (lookup_lt_is_Some_2 d (bp + i)) as [c Ec]; [lia|].
      by rewrite (holds_at g cs d rest (bp + i) Hg), Ec by lia.
    + rewrite lookup_take_ge, (lookup_ge_None_2 (drop bp d)) by (unfold m in *; lia). done.
  - unfold bytes_ok in *. rewrite Forall_app in *. destruct Hby. split; [|done]. by apply Forall_drop.
Qed.

(** [yy_get_next_buffer] at the end of the data: the part from [bp] on moves to
    the beginning and more is read behind it. *)
Lemma refill_ok g cs d rest bp :
  holds g cs d rest -> yy_ch_buf (buf g) = cs -> (bp <= length d)%nat ->
  yytext_ptr g = Z.of_nat bp -> yy_c_buf_p g = Z.of_nat (S (length d)) ->
  yy_buffer_status (buf g) <> YY_BUFFER_NEW ->
  exists r g', yy_get_next_buffer isatty alloc_ok junk g = Ok (r, g') /\ counts g' = counts g
    /\ ((r = EOB_ACT_END_OF_FILE /\ rest = [] /\ bp = length d)
        \/ (r = EOB_ACT_LAST_MATCH /\ rest = [] /\ (bp < length d)%nat /\ yytext_ptr g' = 0
            /\ exists cs', holds g' cs' (drop bp d) [] /\ yy_ch_buf (buf g') = cs')
        \/ (r = EOB_ACT_CONTINUE_SCAN /\ yytext_ptr g' = 0
            /\ exists cs' new rest', rest = new ++ rest' /\ new <> []
                 /\ holds g' cs' (drop bp d ++ new) rest' /\ yy_ch_buf (buf g') = cs')).
Proof.
  intros Hg Hcs Hb Htext Hc Hnew. pose proof Hg as [Hd Hs Hr Hn _ Ht Hby Hi He Ho Hf].
  unfold yy_get_next_buffer. rewrite Hn, Hc, Htext, Hf. cbn [negb].
  destruct (Z.ltb_spec (Z.of_nat (length d) + 1) (Z.of_nat (S (length d)))); [lia|].
  set (m := length (drop bp d)).
  assert (Z.of_nat (S (length d)) - Z.of_nat bp - 1 = Z.of_nat m) as ->
    by (unfold m; rewrite length_drop; lia).
  assert (m = length d - bp)%nat as Hm by apply length_drop.
  rewrite (wrap_u_small 64) by lia. rewrite Nat2Z.id.
  destruct (move_filling g cs d rest bp Hg Hcs Hb Hnew) as (cs1 & Em & Hfill).
  fold m in Em. rewrite Em. cbn [mbind result_bind].
  destruct (read_more_ok _ _ _ _ Hfill) as (new & rest' & cs2 & g2 & Er & -> & Hnil & Hf2 & Hn2 & Hc2 & Hst).
  change (counts (with_ch_buf g cs1)) with (counts g) in Hc2.
  fold m in Er. rewrite Er. cbn [mbind result_bind]. rewrite Hn2.
  destruct new as [|c new].
  - specialize (Hnil eq_refl). cbn [app] in Hnil. subst rest'. rewrite app_nil_r in Hf2. cbn [length].
    destruct (decide (m = 0%nat)) as [Hm0|Hm0].
    + rewrite Hm0. change (Z.of_nat 0 =? 0) with true. destruct (yyrestart_ok _ _ _ Hf2) as (g3 & cs3 & E3 & Hf3 & Hn3 & Hb3 & Hc3).
      rewrite E3. cbn [mbind result_bind].
      destruct (close_ok g3 cs3 [] [] 0 Hf3) as (g4 & cs4 & E4 & _ & _ & _ & Hc4);
        [by rewrite Hn3|by rewrite Hb3|].
      rewrite E4. cbn [mbind result_bind].
      eexists _, _. split; [done|]. split; [congruence|]. left. split_and!; [done..|lia].
    + change (Z.of_nat 0 =? 0) with true. rewrite (proj2 (Z.eqb_neq (Z.of_nat m) 0)) by lia.
      cbn [mbind result_bind].
      destruct (close_ok (with_status g2 (b_n_chars (buf g2)) YY_BUFFER_EOF_PENDING) cs2 (drop bp d) [] m)
        as (g4 & cs4 & E4 & Hh4 & Hb4 & Ht4 & Hc4).
      { destruct Hf2. by constructor. }
      { cbn. rewrite Hn2. unfold m. done. }
      { done. }
      rewrite E4. cbn [mbind result_bind]. eexists _, _. split; [done|].
      split; [rewrite Hc4; done|]. right; left. split_and!; [done|done|lia|done|].
      by exists cs4.
  - rewrite (proj2 (Z.eqb_neq (Z.of_nat (length (c :: new))) 0)) by (cbn [length]; lia).
    cbn [mbind result_bind].
    destruct (close_ok g2 cs2 (drop bp d ++ c :: new) rest' m Hf2) as (g4 & cs4 & E4 & Hh4 & Hb4 & Ht4 & Hc4).
    { rewrite Hn2, length_app. fold m. lia. }
    { rewrite Hst. by intros. }
    rewrite E4. cbn [mbind result_bind]. eexists _, _. split; [done|].
    split; [congruence|]. right; right. split; [done|]. split; [done|].
    by exists cs4, (c :: new), rest'.
Qed.

(** ** The end of the buffer, or a NUL character *)

Lemma accept_new_ok g cs d rest : holds g cs d rest ->
  let g' := accept_new_buffer g in
  holds g' cs d rest /\ yy_buffer_status (buf g') <> YY_BUFFER_NEW
  /\ yytext_ptr g' = yytext_ptr g /\ yy_c_buf_p g' = yy_c_buf_p g
  /\ yy_ch_buf (buf g') = yy_ch_buf (buf g) /\ counts g' = counts g.
Proof.
  intros [Hd Hs Hr Hn Hbn Ht Hby Hi He Ho Hf] g'. unfold g', accept_new_buffer.
  destruct (yy_buffer_status (buf g)) eqn:Est; split_and!; try done; try (by rewrite Est);
    constructor; cbn; try done; try (by rewrite Est); by apply Hbn.
Qed.

Lemma end_of_buffer_eq g cs d rest bp i q :
  holds g cs d rest -> (bp <= i <= length d)%nat ->
  exists g', holds g' cs d rest /\ yy_buffer_status (buf g') <> YY_BUFFER_NEW
    /\ yytext_ptr g' = Z.of_nat bp /\ yy_c_buf_p g' = Z.of_nat (S i)
    /\ yy_ch_buf (buf g') = cs /\ counts g' = counts g
    /\ step (Laction 5 (Z.of_nat bp) (Z.of_nat (S i)) q) (delimited g cs bp (S i)) =
       (if decide (i < length d)%nat then real_nul g' (Z.of_nat i - Z.of_nat bp)
        else '(r, g1) ← yy_get_next_buffer isatty alloc_ok junk g';
             after_refill isatty r g1 (Z.of_nat i - Z.of_nat bp) (Z.of_nat bp) (Z.of_nat (S i)) q).
Proof.
  intros Hg Hi. pose proof (holds_length g cs d rest Hg) as Hl.
  set (g1 := with_ch_buf (delimited g cs bp (S i)) cs).
  assert (holds g1 cs d rest) as Hg1 by (destruct Hg; by constructor).
  destruct (accept_new_ok g1 cs d rest Hg1) as (Hh & Hst & Ht & Hc & Hb & Hn).
  exists (accept_new_buffer g1). split_and!; try done.
  cbn [FlexScanner.step]. change (do_action isatty alloc_ok junk (delimited g cs bp (S i)) 5
      (Z.of_nat bp) (Z.of_nat (S i)) q) with
    (end_of_buffer isatty alloc_ok junk (delimited g cs bp (S i)) (Z.of_nat bp) (Z.of_nat (S i)) q).
  unfold end_of_buffer.
  rewrite (set_ch_at (delimited g cs bp (S i)) (<[S i := 0]> cs)) by
    (done || (rewrite length_insert; lia)).
  assert (<[S i:=yy_hold_char (delimited g cs bp (S i))]> (<[S i:=0]> cs) = cs) as ->.
  { rewrite list_insert_insert_eq. apply list_insert_id. cbn.
    destruct (lookup_lt_is_Some_2 cs (S i)) as [h E]; [lia|]. by rewrite E. }
  cbn [mbind result_bind]. fold g1.
  assert (wrap_s 32 (wrap_s 32 (Z.of_nat (S i) - yytext_ptr (delimited g cs bp (S i))) - 1)
          = Z.of_nat i - Z.of_nat bp) as ->.
  { change (yytext_ptr (delimited g cs bp (S i))) with (Z.of_nat bp). destruct Hg.
    rewrite (wrap_s_small 32 (Z.of_nat (S i) - Z.of_nat bp)) by lia. rewrite wrap_s_small; lia. }
  rewrite Hc, (H_n _ _ _ _ Hh).
  change (yy_c_buf_p g1) with (Z.of_nat (S i)).
  destruct (Z.leb_spec (Z.of_nat (S i)) (Z.of_nat (length d))); destruct (decide _); done || lia.
Qed.

(** The scanner takes the end-of-buffer character, jams on the next one and
    backs up to the action [YY_END_OF_BUFFER]. *)
Lemma nul_reaches g cs d rest bp i q :
  holds g cs d rest -> yy_ch_buf (buf g) = cs -> (bp <= length d)%nat -> (i <= length d)%nat ->
  prefix_state d bp i q -> at_or_nul d i = 0 ->
  exists g', upto_last g g'
    /\ reaches (Lmatch (Z.of_nat bp) (Z.of_nat i) q) g
               (Laction 5 (Z.of_nat bp) (Z.of_nat (S i)) 3) (delimited g' cs bp (S i)).
Proof.
  intros Hg Hcs Hb Hi Hp H0. destruct (prefix_trans d bp i q Hp) as [Hq Htr].
  pose proof (holds_length g cs d rest Hg) as Hl.
  destruct (match_step g cs d rest (Z.of_nat bp) i q 3) as (g1 & Hu1 & _ & E1); try done;
    [lia|by rewrite H0|].
  assert (holds g1 cs d rest) as Hg1 by by eapply holds_upto.
  assert (yy_ch_buf (buf g1) = cs) as Hcs1 by by rewrite (upto_last_ch_buf g).
  destruct (match_step g1 cs d rest (Z.of_nat bp) (S i) 3 8) as (g2 & Hu2 & Hl2 & E2); try done;
    [lia|by apply trans_end, byte_class_range|].
  destruct Hl2 as [Hls Hlc]; [done|].
  assert (yy_ch_buf (buf g2) = cs) as Hcs2 by by rewrite (upto_last_ch_buf g1).
  exists g2. split; [by eapply upto_last_trans|].
  eapply reaches_next; [exact E1|]. eapply reaches_next; [exact E2|].
  eapply reaches_next; [|apply leads_to_refl]. by apply find_backup; try done; lia.
Qed.

(** A matched prefix that jams is the next token. *)
Lemma found_done g cs d rest bp i q :
  holds g cs d rest -> yy_ch_buf (buf g) = cs -> (bp <= length d)%nat ->
  prefix_state d bp i q -> q <> 1 ->
  match drop i d ++ rest with [] => True | c :: _ => q = 4 \/ isalnum c = false end ->
  token_done (Lfind (Z.of_nat bp) (Z.of_nat i) q) g (drop bp d ++ rest).
Proof.
  intros Hg Hcs Hb Hp Hq Hend. pose proof (holds_length g cs d rest Hg) as Hl.
  pose proof (prefix_le _ _ _ _ Hp Hb) as Hi.
  destruct (prefix_token d bp i q rest Hp Hq Hb Hend) as (Hs & Hlen & Ha & Hr).
  eapply token_done_step; [eapply (find_accepting g cs bp i q); [done|lia|done|done]|done|].
  apply (action_done g cs d rest); (done || lia).
Qed.

Lemma jam_done g cs d rest bp i q c :
  holds g cs d rest -> yy_ch_buf (buf g) = cs -> (bp <= length d)%nat ->
  prefix_state d bp i q -> q <> 1 -> d !! i = Some c -> c <> 0 -> q = 4 \/ isalnum c = false ->
  token_done (Lmatch (Z.of_nat bp) (Z.of_nat i) q) g (drop bp d ++ rest).
Proof.
  intros Hg Hcs Hb Hp Hq Hc H0 Hend. pose proof (holds_length g cs d rest Hg) as Hl.
  pose proof (lookup_lt_Some _ _ _ Hc) as Hi. destruct (prefix_trans d bp i q Hp) as [Hq9 _].
  assert (at_or_nul d i = c) as Hat by (unfold at_or_nul; by rewrite Hc).
  assert (yy_transition q (byte_class c) = Ok 8 /\ exists a, aget yy_accept q = Some a /\ a <> 0) as (Ht & a & Ha & Ha0).
  { unfold byte_class. rewrite (proj2 (Z.eqb_neq c 0) H0).
    destruct Hp as [|Hn|i q Hlt Hr Hw]; [done| |].
    - split; [|by eexists]. by repeat case_match.
    - destruct Hend as [->|Hend]; [by destruct Hw|]. rewrite Hend.
      destruct Hw as [->| ->]; (split; [by case_match|by eexists]). }
  destruct (match_step g cs d rest (Z.of_nat bp) i q 8) as (g1 & Hu1 & Hl1 & E1); try done;
    [lia|by rewrite Hat|].
  destruct Hl1 as [Hls Hlc]; [rewrite Ha; by intros ?; simplify_eq|].
  assert (yy_ch_buf (buf g1) = cs) as Hcs1 by by rewrite (upto_last_ch_buf g).
  destruct (prefix_token d bp i q rest Hp Hq Hb) as (Hs & Hlen & Ha' & Hr).
  { by rewrite (drop_S d c i Hc). }
  eapply token_done_step; [exact E1|by apply upto_last_counts|].
  eapply token_done_step; [eapply (find_backup g1 cs bp _ i q); [done|lia|done..]| |].
  { done. }
  pose proof (prefix_le _ _ _ _ Hp Hb).
  apply (action_done g1 cs d rest); try done; try lia. by eapply holds_upto.
Qed.

(** The scanner is at [yy_match] with a part of the next token matched. *)
Definition match_done (rest : list Z) : Prop := forall g cs d bp i q,
  holds g cs d rest -> yy_ch_buf (buf g) = cs -> (bp <= length d)%nat ->
  prefix_state d bp i q ->
  token_done (Lmatch (Z.of_nat bp) (Z.of_nat i) q) g (drop bp d ++ rest).

Lemma NUL_trans_ok g cs d rest q : holds g cs d rest -> 0 <= q < 9 ->
  exists g', upto_last g g' /\ yy_try_NUL_trans q g
    = (q' ← yy_transition q 1; Ok (if q' =? YY_JAM_STATE then 0 else q', g')).
Proof.
  intros Hg Hq. destruct (note_accepting_ok g q (yy_c_buf_p g) Hq) as (g' & E & Hu & _).
  exists g'. split; [done|]. unfold yy_try_NUL_trans. by rewrite E.
Qed.

(** A NUL character of the input. *)
Lemma real_nul_done g cs d rest bp i q :
  holds g cs d rest -> yy_ch_buf (buf g) = cs -> (bp <= i < length d)%nat ->
  yytext_ptr g = Z.of_nat bp -> prefix_state d bp i q -> d !! i = Some 0 ->
  (i = bp -> forall g', holds g' cs d rest -> yy_ch_buf (buf g') = cs ->
     token_done (Lmatch (Z.of_nat bp) (Z.of_nat (S bp)) 4) g' (drop bp d ++ rest)) ->
  exists l g', real_nul g (Z.of_nat i - Z.of_nat bp) = Ok (Goto l g') /\ counts g' = counts g
    /\ token_done l g' (drop bp d ++ rest).
Proof.
  intros Hg Hcs Hi Ht Hp H0 Hgo. unfold real_nul. rewrite Ht.
  replace (Z.of_nat bp + (Z.of_nat i - Z.of_nat bp)) with (Z.of_nat i) by lia.
  set (g1 := with_ptrs g (Z.of_nat bp) (Z.of_nat i) (yy_n_chars g)).
  assert (holds g1 cs d rest) as Hg1 by (destruct Hg; by constructor).
  destruct (get_previous g1 cs d rest bp i q Hg1 Hcs) as (q' & g2 & E2 & Hp2 & Hu2); [lia|done..|].
  rewrite E2. cbn [mbind result_bind].
  assert (holds g2 cs d rest) as Hg2 by by eapply holds_upto.
  destruct (prefix_trans d bp i q' Hp2) as [Hq9 _].
  destruct (NUL_trans_ok g2 cs d rest q' Hg2 Hq9) as (g3 & Hu3 & E3). rewrite E3.
  assert (holds g3 cs d rest) as Hg3 by by eapply holds_upto.
  assert (yy_ch_buf (buf g3) = cs) as Hcs3
    by by rewrite (upto_last_ch_buf g2), (upto_last_ch_buf g1).
  assert (yytext_ptr g3 = Z.of_nat bp /\ yy_c_buf_p g3 = Z.of_nat i) as [Ht3 Hc3].
  { destruct Hu3 as (s & c & ->), Hu2 as (s' & c' & ->). done. }
  assert (counts g3 = counts g) as Hn3.
  { rewrite (upto_last_counts _ _ Hu3), (upto_last_counts _ _ Hu2). done. }
  assert (q' <> 1 -> yy_transition q' 1 = Ok 8) as Hjam.
  { intros Hne. destruct Hp2 as [| |? ? ? ? [->| ->]]; done. }
  destruct (Z.eq_dec q' 1) as [->|Hne].
  - assert (i = bp) as ->.
    { by apply prefix_start in Hp2. }
    change (yy_transition 1 1) with (@Ok Z 4). cbn [mbind result_bind].
    change (if 4 =? YY_JAM_STATE then 0 else 4) with 4. change (4 =? 0) with false. cbn iota.
    eexists _, _. split; [done|]. split; [done|]. rewrite Ht3.
    cbn [yytext_ptr yy_c_buf_p with_ptrs]. rewrite Hc3, Z_of_nat_succ.
    apply Hgo; [done| |done]. destruct Hg3; by constructor.
  - rewrite Hjam by done. cbn [mbind result_bind].
    change (if 8 =? YY_JAM_STATE then 0 else 8) with 0. change (0 =? 0) with true. cbn iota.
    eexists _, _. split; [done|]. split; [done|]. rewrite Ht3, Hc3.
    apply (found_done g3 cs); try done; [lia|]. rewrite (drop_S d 0 i H0). by right.
Qed.

(** The prefix that was read stays the same when it is moved and followed by
    more. *)
Lemma prefix_moved d bp q x : prefix_state d bp (length d) q -> prefix_state (drop bp d ++ x) 0 (length d - bp) q.
Proof.
  intros Hp. inversion Hp as [Hbp|H0 Hbp|i q' Hi Hr' Hw]; subst.
  - rewrite Nat.sub_diag. apply pre_start.
  - replace (S bp - bp)%nat with 1%nat by lia. apply pre_nul.
    apply lookup_app_l_Some. by rewrite lookup_drop, Nat.add_0_r.
  - constructor; [lia| |done]. rewrite drop_0, run_length_app, Nat.sub_0_r.
    destruct (decide _); [rewrite length_drop; lia|done].
Qed.

(** The end of the data. *)
Lemma after_refill_done g cs d rest bp q qa :
  holds g cs d rest -> yy_ch_buf (buf g) = cs -> (bp <= length d)%nat ->
  yytext_ptr g = Z.of_nat bp -> yy_c_buf_p g = Z.of_nat (S (length d)) ->
  yy_buffer_status (buf g) <> YY_BUFFER_NEW ->
  prefix_state d bp (length d) q ->
  (forall rest', (length rest' < length rest)%nat -> match_done rest') ->
  exists l g', ('(r, g1) ← yy_get_next_buffer isatty alloc_ok junk g;
      after_refill isatty r g1 (Z.of_nat (length d) - Z.of_nat bp) (Z.of_nat bp)
        (Z.of_nat (S (length d))) qa) = Ok (Goto l g')
    /\ counts g' = counts g /\ token_done l g' (drop bp d ++ rest).
Proof.
  intros Hg Hcs Hb Ht Hc Hst Hp IH.
  destruct (refill_ok g cs d rest bp Hg Hcs Hb Ht Hc Hst) as (r & g1 & E & Hn & Hr).
  rewrite E. cbn [mbind result_bind]. clear E.
  pose proof (fun x => prefix_moved d bp q x Hp) as Hpx.
  destruct Hr as [(-> & -> & ->)|[(-> & -> & Hlt & Ht1 & cs1 & Hg1 & Hcs1)|
    (-> & Ht1 & cs1 & new & rest' & -> & Hne & Hg1 & Hcs1)]]; cbn [after_refill].
  - eexists _, _. split; [done|]. split; [done|]. left. rewrite drop_all. split; [done|].
    eexists 1%nat, _. split; [by intros|done].
  - rewrite (H_n _ _ _ _ Hg1), Ht1, length_drop.
    set (g2 := with_ptrs g1 0 (Z.of_nat (length d - bp)) (Z.of_nat (length d - bp))).
    assert (holds g2 cs1 (drop bp d) []) as Hg2.
    { destruct Hg1. constructor; try done. cbn. by rewrite length_drop. }
    pose proof (Hpx []) as Hp2. rewrite app_nil_r in Hp2.
    destruct (get_previous g2 cs1 (drop bp d) [] 0 (length d - bp) q Hg2 Hcs1)
      as (q2 & g3 & E3 & Hp3 & Hu3); [lia|done..|].
    rewrite E3. cbn [mbind result_bind]. eexists _, _. split; [done|].
    assert (yytext_ptr g3 = Z.of_nat 0 /\ yy_c_buf_p g3 = Z.of_nat (length d - bp)) as [-> ->].
    { by destruct Hu3 as (s & c & ->). }
    split; [by rewrite (upto_last_counts _ _ Hu3)|].
    change (drop bp d) with (drop 0 (drop bp d)).
    apply (found_done g3 cs1); try done; [by eapply holds_upto|by rewrite (upto_last_ch_buf g2)|lia| |].
    + intros ->. apply prefix_start in Hp3. lia.
    + rewrite drop_drop. by replace (bp + (length d - bp))%nat with (length d) by lia; rewrite drop_all.
  - rewrite Ht1. replace (0 + (Z.of_nat (length d) - Z.of_nat bp)) with (Z.of_nat (length d - bp)) by lia.
    set (g2 := with_ptrs g1 0 (Z.of_nat (length d - bp)) (yy_n_chars g1)).
    assert (holds g2 cs1 (drop bp d ++ new) rest') as Hg2 by (destruct Hg1; by constructor).
    destruct (get_previous g2 cs1 (drop bp d ++ new) rest' 0 (length d - bp) q Hg2 Hcs1)
      as (q2 & g3 & E3 & Hp3 & Hu3); [lia|done..|].
    rewrite E3. cbn [mbind result_bind]. eexists _, _. split; [done|].
    assert (yytext_ptr g3 = Z.of_nat 0 /\ yy_c_buf_p g3 = Z.of_nat (length d - bp)) as [-> ->].
    { by destruct Hu3 as (s & c & ->). }
    split; [by rewrite (upto_last_counts _ _ Hu3)|].
    rewrite (assoc_L (++)). change (drop bp d ++ new) with (drop 0 (drop bp d ++ new)).
    assert (length rest' < length (new ++ rest'))%nat as Hlen.
    { rewrite length_app. destruct new; [done|simpl; lia]. }
    apply (IH rest' Hlen g3 cs1 (drop bp d ++ new) 0%nat (length d - bp)%nat q2);
      [by eapply holds_upto|by rewrite (upto_last_ch_buf g2)|lia|done].
Qed.

Lemma nul_done g cs d rest bp i q :
  holds g cs d rest -> yy_ch_buf (buf g) = cs -> (bp <= length d)%nat ->
  prefix_state d bp i q -> at_or_nul d i = 0 ->
  (forall rest', (length rest' < length rest)%nat -> match_done rest') ->
  (i = bp -> forall g', holds g' cs d rest -> yy_ch_buf (buf g') = cs -> d !! bp = Some 0 ->
     token_done (Lmatch (Z.of_nat bp) (Z.of_nat (S bp)) 4) g' (drop bp d ++ rest)) ->
  token_done (Lmatch (Z.of_nat bp) (Z.of_nat i) q) g (drop bp d ++ rest).
Proof.
  intros Hg Hcs Hb Hp H0 IH Hgo. pose proof (prefix_le _ _ _ _ Hp Hb) as Hi.
  destruct (nul_reaches g cs d rest bp i q) as (g1 & Hu1 & Hr1); try done; [lia|].
  assert (holds g1 cs d rest) as Hg1 by by eapply holds_upto.
  destruct (end_of_buffer_eq g1 cs d rest bp i 3 Hg1 Hi) as (g2 & Hg2 & Hst & Ht & Hc & Hcs2 & Hn2 & E2).
  eapply token_done_path; [exact Hr1|by rewrite <- (upto_last_counts _ _ Hu1)|].
  destruct (decide (i < length d)%nat) as [Hlt|Hge].
  - destruct (lookup_lt_is_Some_2 d i Hlt) as [c Ec].
    assert (d !! i = Some 0) as Hd0 by (unfold at_or_nul in H0; rewrite Ec in *; by simpl in H0; subst).
    destruct (real_nul_done g2 cs d rest bp i q Hg2 Hcs2) as (l & g3 & E3 & Hn3 & Hdone); try done; [lia| |].
    { intros ->. intros g' Hg' Hcs'. by apply Hgo. }
    rewrite E3 in E2. eapply token_done_step; [exact E2| |done]. rewrite Hn3, Hn2. done.
  - assert (i = length d) as -> by lia.
    destruct (after_refill_done g2 cs d rest bp q 3 Hg2 Hcs2 Hb Ht Hc Hst Hp IH) as (l & g3 & E3 & Hn3 & Hdone).
    rewrite E3 in E2. eapply token_done_step; [exact E2| |done]. rewrite Hn3, Hn2. done.
Qed.

(** With the first character matched or more of the token. *)
Lemma match_inner g cs d rest bp i q :
  holds g cs d rest -> yy_ch_buf (buf g) = cs -> (bp <= length d)%nat ->
  prefix_state d bp i q -> q <> 1 ->
  (forall rest', (length rest' < length rest)%nat -> match_done rest') ->
  token_done (Lmatch (Z.of_nat bp) (Z.of_nat i) q) g (drop bp d ++ rest).
Proof.
  intros Hg Hcs Hb Hp Hq IH.
  assert (forall g i q, holds g cs d rest -> yy_ch_buf (buf g) = cs -> prefix_state d bp i q -> q <> 1 ->
    (q = 4 \/ forall c, d !! i = Some c -> isalnum c = false) ->
    token_done (Lmatch (Z.of_nat bp) (Z.of_nat i) q) g (drop bp d ++ rest)) as Hstop.
  { clear g i q Hg Hcs Hp Hq. intros g i q Hg Hcs Hp Hq Hend.
    destruct (decide (at_or_nul d i = 0)) as [H0|H0].
    - apply (nul_done g cs); try done. intros ->. inversion Hp; subst; done || lia.
    - unfold at_or_nul in H0. destruct (d !! i) as [c|] eqn:Ec; [|done].
      apply (jam_done g cs d rest bp i q c); try done. destruct Hend; auto. }
  assert (q = 4 \/ word_state q) as [->|Hw].
  { inversion Hp; subst; auto. done. }
  - apply Hstop; auto.
  - set (k := run_length (drop i d)).
    destruct (match_word k g cs d rest (Z.of_nat bp) i q Hg Hcs Hw) as (g1 & q1 & Hu1 & Hw1 & Hr1); [done|].
    eapply token_done_path; [exact Hr1|by apply upto_last_counts|].
    apply Hstop; [by eapply holds_upto|by rewrite (upto_last_ch_buf g)| |by destruct Hw1 as [->| ->]|].
    + inversion Hp as [| |j q' Hi Hr Hw']; subst; [by destruct Hw|by destruct Hw|].
      apply pre_word; [lia| |done]. unfold k.
      replace (drop i d) with (drop (i - bp) (drop bp d)) by (rewrite drop_drop; f_equal; lia).
      rewrite run_tail by lia. lia.
    + right. intros c Hc. apply (run_length_stop (drop i d)). by rewrite lookup_drop.
Qed.

Lemma match_all rest : match_done rest.
Proof.
  induction rest as [rest IH] using (induction_ltof1 _ (@length Z)). unfold ltof in IH.
  intros g cs d bp i q Hg Hcs Hb Hp.
  destruct (Z.eq_dec q 1) as [->|Hq]; [|by apply (match_inner g cs)].
  apply prefix_start in Hp as ->. destruct (decide (at_or_nul d bp = 0)) as [H0|H0].
  - apply (nul_done g cs); try done; [constructor|]. intros _ g' Hg' Hcs' Hd0.
    apply (match_inner g' cs); try done. by constructor.
  - unfold at_or_nul in H0. destruct (d !! bp) as [c|] eqn:Ec; [|done]. simpl in H0.
    pose proof (lookup_lt_Some _ _ _ Ec) as Hlt. pose proof (holds_length _ _ _ _ Hg) as Hlen.
    assert (at_or_nul d bp = c) as Hat by (unfold at_or_nul; by rewrite Ec).
    assert (byte_class c = if c =? 10 then 2 else if isalnum c then 3 else 1) as Hcl.
    { unfold byte_class. by rewrite (proj2 (Z.eqb_neq c 0) H0). }
    destruct (match_step g cs d rest (Z.of_nat bp) bp 1
      (if c =? 10 then 5 else if isalnum c then 6 else 4)) as (g1 & Hu1 & _ & E1); try done; [lia| | |].
    { rewrite Hat, Hcl. by repeat case_match. }
    { repeat case_match; lia. }
    assert (holds g1 cs d rest) as Hg1 by by eapply holds_upto.
    assert (yy_ch_buf (buf g1) = cs) as Hcs1 by by rewrite (upto_last_ch_buf g).
    eapply token_done_step; [exact E1|by apply upto_last_counts|].
    assert (drop bp d ++ rest = c :: drop (S bp) d ++ rest) as Es by by rewrite (drop_S d c bp Ec).
    destruct (c =? 10) eqn:E10; [|destruct (isalnum c) eqn:Ea].
    + eapply token_done_step; [eapply (find_accepting g1 cs bp (S bp) 5 1); [done|lia|done..]|done|].
      replace 1 with (token_rule (drop bp d ++ rest)) by (rewrite Es; simpl; by rewrite E10).
      apply (action_done g1 cs d rest); try done; [lia|by rewrite Es|].
      rewrite Es. simpl. apply Z.eqb_eq in E10 as ->. simpl. lia.
    + apply (match_inner g1 cs); try done. apply pre_word; [lia| |by left].
      rewrite (drop_S d c bp Ec). simpl. rewrite Ea. lia.
    + eapply token_done_step; [eapply (find_accepting g1 cs bp (S bp) 4 3); [done|lia|done..]|done|].
      replace 3 with (token_rule (drop bp d ++ rest)) by (rewrite Es; simpl; by rewrite E10, Ea).
      apply (action_done g1 cs d rest); try done; [lia|by rewrite Es|].
      rewrite Es. simpl. rewrite Ea. lia.
Qed.

(** One round of the loop of [yylex]. *)
Lemma token_step g s : at_token g s -> token_done Ltop g s.
Proof.
  intros (cs & d & rest & p & x & Hg & Hp & Hb & Hh & Hc & ->).
  pose proof (holds_length _ _ _ _ Hg) as Hl.
  assert (step Ltop g = Ok (Goto (Lmatch (Z.of_nat p) (Z.of_nat p) 1) (with_ch_buf g cs))) as E.
  { cbn [FlexScanner.step]. unfold scan_token. rewrite Hc, (set_ch_at g _ p _ Hb) by
      (rewrite length_insert; lia).
    rewrite list_insert_insert_eq, (list_insert_id cs p _ Hh). done. }
  eapply token_done_step; [exact E|done|]. apply (match_all rest _ cs); try done; [|constructor].
  destruct Hg; by constructor.
Qed.

(** The counters hold values of [unsigned long]. *)
Definition counters_ok (n : Z * Z * Z) : Prop :=
  let '(l, w, c) := n in 0 <= l < 2 ^ 64 /\ 0 <= w < 2 ^ 64 /\ 0 <= c < 2 ^ 64.

Lemma counts_after_ok rule len n : counters_ok (counts_after rule len n).
Proof. destruct n as [[l w] c]. split_and!; by apply wrap_u_bounds. Qed.

(** The whole stream. *)
Lemma tokens_done s : forall g, at_token g s -> counters_ok (counts g) ->
  exists n g', (forall fuel, run (n + fuel)%nat Ltop g = Some (Ok (0, g')))
    /\ counters_ok (counts g')
    /\ wrap_u 64 (lineCount g') = wrap_u 64 (lineCount g + lines_of s)
    /\ wrap_u 64 (wordCount g') = wrap_u 64 (wordCount g + words_of false s)
    /\ wrap_u 64 (letterCount g') = wrap_u 64 (letterCount g + Z.of_nat (length s)).
Proof.
  induction s as [s IH] using (induction_ltof1 _ (@length Z)). unfold ltof in IH.
  intros g Hg Hok. destruct (token_step g s Hg) as [(-> & n & g' & Hn & Hc)|(Hne & g1 & [n Hn] & Hg1 & Hc)].
  - exists n, g'. rewrite Hc. injection Hc as -> -> ->. simpl. by rewrite !Z.add_0_r.
  - pose proof (token_len_le s) as Hle.
    assert (token_len s <> 0)%nat as H0.
    { destruct s as [|c s]; [done|]. simpl. destruct (isalnum c); lia. }
    destruct (IH (drop (token_len s) s)) with (g := g1) as (m & g' & Hm & Hok' & H1 & H2 & H3);
      [rewrite length_drop; lia|done|rewrite Hc; apply counts_after_ok|].
    exists (n + m)%nat, g'. split; [intros fuel; by rewrite <- Nat.add_assoc, Hn, Hm|].
    split; [done|]. injection Hc as Hl Hw Hcc. rewrite H1, H2, H3, Hl, Hw, Hcc. unfold wrap_u.
    rewrite (lines_of_token s Hne), (words_of_token s Hne), length_drop, !Zplus_mod_idemp_l.
    split_and!; f_equal; repeat case_match; lia.
Qed.

End Refine.
