(* ===== verification/FlexProps.v ===== *)
(** The theorems about the word counter of src/compiler/lab1: what [main]
    prints, for every file, buffer size and way of reading. *)

From S2P Require Import Prelude Result FlexTables FlexScanner FlexSpec FlexRefine.
From stdpp Require Import strings.
#[local] Open Scope Z_scope.

Lemma lines_of_bounds cs : 0 <= lines_of cs <= Z.of_nat (length cs).
Proof. induction cs as [|c cs IH]; simpl; [lia|]. case_match; lia. Qed.

Lemma words_of_bounds b cs : 0 <= words_of b cs <= Z.of_nat (length cs).
Proof. revert b. induction cs as [|c cs IH]; intros b; simpl; [lia|]. specialize (IH (isalnum c)). case_match; lia. Qed.

Section Main.
Variable isatty : bool.
Variable alloc_ok : Z -> bool.
Variable junk : Z.
Hypothesis alloc : forall n, alloc_ok n = true.

(** The buffer that [yy_create_buffer] made. *)
Lemma yylex_init_ok size cs :
  1 <= size < 2 ^ 62 -> bytes_ok cs -> Z.of_nat (length cs) < 2 ^ 31 - 2 ->
  exists g, yylex_init isatty alloc_ok junk size (File cs false) = Ok g
    /\ at_token g cs /\ counts g = (0, 0, 0).
Proof.
  intros Hs Hb Hl. unfold yylex_init, yy_create_buffer. rewrite alloc. unfold yy_init_buffer.
  set (rep := repeat junk (Z.to_nat (size + 2))).
  assert (length rep = Z.to_nat (size + 2)) as Hrep by apply repeat_length.
  rewrite (flush_ok false _ rep) by (done || lia). cbn [mbind result_bind].
  assert (length (flushed rep) = Z.to_nat (size + 2)) as Hf by (unfold flushed; by rewrite !length_insert).
  assert (take 2 (flushed rep) = [0; 0] /\ flushed rep !! 0%nat = Some 0) as [Ht H0].
  { unfold flushed. clear Hf. destruct rep as [|a [|b r]]; simpl in Hrep; [lia..|done]. }
  rewrite (load_ok _ (flushed rep)) by done. eexists. split; [done|]. split; [|done].
  exists (flushed rep), [], cs, 0%nat, 0. split_and!; try done.
  - constructor; cbn [buf with_token with_ptrs with_buf yy_buf_size length]; try done; lia.
  - cbn. by rewrite list_insert_id.
Qed.

(** C5: The word counter prints the number of words, bytes and lines of its
    input: for every file of less than 2^31 - 2 bytes that is read without an error, NUL
    characters included, [main] stops and its three numbers are those of the reference
    counts, a word being a maximal run of letters and digits. These are not always the words
    of wc, which the comment in [main] recommends for checking ([wc_differs] in [FlexSpec]). *)
Theorem main_counts (cs : list Z) (Hb : bytes_ok cs) (Hl : Z.of_nat (length cs) < 2 ^ 31 - 2) :
  exists n, forall fuel, (n <= fuel)%nat ->
    main isatty alloc_ok junk fuel (File cs false)
    = Some (Ok (words_of false cs, Z.of_nat (length cs), lines_of cs)).
Proof.
  destruct (yylex_init_ok YY_BUF_SIZE cs) as (g & Ei & Hg & Hc); [done|done|done|].
  destruct (tokens_done isatty alloc_ok junk alloc cs g Hg) as (n & g' & Hn & Hok & H1 & H2 & H3).
  { by rewrite Hc. }
  exists n. intros fuel Hf. unfold main, yylex, yylex_from. rewrite Ei.
  replace fuel with (n + (fuel - n))%nat by lia. rewrite Hn.
  destruct Hok as (Hk1 & Hk2 & Hk3). injection Hc as E1 E2 E3.
  pose proof (lines_of_bounds cs). pose proof (words_of_bounds false cs).
  rewrite E1 in H1. rewrite E2 in H2. rewrite E3 in H3. rewrite !wrap_u_small in H1, H2, H3 by lia.
  by rewrite H1, H2, H3.
Qed.

(** C28: The scanner does not depend on its buffer: with a buffer of any size
    from one byte up, filled by [fread] or character by character from a
    terminal, [yylex] returns 0 after the same counts. *)
Theorem yylex_any_buffer (size : Z) (Hs : 1 <= size < 2 ^ 62) (cs : list Z)
    (Hb : bytes_ok cs) (Hl : Z.of_nat (length cs) < 2 ^ 31 - 2) :
  exists n g, (forall fuel, (n <= fuel)%nat ->
      yylex_from isatty alloc_ok junk size fuel (File cs false) = Some (Ok (0, g)))
    /\ wordCount g = words_of false cs /\ letterCount g = Z.of_nat (length cs)
    /\ lineCount g = lines_of cs.
Proof.
  destruct (yylex_init_ok size cs) as (g & Ei & Hg & Hc); [done|done|done|].
  destruct (tokens_done isatty alloc_ok junk alloc cs g Hg) as (n & g' & Hn & Hok & H1 & H2 & H3).
  { by rewrite Hc. }
  exists n, g'. split.
  { intros fuel Hf. unfold yylex_from. rewrite Ei.
    replace fuel with (n + (fuel - n))%nat by lia. by rewrite Hn. }
  destruct Hok as (Hk1 & Hk2 & Hk3). injection Hc as E1 E2 E3.
  pose proof (lines_of_bounds cs). pose proof (words_of_bounds false cs).
  rewrite E1 in H1. rewrite E2 in H2. rewrite E3 in H3. rewrite !wrap_u_small in H1, H2, H3 by lia.
  done.
Qed.

(** C31: One round of [yylex] takes the longest match of the rules: from every
    state in front of a token the scanner either returns at the end of the
    input or reaches the next token behind the longest match, with the action
    of the rule that matches. *)
Theorem yylex_longest_match (g : globals) (s : list Z) (Hg : at_token g s) (Hne : s <> []) :
  exists g', reaches isatty alloc_ok junk Ltop g Ltop g'
    /\ at_token g' (drop (token_len s) s)
    /\ counts g' = counts_after (token_rule s) (token_len s) (counts g).
Proof.
  by destruct (token_step isatty alloc_ok junk alloc g s Hg) as [[? _]|(_ & g' & H)]; [|exists g'].
Qed.

End Main.

(** ["ab 1\n\0c"] *)
Definition text : list Z := [97; 98; 32; 49; 10; 0; 99].

Lemma main_counts_witness :
  exists n, forall fuel, (n <= fuel)%nat ->
    main false (fun _ => true) 0 fuel (File text false) = Some (Ok (3, 7, 1)).
Proof.
  apply (main_counts false (fun _ => true) 0 (fun _ => eq_refl) text); [|vm_compute; reflexivity].
  by repeat constructor.
Defined.

Lemma yylex_any_buffer_witness :
  exists n g, (forall fuel, (n <= fuel)%nat ->
      yylex_from true (fun _ => true) 0 1 fuel (File text false) = Some (Ok (0, g)))
    /\ wordCount g = 3 /\ letterCount g = 7 /\ lineCount g = 1.
Proof.
  apply (yylex_any_buffer true (fun _ => true) 0 (fun _ => eq_refl) 1 ltac:(lia) text);
    [|vm_compute; reflexivity].
  by repeat constructor.
Defined.

(** The state in front of the second token of [text]. *)
Lemma text_state : exists g, at_token g text.
Proof.
  destruct (yylex_init_ok false (fun _ => true) 0 (fun _ => eq_refl) 16 text) as (g & _ & Hg & _);
    [lia|by repeat constructor|vm_compute; reflexivity|by exists g].
Qed.

Lemma yylex_longest_match_witness :
  exists g g', at_token g text /\ reaches false (fun _ => true) 0 Ltop g Ltop g'
    /\ at_token g' [32; 49; 10; 0; 99].
Proof.
  destruct text_state as [g Hg].
  destruct (yylex_longest_match false (fun _ => true) 0 (fun _ => eq_refl) g text Hg)
    as (g' & Hr & Ha & _); [done|].
  by exists g, g'.
Defined.
