(* ===== verification/FlexStack.v ===== *)
(** The rest of the runtime in src/compiler/lab1/lex.yy.c, which the word counter does not
    call: [unput] and [input], the stack of buffers, scanning from memory and
    [yylex_destroy].

    The globals are those of [FlexScanner], whose [buf] and [yyin] are the current buffer and
    its stream; the other buffers are in a heap. Buffers and streams are numbers here, and an
    access to a freed buffer is [Undefined]. *)

From S2P Require Import Prelude Result FlexTables FlexScanner.
From stdpp Require Import strings.
#[local] Open Scope Z_scope.
#[local] Open Scope cint_scope.

Section Stack.
Context (isatty : bool) (alloc_ok : Z -> bool) (junk : Z).

(** ** Pushing characters back, and reading them *)

(** [while ( source > ... ) *--dest = *--source;] *)
Fixpoint shift_up (n : nat) (dest source : Z) (g : globals) : result globals :=
  match n with
  | O => Ok g
  | S n => c ← ch g (source - 1); g ← set_ch g (dest - 1) c; shift_up n (dest - 1) (source - 1) g
  end.

(** The room for a character in front of [yy_cp]: the buffer is shifted up if need be. *)
Definition make_room (g : globals) (cp bp : Z) : result (globals * Z * Z) :=
  if cp <? 2 then
    let number_to_move := yy_n_chars g + 2 in
    let size := yy_buf_size (buf g) in
    let shift := size + 2 - number_to_move in
    g ← shift_up (Z.to_nat number_to_move) (size + 2) number_to_move g;
    let g := with_ptrs (with_status g size (yy_buffer_status (buf g))) (yytext_ptr g) (yy_c_buf_p g) size in
    if cp + shift <? 2 then Fatal "flex scanner push-back overflow" else Ok (g, cp + shift, bp + shift)
  else Ok (g, cp, bp).

(** [yyunput] *)
Definition yyunput (c yy_bp : Z) (g : globals) : result globals :=
  let cp := yy_c_buf_p g in
  g ← set_ch g cp (yy_hold_char g);
  '(g, cp, bp) ← make_room g cp yy_bp;
  g ← set_ch g (cp - 1) (uint8 c);
  Ok (with_token g bp (yyleng g) (cp - 1) (uint8 c)).

(** The switch of [input] at the end of the buffer: whether there is more, and where. *)
Definition input_more (g : globals) : result (option Z * globals) :=
  let offset := yy_c_buf_p g - yytext_ptr g in
  let g := with_ptrs g (yytext_ptr g) (yy_c_buf_p g + 1) (yy_n_chars g) in
  '(act, g) ← yy_get_next_buffer isatty alloc_ok junk g;
  match act with
  | EOB_ACT_LAST_MATCH => g ← yyrestart isatty g; Ok (None, g)
  | EOB_ACT_END_OF_FILE => Ok (None, g)
  | EOB_ACT_CONTINUE_SCAN => Ok (Some (yytext_ptr g + offset), g)
  end.

(** [input]: a character, or [None] for [EOF]; [yywrap] always returns 1. *)
Definition input (g : globals) : result (option Z * globals) :=
  let cp := yy_c_buf_p g in
  g ← set_ch g cp (yy_hold_char g);
  c ← ch g cp;
  '(o, g) ← (if c =? YY_END_OF_BUFFER_CHAR then
               if cp <? yy_n_chars g then Ok (Some cp, g) else input_more g
             else Ok (Some cp, g));
  match o with
  | None => Ok (None, g)
  | Some cp =>
    c ← ch g cp;
    g ← set_ch g cp 0;
    hold ← ch g (cp + 1);
    Ok (Some c, with_token g (yytext_ptr g) (yyleng g) (cp + 1) hold)
  end.

(** ** State *)

(** A [yy_buffer_state] in the heap, with [yy_input_file]. *)
Notation entry := (buffer * option nat)%type.

Record runtime := Runtime {
  glob : globals;
  streams : list file;
  yyin_ : option nat;
  heap : list (option entry);
  yy_buffer_stack : option (list (option nat));
  yy_buffer_stack_top : nat;
  yy_did_buffer_switch_on_eof : bool
}.

Definition with_glob (r : runtime) (g : globals) : runtime :=
  Runtime g (streams r) (yyin_ r) (heap r) (yy_buffer_stack r) (yy_buffer_stack_top r) (yy_did_buffer_switch_on_eof r).
Definition with_heap (r : runtime) (h : list (option entry)) : runtime :=
  Runtime (glob r) (streams r) (yyin_ r) h (yy_buffer_stack r) (yy_buffer_stack_top r) (yy_did_buffer_switch_on_eof r).
Definition with_stack (r : runtime) (l : option (list (option nat))) (top : nat) : runtime :=
  Runtime (glob r) (streams r) (yyin_ r) (heap r) l top (yy_did_buffer_switch_on_eof r).
Definition with_stream (r : runtime) (l : list file) (f : option nat) : runtime :=
  Runtime (glob r) l f (heap r) (yy_buffer_stack r) (yy_buffer_stack_top r) (yy_did_buffer_switch_on_eof r).
Definition with_switch (r : runtime) : runtime :=
  Runtime (glob r) (streams r) (yyin_ r) (heap r) (yy_buffer_stack r) (yy_buffer_stack_top r) true.

(** [YY_CURRENT_BUFFER] *)
Definition YY_CURRENT_BUFFER (r : runtime) : option nat :=
  l ← yy_buffer_stack r; b ← l !! yy_buffer_stack_top r; b.

(** An assignment to [YY_CURRENT_BUFFER_LVALUE]. *)
Definition set_current (r : runtime) (b : option nat) : result runtime :=
  match yy_buffer_stack r with
  | Some l => l ← rset l (Z.of_nat (yy_buffer_stack_top r)) b; Ok (with_stack r (Some l) (yy_buffer_stack_top r))
  | None => Undefined
  end.

Definition deref (r : runtime) (b : nat) : result entry :=
  match heap r !! b with Some (Some e) => Ok e | _ => Undefined end.

(** A new block in the heap. *)
Definition new_entry (r : runtime) (e : entry) : nat * runtime := (length (heap r), with_heap r (heap r ++ [Some e])).

(** ** The stack *)

(** [yyensure_buffer_stack] *)
Definition yyensure_buffer_stack (r : runtime) : result runtime :=
  match yy_buffer_stack r with
  | None => if alloc_ok 8 then Ok (with_stack r (Some [None]) 0) else Fatal "out of dynamic memory in yyensure_buffer_stack()"
  | Some l =>
    if Z.of_nat (length l) - 1 <=? Z.of_nat (yy_buffer_stack_top r) then
      if alloc_ok ((Z.of_nat (length l) + 8) * 8) then Ok (with_stack r (Some (l ++ replicate 8 None)) (yy_buffer_stack_top r))
      else Fatal "out of dynamic memory in yyensure_buffer_stack()"
    else Ok r
  end.

(** The streams, with what is left of [yyin]. *)
Definition synced (r : runtime) : list file :=
  match yyin_ r with Some f => <[f := yyin (glob r)]> (streams r) | None => streams r end.

(** "Flush out information for old buffer" *)
Definition flush_old (r : runtime) (b : nat) : result runtime :=
  let g := glob r in
  g ← set_ch g (yy_c_buf_p g) (yy_hold_char g);
  e ← deref r b;
  let o := buf g in
  let o := Buffer (yy_ch_buf o) (yy_c_buf_p g) (yy_buf_size o) (yy_n_chars g) (yy_is_our_buffer o)
             (yy_is_interactive o) (yy_fill_buffer o) (yy_buffer_status o) in
  Ok (with_heap (with_glob r (with_buf g o)) (<[b := Some (o, e.2)]> (heap r))).

(** The stream of a number; a buffer without one is never filled ([yy_fill_buffer] is 0). *)
Definition stream (l : list file) (f : option nat) : file :=
  from_option (fun f => default (File [] false) (l !! f)) (File [] false) f.

(** [yy_load_buffer_state] of the current buffer [b]. *)
Definition load_state (r : runtime) (b : nat) : result runtime :=
  '(o, f) ← deref r b;
  g ← yy_load_buffer_state (with_in (with_buf (glob r) o) (stream (synced r) f));
  Ok (with_glob (with_stream r (synced r) f) g).

(** [yy_switch_to_buffer] *)
Definition yy_switch_to_buffer (new_buffer : nat) (r : runtime) : result runtime :=
  r ← yyensure_buffer_stack r;
  if decide (YY_CURRENT_BUFFER r = Some new_buffer) then Ok r
  else
    r ← match YY_CURRENT_BUFFER r with Some b => flush_old r b | None => Ok r end;
    r ← set_current r (Some new_buffer);
    r ← load_state r new_buffer;
    Ok (with_switch r).

(** [yypush_buffer_state] *)
Definition yypush_buffer_state (new_buffer : option nat) (r : runtime) : result runtime :=
  match new_buffer with
  | None => Ok r
  | Some b' =>
    r ← yyensure_buffer_stack r;
    r ← match YY_CURRENT_BUFFER r with Some b => flush_old r b | None => Ok r end;
    let r := match YY_CURRENT_BUFFER r with Some _ => with_stack r (yy_buffer_stack r) (S (yy_buffer_stack_top r)) | None => r end in
    r ← set_current r (Some b');
    r ← load_state r b';
    Ok (with_switch r)
  end.

(** [yy_delete_buffer] *)
Definition yy_delete_buffer (b : option nat) (r : runtime) : result runtime :=
  match b with
  | None => Ok r
  | Some b =>
    r ← (if decide (YY_CURRENT_BUFFER r = Some b) then set_current r None else Ok r);
    _ ← deref r b;
    Ok (with_heap r (<[b := None]> (heap r)))
  end.

(** [yypop_buffer_state] *)
Definition yypop_buffer_state (r : runtime) : result runtime :=
  match YY_CURRENT_BUFFER r with
  | None => Ok r
  | Some b =>
    r ← yy_delete_buffer (Some b) r;
    r ← set_current r None;
    let r := with_stack r (yy_buffer_stack r) (pred (yy_buffer_stack_top r)) in
    match YY_CURRENT_BUFFER r with
    | Some b' => r ← load_state r b'; Ok (with_switch r)
    | None => Ok r
    end
  end.

(** [yy_init_globals] *)
Definition yy_init_globals (r : runtime) : runtime :=
  let g := glob r in
  Runtime (with_ptrs g (yytext_ptr g) 0 (yy_n_chars g))
    (synced r) None (heap r) None 0 (yy_did_buffer_switch_on_eof r).

(** The loop of [yylex_destroy]. *)
Fixpoint destroy_loop (fuel : nat) (r : runtime) : option (result runtime) :=
  match fuel with
  | O => None
  | S fuel =>
    match YY_CURRENT_BUFFER r with
    | None => Some (Ok r)
    | Some b =>
      match r ← yy_delete_buffer (Some b) r; r ← set_current r None; yypop_buffer_state r with
      | Ok r => destroy_loop fuel r
      | Fatal m => Some (Fatal m)
      | Undefined => Some Undefined
      end
    end
  end.

(** [yylex_destroy] *)
Definition yylex_destroy (fuel : nat) (r : runtime) : option (result runtime) :=
  o ← destroy_loop fuel r;
  Some (r ← o; Ok (yy_init_globals (with_stack r None (yy_buffer_stack_top r)))).

(** ** Scanning from memory *)

(** [yy_scan_buffer], for the block [base] of the caller; [None] is the null pointer. *)
Definition yy_scan_buffer (base : list Z) (r : runtime) : result (option nat * runtime) :=
  let size := Z.of_nat (length base) in
  if (size <? 2) || negb (default 1 (aget base (size - 2)) =? YY_END_OF_BUFFER_CHAR)
     || negb (default 1 (aget base (size - 1)) =? YY_END_OF_BUFFER_CHAR) then Ok (None, r)
  else if alloc_ok 64 then
    let (b, r) := new_entry r (Buffer base 0 (size - 2) (size - 2) false false false YY_BUFFER_NEW, None) in
    r ← yy_switch_to_buffer b r;
    Ok (Some b, r)
  else Fatal "out of dynamic memory in yy_scan_buffer()".

(** [b->yy_is_our_buffer = 1] of the current buffer [b]. *)
Definition set_our_buffer (r : runtime) (b : nat) : result runtime :=
  '(o, f) ← deref r b;
  let ours o := Buffer (yy_ch_buf o) (yy_buf_pos o) (yy_buf_size o) (b_n_chars o) true
             (yy_is_interactive o) (yy_fill_buffer o) (yy_buffer_status o) in
  Ok (with_heap (with_glob r (with_buf (glob r) (ours (buf (glob r))))) (<[b := Some (ours o, f)]> (heap r))).

(** [yy_scan_bytes]: a copy of the bytes with two end-of-buffer characters. *)
Definition yy_scan_bytes (l : list Z) (r : runtime) : result (option nat * runtime) :=
  if alloc_ok (Z.of_nat (length l) + 2) then
    '(b, r) ← yy_scan_buffer (l ++ [YY_END_OF_BUFFER_CHAR; YY_END_OF_BUFFER_CHAR]) r;
    match b with
    | None => Fatal "bad buffer in yy_scan_bytes()"
    | Some b => r ← set_our_buffer r b; Ok (Some b, r)
    end
  else Fatal "out of dynamic memory in yy_scan_bytes()".

(** The place of the NUL, which must be there. *)
Fixpoint strlen (l : list Z) : result nat :=
  match l with
  | [] => Undefined
  | c :: l => if c =? 0 then Ok 0%nat else n ← strlen l; Ok (S n)
  end.

(** [yy_scan_string] *)
Definition yy_scan_string (s : list Z) (r : runtime) : result (option nat * runtime) :=
  n ← strlen s; yy_scan_bytes (take n s) r.

(** ** Access *)

Definition yyget_leng (r : runtime) : Z := yyleng (glob r).
Definition yyget_text (r : runtime) : Z := yytext_ptr (glob r).
Definition yyget_in (r : runtime) : option nat := yyin_ r.

(** [yyset_in]: the current buffer keeps its [yy_input_file]. *)
Definition yyset_in (f : option nat) (r : runtime) : runtime :=
  with_glob (with_stream r (synced r) f) (with_in (glob r) (stream (synced r) f)).

(** The static variables at the start. *)
Definition runtime0 (l : list file) : runtime := Runtime (globals0 (File [] false)) l None [] None 0 false.

End Stack.
