(* ===== verification/FlexStackProps.v ===== *)
(** What the rest of the flex runtime does: [unput] and [input] on the characters that are
    still to come, pushing and popping buffers, scanning from memory, and what
    [yylex_destroy] leaves. *)

From S2P Require Import Prelude Result FlexTables FlexScanner FlexStack.
From stdpp Require Import strings.
#[local] Open Scope Z_scope.
#[local] Open Scope cint_scope.

(** ** The characters to come *)

Definition slice {A} (l : list A) (a b : nat) : list A := take (b - a) (drop a l).

Lemma slice_cons {A} (l : list A) a b x : l !! a = Some x -> (a < b)%nat -> slice l a b = x :: slice l (S a) b.
Proof. intros Hx Hab. unfold slice. rewrite (drop_S l x a Hx). replace (b - a)%nat with (S (b - S a)) by lia. done. Qed.

Lemma slice_ext {A} (l l' : list A) a b : (forall i, (a <= i < b)%nat -> l !! i = l' !! i) -> slice l a b = slice l' a b.
Proof.
  intros H. unfold slice. apply list_eq. intros i. destruct (decide (i < b - a)%nat) as [Hi|Hi].
  - rewrite !lookup_take_lt, !lookup_drop by done. apply H. lia.
  - by rewrite !lookup_take_ge by lia.
Qed.

Lemma slice_shift {A} (l l' : list A) a b d : (forall i, (a <= i < b)%nat -> l !! i = l' !! (d + i)%nat) ->
  slice l' (d + a) (d + b) = slice l a b.
Proof.
  intros H. unfold slice. replace (d + b - (d + a))%nat with (b - a)%nat by lia. apply list_eq. intros i.
  destruct (decide (i < b - a)%nat) as [Hi|Hi].
  - rewrite !lookup_take_lt, !lookup_drop by done. rewrite <- (Nat.add_assoc d a i). symmetry. apply H. lia.
  - by rewrite !lookup_take_ge by lia.
Qed.

(** The buffer with the character that [yytext] has replaced. *)
Definition restored (g : globals) : list Z := <[Z.to_nat (yy_c_buf_p g) := yy_hold_char g]> (yy_ch_buf (buf g)).

Definition to_come (g : globals) : list Z := slice (restored g) (Z.to_nat (yy_c_buf_p g)) (Z.to_nat (yy_n_chars g)).

(** The scanner is between two tokens, and the buffer has its two last characters. *)
Record between (g : globals) : Prop := {
  B_pos : 0 <= yy_c_buf_p g <= yy_n_chars g;
  B_size : yy_n_chars g <= yy_buf_size (buf g);
  B_length : Z.of_nat (length (yy_ch_buf (buf g))) = yy_buf_size (buf g) + 2;
  B_end : restored g !! Z.to_nat (yy_n_chars g) = Some 0 /\ restored g !! S (Z.to_nat (yy_n_chars g)) = Some 0
}.

Lemma set_ch_ok g i c : 0 <= i < Z.of_nat (length (yy_ch_buf (buf g))) -> set_ch g i c = Ok (with_ch_buf g (<[Z.to_nat i := c]> (yy_ch_buf (buf g)))).
Proof. intros Hi. unfold set_ch. by rewrite aset_in_range. Qed.

Lemma ch_ok g i c : 0 <= i -> yy_ch_buf (buf g) !! Z.to_nat i = Some c -> ch g i = Ok c.
Proof. intros Hi Hc. unfold ch, aget. by rewrite (proj2 (Z.leb_le _ _)), Hc. Qed.

(** ** Shifting *)

Lemma shift_up_ok n : forall g (d : nat), (d + n <= length (yy_ch_buf (buf g)))%nat ->
  exists cs, shift_up n (Z.of_nat (d + n)) (Z.of_nat n) g = Ok (with_ch_buf g cs) /\ length cs = length (yy_ch_buf (buf g))
    /\ (forall i, (i < n)%nat -> cs !! (d + i)%nat = yy_ch_buf (buf g) !! i)
    /\ (forall i, (d + n <= i)%nat -> cs !! i = yy_ch_buf (buf g) !! i).
Proof.
  induction n as [|n IH]; intros g d Hl; cbn [shift_up].
  - exists (yy_ch_buf (buf g)). split_and!; [by destruct g, buf|done|lia|done].
  - destruct (lookup_lt_is_Some_2 (yy_ch_buf (buf g)) n ltac:(lia)) as [c Hc].
    rewrite (ch_ok g _ c); [|lia|by replace (Z.to_nat (Z.of_nat (S n) - 1)) with n by lia]. cbn [mbind result_bind].
    rewrite set_ch_ok by lia. cbn [mbind result_bind]. replace (Z.to_nat (Z.of_nat (d + S n) - 1)) with (d + n)%nat by lia.
    set (g1 := with_ch_buf g _).
    replace (Z.of_nat (d + S n) - 1) with (Z.of_nat (d + n)) by lia. replace (Z.of_nat (S n) - 1) with (Z.of_nat n) by lia.
    destruct (IH g1 d) as (cs & -> & Hlen & Hcs & Hrest); [cbn; rewrite length_insert; lia|]. cbn in Hlen, Hcs, Hrest. rewrite length_insert in Hlen.
    exists cs. split; [done|]. split; [done|]. split.
    + intros i Hi. destruct (decide (i = n)) as [->|Hne].
      * rewrite Hrest, list_lookup_insert_eq by lia. done.
      * rewrite Hcs, list_lookup_insert_ne by lia. done.
    + intros i Hi. rewrite Hrest, list_lookup_insert_ne by lia. done.
Qed.

Ltac flex := cbn [restored buf yytext_ptr yyleng yy_c_buf_p yy_hold_char yy_n_chars yy_last_accepting_state yy_last_accepting_cpos yyin
  yy_ch_buf yy_buf_pos yy_buf_size b_n_chars yy_is_our_buffer yy_is_interactive yy_fill_buffer yy_buffer_status
  with_buf with_ch_buf with_status with_ptrs with_token with_in].

Lemma restored_length g : length (restored g) = length (yy_ch_buf (buf g)).
Proof. apply length_insert. Qed.

(** Making room moves what is to come to the end of the buffer. *)
Lemma make_room_ok g cp bp : 0 <= cp <= yy_n_chars g -> yy_n_chars g <= yy_buf_size (buf g) ->
  Z.of_nat (length (yy_ch_buf (buf g))) = yy_buf_size (buf g) + 2 ->
  if (cp <? 2) && (cp + (yy_buf_size (buf g) - yy_n_chars g) <? 2)
  then make_room g cp bp = Fatal "flex scanner push-back overflow"
  else exists g' cp' bp', make_room g cp bp = Ok (g', cp', bp') /\ 2 <= cp' <= yy_n_chars g' /\ yy_n_chars g' <= yy_buf_size (buf g')
    /\ length (yy_ch_buf (buf g')) = length (yy_ch_buf (buf g)) /\ yy_buf_size (buf g') = yy_buf_size (buf g)
    /\ yyin g' = yyin g /\ cp' - cp = yy_n_chars g' - yy_n_chars g /\ cp <= cp' /\ bp' - bp = cp' - cp
    /\ (forall i, (Z.to_nat cp <= i < Z.to_nat (yy_n_chars g) + 2)%nat ->
          yy_ch_buf (buf g') !! (Z.to_nat (cp' - cp) + i)%nat = yy_ch_buf (buf g) !! i).
Proof.
  intros Hp Hs Hl. unfold make_room. destruct (Z.ltb_spec cp 2) as [Hc|Hc]; cbn [andb].
  - destruct (shift_up_ok (Z.to_nat (yy_n_chars g + 2)) g (Z.to_nat (yy_buf_size (buf g) - yy_n_chars g))) as (cs & E & Hlen & Hcs & _); [lia|].
    replace (Z.of_nat (Z.to_nat (yy_buf_size (buf g) - yy_n_chars g) + Z.to_nat (yy_n_chars g + 2))) with (yy_buf_size (buf g) + 2) in E by lia.
    replace (Z.of_nat (Z.to_nat (yy_n_chars g + 2))) with (yy_n_chars g + 2) in E by lia.
    rewrite E. cbn [mbind result_bind]. replace (yy_buf_size (buf g) + 2 - (yy_n_chars g + 2)) with (yy_buf_size (buf g) - yy_n_chars g) by lia.
    destruct (_ <? 2) eqn:Ho; [done|]. apply Z.ltb_ge in Ho. do 3 eexists. split; [done|]. cbn.
    split_and!; try done; try lia. intros i Hi.
    replace (Z.to_nat (cp + (yy_buf_size (buf g) - yy_n_chars g) - cp)) with (Z.to_nat (yy_buf_size (buf g) - yy_n_chars g)) by lia.
    apply Hcs. lia.
  - exists g, cp, bp. split; [done|]. split_and!; try done; try lia. intros i Hi. by rewrite Z.sub_diag.
Qed.

(** Fewer than two of the places of the buffer are free of characters to come. *)
Definition full (g : globals) : bool :=
  (yy_c_buf_p g <? 2) && (yy_c_buf_p g + (yy_buf_size (buf g) - yy_n_chars g) <? 2).

(** [unput(c)] makes [c] the next character to come, in front of the others, wherever the
    buffer ends up, and fails exactly if the buffer has fewer than two free places, though one
    would do. *)
Theorem unput_puts_back g c bp (Hg : between g) :
  if full g then yyunput c bp g = Fatal "flex scanner push-back overflow"
  else exists g', yyunput c bp g = Ok g' /\ between g' /\ to_come g' = uint8 c :: to_come g /\ yyin g' = yyin g.
Proof.
  destruct Hg as [Hp Hs Hl [He1 He2]]. unfold yyunput, full. rewrite set_ch_ok by lia. cbn [mbind result_bind].
  fold (restored g). pose proof (make_room_ok (with_ch_buf g (restored g)) (yy_c_buf_p g) bp) as M. cbn in M.
  rewrite restored_length in M. specialize (M Hp Hs Hl). destruct (_ && _).
  - by rewrite M.
  - destruct M as (g' & cp' & bp' & -> & Hp' & Hs' & Hl' & Hz & Hin & Hd & Hle & _ & Hm). cbn [mbind result_bind].
    rewrite set_ch_ok by lia. cbn [mbind result_bind]. eexists. split; [done|].
    assert (R : forall g1 : globals, g1 = with_token (with_ch_buf g' (<[Z.to_nat (cp' - 1) := uint8 c]> (yy_ch_buf (buf g')))) bp' (yyleng g') (cp' - 1) (uint8 c) ->
      forall i, (Z.to_nat cp' <= i)%nat -> restored g1 !! i = yy_ch_buf (buf g') !! i).
    { intros g1 -> i Hi. unfold restored. cbn. by rewrite !list_lookup_insert_ne by lia. }
    specialize (R _ eq_refl). set (g1 := with_token _ _ _ _ _) in *. split; [|split; [|done]].
    + split; try (cbn; lia).
      * cbn. rewrite length_insert. lia.
      * rewrite !R by (cbn; lia). change (yy_n_chars g1) with (yy_n_chars g'). split.
        -- rewrite <- He1, <- Hm by lia. f_equal. lia.
        -- rewrite <- He2, <- Hm by lia. f_equal. lia.
    + unfold to_come at 1. change (yy_c_buf_p g1) with (cp' - 1). change (yy_n_chars g1) with (yy_n_chars g').
      rewrite (slice_cons _ _ _ (uint8 c)); [|unfold restored; cbn; apply list_lookup_insert_eq; rewrite length_insert; lia|lia]. f_equal.
      replace (S (Z.to_nat (cp' - 1))) with (Z.to_nat (cp' - yy_c_buf_p g) + Z.to_nat (yy_c_buf_p g))%nat by lia.
      replace (Z.to_nat (yy_n_chars g')) with (Z.to_nat (cp' - yy_c_buf_p g) + Z.to_nat (yy_n_chars g))%nat by lia.
      apply slice_shift. intros i Hi. rewrite R by lia. symmetry. apply Hm. lia.
Qed.

(** ** Taking a character *)

Section Input.
Context (isatty : bool) (alloc_ok : Z -> bool) (junk : Z).

(** [input()] takes the first of the characters to come, a NUL like any other, and leaves
    the rest and the stream. *)
Theorem input_takes g c l (Hg : between g) (Hc : to_come g = c :: l) :
  exists g', input isatty alloc_ok junk g = Ok (Some c, g') /\ between g' /\ to_come g' = l /\ yyin g' = yyin g.
Proof.
  destruct Hg as [Hp Hs Hl [He1 He2]]. unfold input. rewrite set_ch_ok by lia. cbn [mbind result_bind].
  fold (restored g). set (g0 := with_ch_buf g (restored g)).
  assert (Hlt : yy_c_buf_p g < yy_n_chars g).
  { destruct (decide (yy_c_buf_p g < yy_n_chars g)) as [|Hge]; [done|]. unfold to_come, slice in Hc.
    by replace (Z.to_nat (yy_n_chars g) - Z.to_nat (yy_c_buf_p g))%nat with 0%nat in Hc by lia. }
  destruct (lookup_lt_is_Some_2 (restored g) (Z.to_nat (yy_c_buf_p g))) as [x Hx]; [rewrite restored_length; lia|].
  unfold to_come in Hc. rewrite (slice_cons _ _ _ x Hx) in Hc by lia. injection Hc as -> Hc.
  assert (E : ch g0 (yy_c_buf_p g) = Ok c) by (apply ch_ok; [lia|done]).
  destruct (lookup_lt_is_Some_2 (restored g) (S (Z.to_nat (yy_c_buf_p g)))) as [h Hh]; [rewrite restored_length; lia|].
  rewrite E. cbn [mbind result_bind].
  assert (B : (if c =? YY_END_OF_BUFFER_CHAR then
               if yy_c_buf_p g <? yy_n_chars g0 then Ok (Some (yy_c_buf_p g), g0) else input_more isatty alloc_ok junk g0
             else Ok (Some (yy_c_buf_p g), g0)) = Ok (Some (yy_c_buf_p g), g0)).
  { destruct (_ =? _); [|done]. cbn. by rewrite (proj2 (Z.ltb_lt _ _)). }
  rewrite B. cbn [mbind result_bind]. rewrite E. cbn [mbind result_bind]. rewrite set_ch_ok by (cbn; rewrite restored_length; lia).
  cbn [mbind result_bind].
  rewrite (ch_ok _ _ h); [|lia|cbn; rewrite list_lookup_insert_ne by lia; by replace (Z.to_nat (yy_c_buf_p g + 1)) with (S (Z.to_nat (yy_c_buf_p g))) by lia].
  cbn [mbind result_bind]. eexists. split; [done|]. set (g1 := with_token _ _ _ _ _).
  assert (R : forall i, (Z.to_nat (yy_c_buf_p g) < i)%nat -> restored g1 !! i = restored g !! i).
  { intros i Hi. unfold restored at 1. cbn. replace (Z.to_nat (yy_c_buf_p g + 1)) with (S (Z.to_nat (yy_c_buf_p g))) by lia.
    destruct (decide (i = S (Z.to_nat (yy_c_buf_p g)))) as [->|Hne].
    - rewrite list_lookup_insert_eq by (rewrite length_insert, restored_length; lia). done.
    - by rewrite !list_lookup_insert_ne by lia. }
  split; [|split; [|done]].
  - split; try (cbn; lia).
    + cbn. rewrite length_insert, restored_length. lia.
    + rewrite !R by (cbn; lia). done.
  - rewrite <- Hc. unfold to_come. change (yy_c_buf_p g1) with (yy_c_buf_p g + 1). replace (Z.to_nat (yy_c_buf_p g + 1)) with (S (Z.to_nat (yy_c_buf_p g))) by lia.
    apply slice_ext. intros i Hi. apply R. lia.
Qed.

(** At the end of a buffer that is not filled [input()] is [EOF] once; to call it again is
    fatal, because the position has passed the end and is not put back. *)
Theorem input_at_end g (Hg : between g) (Hc : to_come g = []) (Hf : yy_fill_buffer (buf g) = false) (Ht : yytext_ptr g = yy_c_buf_p g) :
  exists g', input isatty alloc_ok junk g = Ok (None, g') /\
    input isatty alloc_ok junk g' = Fatal "fatal flex scanner internal error--end of buffer missed".
Proof.
  destruct Hg as [Hp Hs Hl [He1 He2]].
  assert (Hn : yy_c_buf_p g = yy_n_chars g).
  { destruct (decide (yy_c_buf_p g = yy_n_chars g)) as [|Hne]; [done|]. exfalso. apply (f_equal length) in Hc. unfold to_come, slice in Hc.
    rewrite length_take, length_drop, restored_length in Hc. cbn in Hc. lia. }
  assert (Hh : yy_hold_char g = 0).
  { rewrite <- Hn in He1. unfold restored in He1. rewrite list_lookup_insert_eq in He1 by lia. by injection He1. }
  unfold input at 1. rewrite set_ch_ok by lia. cbn [mbind result_bind]. fold (restored g).
  rewrite (ch_ok _ _ 0); [|lia|cbn; by rewrite Hn]. cbn [mbind result_bind].
  change (0 =? YY_END_OF_BUFFER_CHAR) with true. cbn -[input yy_get_next_buffer input_more]. rewrite (proj2 (Z.ltb_ge _ _)) by lia.
  unfold input_more at 1, yy_get_next_buffer at 1. cbn -[input]. rewrite Hf, Ht. cbn -[input]. rewrite (proj2 (Z.ltb_ge _ _)) by lia.
  cbn -[input]. replace (yy_c_buf_p g + 1 - yy_c_buf_p g) with 1 by lia. cbn -[input]. eexists. split; [done|].
  unfold input. rewrite set_ch_ok by (cbn; rewrite restored_length; lia). cbn [mbind result_bind].
  rewrite (ch_ok _ _ 0); [|cbn; lia|cbn; rewrite list_lookup_insert_eq by (rewrite restored_length; lia); by rewrite Hh]. cbn [mbind result_bind].
  change (0 =? YY_END_OF_BUFFER_CHAR) with true. cbn -[yy_get_next_buffer input_more]. rewrite (proj2 (Z.ltb_ge _ _)) by lia.
  unfold input_more, yy_get_next_buffer. cbn. by rewrite (proj2 (Z.ltb_lt _ _)) by lia.
Qed.

End Input.

(** ** Buffers *)

Section Buffers.
Context (alloc_ok : Z -> bool).

(** The current buffer is in the heap, and its stream is [yyin]. *)
Record current (r : runtime) (b : nat) : Prop := {
  C_current : YY_CURRENT_BUFFER r = Some b;
  C_heap : exists o, heap r !! b = Some (Some (o, yyin_ r));
  C_between : between (glob r)
}.

Lemma current_stack r b : YY_CURRENT_BUFFER r = Some b -> exists l, yy_buffer_stack r = Some l /\ l !! yy_buffer_stack_top r = Some (Some b).
Proof.
  unfold YY_CURRENT_BUFFER. destruct (yy_buffer_stack r) as [l|]; [|done]. cbn. intros H. exists l. split; [done|].
  by destruct (l !! _) as [x|]; cbn in H; subst.
Qed.

(** With memory, the stack has room for a push, and what is on it stays. *)
Lemma ensure_ok r l : (forall n, alloc_ok n = true) -> yy_buffer_stack r = Some l -> (yy_buffer_stack_top r < length l)%nat ->
  exists l', yyensure_buffer_stack alloc_ok r = Ok (with_stack r (Some (l ++ l')) (yy_buffer_stack_top r))
    /\ (S (yy_buffer_stack_top r) < length (l ++ l'))%nat.
Proof.
  intros Ha Hl Ht. unfold yyensure_buffer_stack. rewrite Hl. destruct (_ <=? _) eqn:E.
  - rewrite Ha. exists (replicate 8 None). split; [done|]. rewrite length_app, length_replicate. lia.
  - apply Z.leb_gt in E. exists []. rewrite app_nil_r. split; [|lia]. by destruct r; cbn in *; subst.
Qed.

Lemma set_current_ok r l b : yy_buffer_stack r = Some l -> (yy_buffer_stack_top r < length l)%nat ->
  set_current r b = Ok (with_stack r (Some (<[yy_buffer_stack_top r := b]> l)) (yy_buffer_stack_top r)).
Proof. intros Hl Ht. unfold set_current, rset. rewrite Hl, aset_in_range by lia. cbn. by rewrite Nat2Z.id. Qed.

(** The buffer of [g] as it is kept in the heap. *)
Definition kept (g : globals) : buffer :=
  let o := buf g in
  Buffer (restored g) (yy_c_buf_p g) (yy_buf_size o) (yy_n_chars g) (yy_is_our_buffer o)
    (yy_is_interactive o) (yy_fill_buffer o) (yy_buffer_status o).

Lemma flush_old_ok r b : current r b ->
  exists g, yyin g = yyin (glob r) /\ flush_old r b = Ok (with_heap (with_glob r g) (<[b := Some (kept (glob r), yyin_ r)]> (heap r))).
Proof.
  intros [_ [o Ho] [Hp Hs Hl _]]. unfold flush_old, deref. rewrite set_ch_ok by lia. cbn [mbind result_bind]. rewrite Ho. cbn [mbind result_bind].
  eexists. split; [|done]. done.
Qed.

Lemma load_state_ok r b o f : heap r !! b = Some (Some (o, f)) -> 0 <= yy_buf_pos o < Z.of_nat (length (yy_ch_buf o)) ->
  exists g, load_state r b = Ok (with_glob (with_stream r (synced r) f) g) /\ buf g = o /\ yy_c_buf_p g = yy_buf_pos o
    /\ yy_n_chars g = b_n_chars o /\ restored g = yy_ch_buf o /\ yyin g = stream (synced r) f.
Proof.
  intros Ho Hp. destruct (lookup_lt_is_Some_2 (yy_ch_buf o) (Z.to_nat (yy_buf_pos o))) as [c Hc]; [lia|].
  unfold load_state, deref. rewrite Ho. cbn [mbind result_bind]. unfold yy_load_buffer_state. cbn [buf with_in with_buf].
  rewrite (ch_ok _ _ c) by (done || lia). cbn [mbind result_bind]. eexists. split; [done|]. cbn. split_and!; try done.
  unfold restored. cbn. by apply list_insert_id.
Qed.

(** A buffer that was kept is between two tokens, with the same characters to come. *)
Lemma kept_between g g' : between g -> buf g' = kept g -> yy_c_buf_p g' = yy_c_buf_p g -> yy_n_chars g' = yy_n_chars g ->
  restored g' = restored g -> between g' /\ to_come g' = to_come g.
Proof.
  intros [Hp Hs Hl He] Eb Ec En Er. split; [|unfold to_come; by rewrite Er, Ec, En]. split.
  - by rewrite Ec, En.
  - by rewrite En, Eb.
  - rewrite Eb. cbn. by rewrite restored_length.
  - by rewrite Er, En.
Qed.

(** What a push leaves, [l] being the stack. *)
Record pushed (r r1 : runtime) (b b' : nat) (o : buffer) (f' : option nat) (l : list (option nat)) : Prop := {
  P_stack : yy_buffer_stack r1 = Some l;
  P_top : yy_buffer_stack_top r1 = S (yy_buffer_stack_top r);
  P_below : l !! yy_buffer_stack_top r = Some (Some b);
  P_new : l !! S (yy_buffer_stack_top r) = Some (Some b');
  P_heap : heap r1 = <[b := Some (kept (glob r), yyin_ r)]> (heap r);
  P_in : yyin_ r1 = f';
  P_streams : streams r1 = synced r;
  P_buf : buf (glob r1) = o
}.

Lemma push_ok r b b' o f' : (forall n, alloc_ok n = true) -> current r b -> b' <> b -> heap r !! b' = Some (Some (o, f')) ->
  0 <= yy_buf_pos o < Z.of_nat (length (yy_ch_buf o)) ->
  exists r1 l, yypush_buffer_state alloc_ok (Some b') r = Ok r1 /\ pushed r r1 b b' o f' l.
Proof.
  intros Ha Hc Hb Ho Hp. destruct (current_stack _ _ (C_current _ _ Hc)) as (l & Hl & Ht).
  pose proof (lookup_lt_Some _ _ _ Ht) as Hlt. destruct (ensure_ok r l Ha Hl Hlt) as (l' & He & Hroom).
  unfold yypush_buffer_state. rewrite He. cbn [mbind result_bind]. set (r0 := with_stack r _ _).
  assert (Hc0 : current r0 b).
  { destruct Hc as [_ Hh Hg]. split; [|exact Hh|exact Hg]. unfold YY_CURRENT_BUFFER. cbn. by rewrite lookup_app_l, Ht. }
  rewrite (C_current _ _ Hc0). destruct (flush_old_ok r0 b Hc0) as (g & Hin & Hfl). rewrite Hfl. cbn [mbind result_bind].
  set (r1 := with_heap _ _). assert (E1 : YY_CURRENT_BUFFER r1 = Some b) by exact (C_current _ _ Hc0). rewrite E1.
  erewrite set_current_ok by (reflexivity || exact Hroom). cbn [mbind result_bind]. set (r2 := with_stack _ _ _).
  destruct (load_state_ok r2 b' o f') as (g2 & -> & Eb & _ & _ & _ & _); [cbn; by rewrite list_lookup_insert_ne|done|].
  assert (Es : synced r2 = synced r) by (unfold synced; cbn; by rewrite Hin).
  do 2 eexists. split; [reflexivity|]. split; cbn; try done.
  - rewrite list_lookup_insert_ne by lia. by rewrite lookup_app_l.
  - by apply list_lookup_insert_eq.
Qed.

(** To delete the current buffer empties the top of the stack. *)
Lemma delete_current_ok {A} (k : runtime -> result A) r l b e : yy_buffer_stack r = Some l -> l !! yy_buffer_stack_top r = Some (Some b) -> heap r !! b = Some (Some e) ->
  (r ← yy_delete_buffer (Some b) r; r ← set_current r None; k r)
  = k (with_heap (with_stack r (Some (<[yy_buffer_stack_top r := None]> l)) (yy_buffer_stack_top r)) (<[b := None]> (heap r))).
Proof.
  intros Hl Ht He. pose proof (lookup_lt_Some _ _ _ Ht) as Hlt. unfold yy_delete_buffer, YY_CURRENT_BUFFER. rewrite Hl. cbn -[set_current deref].
  rewrite Ht. cbn -[set_current deref]. rewrite decide_True by done. rewrite (set_current_ok _ _ _ Hl Hlt). cbn [mbind result_bind].
  unfold deref. cbn [heap with_stack]. rewrite He. cbn [mbind result_bind].
  erewrite set_current_ok by (reflexivity || (cbn; by rewrite length_insert)). cbn. by rewrite list_insert_insert_eq.
Qed.

Lemma pop_ok r r1 b b' o f' l g1 : current r b -> b' <> b -> heap r !! b' = Some (Some (o, f')) -> pushed r r1 b b' o f' l ->
  exists g2, yypop_buffer_state (with_glob r1 g1)
     = Ok (Runtime g2 (synced (with_glob r1 g1)) (yyin_ r) (<[b' := None]> (heap r1))
             (Some (<[S (yy_buffer_stack_top r) := None]> l)) (yy_buffer_stack_top r) true)
    /\ between g2 /\ to_come g2 = to_come (glob r) /\ yyin g2 = stream (synced (with_glob r1 g1)) (yyin_ r).
Proof.
  intros Hc Hb Ho [Hl Ht Hbl Hnew Hh Hi Hs Hbuf]. destruct r1 as [g0 ss f h st top sw]; cbn in *; subst.
  unfold yypop_buffer_state, YY_CURRENT_BUFFER at 1. cbn -[yy_delete_buffer set_current]. rewrite Hnew. cbn -[yy_delete_buffer set_current].
  erewrite (delete_current_ok _ _ l b'); [|done|done|cbn; rewrite list_lookup_insert_ne by done; exact Ho].
  cbn -[load_state YY_CURRENT_BUFFER].
  unfold YY_CURRENT_BUFFER. cbn. rewrite list_lookup_insert_ne, Hbl by lia. cbn.
  destruct Hc as [_ [oo Hoo] Hg]. pose proof (B_pos _ Hg) as Hp. set (r2 := with_stack _ _ _).
  destruct (load_state_ok r2 b (kept (glob r)) (yyin_ r)) as (g2 & -> & Eb & Ec & En & Er & Ei).
  { cbn. rewrite list_lookup_insert_ne by done. apply list_lookup_insert_eq. by apply lookup_lt_Some in Hoo. }
  { cbn. rewrite restored_length, (B_length _ Hg). pose proof (B_size _ Hg). lia. }
  cbn. exists g2. split; [done|]. destruct (kept_between (glob r) g2 Hg Eb Ec En Er) as [? ?]. done.
Qed.

(** Pushing a buffer and popping it resumes the buffer that was current: whatever is done to
    the pushed one, the characters to come and the stream are as before, and the pushed buffer
    is freed. *)
Theorem push_pop_resumes r b b' o f' (Ha : forall n, alloc_ok n = true) (Hc : current r b) (Hb : b' <> b)
  (Ho : heap r !! b' = Some (Some (o, f'))) (Hp : 0 <= yy_buf_pos o < Z.of_nat (length (yy_ch_buf o))) :
  exists r1, yypush_buffer_state alloc_ok (Some b') r = Ok r1 /\ YY_CURRENT_BUFFER r1 = Some b' /\ buf (glob r1) = o /\
    forall g1, exists r2, yypop_buffer_state (with_glob r1 g1) = Ok r2 /\ current r2 b /\ to_come (glob r2) = to_come (glob r)
      /\ heap r2 !! b' = Some None
      /\ (forall f, yyin_ r = Some f -> f' <> Some f -> (f < length (streams r))%nat -> yyin (glob r2) = yyin (glob r)).
Proof.
  destruct (push_ok r b b' o f' Ha Hc Hb Ho Hp) as (r1 & l & E & P). exists r1. split; [done|].
  split; [unfold YY_CURRENT_BUFFER; rewrite (P_stack _ _ _ _ _ _ _ P), (P_top _ _ _ _ _ _ _ P); cbn; by rewrite (P_new _ _ _ _ _ _ _ P)|].
  split; [by destruct P|]. intros g1. destruct (pop_ok r r1 b b' o f' l g1 Hc Hb Ho P) as (g2 & E2 & Hg2 & Ht2 & Hi2).
  eexists. split; [exact E2|]. destruct P as [Hl Ht Hbl Hnew Hh Hi Hs Hbuf]. destruct Hc as [_ [oo Hoo] Hg].
  pose proof (lookup_lt_Some _ _ _ Ho). pose proof (lookup_lt_Some _ _ _ Hoo). split; [|split; [done|split]].
  - split; [|cbn|done].
    + unfold YY_CURRENT_BUFFER. cbn. by rewrite list_lookup_insert_ne, Hbl by lia.
    + exists (kept (glob r)). rewrite Hh, list_lookup_insert_ne by done. by apply list_lookup_insert_eq.
  - cbn. rewrite Hh. apply list_lookup_insert_eq. by rewrite length_insert.
  - intros f Ef Hf Hlt. cbn. rewrite Hi2, Ef. unfold synced. cbn. rewrite Hi, Hs. unfold synced. rewrite Ef.
    destruct f' as [f'|]; cbn; rewrite ?list_lookup_insert_ne by congruence; by rewrite list_lookup_insert_eq.
Qed.

(** ** Scanning from memory *)

(** There is no stack yet, or a current buffer. *)
Definition ready (r : runtime) : Prop := yy_buffer_stack r = None \/ exists b, current r b.

Lemma switch_ok r b' o f' : (forall n, alloc_ok n = true) -> ready r -> YY_CURRENT_BUFFER r <> Some b' ->
  heap r !! b' = Some (Some (o, f')) -> 0 <= yy_buf_pos o < Z.of_nat (length (yy_ch_buf o)) ->
  exists r', yy_switch_to_buffer alloc_ok b' r = Ok r' /\ YY_CURRENT_BUFFER r' = Some b' /\ heap r' !! b' = Some (Some (o, f'))
    /\ yyin_ r' = f' /\ buf (glob r') = o /\ yy_c_buf_p (glob r') = yy_buf_pos o /\ yy_n_chars (glob r') = b_n_chars o
    /\ restored (glob r') = yy_ch_buf o.
Proof.
  intros Ha Hr Hne Ho Hp. unfold yy_switch_to_buffer.
  assert (L : forall r2 l, yy_buffer_stack r2 = Some l -> (yy_buffer_stack_top r2 < length l)%nat -> heap r2 !! b' = Some (Some (o, f')) ->
    exists r', (r ← set_current r2 (Some b'); r ← load_state r b'; Ok (with_switch r)) = Ok r'
      /\ YY_CURRENT_BUFFER r' = Some b' /\ heap r' !! b' = Some (Some (o, f'))
      /\ yyin_ r' = f' /\ buf (glob r') = o /\ yy_c_buf_p (glob r') = yy_buf_pos o /\ yy_n_chars (glob r') = b_n_chars o
      /\ restored (glob r') = yy_ch_buf o).
  { intros r2 l Hl Ht Hh. rewrite (set_current_ok _ _ _ Hl Ht). cbn [mbind result_bind]. set (r3 := with_stack _ _ _).
    destruct (load_state_ok r3 b' o f' Hh Hp) as (g & -> & Eb & Ec & En & Er & _). cbn [mbind result_bind]. eexists. split; [done|].
    split; [|by split_and!]. unfold YY_CURRENT_BUFFER. cbn. by rewrite list_lookup_insert_eq. }
  destruct Hr as [Hs|[b Hc]].
  - unfold yyensure_buffer_stack. rewrite Hs, Ha. cbn [mbind result_bind]. rewrite decide_False by done.
    change (YY_CURRENT_BUFFER (with_stack r (Some [None]) 0)) with (@None nat). cbn [mbind result_bind]. by apply (L _ [None]); [|cbn; lia|].
  - destruct (current_stack _ _ (C_current _ _ Hc)) as (l & Hl & Ht). pose proof (lookup_lt_Some _ _ _ Ht) as Hlt.
    destruct (ensure_ok r l Ha Hl Hlt) as (l' & -> & Hroom). cbn [mbind result_bind]. set (r0 := with_stack r _ _).
    assert (Hc0 : current r0 b).
    { destruct Hc as [_ Hh Hg]. split; [|exact Hh|exact Hg]. unfold YY_CURRENT_BUFFER. cbn. by rewrite lookup_app_l, Ht. }
    assert (Hbb : b <> b') by (rewrite (C_current _ _ Hc) in Hne; congruence).
    rewrite (C_current _ _ Hc0). rewrite decide_False by congruence. destruct (flush_old_ok r0 b Hc0) as (g & _ & ->). cbn [mbind result_bind].
    apply (L _ (l ++ l')); [done|cbn; lia|]. cbn. by rewrite list_lookup_insert_ne.
Qed.

Lemma current_new r b e : current r b -> current (with_heap r (heap r ++ [Some e])) b.
Proof. intros [Hc [o Ho] Hg]. split; [exact Hc| |exact Hg]. exists o. cbn. rewrite lookup_app_l; [exact Ho|]. by apply lookup_lt_Some in Ho. Qed.

(** Scanning bytes makes a buffer of a copy of them current, these bytes being the characters
    to come. *)
Theorem scan_bytes_to_come l r (Ha : forall n, alloc_ok n = true) (Hr : ready r) :
  exists b r', yy_scan_bytes alloc_ok l r = Ok (Some b, r') /\ current r' b /\ to_come (glob r') = l
    /\ yy_is_our_buffer (buf (glob r')) = true /\ yy_fill_buffer (buf (glob r')) = false.
Proof.
  unfold yy_scan_bytes, yy_scan_buffer. rewrite !Ha. rewrite length_app. cbn [length].
  replace (Z.of_nat (length l + 2) - 2) with (Z.of_nat (length l)) by lia. replace (Z.of_nat (length l + 2) - 1) with (Z.of_nat (S (length l))) by lia.
  rewrite (proj2 (Z.ltb_ge _ _)) by lia.
  assert (E1 : (l ++ [0; 0]) !! length l = Some 0) by by rewrite list_lookup_middle.
  assert (E2 : (l ++ [0; 0]) !! S (length l) = Some 0) by (rewrite lookup_app_r by lia; by replace (S (length l) - length l)%nat with 1%nat by lia).
  unfold aget. rewrite !(proj2 (Z.leb_le _ _)) by lia. rewrite !Nat2Z.id. unfold YY_END_OF_BUFFER_CHAR. rewrite E1, E2. cbn [default negb orb from_option Z.eqb id].
  unfold new_entry. set (o := Buffer _ _ _ _ _ _ _ _). set (r0 := with_heap r _).
  assert (Hnew : heap r0 !! length (heap r) = Some (Some (o, None))) by (cbn; by rewrite list_lookup_middle).
  destruct (switch_ok r0 (length (heap r)) o None Ha) as (r1 & -> & Hc1 & Hh1 & Hi1 & Hb1 & Hp1 & Hn1 & Hr1).
  - destruct Hr as [Hs|[b Hc]]; [by left|right; exists b; by apply current_new].
  - change (YY_CURRENT_BUFFER r <> Some (length (heap r))). destruct Hr as [Hs|[b Hc]]; [unfold YY_CURRENT_BUFFER; by rewrite Hs|].
    rewrite (C_current _ _ Hc). destruct (C_heap _ _ Hc) as [oo Hoo]. apply lookup_lt_Some in Hoo. intros [= ->]. lia.
  - exact Hnew.
  - cbn. rewrite length_app. cbn. lia.
  - cbn [mbind result_bind]. unfold set_our_buffer, deref. rewrite Hh1. cbn [mbind result_bind]. do 2 eexists. split; [reflexivity|].
    set (r2 := with_heap _ _). assert (R : restored (glob r2) = l ++ [0; 0]) by exact Hr1.
    split; [|split; [|by cbn; rewrite ?Hb1]].
    + split; [exact Hc1| |].
      * cbn. rewrite Hi1. eexists. apply list_lookup_insert_eq. by apply lookup_lt_Some in Hh1.
      * split; [|..|rewrite R]; cbn; rewrite ?Hp1, ?Hn1, ?Hb1; cbn; [lia|lia|rewrite length_app; cbn; lia|]. by rewrite Nat2Z.id.
    + unfold to_come. rewrite R. cbn. rewrite Hp1, Hn1. unfold slice. cbn. rewrite Nat.sub_0_r, Nat2Z.id. change (Z.to_nat 0) with 0%nat. apply take_app_length.
Qed.

(** ** The end *)

(** [yylex_destroy] frees the current buffer and the stack, and nothing else: the loop ends
    after one round, and the buffers below stay allocated. *)
Theorem destroy_frees_one r l b e n (Hl : yy_buffer_stack r = Some l) (Ht : l !! yy_buffer_stack_top r = Some (Some b))
  (He : heap r !! b = Some (Some e)) :
  exists r', yylex_destroy (S (S n)) r = Some (Ok r') /\ heap r' = <[b := None]> (heap r) /\ yy_buffer_stack r' = None.
Proof.
  pose proof (lookup_lt_Some _ _ _ Ht) as Hlt. unfold yylex_destroy. cbn [destroy_loop].
  assert (Hb : YY_CURRENT_BUFFER r = Some b) by (unfold YY_CURRENT_BUFFER; rewrite Hl; cbn; by rewrite Ht).
  rewrite Hb, (delete_current_ok _ _ l b e Hl Ht He). set (r1 := with_heap _ _).
  assert (H1 : YY_CURRENT_BUFFER r1 = None) by (unfold YY_CURRENT_BUFFER; cbn; by rewrite list_lookup_insert_eq).
  unfold yypop_buffer_state. rewrite H1. cbn [mbind result_bind]. rewrite H1. cbn. eexists. by split.
Qed.

(** So a buffer that is below the current one is never freed by it. *)
Corollary destroy_keeps_below r b b' o f' n (Ha : forall n, alloc_ok n = true) (Hc : current r b) (Hb : b' <> b)
  (Ho : heap r !! b' = Some (Some (o, f'))) (Hp : 0 <= yy_buf_pos o < Z.of_nat (length (yy_ch_buf o))) :
  exists r1 r2 e, yypush_buffer_state alloc_ok (Some b') r = Ok r1 /\ yylex_destroy (S (S n)) r1 = Some (Ok r2)
    /\ heap r2 !! b' = Some None /\ heap r2 !! b = Some (Some e).
Proof.
  destruct (push_ok r b b' o f' Ha Hc Hb Ho Hp) as (r1 & l & E & P). destruct P as [Hl Ht Hbl Hnew Hh Hi Hs Hbuf].
  assert (Ho1 : heap r1 !! b' = Some (Some (o, f'))) by (by rewrite Hh, list_lookup_insert_ne).
  destruct (destroy_frees_one r1 l b' (o, f') n Hl) as (r2 & E2 & Hh2 & _); [by rewrite Ht|done|].
  exists r1, r2, (kept (glob r), yyin_ r). split; [done|]. split; [done|]. rewrite Hh2. split.
  - apply list_lookup_insert_eq. by apply lookup_lt_Some in Ho1.
  - rewrite list_lookup_insert_ne, Hh by done. apply list_lookup_insert_eq. destruct (C_heap _ _ Hc) as [oo Hoo]. by apply lookup_lt_Some in Hoo.
Qed.

End Buffers.

(** [yy_scan_string] of ["ab 1\n"], two characters taken and one put back. *)
Example scan_string_example :
  (r ← yy_scan_string (fun _ => true) [97; 98; 32; 49; 10; 0; 55] (runtime0 []);
   '(_, g) ← input false (fun _ => true) 170 (glob r.2);
   '(c, g) ← input false (fun _ => true) 170 g;
   g ← yyunput 97 (yytext_ptr g) g;
   Ok (c, to_come g)) = Ok (Some 98, [97; 32; 49; 10]).
Proof. vm_compute. reflexivity. Qed.

(** To put back the first character of a string is fatal. *)
Example first_character_example :
  (r ← yy_scan_string (fun _ => true) [97; 98; 0] (runtime0 []);
   '(_, g) ← input false (fun _ => true) 170 (glob r.2);
   g ← yyunput 97 (yytext_ptr g) g;
   Ok (to_come g)) = Fatal "flex scanner push-back overflow".
Proof. vm_compute. reflexivity. Qed.

(** The scanner counts the words of the bytes in memory. *)
Example scan_bytes_example :
  match yy_scan_bytes (fun _ => true) [97; 98; 32; 49; 10] (runtime0 []) with
  | Ok (_, r) =>
    match run false (fun _ => true) 170 100 Ltop (glob r) with
    | Some (Ok (_, g)) => (wordCount g, letterCount g, lineCount g) = (2, 5, 1)
    | _ => False
    end
  | _ => False
  end.
Proof. vm_compute. reflexivity. Qed.
