(* ===== verification/Myext2File.v ===== *)
(** The file operations of the encrypting file system (src/os/file.c): [read]
    and [write] shift every character of the buffer, [fsync] and [release] wrap
    kernel services.

    The kernel services are the interface [SyncFile]; the memory of the user is
    the buffer that the operations get, which they change in place. *)

From S2P Require Import Prelude.
#[local] Open Scope Z_scope.
#[local] Open Scope cint_scope.

(** ** The kernel's side *)

(** [do_sync_read] and [do_sync_write] on the content of a file. A negative
    result is an error number. *)
Class SyncFile (F : Type) := {
  do_sync_read : F -> list Z -> Z -> Z * list Z;      (* buffer, position *)
  do_sync_write : F -> list Z -> Z -> Z * F
}.

(** A buffer that was written as a whole is read back at the same position. *)
Class SyncFileLaws (F : Type) `{!SyncFile F} :=
  write_read : forall f buf old pos n f',
    do_sync_write f buf pos = (n, f') -> n = Z.of_nat (length buf) ->
    length old = length buf -> do_sync_read f' old pos = (n, buf).

(** ** The shift of a character

    [char] is signed and [%] rounds towards zero. *)
Definition encrypt (c : Z) : Z := char8 (Z.rem (c + 25) 128).
Definition decrypt (c : Z) : Z := char8 (Z.rem (c - 25 + 128) 128).

(** [for(; i < len; i++) buf[i] = f(buf[i]);] from [i] on; [None] is an access
    outside the buffer. The kernel passes no [len] beyond 2^31 - 1, so the [int]
    [i] does not overflow. *)
Fixpoint shift_loop (f : Z -> Z) (n : nat) (i : Z) (buf : list Z) : option (list Z) :=
  match n with
  | O => Some buf
  | S n => c ← aget buf i; buf ← aset buf i (f c); shift_loop f n (i + 1) buf
  end.

Section Operations.
Context {F : Type} `{!SyncFile F}.

(** The result, the user's buffer and the file after the call. *)
Definition new_sync_write_crypt (filp : F) (buf : list Z) (len : Z) (ppos : Z) :
    option (Z * list Z * F) :=
  buf ← shift_loop encrypt (Z.to_nat len) 0 buf;
  let '(ret, filp) := do_sync_write filp (take (Z.to_nat len) buf) ppos in
  Some (ret, buf, filp).

Definition new_sync_read_crypt (filp : F) (buf : list Z) (len : Z) (ppos : Z) :
    option (Z * list Z) :=
  let '(ret, data) := do_sync_read filp (take (Z.to_nat len) buf) ppos in
  buf ← shift_loop decrypt (Z.to_nat len) 0 (data ++ drop (Z.to_nat len) buf);
  Some (ret, buf).

End Operations.

(** ** [myext2_fsync] and [myext2_release_file] *)

Definition EIO : Z := 5.

(** The flag [AS_EIO] of the mapping of the block device, and whether
    [myext2_error] was called. *)
Record sync_state := SyncState { as_eio : bool; errors : nat }.

(** [generic] is the result of [generic_file_fsync]. *)
Definition myext2_fsync (generic : Z) (s : sync_state) : Z * sync_state :=
  if generic =? - EIO then (- EIO, SyncState (as_eio s) (S (errors s)))
  else if as_eio s then (- EIO, SyncState false (S (errors s)))
  else (generic, SyncState false (errors s)).

Inductive release_event := LockTruncate | DiscardReservation | UnlockTruncate.

Definition myext2_release_file (f_mode_write : bool) : Z * list release_event :=
  (0, if f_mode_write then [LockTruncate; DiscardReservation; UnlockTruncate] else []).

(** ** Lemmas *)

Lemma shift_loop_ok f n : forall i buf, (i + n <= length buf)%nat ->
  shift_loop f n (Z.of_nat i) buf
  = Some (take i buf ++ map f (take n (drop i buf)) ++ drop (i + n) buf).
Proof.
  induction n as [|n IH]; intros i buf H; cbn [shift_loop].
  - rewrite Nat.add_0_r. simpl. by rewrite take_drop.
  - destruct (lookup_lt_is_Some_2 buf i) as [c Ec]; [lia|].
    rewrite aget_nat, Ec. cbn. rewrite aset_nat by lia. cbn.
    rewrite Z_of_nat_succ, IH by (rewrite length_insert; lia).
    rewrite (take_S_r (<[i := f c]> buf) i (f c)) by (apply list_lookup_insert_eq; lia).
    rewrite take_insert_ge, !drop_insert_lt, (drop_S buf c i Ec) by lia.
    simpl. by rewrite <- (assoc_L (++)), Nat.add_succ_r.
Qed.

(** The whole buffer of [len] characters is shifted. *)
Lemma shift_buffer f buf len : 0 <= len <= Z.of_nat (length buf) ->
  shift_loop f (Z.to_nat len) 0 buf
  = Some (map f (take (Z.to_nat len) buf) ++ drop (Z.to_nat len) buf).
Proof. intros H. change 0 with (Z.of_nat 0). rewrite shift_loop_ok by lia. by rewrite drop_0. Qed.

Definition is_char (c : Z) : Prop := -128 <= c < 128.

Lemma decrypt_encrypt c : is_char c -> decrypt (encrypt c) = c mod 128.
Proof.
  intros H. apply Z.eqb_eq.
  apply (zrange_forallb (-128) 256 (fun c => decrypt (encrypt c) =? c mod 128)); [|unfold is_char in *; lia].
  vm_compute. reflexivity.
Qed.

Lemma encrypt_char c : is_char c -> is_char (encrypt c).
Proof. intros _. unfold encrypt, is_char. pose proof (wrap_s_bounds 8 (Z.rem (c + 25) 128)). lia. Qed.

Section Theorems.
Context {F : Type} `{!SyncFile F} `{!SyncFileLaws F}.

(** C33: What is written to the file system is read back with its highest bit
    cleared: after a complete [write] of [len] characters, a [read] of them at
    the same position gives each character modulo 128. *)
Theorem write_read_crypt (filp filp' : F) (buf buf' old : list Z) (len pos : Z)
    (Hchars : Forall is_char buf) (Hlen : Z.of_nat (length buf) = len) (Hold : Z.of_nat (length old) = len)
    (Hwrite : new_sync_write_crypt filp buf len pos = Some (len, buf', filp')) :
  new_sync_read_crypt filp' old len pos = Some (len, map (fun c => c mod 128) buf).
Proof.
  unfold new_sync_write_crypt in Hwrite. rewrite shift_buffer in Hwrite by lia. simpl in Hwrite.
  replace (Z.to_nat len) with (length buf) in Hwrite by lia.
  rewrite firstn_all, drop_all, app_nil_r in Hwrite.
  destruct (do_sync_write filp (take (length buf) (map encrypt buf)) pos) as [n f1] eqn:Ew.
  simplify_eq. rewrite take_ge in Ew by (by rewrite length_map).
  unfold new_sync_read_crypt. replace (Z.to_nat _) with (length old) by lia.
  rewrite firstn_all, drop_all.
  rewrite (write_read _ _ old _ _ _ Ew) by (rewrite length_map; lia). rewrite app_nil_r.
  replace (length old) with (Z.to_nat (Z.of_nat (length buf))) by lia.
  rewrite shift_buffer by (rewrite length_map; lia). cbn.
  rewrite Nat2Z.id, take_ge, drop_ge, app_nil_r by (by rewrite length_map).
  rewrite map_map. do 2 f_equal. apply map_ext_Forall.
  eapply Forall_impl; [exact Hchars|]. intros c. apply decrypt_encrypt.
Qed.

(** A character survives the file system exactly when it is ASCII. *)
Lemma crypt_identity (c : Z) (Hc : is_char c) : decrypt (encrypt c) = c <-> 0 <= c.
Proof.
  rewrite (decrypt_encrypt c Hc). unfold is_char in Hc. split; intros H.
  - pose proof (Z.mod_pos_bound c 128). lia.
  - apply Z.mod_small; lia.
Qed.

(** [write] leaves the shifted characters in the buffer of its caller, so
    that writing the same buffer again stores characters shifted twice. *)
Lemma write_changes_buffer (filp : F) (buf : list Z) (pos : Z) :
  let len := Z.of_nat (length buf) in
  exists ret f1, new_sync_write_crypt filp buf len pos = Some (ret, map encrypt buf, f1)
    /\ exists ret2 f2, new_sync_write_crypt f1 (map encrypt buf) len pos
         = Some (ret2, map (fun c => encrypt (encrypt c)) buf, f2)
       /\ do_sync_write f1 (map (fun c => encrypt (encrypt c)) buf) pos = (ret2, f2).
Proof.
  intros len. unfold new_sync_write_crypt, len.
  rewrite !shift_buffer by (rewrite ?length_map; lia). rewrite Nat2Z.id.
  rewrite !(take_ge _ (length buf)), !drop_ge, !app_nil_r, map_map by (by rewrite ?length_map). cbn.
  rewrite !(take_ge _ (length buf)) by (by rewrite ?length_map).
  destruct (do_sync_write filp (map encrypt buf) pos) as [ret f1]. exists ret, f1. split; [done|].
  destruct (do_sync_write f1 (map (fun c => encrypt (encrypt c)) buf) pos) as [ret2 f2] eqn:E2.
  exists ret2, f2. done.
Qed.

(** [read] shifts all [len] characters of the buffer, whatever it returns:
    where the file delivered less, or failed, the caller's own characters
    behind the data are shifted as well. *)
Theorem read_changes_rest (filp : F) (buf data rest : list Z) (ret pos : Z)
    (Hread : do_sync_read filp buf pos = (ret, data ++ rest)) (Hlen : length (data ++ rest) = length buf) :
  new_sync_read_crypt filp buf (Z.of_nat (length buf)) pos
  = Some (ret, map decrypt data ++ map decrypt rest).
Proof.
  unfold new_sync_read_crypt. rewrite Nat2Z.id, firstn_all, Hread, drop_all, app_nil_r.
  rewrite <- Hlen. rewrite <- (Nat2Z.id (length (data ++ rest))) at 1.
  rewrite shift_buffer by lia. rewrite Nat2Z.id, firstn_all, drop_all, app_nil_r. cbn.
  by rewrite map_app.
Qed.

End Theorems.

(** [fsync] reports an error exactly when the generic routine did or the
    mapping carries the mark of one, and logs it once; the mark is cleared
    unless the generic routine failed with the same error. *)
Theorem fsync_spec (generic : Z) (s : sync_state) :
  let '(ret, s') := myext2_fsync generic s in
  (ret = - EIO <-> generic = - EIO \/ as_eio s = true)
  /\ (ret <> - EIO -> ret = generic)
  /\ errors s' = (if ret =? - EIO then S (errors s) else errors s)
  /\ (as_eio s' = true <-> generic = - EIO /\ as_eio s = true).
Proof.
  unfold myext2_fsync. destruct s as [b n]; simpl.
  destruct (Z.eqb_spec generic (- EIO)) as [->|Hne]; [|destruct b]; cbn [as_eio errors].
  - rewrite Z.eqb_refl. split_and!; try done; intuition congruence.
  - rewrite Z.eqb_refl. split_and!; try done; intuition congruence.
  - rewrite (proj2 (Z.eqb_neq _ _) Hne). split_and!; try done; intuition congruence.
Qed.

(** ** A file as a list of characters *)

#[export] Instance list_file : SyncFile (list Z) := {|
  do_sync_read f buf pos :=
    let data := take (length buf) (drop (Z.to_nat pos) f) in
    (Z.of_nat (length data), data ++ drop (length data) buf);
  do_sync_write f buf pos :=
    let p := Z.to_nat pos in
    (Z.of_nat (length buf),
     take p (f ++ repeat 0 (p - length f)) ++ buf ++ drop (p + length buf) f)
|}.

#[export] Instance list_file_laws : SyncFileLaws (list Z).
Proof.
  intros f buf old pos n f' Hw Hn Hold. cbn in *. simplify_eq.
  set (p := Z.to_nat pos). set (pre := take p (f ++ repeat 0 (p - length f))).
  assert (length pre = p) as Hp.
  { unfold pre. rewrite length_take, length_app, repeat_length. lia. }
  rewrite drop_app_length' by done. rewrite Hold, take_app_length.
  rewrite drop_ge, app_nil_r by lia. done.
Qed.

Lemma write_read_crypt_witness :
  exists buf' f', new_sync_write_crypt (@nil Z) [72; -61; 33] 3 0 = Some (3, buf', f')
    /\ new_sync_read_crypt f' [0; 0; 0] 3 0 = Some (3, [72; 67; 33]).
Proof.
  eexists _, _. split; [vm_compute; reflexivity|].
  apply (write_read_crypt (@nil Z) _ [72; -61; 33] [97; -36; 58] [0; 0; 0] 3 0); [|done..].
  by repeat constructor.
Defined.

Lemma read_changes_rest_witness :
  new_sync_read_crypt [97; 98] [1; 2; 3; 4] 4 0 = Some (2, [72; 73; 106; 107]).
Proof. by apply (read_changes_rest [97; 98] [1; 2; 3; 4] [97; 98] [3; 4] 2 0). Defined.
