(* ===== verification/ChangeMagic.v ===== *)
(** The program that changes the magic number of a file system image
    (src/os/changeMN.c): it copies ./myfs to ./fs.new block by block, with two
    bytes of the superblock replaced. *)

From S2P Require Import Prelude.
From stdpp Require Import strings.
#[local] Open Scope Z_scope.

Definition BLOCK : Z := 2048.

(** A stream that is read, and whether reading past its bytes is an error. *)
Record stream := Stream { bytes : list Z; error : bool }.

Inductive message :=
| PreviousMagic (a b : Z)
| CurrentMagic (a b : Z)
| ChangeOk.

(** [fread(buf, 1, 2048, fp)]: the number of bytes read, the buffer, the stream. *)
Definition fread (buf : list Z) (fp : stream) : Z * list Z * stream :=
  let data := take (Z.to_nat BLOCK) (bytes fp) in
  (Z.of_nat (length data), data ++ drop (length data) buf,
   Stream (drop (Z.to_nat BLOCK) (bytes fp)) (error fp)).

(** [while(ret == 2048)]: the last result, what was written and the stream. *)
Fixpoint copy_loop (fuel : nat) (ret : Z) (buf : list Z) (fp : stream) (out : list Z) :
    option (Z * list Z * stream) :=
  match fuel with
  | O => None
  | S fuel =>
    if ret =? BLOCK then
      let '(ret, buf, fp) := fread buf fp in
      copy_loop fuel ret buf fp (out ++ take (Z.to_nat ret) buf)
    else Some (ret, out, fp)
  end.

(** [main] once both files are open, with the content [junk] of the buffer
    before the first read: the content of ./fs.new and what is printed. *)
Definition main (fuel : nat) (junk : list Z) (fp : stream) : option (list Z * list message) :=
  let '(ret, buf, fp) := fread junk fp in
  a ← aget buf 1080; b ← aget buf 1081;
  buf ← aset buf 1080 102; buf ← aset buf 1081 102;
  let out := take (Z.to_nat BLOCK) buf in
  a' ← aget buf 1080; b' ← aget buf 1081;
  '(ret, out, fp) ← copy_loop fuel ret buf fp out;
  let ok := (ret <? BLOCK) && negb (error fp) in
  Some (out, [PreviousMagic a b; CurrentMagic a' b'] ++ (if ok then [ChangeOk] else [])).

(** The two bytes of the superblock replaced. *)
Definition patched (cs : list Z) : list Z := <[1081%nat := 102]> (<[1080%nat := 102]> cs).

(** ** The copy loop *)

Lemma copy_loop_spec n : forall cs buf out err,
  (length cs < n * Z.to_nat BLOCK)%nat -> length buf = Z.to_nat BLOCK ->
  exists ret, copy_loop (S n) BLOCK buf (Stream cs err) out = Some (ret, out ++ cs, Stream [] err)
    /\ ret < BLOCK.
Proof.
  induction n as [|n IH]; intros cs buf out err Hn Hb; [lia|].
  remember (S n) as m eqn:Em. cbn [copy_loop]. unfold fread. cbn [bytes error]. rewrite Z.eqb_refl.
  set (data := take (Z.to_nat BLOCK) cs).
  assert (length data = Z.to_nat BLOCK `min` length cs)%nat as Hd by apply length_take.
  rewrite Nat2Z.id, take_app_length.
  destruct (decide (Z.to_nat BLOCK <= length cs)%nat) as [Hle|Hgt].
  - replace (Z.of_nat (length data)) with BLOCK by (unfold BLOCK in *; lia).
    destruct (IH (drop (Z.to_nat BLOCK) cs) (data ++ drop (length data) buf) (out ++ data) err)
      as (ret & E & Hr).
    { rewrite length_drop. lia. }
    { rewrite length_app, length_drop. lia. }
    exists ret. subst m. rewrite E. split; [|done]. do 3 f_equal.
    rewrite <- (assoc_L (++)). unfold data. by rewrite take_drop.
  - unfold data. rewrite (take_ge cs), (drop_ge cs) by lia.
    subst m. cbn [copy_loop]. rewrite (proj2 (Z.eqb_neq _ _)) by (unfold BLOCK in *; lia).
    exists (Z.of_nat (length cs)). split; [done|unfold BLOCK in *; lia].
Qed.

Lemma fread_block cs junk err : length junk = Z.to_nat BLOCK ->
  length (fread junk (Stream cs err)).1.2 = Z.to_nat BLOCK.
Proof. intros H. unfold fread. cbn [fst snd bytes]. rewrite length_app, length_drop, length_take. lia. Qed.

Section Main.
Variable junk : list Z.
Hypothesis junk_length : length junk = Z.to_nat BLOCK.

(** The first block with its replaced bytes, and the rest. *)
Lemma main_eq cs err fuel (Hf : (length cs < fuel * Z.to_nat BLOCK)%nat) :
  let first := take (Z.to_nat BLOCK) cs ++ drop (length (take (Z.to_nat BLOCK) cs)) junk in
  exists a b, first !! 1080%nat = Some a /\ first !! 1081%nat = Some b
    /\ main (S fuel) junk (Stream cs err)
       = Some (patched first ++ drop (Z.to_nat BLOCK) cs,
               [PreviousMagic a b; CurrentMagic 102 102] ++ (if err then [] else [ChangeOk])).
Proof.
  intros first. pose proof (fread_block cs junk err junk_length) as Hl.
  assert (length first = 2048%nat) as Hfirst by exact Hl.
  destruct (lookup_lt_is_Some_2 first 1080) as [a Ea]; [lia|].
  destruct (lookup_lt_is_Some_2 first 1081) as [b Eb]; [lia|].
  exists a, b. split; [done|]. split; [done|].
  unfold main, fread. cbn [bytes error]. fold first.
  change 1080 with (Z.of_nat 1080). change 1081 with (Z.of_nat 1081).
  rewrite !aget_nat, Ea, Eb. cbn [mbind option_bind].
  rewrite aset_nat by lia. cbn [mbind option_bind].
  rewrite aset_nat by (rewrite length_insert; lia). cbn [mbind option_bind].
  fold (patched first). rewrite !aget_nat.
  assert (patched first !! 1080%nat = Some 102 /\ patched first !! 1081%nat = Some 102) as [-> ->].
  { unfold patched. rewrite list_lookup_insert_ne, !list_lookup_insert_eq by (rewrite ?length_insert; lia). done. }
  cbn [mbind option_bind].
  assert (length (patched first) = 2048%nat) as Hp by (unfold patched; by rewrite !length_insert).
  rewrite (take_ge (patched first)) by (rewrite Hp; unfold BLOCK; lia).
  set (data := take (Z.to_nat BLOCK) cs) in *.
  assert (length data = Z.to_nat BLOCK `min` length cs)%nat as Hd by apply length_take.
  destruct (decide (Z.to_nat BLOCK <= length cs)%nat) as [Hle|Hgt].
  - replace (Z.of_nat (length data)) with BLOCK by (unfold BLOCK in *; lia).
    destruct (copy_loop_spec fuel (drop (Z.to_nat BLOCK) cs) (patched first) (patched first) err)
      as (ret & -> & Hr); [rewrite length_drop; lia|done|].
    cbn [mbind option_bind error]. rewrite (proj2 (Z.ltb_lt _ _) Hr). by destruct err.
  - cbn [copy_loop]. rewrite (proj2 (Z.eqb_neq _ _)) by (unfold BLOCK in *; lia).
    cbn [mbind option_bind error]. rewrite (drop_ge cs) by lia. rewrite app_nil_r.
    rewrite (proj2 (Z.ltb_lt _ _)) by (unfold BLOCK in *; lia). by destruct err.
Qed.

(** An image of at least one block is copied whole, with the two bytes of
    its magic number replaced and nothing else; the program stops. *)
Theorem main_copies (cs : list Z) (Hcs : BLOCK <= Z.of_nat (length cs)) (err : bool) :
  exists a b n, cs !! 1080%nat = Some a /\ cs !! 1081%nat = Some b
    /\ forall fuel, (n <= fuel)%nat -> main fuel junk (Stream cs err)
       = Some (patched cs, [PreviousMagic a b; CurrentMagic 102 102]
                           ++ (if err then [] else [ChangeOk])).
Proof.
  assert (drop (length (take (Z.to_nat BLOCK) cs)) junk = []) as Hj.
  { apply drop_ge. rewrite length_take. lia. }
  set (pre := take (Z.to_nat BLOCK) cs).
  assert (length pre = 2048%nat) as Hpre by (unfold pre; rewrite length_take; unfold BLOCK in *; lia).
  destruct (lookup_lt_is_Some_2 pre 1080) as [a Ea]; [lia|].
  destruct (lookup_lt_is_Some_2 pre 1081) as [b Eb]; [lia|].
  exists a, b, (S (S (length cs))).
  assert (forall i c, pre !! i = Some c -> cs !! i = Some c) as Hcs'.
  { intros i c E. rewrite <- (take_drop (Z.to_nat BLOCK) cs). by apply lookup_app_l_Some. }
  split; [by apply Hcs'|]. split; [by apply Hcs'|].
  intros fuel Hf. destruct fuel as [|fuel]; [lia|].
  destruct (main_eq cs err fuel) as (a' & b' & Ea' & Eb' & ->); [unfold BLOCK; lia|].
  rewrite Hj, app_nil_r in *. fold pre in Ea', Eb' |- *. simplify_eq. do 2 f_equal.
  unfold patched. rewrite <- !insert_app_l by (rewrite ?length_insert; lia).
  unfold pre. by rewrite take_drop.
Qed.

(** The output for a shorter image is one whole block: behind the image it
    holds what was in the program's buffer before anything was read. *)
Theorem main_short (cs : list Z) (Hcs : Z.of_nat (length cs) < BLOCK) (err : bool) :
  exists msgs, forall fuel, (1 <= fuel)%nat -> main (S fuel) junk (Stream cs err)
    = Some (patched (cs ++ drop (length cs) junk), msgs).
Proof.
  destruct (main_eq cs err 1) as (a & b & Ea & Eb & _); [unfold BLOCK in *; lia|].
  eexists. intros fuel Hf. destruct (main_eq cs err fuel) as (a' & b' & Ea' & Eb' & ->).
  { unfold BLOCK in *. nia. }
  rewrite Ea in Ea'. rewrite Eb in Eb'. simplify_eq.
  rewrite (take_ge cs), (drop_ge cs), app_nil_r by (unfold BLOCK in *; lia). done.
Qed.

End Main.

Lemma main_copies_witness :
  exists a b n, repeat 83 2050 !! 1080%nat = Some a /\ repeat 83 2050 !! 1081%nat = Some b
    /\ forall fuel, (n <= fuel)%nat -> main fuel (repeat 0 2048) (Stream (repeat 83 2050) false)
       = Some (patched (repeat 83 2050), [PreviousMagic a b; CurrentMagic 102 102] ++ [ChangeOk]).
Proof.
  apply (main_copies (repeat 0 2048) ltac:(vm_compute; reflexivity) (repeat 83 2050)).
  by vm_compute.
Defined.

Lemma main_short_witness :
  exists msgs, forall fuel, (1 <= fuel)%nat -> main (S fuel) (repeat 7 2048) (Stream [1; 2] false)
    = Some (patched ([1; 2] ++ repeat 7 2046), msgs).
Proof.
  destruct (main_short (repeat 7 2048) ltac:(vm_compute; reflexivity) [1; 2]
    ltac:(vm_compute; reflexivity) false) as [msgs H].
  exists msgs. exact H.
Defined.
