(* ===== verification/SpmcQueue.v ===== *)
(** The lock free queue of src/opencode-demo2/include/SPMCQueue.h (the file
    src/opencode-vibe-demo/include/SPMCQueue.h is the same): one producer, any
    number of consumers, and a chain of segments that only grows.

    Every atomic operation, and every access to the data of a segment, is a step
    of its own; an [event] says whose step is next. The steps are interleaved
    sequentially consistently. A pointer to a segment is its number in
    [allocated_segments_]: segments are never freed, and all threads share one
    queue object. Positions within a segment are below its capacity and cannot
    overflow; the counters of the header wrap around at 2^64. *)

From S2P Require Import Prelude Result.
From stdpp Require Import strings.
#[local] Open Scope Z_scope.
#[local] Open Scope cint_scope.

Section Queue.
Context {T : Type}.
(** [SegmentSize / sizeof(T)] *)
Variable capacity : nat.
(** The content of fresh memory. *)
Variable junk : T.

(** ** State *)

Record QueueSegment := Segment {
  write_pos : nat;
  read_pos : nat;
  next_segment : option nat;
  data : list T
}.

(** Where the producer is in [try_push] or [try_emplace_back]. *)
Inductive producer :=
| PIdle
| PLoadTail (item : T)
| PLoadWrite (item : T) (tail : nat)
| PExtend (item : T) (tail : nat)           (* the segment is full *)
| PStoreTail (item : T) (new : nat)
| PAddSegment (item : T) (new : nat)
| PWrite (item : T) (seg pos : nat)
| PStoreWrite (item : T) (seg pos : nat)
| PAddSize (item : T).

(** Where a consumer is in [try_pop]. *)
Inductive consumer_pc :=
| CIdle
| CLoadHead
| CLoadRead (head : nat)
| CLoadWrite (head read : nat)
| CLoadNext (head : nat)                    (* the segment looked empty *)
| CAdvance (head next : nat)
| CReload
| CClaim (head read : nat)
| CRead (head read : nat)                   (* the position is claimed *)
| CSubSize (item : T).

(** A consumer, what its calls delivered, and the result of the last call. *)
Record consumer := Consumer { at_ : consumer_pc; received : list T; popped : option bool }.

Record state := State {
  allocated_segments : list QueueSegment;
  head_segment : option nat;
  tail_segment : option nat;
  total_segments : Z;
  total_size : Z;
  prod : producer;
  pushed : list T;              (* the items of the calls that returned true *)
  push_ret : option bool;
  consumers : list consumer
}.

Definition with_segments (s : state) (l : list QueueSegment) : state :=
  State l (head_segment s) (tail_segment s) (total_segments s) (total_size s)
    (prod s) (pushed s) (push_ret s) (consumers s).
Definition with_head (s : state) (h : option nat) : state :=
  State (allocated_segments s) h (tail_segment s) (total_segments s) (total_size s)
    (prod s) (pushed s) (push_ret s) (consumers s).
Definition with_tail (s : state) (t : option nat) : state :=
  State (allocated_segments s) (head_segment s) t (total_segments s) (total_size s)
    (prod s) (pushed s) (push_ret s) (consumers s).
Definition with_total_segments (s : state) (n : Z) : state :=
  State (allocated_segments s) (head_segment s) (tail_segment s) n (total_size s)
    (prod s) (pushed s) (push_ret s) (consumers s).
Definition with_size (s : state) (n : Z) : state :=
  State (allocated_segments s) (head_segment s) (tail_segment s) (total_segments s) n
    (prod s) (pushed s) (push_ret s) (consumers s).
Definition with_prod (s : state) (p : producer) : state :=
  State (allocated_segments s) (head_segment s) (tail_segment s) (total_segments s) (total_size s)
    p (pushed s) (push_ret s) (consumers s).
Definition with_pushed (s : state) (l : list T) (r : bool) : state :=
  State (allocated_segments s) (head_segment s) (tail_segment s) (total_segments s) (total_size s)
    PIdle l (Some r) (consumers s).
Definition with_cons (s : state) (l : list consumer) : state :=
  State (allocated_segments s) (head_segment s) (tail_segment s) (total_segments s) (total_size s)
    (prod s) (pushed s) (push_ret s) l.

Definition move_consumer (s : state) (i : nat) (c : consumer) (p : consumer_pc) : state :=
  with_cons s (<[i := Consumer p (received c) (popped c)]> (consumers s)).

(** [QueueSegment()] *)
Definition new_segment : QueueSegment := Segment 0 0 None (repeat junk capacity).

(** Dereferencing a pointer to a segment. *)
Definition segment (s : state) (p : nat) : result QueueSegment := lift (allocated_segments s !! p).

Definition set_segment (s : state) (p : nat) (g : QueueSegment) : state :=
  with_segments s (<[p := g]> (allocated_segments s)).

Definition set_data (g : QueueSegment) (i : nat) (x : T) : result QueueSegment :=
  d ← rset (data g) (Z.of_nat i) x; Ok (Segment (write_pos g) (read_pos g) (next_segment g) d).

(** ** The constructor

    [shm_open] with [O_CREAT] also succeeds on an object that exists, so every
    process and every object takes itself for the creator ([opened] is the result
    of the first call). *)
Definition SPMCQueue (opened : bool) (s : state) : state :=
  if opened then
    let first := length (allocated_segments s) in
    with_size
      (with_total_segments
         (with_tail (with_head (with_segments s (allocated_segments s ++ [new_segment])) (Some first))
            (Some first)) 1) 0
  else s.

(** The memory of a new object, without a thread in it. *)
Definition zero_header (n : nat) : state :=
  State [] None None 0 0 PIdle [] None (repeat (Consumer CIdle [] None) n).

Definition state0 (n : nat) : state := SPMCQueue true (zero_header n).

(** ** The producer *)

(** One step of [try_push(const T&)]; [Ok None] when no call is running. *)
Definition try_push (s : state) : result (option state) :=
  match prod s with
  | PIdle => Ok None
  | PLoadTail item =>
    match tail_segment s with
    | None => Ok (Some (with_pushed s (pushed s) false))
    | Some tail => Ok (Some (with_prod s (PLoadWrite item tail)))
    end
  | PLoadWrite item tail =>
    g ← segment s tail;
    Ok (Some (with_prod s (if decide (capacity <= write_pos g)%nat then PExtend item tail
                           else PWrite item tail (write_pos g))))
  | PExtend item tail =>
    (* allocate_segment, and compare_exchange_strong on next_segment *)
    let new := length (allocated_segments s) in
    let s := with_segments s (allocated_segments s ++ [new_segment]) in
    g ← segment s tail;
    match next_segment g with
    | Some _ => Ok (Some (with_pushed s (pushed s) false))
    | None =>
      Ok (Some (with_prod (set_segment s tail (Segment (write_pos g) (read_pos g) (Some new) (data g)))
                  (PStoreTail item new)))
    end
  | PStoreTail item new => Ok (Some (with_prod (with_tail s (Some new)) (PAddSegment item new)))
  | PAddSegment item new =>
    Ok (Some (with_prod (with_total_segments s (uint64 (total_segments s + 1))) (PWrite item new 0)))
  | PWrite item p pos =>
    g ← segment s p;
    g' ← set_data g pos item;
    Ok (Some (with_prod (set_segment s p g') (PStoreWrite item p pos)))
  | PStoreWrite item p pos =>
    g ← segment s p;
    Ok (Some (with_prod (set_segment s p (Segment (S pos) (read_pos g) (next_segment g) (data g)))
                (PAddSize item)))
  | PAddSize item =>
    Ok (Some (with_pushed (with_size s (uint64 (total_size s + 1))) (pushed s ++ [item]) true))
  end.

(** [try_push(T&&)]: the items are trivially copyable, so moving one is copying
    it. *)
Definition try_push_move : state -> result (option state) := try_push.

(** [try_emplace_back]: the item that the constructor makes of the arguments is
    stored in the same way. *)
Definition try_emplace_back : state -> result (option state) := try_push.

(** ** The consumers *)

(** The end of a call of [try_pop]. *)
Definition return_pop (s : state) (i : nat) (c : consumer) (item : option T) : state :=
  with_cons s (<[i := Consumer CIdle (received c ++ option_list item)
                        (Some (bool_decide (is_Some item)))]> (consumers s)).

(** One step of [try_pop]; [Ok None] when no call is running. *)
Definition try_pop (s : state) (i : nat) (c : consumer) : result (option state) :=
  let go s p := Ok (Some (move_consumer s i c p)) in
  match at_ c with
  | CIdle => Ok None
  | CLoadHead =>
    match head_segment s with
    | None => Ok (Some (return_pop s i c None))
    | Some head => go s (CLoadRead head)
    end
  | CLoadRead head => g ← segment s head; go s (CLoadWrite head (read_pos g))
  | CLoadWrite head read =>
    g ← segment s head;
    go s (if decide (write_pos g <= read)%nat then CLoadNext head else CClaim head read)
  | CLoadNext head =>
    g ← segment s head;
    match next_segment g with
    | Some next => go s (CAdvance head next)
    | None => Ok (Some (return_pop s i c None))
    end
  | CAdvance head next =>
    (* compare_exchange_strong on head_segment *)
    if decide (head_segment s = Some head) then go (with_head s (Some next)) (CLoadRead next)
    else go s CReload
  | CReload =>
    match head_segment s with
    | None => Undefined
    | Some head => go s (CLoadRead head)
    end
  | CClaim head read =>
    (* compare_exchange_strong on read_pos *)
    g ← segment s head;
    if decide (read_pos g = read) then
      go (set_segment s head (Segment (write_pos g) (S read) (next_segment g) (data g))) (CRead head read)
    else go s (CLoadRead head)
  | CRead head read =>
    g ← segment s head;
    item ← rget (data g) (Z.of_nat read);
    go s (CSubSize item)
  | CSubSize item => Ok (Some (return_pop (with_size s (uint64 (total_size s - 1))) i c (Some item)))
  end.

Definition size (s : state) : Z := total_size s.
Definition empty (s : state) : bool := total_size s =? 0.

(** [wait_for_data]: the results of [empty] until the first one that is false or
    the first one after the timeout. *)
Fixpoint wait_for_data (looks : list (bool * bool)) : option bool :=
  match looks with
  | [] => None
  | (is_empty, timed_out) :: looks =>
    if is_empty then if timed_out then Some false else wait_for_data looks else Some true
  end.

(** ** The system *)

Inductive event :=
| Push (item : T)     (* the producer calls try_push *)
| Produce             (* and takes a step in it *)
| Pop (i : nat)       (* the consumer i calls try_pop *)
| Consume (i : nat).  (* and takes a step in it *)

(** [Ok None] when the event is not possible. *)
Definition step (s : state) (e : event) : result (option state) :=
  match e with
  | Push item => Ok (match prod s with PIdle => Some (with_prod s (PLoadTail item)) | _ => None end)
  | Produce => try_push s
  | Pop i =>
    Ok (c ← consumers s !! i;
        match at_ c with CIdle => Some (move_consumer s i c CLoadHead) | _ => None end)
  | Consume i => match consumers s !! i with Some c => try_pop s i c | None => Ok None end
  end.

Fixpoint steps (s : state) (es : list event) : result (option state) :=
  match es with
  | [] => Ok (Some s)
  | e :: es => o ← step s e; match o with Some s' => steps s' es | None => Ok None end
  end.

(** A running call of [try_push] is finished; one that returned false is
    repeated. *)
Fixpoint push_loop (fuel : nat) (item : T) (s : state) : result (option state) :=
  match fuel with
  | O => Ok None
  | S fuel =>
    match prod s with
    | PIdle =>
      match push_ret s with
      | Some true => Ok (Some s)
      | _ => push_loop fuel item (with_prod s (PLoadTail item))
      end
    | _ => o ← try_push s; match o with Some s => push_loop fuel item s | None => Ok None end
    end
  end.

(** [push], [push(T&&)] and [emplace_back] *)
Definition push (fuel : nat) (item : T) (s : state) : result (option state) :=
  push_loop fuel item (with_prod s (PLoadTail item)).

(** A call of [try_pop] without interruption. *)
Fixpoint finish_pop (fuel : nat) (i : nat) (s : state) : result (option state) :=
  match fuel with
  | O => Ok None
  | S fuel =>
    match consumers s !! i with
    | None => Ok None
    | Some c =>
      match at_ c with
      | CIdle => Ok (Some s)
      | _ => o ← try_pop s i c; match o with Some s => finish_pop fuel i s | None => Ok None end
      end
    end
  end.

End Queue.

Arguments QueueSegment T : clear implicits.
Arguments state T : clear implicits.
Arguments consumer T : clear implicits.
Arguments consumer_pc T : clear implicits.
Arguments producer T : clear implicits.
Arguments event T : clear implicits.

(** One consumer, segments of two items: three items in, three out. *)
Definition demo_push (x : Z) : list (event Z) := Push x :: repeat Produce 5.
Definition demo_pop (n : nat) : list (event Z) := Pop 0 :: repeat (Consume 0) n.

Example queue_example :
  match steps 2 0 (state0 2 0 1)
      (demo_push 7 ++ demo_push 8 ++ Push 9 :: repeat Produce 8 ++ demo_pop 6 ++ demo_pop 6 ++ demo_pop 10 ++ demo_pop 4) with
  | Ok (Some s) => map received (consumers s) = [[7; 8; 9]] /\ total_size s = 0 /\ map popped (consumers s) = [Some false]
  | _ => False
  end.
Proof. vm_compute. done. Qed.
