(* ===== verification/SpmcProps.v ===== *)
(** The theorems about the queue of SpmcQueue: no step leaves the segments,
    nothing is delivered twice or out of order, what its size counts, the queue
    it is when its operations do not overlap, and the items that get lost when
    they do. *)

From S2P Require Import Prelude Result SpmcQueue.
From stdpp Require Import strings sorting.
#[local] Open Scope Z_scope.
#[local] Open Scope cint_scope.

(** The fields of a state that was built by the operations. *)
Ltac fields :=
  cbn [allocated_segments head_segment tail_segment total_segments total_size prod pushed push_ret consumers
       with_segments with_head with_tail with_total_segments with_size with_prod with_pushed with_cons
       move_consumer return_pop set_segment at_ received popped write_pos read_pos next_segment data].

(** ** Lists *)

(** Values at increasing positions form a sublist. *)
Lemma sorted_positions_sublist {A} (l : list A) (ns : list nat) : forall (vs : list A) (k : nat),
  StronglySorted lt ns -> Forall (fun n => k <= n)%nat ns ->
  map (fun n => l !! n) ns = map Some vs -> vs `sublist_of` drop k l.
Proof.
  induction ns as [|n ns IH]; intros [|v vs] k Hs Hk E; try done; [apply sublist_nil_l|].
  inversion Hs as [|? ? Hs' Hn]; subst. inversion Hk as [|? ? Hk1 _]; subst.
  cbn [map] in E. injection E as Ev E.
  transitivity (drop n l).
  - rewrite (drop_S l v n Ev). apply sublist_skip. by apply IH.
  - replace n with (k + (n - k))%nat by lia. rewrite <- drop_drop. apply sublist_drop.
Qed.

Lemma map_lookup_seq {A} (l : list A) : map (fun n => l !! n) (seq 0 (length l)) = map Some l.
Proof.
  apply list_eq. intros i. rewrite !list_lookup_fmap.
  destruct (decide (i < length l)%nat) as [Hi|Hi].
  - rewrite lookup_seq_lt by done. simpl.
    by destruct (lookup_lt_is_Some_2 l i Hi) as [x ->].
  - rewrite lookup_seq_ge, (lookup_ge_None_2 l i) by lia. done.
Qed.

(** Values at different positions. *)
Lemma distinct_positions_submseteq {A} (l : list A) (ns : list nat) (vs : list A) :
  NoDup ns -> map Some vs ⊆+ map (fun n => l !! n) ns -> Forall (fun n => n < length l)%nat ns -> vs ⊆+ l.
Proof.
  intros Hn Hv Hl.
  assert (ns ⊆+ seq 0 (length l)) as Hs.
  { apply NoDup_submseteq; [done|]. intros n Hin. rewrite Forall_forall in Hl.
    apply elem_of_seq. specialize (Hl n Hin). lia. }
  apply (fmap_submseteq (fun n => l !! n)) in Hs.
  change (fmap ?f ?l) with (map f l) in Hs. rewrite map_lookup_seq in Hs.
  assert (map Some vs ⊆+ map Some l) as Hm by (by etrans).
  clear -Hm. revert l Hm. induction vs as [|v vs IH]; intros l Hm; [apply submseteq_nil_l|].
  simpl in Hm. apply submseteq_cons_l in Hm as (k & Hp & Hk).
  assert (Some v ∈ map Some l) as Hv by (rewrite Hp; left).
  apply list_elem_of_fmap in Hv as (v' & [= <-] & Hv). apply elem_of_Permutation in Hv as [l' Hl'].
  rewrite Hl' in Hp |- *. simpl in Hp. apply Permutation.Permutation_cons_inv in Hp.
  apply submseteq_skip, IH. by rewrite Hp.
Qed.

Lemma concat_insert_snoc {A} (l : list (list A)) i x k : l !! i = Some x ->
  concat (<[i := x ++ [k]]> l) ≡ₚ k :: concat l.
Proof.
  revert i. induction l as [|y l IH]; intros [|i] H; simplify_eq/=.
  - rewrite <- (assoc_L (++)). simpl. symmetry. apply Permutation_middle.
  - rewrite (IH i H). symmetry. apply Permutation_middle.
Qed.

Lemma length_concat_insert {A} (l : list (list A)) i x x' : l !! i = Some x ->
  Z.of_nat (length (concat (<[i := x']> l)))
  = Z.of_nat (length (concat l)) - Z.of_nat (length x) + Z.of_nat (length x').
Proof.
  revert i. induction l as [|y l IH]; intros [|i] H; simplify_eq/=; rewrite !length_app; [lia|].
  specialize (IH i H). lia.
Qed.

Lemma elem_of_concat {A} (x : A) ls : x ∈ concat ls <-> exists l, x ∈ l /\ l ∈ ls.
Proof.
  rewrite list_elem_of_In, List.in_concat. split; intros (l & H1 & H2); exists l.
  - by rewrite !list_elem_of_In.
  - by rewrite <- !list_elem_of_In.
Qed.

Lemma Forall2_repeat {A B} (P : A -> B -> Prop) x y n : P x y -> Forall2 P (repeat x n) (repeat y n).
Proof. intros H. induction n; by constructor. Qed.

Lemma concat_repeat_nil {A} n : concat (repeat (@nil A) n) = [].
Proof. by induction n. Qed.

Section Invariant.
Context {T : Type}.
Variable capacity : nat.
Variable junk : T.
Hypothesis capacity_pos : (0 < capacity)%nat.

(** ** What the segments hold *)

Definition published (g : QueueSegment T) : list T := take (write_pos g) (data g).
Definition contents (l : list (QueueSegment T)) : list T := concat (map published l).

(** The segment [p] of [n]: linked to the next one, full unless it is the last. *)
Record segment_ok (n p : nat) (g : QueueSegment T) : Prop := {
  G_length : length (data g) = capacity;
  G_read : (read_pos g <= write_pos g)%nat;
  G_write : (write_pos g <= capacity)%nat;
  G_next : next_segment g = if decide (S p = n) then None else Some (S p);
  G_full : (S p < n)%nat -> write_pos g = capacity
}.

Definition segments_ok (l : list (QueueSegment T)) : Prop :=
  forall p g, l !! p = Some g -> segment_ok (length l) p g.

(** The position in [contents] of a place in a segment. *)
Definition place (k : nat * nat) : nat := k.1 * capacity + k.2.

(** The items of the first [p] segments, which are full. *)
Lemma contents_take l p : segments_ok l -> (p < length l)%nat ->
  length (contents (take p l)) = (p * capacity)%nat.
Proof.
  intros Hl. induction p as [|p IH]; intros Hp; [done|].
  destruct (lookup_lt_is_Some_2 l p) as [g Eg]; [lia|].
  rewrite (take_S_r l p g Eg). unfold contents. rewrite map_app, concat_app, length_app.
  change (concat (map published (take p l))) with (contents (take p l)). rewrite IH by lia. simpl.
  destruct (Hl p g Eg) as [H1 H2 H3 H4 H5]. unfold published.
  rewrite app_nil_r, length_take, H5, H1 by lia. lia.
Qed.

Lemma contents_split l p g : l !! p = Some g ->
  contents l = contents (take p l) ++ published g ++ contents (drop (S p) l).
Proof.
  intros Eg. rewrite <- (take_drop_middle l p g Eg) at 1. unfold contents.
  by rewrite map_app, concat_app.
Qed.

Lemma contents_lookup l p g r : segments_ok l -> l !! p = Some g -> (r < write_pos g)%nat ->
  contents l !! place (p, r) = data g !! r.
Proof.
  intros Hl Eg Hr. destruct (Hl p g Eg) as [H1 H2 H3 H4 H5].
  rewrite (contents_split l p g Eg).
  pose proof (contents_take l p Hl ltac:(by eapply lookup_lt_Some)) as E.
  unfold place. simpl. rewrite lookup_app_r by lia. rewrite E.
  replace (p * capacity + r - p * capacity)%nat with r by lia.
  unfold published. rewrite lookup_app_l by (rewrite length_take; lia). by apply lookup_take_lt.
Qed.

(** Storing outside the published part changes nothing that is published. *)
Lemma contents_update l p g g' : l !! p = Some g -> published g' = published g ->
  contents (<[p := g']> l) = contents l.
Proof.
  intros Eg E. unfold contents. f_equal. change (map published (<[p:=g']> l)) with (published <$> <[p:=g']> l).
  rewrite list_fmap_insert. apply list_insert_id. rewrite list_lookup_fmap, Eg. simpl. by rewrite E.
Qed.

Lemma contents_last l p g g' : l !! p = Some g -> S p = length l ->
  contents (<[p := g']> l) = contents (take p l) ++ published g'.
Proof.
  intros Eg E. unfold contents.
  assert (<[p:=g']> l !! p = Some g') as Eg' by (apply list_lookup_insert_eq; lia).
  rewrite <- (take_drop_middle _ _ _ Eg'), take_insert_ge, drop_insert_lt, (drop_ge l) by lia.
  rewrite map_app, concat_app. simpl. by rewrite app_nil_r.
Qed.

Lemma contents_snoc l : contents (l ++ [new_segment capacity junk]) = contents l.
Proof. unfold contents. rewrite map_app, concat_app. simpl. by rewrite app_nil_r. Qed.

Lemma segments_update l p g g' : segments_ok l -> l !! p = Some g ->
  length (data g') = length (data g) -> (read_pos g' <= write_pos g' <= capacity)%nat ->
  (write_pos g <= write_pos g')%nat -> next_segment g' = next_segment g ->
  segments_ok (<[p := g']> l).
Proof.
  intros Hl Eg Hd Hw Hle Hn q h. rewrite list_lookup_insert_Some, length_insert.
  intros [(<- & -> & _)|[_ Eh]]; [|by apply Hl].
  destruct (Hl p g Eg) as [H1 H2 H3 H4 H5]. constructor; try congruence; [lia|lia|].
  intros Hp. specialize (H5 Hp). lia.
Qed.

(** ** The invariant *)

Definition in_flight (s : state T) : list T := match prod s with PAddSize x => [x] | _ => [] end.

(** The last segment, which [tail_segment] is outside of an extension. *)
Definition at_tail (s : state T) (p : nat) : Prop :=
  tail_segment s = Some p /\ S p = length (allocated_segments s).

Definition producer_ok (s : state T) : Prop :=
  let l := allocated_segments s in
  match prod s with
  | PExtend _ t => at_tail s t /\ exists g, l !! t = Some g /\ write_pos g = capacity
  | PStoreTail _ new => S new = length l /\ exists g, l !! new = Some g /\ write_pos g = 0%nat
  | PAddSegment _ new => at_tail s new /\ exists g, l !! new = Some g /\ write_pos g = 0%nat
  | PWrite _ p pos => at_tail s p /\ exists g, l !! p = Some g /\ write_pos g = pos /\ (pos < capacity)%nat
  | PStoreWrite x p pos =>
    at_tail s p /\ exists g, l !! p = Some g /\ write_pos g = pos /\ (pos < capacity)%nat /\ data g !! pos = Some x
  | PLoadWrite _ t => at_tail s t
  | _ => exists t, at_tail s t
  end.

Definition head_of (s : state T) : nat := default 0%nat (head_segment s).

(** The segment a consumer looks at. *)
Definition looks_at (p : consumer_pc T) : option nat :=
  match p with
  | CLoadRead h | CLoadWrite h _ | CLoadNext h | CAdvance h _ | CClaim h _ | CRead h _ => Some h
  | _ => None
  end.

Definition floor (s : state T) (p : consumer_pc T) : nat := default (head_of s) (looks_at p).

Definition consumer_pc_ok (s : state T) (p : consumer_pc T) : Prop :=
  let l := allocated_segments s in
  (floor s p <= head_of s)%nat /\
  match p with
  | CAdvance h n => n = S h /\ (n < length l)%nat
  | CClaim h r => exists g, l !! h = Some g /\ (r < write_pos g)%nat
  | CRead h r => exists g, l !! h = Some g /\ (r < read_pos g)%nat
  | _ => True
  end.

(** The places that a consumer has claimed, in the order of its claims. *)
Definition claimed (l : list (QueueSegment T)) (k : nat * nat) : Prop :=
  exists g, l !! k.1 = Some g /\ (k.2 < read_pos g)%nat.

(** What is claimed but not delivered. *)
Definition pending (l : list (QueueSegment T)) (p : consumer_pc T) : list (option T) :=
  match p with
  | CRead h r => [contents l !! place (h, r)]
  | CSubSize x => [Some x]
  | _ => []
  end.

Record consumer_ok (s : state T) (c : consumer T) (ks : list (nat * nat)) : Prop := {
  K_pc : consumer_pc_ok s (at_ c);
  K_claimed : Forall (claimed (allocated_segments s)) ks;
  K_sorted : StronglySorted lt (map place ks);
  K_floor : Forall (fun k => k.1 <= floor s (at_ c))%nat ks;
  K_values : map (fun k => contents (allocated_segments s) !! place k) ks
             = map Some (received c) ++ pending (allocated_segments s) (at_ c)
}.

Definition delivered (s : state T) : list T := concat (map received (consumers s)).

Record invariant (s : state T) (slots : list (list (nat * nat))) : Prop := {
  I_segments : segments_ok (allocated_segments s);
  I_head : exists h, head_segment s = Some h /\ (h < length (allocated_segments s))%nat;
  I_producer : producer_ok s;
  I_contents : contents (allocated_segments s) = pushed s ++ in_flight s;
  I_consumers : Forall2 (consumer_ok s) (consumers s) slots;
  I_distinct : NoDup (concat slots);
  I_size : total_size s = uint64 (Z.of_nat (length (pushed s)) - Z.of_nat (length (delivered s)))
}.

(** ** Steps that only add to the queue *)

Record extends (s s' : state T) : Prop := {
  E_segments : forall p g, allocated_segments s !! p = Some g ->
    exists g', allocated_segments s' !! p = Some g' /\ (read_pos g <= read_pos g')%nat
      /\ (write_pos g <= write_pos g')%nat;
  E_contents : contents (allocated_segments s) `prefix_of` contents (allocated_segments s');
  E_head : (head_of s <= head_of s')%nat
}.

Lemma extends_same s s' : allocated_segments s' = allocated_segments s ->
  (head_of s <= head_of s')%nat -> extends s s'.
Proof. intros E H. constructor; rewrite ?E; try done. intros p g Hg. by exists g. Qed.

Lemma claimed_value l k : segments_ok l -> claimed l k -> exists x, contents l !! place k = Some x.
Proof.
  intros Hl (g & Eg & Hr). destruct k as [p r]. cbn [fst snd] in *.
  destruct (Hl p g Eg) as [H1 H2 H3 H4 H5].
  rewrite (contents_lookup l p g r Hl Eg) by lia. apply lookup_lt_is_Some_2. lia.
Qed.

Lemma claimed_extends s s' k : extends s s' ->
  claimed (allocated_segments s) k -> claimed (allocated_segments s') k.
Proof.
  intros He (g & Eg & Hr). destruct (E_segments s s' He _ _ Eg) as (g' & Eg' & H1 & H2).
  exists g'. split; [done|lia].
Qed.

Lemma value_extends s s' k : segments_ok (allocated_segments s) -> extends s s' ->
  claimed (allocated_segments s) k ->
  contents (allocated_segments s') !! place k = contents (allocated_segments s) !! place k.
Proof.
  intros Hl He Hk. destruct (claimed_value _ _ Hl Hk) as [x Ex]. rewrite Ex.
  by apply (prefix_lookup_Some _ _ _ _ Ex), E_contents.
Qed.

Lemma consumer_extends s s' c ks : segments_ok (allocated_segments s) -> extends s s' ->
  consumer_ok s c ks -> consumer_ok s' c ks.
Proof.
  intros Hl He [[Hf Hp] Hc Hs Hk Hv]. pose proof (E_head s s' He) as Hh.
  assert (forall p, (floor s p <= floor s' p)%nat) as Hfl.
  { intros p. unfold floor. by destruct (looks_at p). }
  constructor.
  - split.
    + unfold floor in *. destruct (looks_at (at_ c)); simpl in *; lia.
    + destruct (at_ c) as [| | | | |h n| |h r|h r|]; try done.
      * destruct Hp as [-> Hn]. split; [done|]. apply lookup_lt_is_Some_2 in Hn as [g Eg].
        destruct (E_segments s s' He _ _ Eg) as (g' & Eg' & _). by eapply lookup_lt_Some.
      * destruct Hp as (g & Eg & Hr). destruct (E_segments s s' He _ _ Eg) as (g' & Eg' & H1 & H2).
        exists g'. split; [done|lia].
      * by apply (claimed_extends s s' (h, r) He).
  - eapply List.Forall_impl; [|exact Hc]. intros k. by apply claimed_extends.
  - done.
  - eapply List.Forall_impl; [|exact Hk]. intros k Hkf. specialize (Hfl (at_ c)). simpl in *. lia.
  - etrans; [|etrans; [exact Hv|]].
    + apply List.map_ext_in. intros k Hin. apply value_extends; try done.
      rewrite List.Forall_forall in Hc. by apply Hc.
    + f_equal. destruct (at_ c) as [| | | | | | | |h r|]; try done. unfold pending. f_equal.
      symmetry. by apply value_extends.
Qed.

Lemma extends_length s s' : extends s s' ->
  (length (allocated_segments s) <= length (allocated_segments s'))%nat.
Proof.
  intros He. destruct (length (allocated_segments s)) as [|n] eqn:E; [lia|].
  destruct (lookup_lt_is_Some_2 (allocated_segments s) n) as [g Eg]; [lia|].
  destruct (E_segments s s' He n g Eg) as (g' & Eg' & _). by apply lookup_lt_Some in Eg'.
Qed.

Lemma wrap_u_add_idemp w a b : wrap_u w (wrap_u w a + b) = wrap_u w (a + b).
Proof. unfold wrap_u. apply Zplus_mod_idemp_l. Qed.

(** ** Steps of the producer *)

(** A step that leaves the consumers and the head alone. *)
Lemma invariant_producer s s' slots : invariant s slots ->
  consumers s' = consumers s -> head_segment s' = head_segment s -> extends s s' ->
  segments_ok (allocated_segments s') -> producer_ok s' ->
  contents (allocated_segments s') = pushed s' ++ in_flight s' ->
  total_size s' = uint64 (Z.of_nat (length (pushed s')) - Z.of_nat (length (delivered s'))) ->
  invariant s' slots.
Proof.
  intros Hi Ec Eh He Hl Hp Hc Hs. constructor; try done.
  - destruct (I_head s slots Hi) as (h & E & Hh). exists h. rewrite Eh. split; [done|].
    pose proof (extends_length s s' He). lia.
  - rewrite Ec. eapply Forall2_impl; [apply (I_consumers s slots Hi)|].
    intros c ks. apply consumer_extends; [apply (I_segments s slots Hi)|done].
  - apply (I_distinct s slots Hi).
Qed.

(** One that changes no segment either. *)
Lemma invariant_local s s' slots : invariant s slots ->
  allocated_segments s' = allocated_segments s -> consumers s' = consumers s ->
  head_segment s' = head_segment s -> producer_ok s' ->
  pushed s' ++ in_flight s' = pushed s ++ in_flight s ->
  total_size s' = uint64 (Z.of_nat (length (pushed s')) - Z.of_nat (length (delivered s))) ->
  invariant s' slots.
Proof.
  intros Hi El Ec Eh Hp Hc Hs. apply (invariant_producer s); try done.
  - apply extends_same; [done|]. unfold head_of. by rewrite Eh.
  - rewrite El. apply (I_segments s slots Hi).
  - rewrite El, Hc. apply (I_contents s slots Hi).
  - rewrite Hs. unfold delivered. by rewrite Ec.
Qed.

(** One that changes the segment [p] from [g] to [g']. *)
Lemma extends_update s s' p g g' :
  allocated_segments s !! p = Some g -> allocated_segments s' = <[p := g']> (allocated_segments s) ->
  head_segment s' = head_segment s -> (read_pos g <= read_pos g')%nat -> (write_pos g <= write_pos g')%nat ->
  contents (allocated_segments s) `prefix_of` contents (allocated_segments s') -> extends s s'.
Proof.
  intros Eg El Eh Hr Hw Hc. constructor; [|done|unfold head_of; by rewrite Eh].
  intros q h Hq. rewrite El. destruct (decide (p = q)) as [<-|Hne].
  - simplify_eq. exists g'. rewrite list_lookup_insert_eq by (by eapply lookup_lt_Some). done.
  - exists h. by rewrite list_lookup_insert_ne.
Qed.

Lemma published_insert (g : QueueSegment T) pos x d : (write_pos g <= pos)%nat ->
  published (Segment (write_pos g) (read_pos g) (next_segment g) (<[pos := x]> d)) = take (write_pos g) d.
Proof. intros H. unfold published. simpl. by rewrite take_insert_ge. Qed.

Lemma segments_extend l t g : segments_ok l -> S t = length l -> l !! t = Some g -> write_pos g = capacity ->
  segments_ok (<[t := Segment (write_pos g) (read_pos g) (Some (S t)) (data g)]> (l ++ [new_segment capacity junk])).
Proof.
  intros Hl Ht Eg Hw p h. rewrite list_lookup_insert_Some, length_insert, length_app. simpl.
  destruct (Hl t g Eg) as [H1 H2 H3 H4 H5].
  intros [(<- & <- & _)|[Hne Eh]].
  - constructor; cbn [write_pos read_pos next_segment data]; try done.
    by rewrite decide_False by lia.
  - apply lookup_app_Some in Eh as [Eh|[Hp Eh]].
    + destruct (Hl p h Eh) as [K1 K2 K3 K4 K5]. pose proof (lookup_lt_Some _ _ _ Eh).
      constructor; try done.
      * rewrite K4. by repeat destruct (decide _); try lia.
      * intros _. apply K5. lia.
    + apply list_lookup_singleton_Some in Eh as [Ep <-].
      constructor; cbn [new_segment write_pos read_pos next_segment data]; try lia; [apply repeat_length|].
      by rewrite decide_True by lia.
Qed.

(** The steps that a call of [try_push] still takes at most. *)
Definition push_steps (p : producer T) : nat :=
  match p with
  | PIdle => 0 | PLoadTail _ => 8 | PLoadWrite _ _ => 7 | PExtend _ _ => 6 | PStoreTail _ _ => 5
  | PAddSegment _ _ => 4 | PWrite _ _ _ => 3 | PStoreWrite _ _ _ => 2 | PAddSize _ => 1
  end.

(** The item of the running call. *)
Definition pushing (p : producer T) : list T :=
  match p with
  | PIdle => []
  | PLoadTail x | PLoadWrite x _ | PExtend x _ | PStoreTail x _ | PAddSegment x _ | PWrite x _ _
  | PStoreWrite x _ _ | PAddSize x => [x]
  end.

(** The progress of a step of the producer. *)
Definition push_progress (s s' : state T) : Prop :=
  (push_steps (prod s') < push_steps (prod s))%nat
  /\ pushed s' ++ pushing (prod s') = pushed s ++ pushing (prod s)
  /\ (prod s' = PIdle -> push_ret s' = Some true)
  /\ consumers s' = consumers s /\ head_segment s' = head_segment s.

(** A step from the place [E] is progress. *)
Ltac push_leads E :=
  unfold push_progress; rewrite E; simpl; rewrite ?app_nil_r; repeat split; (lia || done).

Lemma push_store s slots item p pos : invariant s slots -> prod s = PWrite item p pos ->
  exists s', try_push capacity junk s = Ok (Some s') /\ invariant s' slots /\ push_progress s s'.
Proof.
  intros Hi E. pose proof (I_producer s slots Hi) as Hp. pose proof (I_segments s slots Hi) as Hl.
  pose proof (I_contents s slots Hi) as Hc. unfold producer_ok in Hp. unfold in_flight in Hc. rewrite E in *.
  destruct Hp as ([Et Hlast] & g & Eg & Ew & Hw). destruct (Hl p g Eg) as [H1 H2 H3 H4 H5].
  pose proof (lookup_lt_Some _ _ _ Eg) as Hlt.
  unfold try_push, segment, set_data, rset. rewrite E, Eg. cbn [lift mbind result_bind].
  rewrite aset_nat by lia. cbn [lift mbind result_bind].
  eexists. split; [done|]. split; [|push_leads E].
  set (g' := Segment _ _ _ _).
  assert (published g' = published g) as Epub.
  { unfold g'. rewrite published_insert by lia. done. }
  eapply (invariant_producer s); try done.
  - eapply (extends_update s _ p g g'); try done. simpl.
    by rewrite (contents_update _ p g g' Eg Epub).
  - apply (segments_update _ p g); try done; simpl; rewrite ?length_insert; lia.
  - split; [split; [done|simpl; by rewrite length_insert]|].
    exists g'. fields. rewrite list_lookup_insert_eq by done. split_and!; try done.
    apply list_lookup_insert_eq. lia.
  - fields. by rewrite (contents_update _ p g g' Eg Epub).
  - apply (I_size s slots Hi).
Qed.

Lemma push_publish s slots item p pos : invariant s slots -> prod s = PStoreWrite item p pos ->
  exists s', try_push capacity junk s = Ok (Some s') /\ invariant s' slots /\ push_progress s s'.
Proof.
  intros Hi E. pose proof (I_producer s slots Hi) as Hp. pose proof (I_segments s slots Hi) as Hl.
  pose proof (I_contents s slots Hi) as Hc. unfold producer_ok in Hp. unfold in_flight in Hc. rewrite E in *.
  destruct Hp as ([Et Hlast] & g & Eg & Ew & Hw & Hx). destruct (Hl p g Eg) as [H1 H2 H3 H4 H5].
  pose proof (lookup_lt_Some _ _ _ Eg) as Hlt.
  unfold try_push, segment. rewrite E, Eg. cbn [lift mbind result_bind].
  eexists. split; [done|]. split; [|push_leads E].
  set (g' := Segment _ _ _ _).
  assert (published g' = published g ++ [item]) as Epub.
  { unfold published, g'. simpl. rewrite Ew. by apply take_S_r. }
  assert (contents (<[p:=g']> (allocated_segments s)) = contents (allocated_segments s) ++ [item]) as Ec.
  { rewrite (contents_last _ p g g' Eg Hlast), (contents_split _ p g Eg), drop_ge, Epub by lia.
    unfold contents at 3. simpl. by rewrite app_nil_r, (assoc_L (++)). }
  eapply (invariant_producer s); try done.
  - eapply (extends_update s _ p g g'); try done; [simpl; lia|]. simpl. rewrite Ec. by apply prefix_app_r.
  - apply (segments_update _ p g); try done; subst g'; fields; lia.
  - exists p. split; [done|simpl; by rewrite length_insert].
  - fields. by rewrite Ec, Hc, app_nil_r.
  - apply (I_size s slots Hi).
Qed.

Lemma push_extend s slots item t : invariant s slots -> prod s = PExtend item t ->
  exists s', try_push capacity junk s = Ok (Some s') /\ invariant s' slots /\ push_progress s s'.
Proof.
  intros Hi E. pose proof (I_producer s slots Hi) as Hp. pose proof (I_segments s slots Hi) as Hl.
  pose proof (I_contents s slots Hi) as Hc. unfold producer_ok in Hp. unfold in_flight in Hc. rewrite E in *.
  destruct Hp as ([Et Hlast] & g & Eg & Ew). destruct (Hl t g Eg) as [H1 H2 H3 H4 H5].
  pose proof (lookup_lt_Some _ _ _ Eg) as Hlt.
  assert ((allocated_segments s ++ [new_segment capacity junk]) !! t = Some g) as Eg'
    by (by apply lookup_app_l_Some).
  unfold try_push, segment. rewrite E. cbn. rewrite Eg'. cbn.
  rewrite H4. destruct (decide _) as [_|]; [|done].
  eexists. split; [done|]. split; [|push_leads E].
  rewrite <- Hlast. set (g' := Segment _ _ _ _).
  assert (contents (<[t:=g']> (allocated_segments s ++ [new_segment capacity junk]))
          = contents (allocated_segments s)) as Ec.
  { by rewrite (contents_update _ t g g' Eg'), contents_snoc. }
  eapply (invariant_producer s); try done.
  - constructor; [|simpl; by rewrite Ec|done]. intros q h Eh. simpl.
    pose proof (lookup_lt_Some _ _ _ Eh) as Hq. destruct (decide (t = q)) as [<-|Hne].
    + simplify_eq. exists g'. rewrite list_lookup_insert_eq by (rewrite length_app; simpl; lia). done.
    + exists h. rewrite list_lookup_insert_ne by done. split; [by apply lookup_app_l_Some|done].
  - by apply segments_extend.
  - split; [simpl; rewrite length_insert, length_app; simpl; lia|].
    exists (new_segment capacity junk). simpl. rewrite list_lookup_insert_ne by lia.
    rewrite lookup_app_r by lia. rewrite Hlast, Nat.sub_diag. done.
  - fields. by rewrite Ec, Hc.
  - apply (I_size s slots Hi).
Qed.

(** Every step of a running call is defined, keeps the invariant and leads on;
    the call returns true. *)
Lemma produce_ok s slots : invariant s slots -> prod s <> PIdle ->
  exists s', try_push capacity junk s = Ok (Some s') /\ invariant s' slots /\ push_progress s s'.
Proof.
  intros Hi Hne. pose proof (I_producer s slots Hi) as Hp. pose proof (I_size s slots Hi) as Hs.
  unfold producer_ok in Hp.
  destruct (prod s) as [|x|x t|x t|x new|x new|x p pos|x p pos|x] eqn:E; [done|..];
    [| |by eapply push_extend| | |by eapply push_store|by eapply push_publish|].
  - destruct Hp as (t & Et & Ht). unfold try_push. rewrite E, Et.
    eexists. split; [done|]. split; [|push_leads E].
    apply (invariant_local s); try done. unfold in_flight. by rewrite E.
  - destruct Hp as [Et Ht]. destruct (lookup_lt_is_Some_2 (allocated_segments s) t) as [g Eg]; [lia|].
    destruct (I_segments s slots Hi t g Eg) as [H1 H2 H3 H4 H5].
    unfold try_push, segment. rewrite E, Eg. cbn [lift mbind result_bind].
    eexists. split; [done|].
    destruct (decide (capacity <= write_pos g)%nat) as [Hfull|Hroom];
      (split; [|push_leads E]);
      (apply (invariant_local s); try done; [|unfold in_flight; by rewrite E]).
    + split; [done|]. exists g. split; [done|lia].
    + split; [done|]. exists g. split_and!; try done. lia.
  - destruct Hp as [Hn Hg]. unfold try_push. rewrite E.
    eexists. split; [done|]. split; [|push_leads E].
    apply (invariant_local s); try done. unfold in_flight. by rewrite E.
  - destruct Hp as [[Et Ht] (g & Eg & Ew)]. unfold try_push. rewrite E.
    eexists. split; [done|]. split; [|push_leads E].
    apply (invariant_local s); try done; [|unfold in_flight; by rewrite E]. split; [by split|].
    exists g. by split_and!.
  - unfold try_push. rewrite E. eexists. split; [done|].
    split; [|push_leads E].
    apply (invariant_local s); try done.
    + unfold in_flight. rewrite E. simpl. by rewrite app_nil_r.
    + fields. rewrite Hs, wrap_u_add_idemp, length_app. f_equal. simpl. lia.
Qed.

(** ** Steps of the consumers *)

(** A step of the consumer [i] that may change the head and the read position of
    a segment. *)
Lemma invariant_consumer s s' slots i c c' ks ks' : invariant s slots ->
  consumers s !! i = Some c -> slots !! i = Some ks -> consumers s' = <[i := c']> (consumers s) ->
  extends s s' -> segments_ok (allocated_segments s') ->
  length (allocated_segments s') = length (allocated_segments s) ->
  (exists h, head_segment s' = Some h /\ (h < length (allocated_segments s))%nat) ->
  (forall p g, allocated_segments s !! p = Some g -> exists g', allocated_segments s' !! p = Some g'
     /\ write_pos g' = write_pos g /\ data g' = data g) ->
  contents (allocated_segments s') = contents (allocated_segments s) ->
  tail_segment s' = tail_segment s -> prod s' = prod s -> pushed s' = pushed s ->
  consumer_ok s' c' ks' -> NoDup (concat (<[i := ks']> slots)) ->
  total_size s' = uint64 (Z.of_nat (length (pushed s)) - Z.of_nat (length (delivered s'))) ->
  invariant s' (<[i := ks']> slots).
Proof.
  intros Hi Hc Hk Ec He Hl Hlen Hh Hg Hcont Et Ep Epu Hc' Hnd Hs. constructor; try done.
  - by rewrite Hlen.
  - pose proof (I_producer s slots Hi) as Hp. unfold producer_ok, at_tail in *. rewrite Ep, Et, Hlen.
    destruct (prod s); try done; destruct Hp as (Ht & g & Eg & Hp), (Hg _ _ Eg) as (g' & Eg' & Ew & Ed);
      (split; [done|]); exists g'; by rewrite Ew, ?Ed.
  - unfold in_flight. rewrite Hcont, Ep, Epu. apply (I_contents s slots Hi).
  - rewrite Ec. apply Forall2_insert; [|done].
    eapply Forall2_impl; [apply (I_consumers s slots Hi)|].
    intros c0 ks0. apply consumer_extends; [apply (I_segments s slots Hi)|done].
  - by rewrite Epu.
Qed.

(** A step in which the consumer claims nothing. *)
Lemma invariant_no_claim s s' slots i c c' ks : invariant s slots ->
  consumers s !! i = Some c -> slots !! i = Some ks -> consumers s' = <[i := c']> (consumers s) ->
  allocated_segments s' = allocated_segments s -> tail_segment s' = tail_segment s ->
  prod s' = prod s -> pushed s' = pushed s ->
  (exists h, head_segment s' = Some h /\ (head_of s <= h < length (allocated_segments s))%nat) ->
  consumer_pc_ok s' (at_ c') -> (floor s (at_ c) <= floor s' (at_ c'))%nat ->
  map Some (received c') ++ pending (allocated_segments s) (at_ c')
    = map Some (received c) ++ pending (allocated_segments s) (at_ c) ->
  total_size s' = uint64 (total_size s + (Z.of_nat (length (received c)) - Z.of_nat (length (received c')))) ->
  invariant s' slots.
Proof.
  intros Hi Hc Hk Ec El Et Ep Epu (h & Eh & Hh) Hp Hf Hv Hs.
  pose proof (Forall2_lookup_lr _ _ _ _ _ _ (I_consumers s slots Hi) Hc Hk) as [K1 K2 K3 K4 K5].
  rewrite <- (list_insert_id slots i ks Hk).
  apply (invariant_consumer s _ slots i c c' ks ks Hi Hc Hk); rewrite ?El; try done.
  - apply extends_same; [done|]. unfold head_of at 2. rewrite Eh. apply Hh.
  - apply (I_segments s slots Hi).
  - exists h. split; [done|apply Hh].
  - intros q g Eg. by exists g.
  - constructor; rewrite ?El; try done.
    + eapply List.Forall_impl; [|exact K4]. intros k Hle. simpl in Hle. lia.
    + by rewrite K5, Hv.
  - rewrite (list_insert_id slots i ks Hk). apply (I_distinct s slots Hi).
  - rewrite Hs, (I_size s slots Hi), wrap_u_add_idemp. f_equal. unfold delivered. rewrite Ec.
    change (map received (<[i:=c']> (consumers s))) with (received <$> <[i:=c']> (consumers s)).
    rewrite list_fmap_insert.
    assert (map received (consumers s) !! i = Some (received c)) as Hr by (by rewrite list_lookup_fmap, Hc).
    pose proof (length_concat_insert _ _ _ (received c') Hr). change fmap with (@map (consumer T) (list T)). lia.
Qed.

(** A step that only moves the consumer. *)
Lemma invariant_move s slots i c p : invariant s slots -> consumers s !! i = Some c ->
  consumer_pc_ok s p -> (floor s (at_ c) <= floor s p)%nat ->
  pending (allocated_segments s) p = pending (allocated_segments s) (at_ c) ->
  invariant (move_consumer s i c p) slots.
Proof.
  intros Hi Hc Hp Hf Hpend. destruct (I_head s slots Hi) as (h & Eh & Hh).
  destruct (Forall2_lookup_l _ _ _ _ _ (I_consumers s slots Hi) Hc) as (ks & Hk & _).
  apply (invariant_no_claim s _ slots i c (Consumer p (received c) (popped c)) ks Hi Hc Hk); try done.
  - exists h. split; [done|]. unfold head_of. rewrite Eh. simpl. lia.
  - fields. by rewrite Hpend.
  - fields. rewrite Z.sub_diag, Z.add_0_r, (I_size s slots Hi). unfold wrap_u. by rewrite Z.mod_mod.
Qed.

(** A call returns. *)
Lemma invariant_return s slots i c item size' : invariant s slots -> consumers s !! i = Some c ->
  pending (allocated_segments s) (at_ c) = map Some (option_list item) ->
  size' = uint64 (total_size s - Z.of_nat (length (option_list item))) ->
  invariant (return_pop (with_size s size') i c item) slots.
Proof.
  intros Hi Hc Hp Hs. destruct (I_head s slots Hi) as (h & Eh & Hh).
  destruct (Forall2_lookup_l _ _ _ _ _ (I_consumers s slots Hi) Hc) as (ks & Hk & Hok).
  eapply (invariant_no_claim s _ slots i c _ ks Hi Hc Hk); try done.
  - exists h. split; [done|]. unfold head_of. rewrite Eh. simpl. lia.
  - destruct (K_pc s c ks Hok) as [Hf _]. unfold floor at 2. fields. exact Hf.
  - fields. rewrite Hp, map_app. simpl. by rewrite app_nil_r.
  - fields. rewrite Hs, length_app. f_equal. lia.
Qed.

Lemma with_size_id (s : state T) : with_size s (total_size s) = s.
Proof. by destruct s. Qed.

Lemma invariant_size_small s slots : invariant s slots -> uint64 (total_size s - 0) = total_size s.
Proof. intros Hi. rewrite Z.sub_0_r, (I_size s slots Hi). unfold wrap_u. by rewrite Z.mod_mod. Qed.

(** A call returns false. *)
Lemma invariant_return_none s slots i c : invariant s slots -> consumers s !! i = Some c ->
  pending (allocated_segments s) (at_ c) = [] -> invariant (return_pop s i c None) slots.
Proof.
  intros Hi Hc Hp. rewrite <- (with_size_id s) at 1.
  apply invariant_return; try done. symmetry. by eapply invariant_size_small.
Qed.

(** The producer is where it was. *)
Definition same_producer (s s' : state T) : Prop :=
  prod s' = prod s /\ pushed s' = pushed s /\ push_ret s' = push_ret s.

(** Only places that were read are claimed. *)
Lemma slots_claimed s slots k : invariant s slots -> k ∈ concat slots -> claimed (allocated_segments s) k.
Proof.
  intros Hi (ks & Hk & Hin)%elem_of_concat. apply list_elem_of_lookup in Hin as [j Hj].
  destruct (Forall2_lookup_r _ _ _ _ _ (I_consumers s slots Hi) Hj) as (c & _ & [_ K2 _ _ _]).
  rewrite Forall_forall in K2. by apply K2.
Qed.

Lemma delivered_move (s : state T) i c p q : consumers s !! i = Some c ->
  concat (map received (<[i := Consumer p (received c) q]> (consumers s))) = delivered s.
Proof.
  intros Hc. unfold delivered. f_equal.
  change (received <$> <[i:=Consumer p (received c) q]> (consumers s) = received <$> consumers s).
  rewrite list_fmap_insert. apply list_insert_id. by rewrite list_lookup_fmap, Hc.
Qed.

(** The head advances. *)
Lemma pop_advance s slots i c h n : invariant s slots -> consumers s !! i = Some c ->
  at_ c = CAdvance h n -> head_segment s = Some h ->
  invariant (move_consumer (with_head s (Some n)) i c (CLoadRead n)) slots.
Proof.
  intros Hi Hc E Eh.
  destruct (Forall2_lookup_l _ _ _ _ _ (I_consumers s slots Hi) Hc) as (ks & Hk & Hok).
  destruct (K_pc s c ks Hok) as [Hf Hp]. rewrite E in Hp, Hf. destruct Hp as [-> Hn].
  assert (head_of s = h) as Ehd by (unfold head_of; by rewrite Eh).
  eapply (invariant_no_claim s _ slots i c _ ks Hi Hc Hk); try done.
  - exists (S h). split; [done|lia].
  - rewrite E. cbn. lia.
  - fields. by rewrite E.
  - fields. rewrite Z.sub_diag, Z.add_0_r, (I_size s slots Hi). unfold wrap_u. by rewrite Z.mod_mod.
Qed.

(** A place is claimed: it was not claimed before, and it is behind all the
    places of this consumer. *)
Lemma pop_claim s slots i c h g : invariant s slots -> consumers s !! i = Some c ->
  at_ c = CClaim h (read_pos g) -> allocated_segments s !! h = Some g ->
  exists slots', invariant (move_consumer (set_segment s h (Segment (write_pos g) (S (read_pos g)) (next_segment g) (data g)))
                              i c (CRead h (read_pos g))) slots'.
Proof.
  intros Hi Hc E Eg.
  destruct (Forall2_lookup_l _ _ _ _ _ (I_consumers s slots Hi) Hc) as (ks & Hk & Hok).
  pose proof (I_segments s slots Hi) as Hl. pose proof (lookup_lt_Some _ _ _ Eg) as Hlt.
  destruct Hok as [[Hf Hp] K2 K3 K4 K5]. rewrite E in *. destruct Hp as (g0 & Eg0 & Hr). simplify_eq.
  destruct (Hl h g Eg) as [H1 H2 H3 H4 H5].
  set (g' := Segment _ _ _ _). set (s' := move_consumer _ _ _ _).
  assert (contents (allocated_segments s') = contents (allocated_segments s)) as Ec
    by (by apply (contents_update _ h g g')).
  assert (extends s s') as He.
  { apply (extends_update s s' h g g' Eg); try done; [subst g'; fields; lia|by rewrite Ec]. }
  exists (<[i := ks ++ [(h, read_pos g)]]> slots).
  eapply (invariant_consumer s s' slots i c _ ks _ Hi Hc Hk); try done.
  - apply (segments_update _ h g); try done.
  - subst s'. fields. by rewrite length_insert.
  - apply (I_head s slots Hi).
  - intros q x Ex. subst s'. fields. destruct (decide (h = q)) as [<-|Hne].
    + simplify_eq. exists g'. by rewrite list_lookup_insert_eq.
    + exists x. by rewrite list_lookup_insert_ne.
  - assert (claimed (allocated_segments s') (h, read_pos g)) as Hcl.
    { exists g'. subst s'. fields. rewrite list_lookup_insert_eq by done. split; [done|]. subst g'. simpl. lia. }
    constructor; fields.
    + split; [exact Hf|]. exact Hcl.
    + apply Forall_app. split; [|by constructor].
      eapply List.Forall_impl; [|exact K2]. intros k. by apply claimed_extends.
    + rewrite map_app. apply StronglySorted_app_2; [|done|by repeat constructor].
      intros x1 x2 Hx1 Hx2. apply list_elem_of_singleton in Hx2 as ->.
      apply list_elem_of_fmap in Hx1 as (k & -> & Hkin).
      rewrite Forall_forall in K2, K4. specialize (K4 k Hkin). destruct (K2 k Hkin) as (gk & Egk & Hrk).
      destruct k as [q r]. unfold place. cbn [fst snd] in *. assert (q <= h)%nat as Hq by exact K4.
      destruct (decide (q = h)) as [->|Hne]; [simplify_eq; lia|].
      destruct (Hl q gk Egk) as [J1 J2 J3 J4 J5]. nia.
    + apply Forall_app. split; [exact K4|]. constructor; [|done]. done.
    + rewrite map_app. cbn [pending]. f_equal. rewrite Ec, K5. cbn [pending]. by rewrite app_nil_r.
  - rewrite (concat_insert_snoc slots i ks (h, read_pos g) Hk). constructor; [|apply (I_distinct s slots Hi)].
    intros Hin. destruct (slots_claimed s slots _ Hi Hin) as (g1 & Eg1 & Hlt1). simpl in *. simplify_eq. lia.
  - subst s'. fields. rewrite (I_size s slots Hi). do 2 f_equal. unfold delivered at 2. fields.
    by rewrite delivered_move.
Qed.

(** A consumer looks at segments up to the head. *)
Lemma segment_at s slots p : invariant s slots -> (p <= head_of s)%nat ->
  exists g, allocated_segments s !! p = Some g /\ segment_ok (length (allocated_segments s)) p g.
Proof.
  intros Hi Hp. destruct (I_head s slots Hi) as (h & Eh & Hh). unfold head_of in Hp. rewrite Eh in Hp. simpl in Hp.
  destruct (lookup_lt_is_Some_2 (allocated_segments s) p) as [g Eg]; [lia|].
  exists g. split; [done|]. by apply (I_segments s slots Hi).
Qed.

Ltac at_floor := unfold floor in *; cbn [looks_at from_option id] in *; lia.

(** Every step of a running [try_pop] is defined and keeps the invariant. *)
Lemma consume_ok s slots i c : invariant s slots -> consumers s !! i = Some c -> at_ c <> CIdle ->
  exists s' slots', try_pop s i c = Ok (Some s') /\ invariant s' slots' /\ same_producer s s'.
Proof.
  intros Hi Hc Hne. destruct (I_head s slots Hi) as (hd & Eh & Hh).
  assert (head_of s = hd) as Ehd by (unfold head_of; by rewrite Eh).
  destruct (Forall2_lookup_l _ _ _ _ _ (I_consumers s slots Hi) Hc) as (ks & Hk & Hok).
  pose proof (K_pc s c ks Hok) as [Hf Hp].
  assert (forall p, consumer_pc_ok s p -> (floor s (at_ c) <= floor s p)%nat ->
    pending (allocated_segments s) p = pending (allocated_segments s) (at_ c) ->
    exists s' slots', Ok (Some (move_consumer s i c p)) = Ok (Some s') /\ invariant s' slots' /\ same_producer s s')
    as Hmove.
  { intros p H1 H2 H3. exists (move_consumer s i c p), slots. split; [done|]. split; [|done].
    by apply invariant_move. }
  unfold try_pop. destruct (at_ c) as [| |h|h r|h|h n| |h r|h r|x] eqn:E; [done|..].
  - rewrite Eh. apply Hmove; [by split; [at_floor|]|at_floor|done].
  - destruct (segment_at s slots h Hi Hf) as (g & Eg & Hg). unfold segment. rewrite Eg. cbn [lift mbind result_bind].
    apply Hmove; [by split; [at_floor|]|at_floor|done].
  - destruct (segment_at s slots h Hi Hf) as (g & Eg & Hg). unfold segment. rewrite Eg. cbn [lift mbind result_bind].
    destruct (decide (write_pos g <= r)%nat); apply Hmove; try done; try at_floor.
    split; [at_floor|]. exists g. split; [done|lia].
  - destruct (segment_at s slots h Hi Hf) as (g & Eg & [_ _ _ Hn _]). unfold segment. rewrite Eg. cbn [lift mbind result_bind].
    rewrite Hn. destruct (decide (S h = length (allocated_segments s))).
    + eexists _, slots. split; [done|]. split; [|done]. apply invariant_return_none; [done|done|by rewrite E].
    + apply Hmove; [|at_floor|done]. split; [at_floor|]. split; [done|]. apply lookup_lt_Some in Eg. lia.
  - destruct (decide (head_segment s = Some h)) as [Ehs|].
    + eexists _, slots. split; [done|]. split; [|done]. by eapply pop_advance.
    + apply Hmove; [by split; [at_floor|]|at_floor|done].
  - rewrite Eh. apply Hmove; [by split; [at_floor|]|at_floor|done].
  - destruct (segment_at s slots h Hi Hf) as (g & Eg & Hg). unfold segment. rewrite Eg. cbn [lift mbind result_bind].
    destruct (decide (read_pos g = r)) as [<-|].
    + destruct (pop_claim s slots i c h g Hi Hc E Eg) as [slots' Hi']. by eexists _, slots'.
    + apply Hmove; [by split; [at_floor|]|at_floor|done].
  - destruct Hp as (g & Eg & Hr). destruct (I_segments s slots Hi h g Eg) as [H1 H2 H3 H4 H5].
    unfold segment, rget. rewrite Eg. cbn [lift mbind result_bind]. rewrite aget_nat.
    destruct (lookup_lt_is_Some_2 (data g) r) as [x Ex]; [lia|]. rewrite Ex. cbn [lift mbind result_bind].
    apply Hmove; [by split; [at_floor|]|at_floor|]. cbn [pending].
    rewrite (contents_lookup _ h g r (I_segments s slots Hi) Eg) by lia. by rewrite Ex.
  - eexists _, slots. split; [done|]. split; [|done]. apply invariant_return; [done|done|by rewrite E|done].
Qed.

(** ** The executions *)

Inductive reachable (n : nat) : state T -> Prop :=
| reach_start : reachable n (state0 capacity junk n)
| reach_step s e s' : reachable n s -> step capacity junk s e = Ok (Some s') -> reachable n s'.

Lemma steps_reachable n es : forall s s', reachable n s -> steps capacity junk s es = Ok (Some s') -> reachable n s'.
Proof.
  induction es as [|e es IH]; intros s s' Hr E; cbn [steps] in E; [by simplify_eq|].
  destruct (step capacity junk s e) as [[s1|]| |] eqn:Es; simplify_eq/=.
  eapply IH; [|done]. by eapply reach_step.
Qed.

Lemma invariant_start n : invariant (state0 capacity junk n) (repeat [] n).
Proof.
  constructor; cbn.
  - intros [|p] g Eg; simplify_eq/=. constructor; cbn; try done; [apply repeat_length|lia|lia].
  - exists 0%nat. split; [done|]. cbn. lia.
  - by exists 0%nat.
  - done.
  - apply Forall2_repeat. constructor; cbn; try done; constructor.
  - rewrite concat_repeat_nil. constructor.
  - unfold delivered. cbn. rewrite map_repeat. cbn. by rewrite concat_repeat_nil.
Qed.

Lemma reachable_invariant n s : reachable n s -> exists slots, invariant s slots.
Proof.
  induction 1 as [|s e s' Hr [slots Hi] E]; [eexists; apply invariant_start|].
  destruct e as [x| |i|i]; cbn [step] in E.
  - destruct (prod s) eqn:Ep; simplify_eq. exists slots. pose proof (I_producer s slots Hi) as Hp.
    unfold producer_ok in Hp. rewrite Ep in Hp.
    apply (invariant_local s); try done; [unfold in_flight; by rewrite Ep|apply (I_size s slots Hi)].
  - assert (prod s <> PIdle) as Hne by (intros Ep; unfold try_push in E; rewrite Ep in E; done).
    destruct (produce_ok s slots Hi Hne) as (s1 & E1 & H1 & _). rewrite E in E1. simplify_eq. by exists slots.
  - destruct (consumers s !! i) as [c|] eqn:Ec; [|done]. cbn in E.
    destruct (at_ c) eqn:Ea; simplify_eq. exists slots.
    apply invariant_move; try done; rewrite ?Ea; done.
  - destruct (consumers s !! i) as [c|] eqn:Ec; [|done].
    assert (at_ c <> CIdle) as Hne by (intros Ea; unfold try_pop in E; rewrite Ea in E; done).
    destruct (consume_ok s slots i c Hi Ec Hne) as (s1 & slots1 & E1 & H1 & _).
    rewrite E in E1. simplify_eq. by exists slots1.
Qed.

(** ** Nothing undefined, nothing twice, nothing out of order *)

Lemma invariant_step s slots e : invariant s slots -> exists o, step capacity junk s e = Ok o.
Proof.
  intros Hi. destruct e as [x| |i|i]; cbn [step]; [by eexists| |by eexists|].
  - destruct (decide (push_steps (prod s) = 0%nat)) as [E|E].
    + exists None. unfold try_push. by destruct (prod s).
    + destruct (produce_ok s slots Hi) as (s' & E' & _); [|by eexists]. intros Ep. by rewrite Ep in E.
  - destruct (consumers s !! i) as [c|] eqn:Ec; [|by eexists].
    destruct (at_ c) eqn:Ea; [exists None; unfold try_pop; by rewrite Ea|..];
      (destruct (consume_ok s slots i c Hi Ec) as (s' & slots' & E' & _); [by rewrite Ea|by eexists]).
Qed.

(** What a consumer received is at the first places that it claimed. *)
Lemma received_prefix s c ks : consumer_ok s c ks ->
  map (fun k => contents (allocated_segments s) !! place k) (take (length (received c)) ks)
  = map Some (received c).
Proof.
  intros [_ _ _ _ K5]. change (map ?f ?l) with (f <$> l) in *.
  rewrite fmap_take, K5, take_app_length' by (by rewrite length_fmap). done.
Qed.

Lemma claimed_bound l k : segments_ok l -> claimed l k -> (k.2 < capacity)%nat /\ (place k < length (contents l))%nat.
Proof.
  intros Hl Hk. destruct (claimed_value l k Hl Hk) as [x Ex]. apply lookup_lt_Some in Ex.
  destruct Hk as (g & Eg & Hr). destruct (Hl _ _ Eg) as [H1 H2 H3 H4 H5]. split; [lia|done].
Qed.

Lemma place_inj k k' : (k.2 < capacity)%nat -> (k'.2 < capacity)%nat -> place k = place k' -> k = k'.
Proof.
  destruct k as [p r], k' as [p' r']. unfold place. cbn [fst snd]. intros Hr Hr' E.
  destruct (Nat.div_mod_unique capacity p p' r r' Hr Hr') as [-> ->]; [lia|done].
Qed.

Lemma received_in_order s slots i c : invariant s slots -> consumers s !! i = Some c ->
  received c `sublist_of` contents (allocated_segments s).
Proof.
  intros Hi Hc. destruct (Forall2_lookup_l _ _ _ _ _ (I_consumers s slots Hi) Hc) as (ks & Hk & Hok).
  pose proof (received_prefix s c ks Hok) as Hv. destruct Hok as [K1 K2 K3 K4 K5].
  rewrite <- (drop_0 (contents _)).
  apply (sorted_positions_sublist _ (map place (take (length (received c)) ks))).
  - rewrite <- (take_drop (length (received c)) ks), map_app in K3. by eapply StronglySorted_app_1_l.
  - apply List.Forall_forall. lia.
  - by rewrite List.map_map.
Qed.

Lemma delivered_submseteq s slots : invariant s slots -> delivered s ⊆+ contents (allocated_segments s).
Proof.
  intros Hi. pose proof (I_segments s slots Hi) as Hl.
  apply (distinct_positions_submseteq _ (map place (concat slots))).
  - apply (NoDup_fmap_2_strong place); [|apply (I_distinct s slots Hi)].
    intros k k' Hk Hk'. apply place_inj; apply (claimed_bound _ _ Hl); by eapply slots_claimed.
  - rewrite List.map_map. unfold delivered.
    generalize (I_consumers s slots Hi). clear Hi. generalize (consumers s). intros cs Hcs.
    induction Hcs as [|c ks cs kss Hok Hcs IH]; [done|].
    cbn [map concat]. rewrite !map_app. apply submseteq_app; [|exact IH].
    rewrite <- (received_prefix s c ks Hok).
    rewrite <- (take_drop (length (received c)) ks) at 2. rewrite map_app. by apply submseteq_inserts_r.
  - apply List.Forall_map, List.Forall_forall. intros k Hk. apply list_elem_of_In in Hk.
    apply (claimed_bound _ _ Hl). by eapply slots_claimed.
Qed.

End Invariant.

Section Theorems.
Context {T : Type}.
Variable capacity : nat.
Variable junk : T.
Hypothesis capacity_pos : (0 < capacity)%nat.

(** C19: No thread leaves the memory of the queue, whatever the others do: every
    step is defined, and no consumer reads a cell of a segment while the
    producer writes it. *)
Theorem queue_safe (n : nat) (es : list (event T)) (s : state T)
    (Hs : steps capacity junk (state0 capacity junk n) es = Ok (Some s)) :
  (forall e, exists o, step capacity junk s e = Ok o)
  /\ forall item p pos i c, prod s = PWrite item p pos -> consumers s !! i = Some c -> at_ c <> CRead p pos.
Proof.
  pose proof (steps_reachable capacity junk n es _ _ (reach_start _ _ n) Hs) as Hr.
  destruct (reachable_invariant capacity junk capacity_pos n s Hr) as [slots Hi]. split.
  - intros e. by eapply invariant_step.
  - intros item p pos i c Ep Hc Ea. pose proof (I_producer _ s slots Hi) as Hp. unfold producer_ok in Hp.
    rewrite Ep in Hp. destruct Hp as (_ & g & Eg & Ew & _).
    destruct (Forall2_lookup_l _ _ _ _ _ (I_consumers _ s slots Hi) Hc) as (ks & _ & Hok).
    destruct (K_pc _ _ _ _ Hok) as [_ Hcl]. rewrite Ea in Hcl. destruct Hcl as (g' & Eg' & Hr').
    destruct (I_segments _ s slots Hi p g Eg) as [H1 H2 H3 H4 H5]. simplify_eq. lia.
Qed.

(** C18: Every consumer gets the items in the order in which they were pushed:
    what it received so far is a subsequence of the published items. *)
Theorem queue_fifo (n : nat) (es : list (event T)) (s : state T) (i : nat) (c : consumer T)
    (Hs : steps capacity junk (state0 capacity junk n) es = Ok (Some s)) (Hc : consumers s !! i = Some c) :
  received c `sublist_of` pushed s ++ in_flight s.
Proof.
  pose proof (steps_reachable capacity junk n es _ _ (reach_start _ _ n) Hs) as Hr.
  destruct (reachable_invariant capacity junk capacity_pos n s Hr) as [slots Hi].
  rewrite <- (I_contents _ s slots Hi). by eapply received_in_order.
Qed.

(** C8: No item is delivered twice: all that the consumers received together is
    contained, with its multiplicity, in what was published. *)
Theorem queue_at_most_once (n : nat) (es : list (event T)) (s : state T)
    (Hs : steps capacity junk (state0 capacity junk n) es = Ok (Some s)) :
  delivered s ⊆+ pushed s ++ in_flight s.
Proof.
  pose proof (steps_reachable capacity junk n es _ _ (reach_start _ _ n) Hs) as Hr.
  destruct (reachable_invariant capacity junk capacity_pos n s Hr) as [slots Hi].
  rewrite <- (I_contents _ s slots Hi). by eapply delivered_submseteq.
Qed.

(** C24: The size is what was pushed and not yet popped, modulo 2^64; when no call
    is running it is exact, and [empty] is true just when everything that was
    pushed has been delivered. *)
Theorem queue_size (n : nat) (es : list (event T)) (s : state T)
    (Hs : steps capacity junk (state0 capacity junk n) es = Ok (Some s)) :
  SpmcQueue.size s = uint64 (Z.of_nat (length (pushed s)) - Z.of_nat (length (delivered s)))
  /\ (prod s = PIdle -> Z.of_nat (length (pushed s)) < 2 ^ 64 ->
      SpmcQueue.size s = Z.of_nat (length (pushed s)) - Z.of_nat (length (delivered s))
      /\ (SpmcQueue.empty s = true <-> delivered s ≡ₚ pushed s)).
Proof.
  pose proof (steps_reachable capacity junk n es _ _ (reach_start _ _ n) Hs) as Hr.
  destruct (reachable_invariant capacity junk capacity_pos n s Hr) as [slots Hi].
  pose proof (I_size _ s slots Hi) as Hz. split; [done|]. intros Hp Hlt.
  pose proof (delivered_submseteq _ capacity_pos s slots Hi) as Hsub. rewrite (I_contents _ s slots Hi) in Hsub.
  unfold in_flight in Hsub. rewrite Hp, app_nil_r in Hsub. pose proof (submseteq_length _ _ Hsub) as Hle.
  rewrite wrap_u_small in Hz by lia. unfold SpmcQueue.size, SpmcQueue.empty. split; [done|]. rewrite Z.eqb_eq, Hz. split.
  - intros E. apply submseteq_length_Permutation; [done|lia].
  - intros E. rewrite E. lia.
Qed.

(** The steps of the producer among others. *)
Definition produces (es : list (event T)) : nat :=
  length (List.filter (fun e => match e with Produce => true | _ => false end) es).

Definition no_push (e : event T) : Prop := match e with Push _ => False | _ => True end.

Lemma other_step n s e s1 : reachable capacity junk n s -> no_push e -> e <> Produce ->
  step capacity junk s e = Ok (Some s1) -> same_producer s s1.
Proof.
  intros Hr He Hne Es. destruct (reachable_invariant capacity junk capacity_pos n s Hr) as [slots Hi].
  destruct e as [x| |i|i]; try done; cbn [step] in Es.
  - destruct (consumers s !! i) as [c|]; [|done]. cbn in Es. by destruct (at_ c); simplify_eq.
  - destruct (consumers s !! i) as [c|] eqn:Ec; [|done].
    destruct (at_ c) eqn:Ea; [by unfold try_pop in Es; rewrite Ea in Es|..];
      (destruct (consume_ok capacity capacity_pos s slots i c Hi Ec) as (s2 & slots2 & E2 & _ & Hsame); [by rewrite Ea|];
       rewrite Es in E2; by simplify_eq).
Qed.

(** A call of [try_push], with any steps of the consumers in between. *)
Lemma push_run n es : forall s s', reachable capacity junk n s -> Forall no_push es ->
  steps capacity junk s es = Ok (Some s') ->
  (produces es + push_steps (prod s') <= push_steps (prod s))%nat
  /\ pushed s' ++ pushing (prod s') = pushed s ++ pushing (prod s)
  /\ (prod s = PIdle -> prod s' = PIdle /\ push_ret s' = push_ret s)
  /\ (prod s' = PIdle -> prod s <> PIdle -> push_ret s' = Some true).
Proof.
  induction es as [|e es IH]; intros s s' Hr Hes E; cbn [steps] in E; [by simplify_eq|].
  inversion Hes as [|? ? He Hes']; subst.
  destruct (step capacity junk s e) as [[s1|]| |] eqn:Es; simplify_eq/=.
  pose proof (reach_step capacity junk n s e s1 Hr Es) as Hr1.
  destruct (IH s1 s' Hr1 Hes' E) as (H1 & H2 & H3 & H4).
  destruct (reachable_invariant capacity junk capacity_pos n s Hr) as [slots Hi].
  assert (e = Produce \/ e <> Produce) as [->|Hne] by (destruct e; auto; by right).
  - assert (prod s <> PIdle) as Hp by (intros Ep; cbn in Es; unfold try_push in Es; by rewrite Ep in Es).
    destruct (produce_ok capacity junk capacity_pos s slots Hi Hp) as (s2 & E2 & _ & Hlt & Hpu & Hret & _).
    cbn [step] in Es. rewrite Es in E2. simplify_eq. cbn [produces List.filter length] in *.
    unfold produces in *. cbn [List.filter length]. split_and!; [lia|by rewrite H2|done|].
    intros Hp' _. destruct (decide (push_steps (prod s2) = 0%nat)) as [E0|E0].
    + assert (prod s2 = PIdle) as Hp2 by (by destruct (prod s2)). destruct (H3 Hp2) as [_ ->]. by apply Hret.
    + apply H4; [done|]. intros Hp2. by rewrite Hp2 in E0.
  - destruct (other_step n s e s1 Hr He Hne Es) as (Ep & Epu & Eret).
    rewrite Ep, Epu, ?Eret in *. split_and!; try done.
    unfold produces in *. cbn [List.filter]. destruct e; try done; lia.
Qed.

(** C25: The producer never waits: a call of [try_push] by the only producer ends
    after at most 8 of its own steps, whatever the consumers do in between, and
    returns true with its item published; until then its next step is always
    possible. *)
Theorem push_wait_free (n : nat) (es es' : list (event T)) (s s' : state T) (x : T)
    (Hs : steps capacity junk (state0 capacity junk n) es = Ok (Some s)) (Hes : Forall no_push es')
    (Hs' : steps capacity junk s (Push x :: es') = Ok (Some s')) :
  (produces es' <= 8)%nat
  /\ (prod s' = PIdle -> push_ret s' = Some true /\ pushed s' = pushed s ++ [x])
  /\ (prod s' <> PIdle -> exists s1, step capacity junk s' Produce = Ok (Some s1)).
Proof.
  pose proof (steps_reachable capacity junk n es _ _ (reach_start _ _ n) Hs) as Hr.
  cbn [steps step] in Hs'. destruct (prod s) eqn:Ep; try done. cbn in Hs'.
  set (s0 := with_prod s (PLoadTail x)) in *.
  assert (reachable capacity junk n s0) as Hr0.
  { apply (reach_step _ _ n s (Push x)); [done|]. cbn [step]. by rewrite Ep. }
  destruct (push_run n es' s0 s' Hr0 Hes Hs') as (H1 & H2 & H3 & H4). cbn in H1.
  split_and!; [lia| |].
  - intros Hp. rewrite Hp in *. split; [by apply H4|]. cbn in H2. by rewrite app_nil_r in H2.
  - intros Hp. pose proof (steps_reachable capacity junk n es' _ _ Hr0 Hs') as Hr'.
    destruct (reachable_invariant capacity junk capacity_pos n s' Hr') as [slots Hi].
    destruct (produce_ok capacity junk capacity_pos s' slots Hi Hp) as (s1 & E1 & _). by exists s1.
Qed.

End Theorems.

(** ** Witnesses *)

(** Two consumers; the producer is about to store its fourth item, the second
    consumer has claimed one. *)
Definition busy : list (event Z) :=
  (Push 1 :: repeat Produce 5) ++ (Push 2 :: repeat Produce 5) ++ (Push 3 :: repeat Produce 8)
  ++ (Pop 0 :: repeat (Consume 0) 6) ++ (Pop 1 :: repeat (Consume 1) 4) ++ (Push 4 :: repeat Produce 2).

Definition steps_ok (es : list (event Z)) : bool :=
  match steps 2 0 (state0 2 0 2) es with Ok (Some _) => true | _ => false end.

Lemma steps_ok_spec es : steps_ok es = true -> exists s, steps 2 0 (state0 2 0 2) es = Ok (Some s).
Proof. unfold steps_ok. intros H. split_match H. by eexists. Qed.

Lemma queue_safe_witness :
  exists s, steps 2 0 (state0 2 0 2) busy = Ok (Some s)
  /\ (forall e, exists o, step 2 0 s e = Ok o)
  /\ forall item p pos i c, prod s = PWrite item p pos -> consumers s !! i = Some c -> at_ c <> CRead p pos.
Proof.
  destruct (steps_ok_spec busy) as [s Hs]; [vm_compute; reflexivity|]. exists s. split; [exact Hs|].
  exact (queue_safe 2 0 (Nat.lt_0_succ 1) 2 busy s Hs).
Defined.

Lemma queue_fifo_witness :
  exists s c, steps 2 0 (state0 2 0 2) busy = Ok (Some s) /\ consumers s !! 0%nat = Some c
    /\ received c = [1] /\ received c `sublist_of` pushed s ++ in_flight s.
Proof.
  do 2 eexists. split; [vm_compute; reflexivity|]. split; [reflexivity|]. split; [reflexivity|].
  apply (queue_fifo 2 0 (Nat.lt_0_succ 1) 2 busy _ 0); [vm_compute; reflexivity|reflexivity].
Defined.

Lemma queue_at_most_once_witness :
  exists s, steps 2 0 (state0 2 0 2) busy = Ok (Some s) /\ delivered s ⊆+ pushed s ++ in_flight s.
Proof.
  destruct (steps_ok_spec busy) as [s Hs]; [vm_compute; reflexivity|]. exists s. split; [exact Hs|].
  exact (queue_at_most_once 2 0 (Nat.lt_0_succ 1) 2 busy s Hs).
Defined.

(** A consumer is faster than the producer: the size is below 0. *)
Lemma queue_size_witness :
  exists s, steps 2 0 (state0 2 0 2) ((Push 1 :: repeat Produce 4) ++ (Pop 0 :: repeat (Consume 0) 6)) = Ok (Some s)
    /\ SpmcQueue.size s = 2 ^ 64 - 1
    /\ SpmcQueue.size s = uint64 (Z.of_nat (length (pushed s)) - Z.of_nat (length (delivered s))).
Proof.
  eexists. split; [vm_compute; reflexivity|]. split; [reflexivity|].
  apply (queue_size 2 0 (Nat.lt_0_succ 1) 2 ((Push 1 :: repeat Produce 4) ++ (Pop 0 :: repeat (Consume 0) 6))).
  vm_compute. reflexivity.
Defined.

Lemma push_wait_free_witness :
  exists s, steps 2 0 (state0 2 0 2) (Push 7 :: repeat Produce 5) = Ok (Some s)
    /\ push_ret s = Some true /\ pushed s = [7].
Proof.
  eexists. split; [vm_compute; reflexivity|].
  apply (push_wait_free 2 0 (Nat.lt_0_succ 1) 2 [] (repeat Produce 5) (state0 2 0 2) _ 7);
    [reflexivity|by repeat constructor|vm_compute; reflexivity|reflexivity].
Defined.
