(* ===== verification/SpmcAbstract.v ===== *)
(** What the queue of SpmcQueue is for its users: a first-in first-out queue as
    long as its operations do not overlap, with the list queue below as its
    specification; and the executions in which operations overlap and an item is
    lost, or the constructor runs a second time. *)

From S2P Require Import Prelude Result SpmcQueue SpmcProps.
From stdpp Require Import strings sorting.
#[local] Open Scope Z_scope.
#[local] Open Scope cint_scope.

Section Sequential.
Context {T : Type}.
Variable capacity : nat.
Variable junk : T.
Hypothesis capacity_pos : (0 < capacity)%nat.

(** ** The specification *)

Inductive op := OpPush (x : T) | OpPop (i : nat).

(** The items in the queue; per consumer what it got and its last result. *)
Record spec := Spec { items : list T; got : list (list T * option bool) }.

Definition spec_op (q : spec) (o : op) : spec :=
  match o with
  | OpPush x => Spec (items q ++ [x]) (got q)
  | OpPop i =>
    let old := default ([], None) (got q !! i) in
    match items q with
    | [] => Spec [] (<[i := (old.1, Some false)]> (got q))
    | x :: l => Spec l (<[i := (old.1 ++ [x], Some true)]> (got q))
    end
  end.

Definition spec0 (n : nat) : spec := Spec [] (repeat ([], None) n).

(** ** The operations without overlaps *)

(** 9 steps are enough for [push], 11 for [try_pop]. *)
Definition run_op (s : state T) (o : op) : result (option (state T)) :=
  match o with
  | OpPush x => push capacity junk 9 x s
  | OpPop i =>
    s' ← step capacity junk s (Pop i);
    match s' with Some s' => finish_pop 11 i s' | None => Ok None end
  end.

Fixpoint run_ops (s : state T) (os : list op) : result (option (state T)) :=
  match os with
  | [] => Ok (Some s)
  | o :: os => s' ← run_op s o; match s' with Some s' => run_ops s' os | None => Ok None end
  end.

(** ** States between the operations *)

(** The number of places that are read. *)
Definition taken (l : list (QueueSegment T)) (h : nat) : nat :=
  match l !! h with
  | Some g => h * capacity + read_pos g
  | None => 0
  end.

Definition remaining (l : list (QueueSegment T)) (h : nat) : list T := drop (taken l h) (contents l).

Definition queued (s : state T) : list T := remaining (allocated_segments s) (head_of s).

(** No segment but the head is partly read. *)
Record in_order (s : state T) : Prop := {
  O_idle : prod s = PIdle;
  O_cons : Forall (fun c => at_ c = CIdle) (consumers s);
  O_after : forall p g, allocated_segments s !! p = Some g -> (head_of s < p)%nat -> read_pos g = 0%nat
}.

(** The segments as the consumers see them do not change otherwise. *)
Definition reads_kept (s s' : state T) : Prop :=
  forall p g', allocated_segments s' !! p = Some g' ->
    match allocated_segments s !! p with
    | Some g => read_pos g' = read_pos g
    | None => read_pos g' = 0%nat
    end.

Lemma reads_kept_same s s' : allocated_segments s' = allocated_segments s -> reads_kept s s'.
Proof. intros E p g Eg. rewrite E in Eg. by rewrite Eg. Qed.

Lemma reads_kept_trans s s1 s2 :
  (length (allocated_segments s) <= length (allocated_segments s1))%nat ->
  (length (allocated_segments s1) <= length (allocated_segments s2))%nat ->
  reads_kept s s1 -> reads_kept s1 s2 -> reads_kept s s2.
Proof.
  intros Hl1 Hl2 H1 H2 p g Eg. specialize (H2 p g Eg).
  destruct (allocated_segments s1 !! p) as [g1|] eqn:E1.
  - specialize (H1 p g1 E1). destruct (allocated_segments s !! p); congruence.
  - apply lookup_ge_None in E1. by rewrite lookup_ge_None_2 by lia.
Qed.

Lemma reads_kept_update s s' p g g' : allocated_segments s !! p = Some g ->
  allocated_segments s' = <[p := g']> (allocated_segments s) -> read_pos g' = read_pos g -> reads_kept s s'.
Proof.
  intros Eg E Hr q h. rewrite E, list_lookup_insert_Some. intros [(<- & <- & _)|[Hne Eh]]; [by rewrite Eg|by rewrite Eh].
Qed.

(** A step of the producer. *)
Lemma produce_keeps s s' : try_push capacity junk s = Ok (Some s') ->
  reads_kept s s' /\ (length (allocated_segments s) <= length (allocated_segments s'))%nat.
Proof.
  intros E. unfold try_push, segment in E. destruct (prod s) as [|x|x t|x t|x new|x new|x p pos|x p pos|x]; try done.
  - destruct (tail_segment s); simplify_eq; (split; [by apply reads_kept_same|done]).
  - destruct (allocated_segments s !! t); simplify_eq/=. split; [by apply reads_kept_same|done].
  - cbn in E. destruct ((allocated_segments s ++ _) !! t) as [g|] eqn:Eg; simplify_eq/=.
    assert (reads_kept s (with_segments s (allocated_segments s ++ [new_segment capacity junk]))) as Hk.
    { intros p g' Hp. fields. apply lookup_app_Some in Hp as [Hp|[Hp Eh]]; [by rewrite Hp|].
      rewrite lookup_ge_None_2 by done. by apply list_lookup_singleton_Some in Eh as [_ <-]. }
    destruct (next_segment g); simplify_eq/=.
    + split; [exact Hk|rewrite length_app; lia].
    + split; [|rewrite length_insert, length_app; lia].
      eapply reads_kept_trans; [| |exact Hk|by eapply (reads_kept_update _ _ t g)];
        fields; rewrite ?length_insert, ?length_app; lia.
  - simplify_eq. split; [by apply reads_kept_same|done].
  - simplify_eq. split; [by apply reads_kept_same|done].
  - destruct (allocated_segments s !! p) as [g|] eqn:Eg; simplify_eq/=. unfold set_data, rset in E.
    destruct (aset _ _ _); simplify_eq/=. split; [by eapply reads_kept_update|by rewrite length_insert].
  - destruct (allocated_segments s !! p) as [g|] eqn:Eg; simplify_eq/=.
    split; [by eapply reads_kept_update|by rewrite length_insert].
  - simplify_eq. split; [by apply reads_kept_same|done].
Qed.

(** ** A whole call of [push] *)

Lemma push_loop_ok n fuel x : forall s, reachable capacity junk n s -> prod s <> PIdle ->
  (push_steps (prod s) < fuel)%nat ->
  exists s', push_loop capacity junk fuel x s = Ok (Some s') /\ reachable capacity junk n s'
    /\ prod s' = PIdle /\ pushed s' = pushed s ++ pushing (prod s) /\ consumers s' = consumers s
    /\ head_segment s' = head_segment s /\ reads_kept s s'
    /\ (length (allocated_segments s) <= length (allocated_segments s'))%nat.
Proof.
  induction fuel as [|fuel IH]; intros s Hr Hp Hf; [lia|]. cbn [push_loop].
  destruct (reachable_invariant capacity junk capacity_pos n s Hr) as [slots Hi].
  destruct (produce_ok capacity junk capacity_pos s slots Hi Hp) as (s1 & E & _ & Hlt & Hpu & Hret & Hc & Hh).
  destruct (produce_keeps s s1 E) as [Hk Hl].
  assert (reachable capacity junk n s1) as Hr1 by (by apply (reach_step _ _ n s Produce)).
  assert (exists s', push_loop capacity junk fuel x s1 = Ok (Some s') /\ reachable capacity junk n s'
    /\ prod s' = PIdle /\ pushed s' = pushed s1 ++ pushing (prod s1) /\ consumers s' = consumers s1
    /\ head_segment s' = head_segment s1 /\ reads_kept s1 s'
    /\ (length (allocated_segments s1) <= length (allocated_segments s'))%nat)
    as (s' & E' & Hr' & Hp' & Hpu' & Hc' & Hh' & Hk' & Hl').
  { destruct (decide (push_steps (prod s1) = 0%nat)) as [E0|E0].
    - assert (prod s1 = PIdle) as Hp1 by (by destruct (prod s1)).
      exists s1. destruct fuel as [|fuel]; [lia|]. cbn [push_loop]. rewrite Hp1, (Hret Hp1).
      split_and!; try done; [by rewrite app_nil_r|by apply reads_kept_same].
    - apply IH; [done| |lia]. intros Hp1. by rewrite Hp1 in E0. }
  exists s'. destruct (prod s) eqn:Ep; [done|..];
    rewrite E; cbn [mbind result_bind]; (split_and!; try done; [by rewrite Hpu', Hpu|congruence|congruence| |lia]);
    by eapply reads_kept_trans.
Qed.

Lemma taken_length s slots : invariant capacity s slots -> (taken (allocated_segments s) (head_of s) <= length (contents (allocated_segments s)))%nat.
Proof.
  intros Hi. destruct (I_head _ s slots Hi) as (h & Eh & Hh). pose proof (I_segments _ s slots Hi) as Hl.
  unfold taken, head_of. rewrite Eh. cbn [default from_option id].
  destruct (lookup_lt_is_Some_2 (allocated_segments s) h) as [g Eg]; [lia|]. rewrite Eg.
  rewrite (contents_split _ h g Eg), !length_app, (contents_take capacity capacity_pos _ h Hl Hh).
  destruct (Hl h g Eg) as [H1 H2 H3 H4 H5]. unfold published. rewrite length_take. lia.
Qed.

Lemma run_push n s x : reachable capacity junk n s -> in_order s ->
  exists s', run_op s (OpPush x) = Ok (Some s') /\ reachable capacity junk n s' /\ in_order s'
    /\ queued s' = queued s ++ [x] /\ consumers s' = consumers s
    /\ total_size s' = uint64 (total_size s + 1).
Proof.
  intros Hr [O1 O2 O3]. cbn [run_op]. unfold push. set (s0 := with_prod s (PLoadTail x)).
  assert (reachable capacity junk n s0) as Hr0.
  { apply (reach_step _ _ n s (Push x)); [done|]. cbn [step]. by rewrite O1. }
  destruct (push_loop_ok n 9 x s0 Hr0) as (s' & E & Hr' & Hp' & Hpu & Hc & Hh & Hk & Hl); [done|cbn; lia|].
  exists s'. fold s0. split; [done|]. split; [done|].
  destruct (reachable_invariant capacity junk capacity_pos n s Hr) as [slots Hi].
  destruct (reachable_invariant capacity junk capacity_pos n s' Hr') as [slots' Hi'].
  pose proof (I_contents _ s slots Hi) as Hcs. pose proof (I_contents _ s' slots' Hi') as Hcs'.
  unfold in_flight in Hcs, Hcs'. rewrite O1, app_nil_r in Hcs. rewrite Hp', app_nil_r, Hpu in Hcs'.
  assert (head_of s' = head_of s) as Ehd by (unfold head_of; by rewrite Hh).
  subst s0. fields.
  assert (taken (allocated_segments s') (head_of s') = taken (allocated_segments s) (head_of s)) as Et.
  { unfold taken. rewrite Ehd. destruct (I_head _ s slots Hi) as (h & Eh & Hlt).
    unfold head_of. rewrite Eh. cbn [default from_option id]. cbn in Hl.
    destruct (lookup_lt_is_Some_2 (allocated_segments s) h Hlt) as [g Eg].
    destruct (lookup_lt_is_Some_2 (allocated_segments s') h) as [g' Eg']; [lia|].
    rewrite Eg, Eg'. specialize (Hk h g' Eg'). cbn in Hk. rewrite Eg in Hk. by rewrite Hk. }
  split_and!.
  - constructor; [done|by rewrite Hc|]. intros p g' Eg' Hlt. specialize (Hk p g' Eg'). cbn in Hk.
    destruct (allocated_segments s !! p) as [g|] eqn:Eg; [|done]. rewrite Hk. apply (O3 p); [done|by rewrite <- Ehd].
  - unfold queued, remaining. rewrite Et, Hcs'. cbn. rewrite <- Hcs. apply drop_app_le. by eapply taken_length.
  - done.
  - rewrite (I_size _ s' slots' Hi'), (I_size _ s slots Hi), wrap_u_add_idemp. f_equal.
    rewrite Hpu. cbn. unfold delivered. rewrite Hc, length_app. simpl. lia.
Qed.

(** ** A whole call of [try_pop] *)

(** Only the consumer [i] and the head differ. *)
Record at_pop (s s' : state T) (i : nat) (c : consumer T) (l : list (QueueSegment T)) (h : option nat) (z : Z) : Prop := {
  A_consumers : consumers s' = <[i := c]> (consumers s);
  A_segments : allocated_segments s' = l;
  A_head : head_segment s' = h;
  A_size : total_size s' = z;
  A_producer : same_producer s s'
}.

Lemma at_pop_lookup s s' i c l h z c0 : consumers s !! i = Some c0 -> at_pop s s' i c l h z ->
  consumers s' !! i = Some c.
Proof. intros Hc [-> _ _ _ _]. apply list_lookup_insert_eq. by eapply lookup_lt_Some. Qed.

Lemma at_pop_trans s s1 s2 i c1 l1 h1 z1 c2 l2 h2 z2 :
  at_pop s s1 i c1 l1 h1 z1 -> at_pop s1 s2 i c2 l2 h2 z2 -> at_pop s s2 i c2 l2 h2 z2.
Proof.
  intros [E1 _ _ _ (P1 & P2 & P3)] [E2 H3 H4 H5 (Q1 & Q2 & Q3)]. constructor; try done.
  - by rewrite E2, E1, list_insert_insert_eq.
  - unfold same_producer. split_and!; congruence.
Qed.

(** The place a consumer reaches: its own state and the rest of the queue. *)
Definition finishes (fuel : nat) (i : nat) (s : state T) (c : consumer T)
    (l : list (QueueSegment T)) (h : option nat) (z : Z) : Prop :=
  exists s', finish_pop fuel i s = Ok (Some s') /\ at_pop s s' i c l h z.

(** One step of the consumer, then the rest. *)
Lemma finish_step fuel i s c s1 c1 l1 h1 z1 c' l' h' z' : consumers s !! i = Some c -> at_ c <> CIdle ->
  try_pop s i c = Ok (Some s1) -> at_pop s s1 i c1 l1 h1 z1 ->
  finishes fuel i s1 c' l' h' z' -> finishes (S fuel) i s c' l' h' z'.
Proof.
  intros Hc Hne E H1 (s' & E' & H2). exists s'. split; [|by eapply at_pop_trans].
  cbn [finish_pop]. rewrite Hc. destruct (at_ c); try done; by rewrite E.
Qed.

Lemma finish_idle fuel i s c : consumers s !! i = Some c -> at_ c = CIdle ->
  finishes (S fuel) i s c (allocated_segments s) (head_segment s) (total_size s).
Proof.
  intros Hc E. exists s. cbn [finish_pop]. rewrite Hc, E. split; [done|].
  constructor; try done. by rewrite list_insert_id.
Qed.

Lemma at_pop_move s i c p : at_pop s (move_consumer s i c p) i (Consumer p (received c) (popped c))
  (allocated_segments s) (head_segment s) (total_size s).
Proof. by constructor. Qed.

(** A step that only moves the consumer. *)
Lemma finish_move fuel i s p r q p' c' l' h' z' : consumers s !! i = Some (Consumer p r q) -> p <> CIdle ->
  try_pop s i (Consumer p r q) = Ok (Some (move_consumer s i (Consumer p r q) p')) ->
  (forall s1, at_pop s s1 i (Consumer p' r q) (allocated_segments s) (head_segment s) (total_size s) ->
     finishes fuel i s1 c' l' h' z') ->
  finishes (S fuel) i s c' l' h' z'.
Proof.
  intros Hc Hne E H. eapply finish_step; [done|done|done|apply at_pop_move|]. apply H, at_pop_move.
Qed.

(** The segment has an item. *)
Lemma finish_hit fuel i s h g x r q : consumers s !! i = Some (Consumer (CLoadRead h) r q) ->
  allocated_segments s !! h = Some g -> (read_pos g < write_pos g)%nat -> data g !! read_pos g = Some x ->
  finishes (6 + fuel) i s (Consumer CIdle (r ++ [x]) (Some true))
    (<[h := Segment (write_pos g) (S (read_pos g)) (next_segment g) (data g)]> (allocated_segments s))
    (head_segment s) (uint64 (total_size s - 1)).
Proof.
  intros Hc Eg Hlt Ex. pose proof (lookup_lt_Some _ _ _ Eg) as Hh.
  eapply finish_move; [done|done|unfold try_pop, segment; cbn [at_]; rewrite Eg; done|].
  intros s1 H1. pose proof (at_pop_lookup _ _ _ _ _ _ _ _ Hc H1) as Hc1. destruct H1 as [_ El1 Eh1 Ez1 _].
  eapply finish_move; [done|done|unfold try_pop, segment; cbn [at_]; rewrite El1, Eg; cbn [lift mbind result_bind];
    rewrite decide_False by lia; done|].
  intros s2 H2. pose proof (at_pop_lookup _ _ _ _ _ _ _ _ Hc1 H2) as Hc2. destruct H2 as [_ El2 Eh2 Ez2 _].
  rewrite El1 in El2. rewrite Eh1 in Eh2. rewrite Ez1 in Ez2.
  eapply finish_step; [done|done|unfold try_pop, segment; cbn [at_]; rewrite El2, Eg; cbn [lift mbind result_bind];
    rewrite decide_True by done; done|by constructor|].
  set (g' := Segment _ _ _ _). set (s3 := move_consumer _ _ _ _).
  assert (consumers s3 !! i = Some (Consumer (CRead h (read_pos g)) r q)) as Hc3.
  { subst s3. fields. apply list_lookup_insert_eq. by eapply lookup_lt_Some. }
  assert (allocated_segments s3 = <[h := g']> (allocated_segments s)) as El3 by (subst s3; fields; by rewrite El2).
  eapply finish_move; [done|done|unfold try_pop, segment; cbn [at_]; rewrite El3, list_lookup_insert_eq by done;
    unfold rget; cbn [lift mbind result_bind g' data]; rewrite aget_nat, Ex; done|].
  intros s4 H4. pose proof (at_pop_lookup _ _ _ _ _ _ _ _ Hc3 H4) as Hc4. destruct H4 as [_ El4 Eh4 Ez4 _].
  eapply finish_step; [done|done|unfold try_pop; cbn [at_]; done|by constructor|].
  set (s5 := return_pop _ _ _ _).
  assert (consumers s5 !! i = Some (Consumer CIdle (r ++ [x]) (Some true))) as Hc5.
  { subst s5. fields. apply list_lookup_insert_eq. by eapply lookup_lt_Some. }
  pose proof (finish_idle fuel i s5 _ Hc5 eq_refl) as H5.
  subst s5. fields. revert H5. fields. rewrite El4, Eh4, Ez4, El3. subst s3. fields. by rewrite Eh2, Ez2.
Qed.

(** The segment has none: the consumer looks for a next segment. *)
Lemma finish_look fuel i s h g r q c' l' h' z' : consumers s !! i = Some (Consumer (CLoadRead h) r q) ->
  allocated_segments s !! h = Some g -> (write_pos g <= read_pos g)%nat ->
  (forall s1, at_pop s s1 i (Consumer (CLoadNext h) r q) (allocated_segments s) (head_segment s) (total_size s) ->
     finishes fuel i s1 c' l' h' z') ->
  finishes (2 + fuel) i s c' l' h' z'.
Proof.
  intros Hc Eg Hle H.
  eapply finish_move; [done|done|unfold try_pop, segment; cbn [at_]; rewrite Eg; done|].
  intros s1 H1. pose proof (at_pop_lookup _ _ _ _ _ _ _ _ Hc H1) as Hc1. pose proof H1 as [_ El1 Eh1 Ez1 _].
  eapply finish_move; [done|done|unfold try_pop, segment; cbn [at_]; rewrite El1, Eg; cbn [lift mbind result_bind];
    rewrite decide_True by lia; done|].
  intros s2 H2. rewrite El1, Eh1, Ez1 in H2. apply H. by eapply at_pop_trans.
Qed.

Lemma finish_miss fuel i s h g r q : consumers s !! i = Some (Consumer (CLoadRead h) r q) ->
  allocated_segments s !! h = Some g -> (write_pos g <= read_pos g)%nat -> next_segment g = None ->
  finishes (4 + fuel) i s (Consumer CIdle r (Some false)) (allocated_segments s) (head_segment s) (total_size s).
Proof.
  intros Hc Eg Hle En. apply (finish_look _ i s h g r q _ _ _ _ Hc Eg Hle).
  intros s1 H1. pose proof (at_pop_lookup _ _ _ _ _ _ _ _ Hc H1) as Hc1. destruct H1 as [_ El1 Eh1 Ez1 _].
  eapply finish_step; [done|done|unfold try_pop, segment; cbn [at_]; rewrite El1, Eg; cbn [lift mbind result_bind];
    rewrite En; done|by constructor|].
  set (s2 := return_pop _ _ _ _).
  assert (consumers s2 !! i = Some (Consumer CIdle r (Some false))) as Hc2.
  { subst s2. fields. cbn [option_list]. rewrite app_nil_r. apply list_lookup_insert_eq. by eapply lookup_lt_Some. }
  pose proof (finish_idle fuel i s2 _ Hc2 eq_refl) as H2. revert H2. subst s2. fields. by rewrite El1, Eh1, Ez1.
Qed.

(** A next segment: the head advances. *)
Lemma finish_advance fuel i s h g n r q c' l' h' z' : consumers s !! i = Some (Consumer (CLoadRead h) r q) ->
  allocated_segments s !! h = Some g -> (write_pos g <= read_pos g)%nat -> next_segment g = Some n ->
  head_segment s = Some h ->
  (forall s1, at_pop s s1 i (Consumer (CLoadRead n) r q) (allocated_segments s) (Some n) (total_size s) ->
     finishes fuel i s1 c' l' h' z') ->
  finishes (4 + fuel) i s c' l' h' z'.
Proof.
  intros Hc Eg Hle En Eh H. apply (finish_look _ i s h g r q _ _ _ _ Hc Eg Hle).
  intros s1 H1. pose proof (at_pop_lookup _ _ _ _ _ _ _ _ Hc H1) as Hc1. pose proof H1 as [_ El1 Eh1 Ez1 _].
  eapply finish_move; [done|done|unfold try_pop, segment; cbn [at_]; rewrite El1, Eg; cbn [lift mbind result_bind];
    rewrite En; done|].
  intros s2 H2. pose proof (at_pop_lookup _ _ _ _ _ _ _ _ Hc1 H2) as Hc2. pose proof H2 as [_ El2 Eh2 Ez2 _].
  eapply (finish_step _ _ _ _ (move_consumer (with_head s2 (Some n)) i (Consumer (CAdvance h n) r q) (CLoadRead n)));
    [done|done|unfold try_pop; cbn [at_]; rewrite decide_True by congruence; done|by constructor|].
  apply H. rewrite El1 in El2. rewrite Ez1 in Ez2. eapply at_pop_trans; [exact H1|].
  eapply at_pop_trans; [exact H2|]. constructor; fields; done.
Qed.

Lemma finish_pop_reachable n i fuel : forall s s', reachable capacity junk n s ->
  finish_pop fuel i s = Ok (Some s') -> reachable capacity junk n s'.
Proof.
  induction fuel as [|fuel IH]; intros s s' Hr E; [done|]. cbn [finish_pop] in E.
  destruct (consumers s !! i) as [c|] eqn:Ec; [|done].
  assert (forall s1, try_pop s i c = Ok (Some s1) -> reachable capacity junk n s1) as Hs.
  { intros s1 E1. apply (reach_step _ _ n s (Consume i)); [done|]. cbn [step]. by rewrite Ec. }
  destruct (at_ c); [by simplify_eq|..];
    (destruct (try_pop s i c) as [[s1|]| |]; try done; cbn in E; eapply IH; [by apply Hs|done]).
Qed.

(** What a call of [try_pop] takes off the queue. *)
Record pops (l : list (QueueSegment T)) (h : nat) (l' : list (QueueSegment T)) (h' : nat) (item : option T) : Prop := {
  P_item : item = hd_error (remaining l h);
  P_rest : remaining l' h' = tl (remaining l h);
  P_after : forall p g, l' !! p = Some g -> (h' < p)%nat -> read_pos g = 0%nat
}.

Definition size_after (item : option T) (z : Z) : Z :=
  match item with Some _ => uint64 (z - 1) | None => z end.

Lemma remaining_at l h g x : segments_ok capacity l -> l !! h = Some g -> (read_pos g < write_pos g)%nat ->
  data g !! read_pos g = Some x -> remaining l h = x :: drop (S (h * capacity + read_pos g)) (contents l).
Proof.
  intros Hl Eg Hlt Ex. unfold remaining, taken. rewrite Eg. apply drop_S.
  rewrite <- Ex. by apply (contents_lookup capacity capacity_pos l h g).
Qed.

Lemma remaining_end l h g : segments_ok capacity l -> l !! h = Some g -> read_pos g = write_pos g ->
  S h = length l -> remaining l h = [].
Proof.
  intros Hl Eg Hr Hlast. unfold remaining, taken. rewrite Eg. apply drop_ge.
  pose proof (lookup_lt_Some _ _ _ Eg) as Hlt.
  rewrite (contents_split _ h g Eg), (drop_ge l), !length_app, (contents_take capacity capacity_pos _ h Hl Hlt) by lia.
  destruct (Hl h g Eg) as [H1 H2 H3 H4 H5]. unfold published. rewrite length_take. cbn. lia.
Qed.

(** The item and the segments after a call that ends at the segment [h]. *)
Definition pop_at (l : list (QueueSegment T)) (h : nat) (g : QueueSegment T) : option T * list (QueueSegment T) :=
  if decide (read_pos g < write_pos g)%nat then
    (data g !! read_pos g,
     <[h := Segment (write_pos g) (S (read_pos g)) (next_segment g) (data g)]> l)
  else (None, l).

(** At a segment that has an item or is the last one. *)
Lemma pop_here fuel i s l h g r q : allocated_segments s = l ->
  segments_ok capacity l -> l !! h = Some g -> consumers s !! i = Some (Consumer (CLoadRead h) r q) ->
  (read_pos g < write_pos g)%nat \/ S h = length l ->
  (forall p g, l !! p = Some g -> (h < p)%nat -> read_pos g = 0%nat) ->
  let '(item, l') := pop_at l h g in
  finishes (6 + fuel) i s (Consumer CIdle (r ++ option_list item) (Some (bool_decide (is_Some item))))
    l' (head_segment s) (size_after item (total_size s)) /\ pops l h l' h item.
Proof.
  intros <- Hl Eg Hc Hor Hafter. destruct (Hl h g Eg) as [H1 H2 H3 H4 H5].
  pose proof (lookup_lt_Some _ _ _ Eg) as Hh. unfold pop_at.
  destruct (decide (read_pos g < write_pos g)%nat) as [Hlt|Hge].
  - destruct (lookup_lt_is_Some_2 (data g) (read_pos g)) as [x Ex]; [lia|]. rewrite Ex.
    split; [by apply (finish_hit _ i s h g x r q)|]. pose proof (remaining_at _ h g x Hl Eg Hlt Ex) as Erem.
    set (g' := Segment _ _ _ _). constructor; [by rewrite Erem| |].
    + rewrite Erem. cbn [tl]. unfold remaining, taken.
      rewrite list_lookup_insert_eq by done. rewrite (contents_update _ h g g') by done.
      cbn [read_pos g']. f_equal. lia.
    + intros p g1 Hp Hlt1. rewrite list_lookup_insert_ne in Hp by lia. by apply (Hafter p).
  - assert (S h = length (allocated_segments s)) as Hlast by (destruct Hor; [lia|done]).
    assert (read_pos g = write_pos g) as Hrw by lia.
    assert (next_segment g = None) as En by (by rewrite H4, decide_True).
    split.
    + cbn [option_list]. rewrite app_nil_r. change (6 + fuel)%nat with (4 + (2 + fuel))%nat.
      apply (finish_miss _ _ _ h g r q); try done. lia.
    + pose proof (remaining_end _ h g Hl Eg Hrw Hlast) as Erem. constructor; rewrite ?Erem; done.
Qed.

(** From the head, in order. *)
Lemma pop_head i s h g r q :
  let l := allocated_segments s in
  segments_ok capacity l -> head_segment s = Some h -> l !! h = Some g ->
  consumers s !! i = Some (Consumer (CLoadRead h) r q) ->
  (forall p g, l !! p = Some g -> (h < p)%nat -> read_pos g = 0%nat) ->
  exists l' h' item, finishes 10 i s (Consumer CIdle (r ++ option_list item) (Some (bool_decide (is_Some item))))
      l' (Some h') (size_after item (total_size s)) /\ pops l h l' h' item.
Proof.
  intros l Hl Eh Eg Hc Hafter. destruct (Hl h g Eg) as [H1 H2 H3 H4 H5].
  pose proof (lookup_lt_Some _ _ _ Eg) as Hh.
  destruct (decide ((read_pos g < write_pos g)%nat \/ S h = length l)) as [Hor|Hno].
  { pose proof (pop_here 4 i s l h g r q eq_refl Hl Eg Hc Hor Hafter) as H.
    destruct (pop_at l h g) as [item l']. exists l', h, item. by rewrite Eh in H. }
  apply Decidable.not_or in Hno as [Hge Hnl].
  assert (next_segment g = Some (S h)) as En by (by rewrite H4, decide_False).
  destruct (lookup_lt_is_Some_2 l (S h)) as [g1 Eg1]; [lia|].
  destruct (Hl (S h) g1 Eg1) as [J1 J2 J3 J4 J5].
  assert (read_pos g1 = 0%nat) as Hr1 by (apply (Hafter (S h)); [done|lia]).
  assert ((read_pos g1 < write_pos g1)%nat \/ S (S h) = length l) as Hor1.
  { destruct (decide (S (S h) = length l)); [by right|left]. pose proof (lookup_lt_Some _ _ _ Eg1). lia. }
  assert (remaining l (S h) = remaining l h) as Erem.
  { unfold remaining, taken. rewrite Eg, Eg1, Hr1. f_equal. lia. }
  destruct (pop_at l (S h) g1) as [item l'] eqn:Epop. exists l', (S h), item.
  assert (forall s1, at_pop s s1 i (Consumer (CLoadRead (S h)) r q) l (Some (S h)) (total_size s) ->
    finishes 6 i s1 (Consumer CIdle (r ++ option_list item) (Some (bool_decide (is_Some item))))
      l' (Some (S h)) (size_after item (total_size s)) /\ pops l (S h) l' (S h) item) as Hrest.
  { intros s1 H. pose proof (at_pop_lookup _ _ _ _ _ _ _ _ Hc H) as Hc1. destruct H as [_ El1 Eh1 Ez1 _].
    pose proof (pop_here 0 i s1 l (S h) g1 r q El1 Hl Eg1 Hc1 Hor1) as Hp.
    rewrite Epop, Eh1, Ez1 in Hp. apply Hp. intros p g2 Eg2 Hlt. apply (Hafter p); [done|lia]. }
  split.
  - apply (finish_advance 6 i s h g (S h) r q); try done; [lia|]. intros s1 H. by apply Hrest.
  - destruct (Hrest (with_head (move_consumer s i (Consumer (CLoadRead h) r q) (CLoadRead (S h))) (Some (S h)))) as [_ [P1 P2 P3]];
      [by constructor|]. rewrite Erem in *. by constructor.
Qed.

Lemma finish_pop_running fuel i (s : state T) c s1 : consumers s !! i = Some c -> at_ c <> CIdle ->
  try_pop s i c = Ok (Some s1) -> finish_pop (S fuel) i s = finish_pop fuel i s1.
Proof. intros Hc Hne E. cbn [finish_pop]. rewrite Hc. destruct (at_ c); try done; by rewrite E. Qed.

#[local] Opaque finish_pop.

Lemma run_op_pop s i s0 : step capacity junk s (Pop i) = Ok (Some s0) -> run_op s (OpPop i) = finish_pop 11 i s0.
Proof. unfold run_op. by intros ->. Qed.

Lemma run_pop n s i c : reachable capacity junk n s -> in_order s -> consumers s !! i = Some c ->
  exists s', run_op s (OpPop i) = Ok (Some s') /\ reachable capacity junk n s' /\ in_order s'
    /\ let item := hd_error (queued s) in
       queued s' = tl (queued s) /\ total_size s' = size_after item (total_size s)
       /\ consumers s' = <[i := Consumer CIdle (received c ++ option_list item) (Some (bool_decide (is_Some item)))]> (consumers s).
Proof.
  intros Hr [O1 O2 O3] Hc. destruct (reachable_invariant capacity junk capacity_pos n s Hr) as [slots Hi].
  destruct (I_head _ s slots Hi) as (h & Eh & Hh). pose proof (I_segments _ s slots Hi) as Hl.
  assert (head_of s = h) as Ehd by (unfold head_of; by rewrite Eh).
  destruct (lookup_lt_is_Some_2 _ h Hh) as [g Eg].
  pose proof (Forall_lookup_1 _ _ _ _ O2 Hc) as Hidle. cbn in Hidle. destruct c as [p r q]. cbn in Hidle. subst p.
  set (s0 := move_consumer s i (Consumer CIdle r q) CLoadHead).
  set (s1 := move_consumer s i (Consumer CIdle r q) (CLoadRead h)).
  assert (consumers s1 !! i = Some (Consumer (CLoadRead h) r q)) as Hc1
    by (apply list_lookup_insert_eq; by eapply lookup_lt_Some).
  rewrite Ehd in O3.
  destruct (pop_head i s1 h g r q Hl Eh Eg Hc1 O3) as (l' & h' & item & (s' & E & H) & [P1 P2 P3]).
  assert (step capacity junk s (Pop i) = Ok (Some s0)) as Estep by (cbn [step]; by rewrite Hc).
  assert (run_op s (OpPop i) = Ok (Some s')) as Erun.
  { rewrite (run_op_pop s i s0 Estep), <- E. subst s0 s1.
    rewrite (finish_pop_running 10 i _ (Consumer CLoadHead r q) (move_consumer s i (Consumer CIdle r q) (CLoadRead h)));
      [done| |done|].
    - apply list_lookup_insert_eq. by eapply lookup_lt_Some.
    - unfold try_pop. fields. rewrite Eh. unfold move_consumer. fields. by rewrite list_insert_insert_eq. }
  destruct H as [A1 A2 A3 A4 (A5 & A6 & A7)]. subst s1. fields. cbn in A4, A5, A6, A7.
  revert A1. fields. rewrite list_insert_insert_eq. intros A1.
  assert (queued s = remaining (allocated_segments s) h) as Eq by (unfold queued; by rewrite Ehd).
  cbn in P1, P2. rewrite <- Eq in P1, P2.
  assert (head_of s' = h') as Ehd' by (unfold head_of; by rewrite A3).
  exists s'. split; [done|]. split.
  { apply (finish_pop_reachable n i 11 s0); [by apply (reach_step _ _ n s (Pop i))|].
    by rewrite <- (run_op_pop s i s0 Estep). }
  split; [|split; [|split]].
  - constructor; [by rewrite A5| |].
    + rewrite A1. by apply Forall_insert.
    + rewrite A2, Ehd'. exact P3.
  - unfold queued at 1. rewrite A2, Ehd'. exact P2.
  - by rewrite <- P1.
  - by rewrite <- P1.
Qed.

(** ** The refinement *)

Definition valid_op (n : nat) (o : op) : Prop := match o with OpPush _ => True | OpPop i => (i < n)%nat end.

(** The state implements the list queue. *)
Record implements (n : nat) (s : state T) (q : spec) : Prop := {
  M_reachable : reachable capacity junk n s;
  M_order : in_order s;
  M_items : queued s = items q;
  M_got : map (fun c => (received c, popped c)) (consumers s) = got q;
  M_size : total_size s = uint64 (Z.of_nat (length (items q)))
}.

Lemma implements_start n : implements n (state0 capacity junk n) (spec0 n).
Proof.
  constructor; [apply reach_start| |done| |done].
  - constructor; [done| |].
    + cbn. apply List.Forall_forall. intros c Hc. by apply List.repeat_spec in Hc as ->.
    + intros [|p] g Eg _; by simplify_eq/=.
  - cbn. by rewrite map_repeat.
Qed.

Lemma implements_length n s q : implements n s q -> length (got q) = length (consumers s).
Proof. intros [_ _ _ <- _]. by rewrite length_map. Qed.

Lemma implements_op n s q o : implements n s q -> valid_op (length (got q)) o ->
  exists s', run_op s o = Ok (Some s') /\ implements n s' (spec_op q o).
Proof.
  intros HI Hv. pose proof (implements_length n s q HI) as Hlen. destruct HI as [Hr Ho Hit Hg Hs].
  destruct o as [x|i].
  - destruct (run_push n s x Hr Ho) as (s' & E & Hr' & Ho' & Hq & Hc & Hz).
    exists s'. split; [done|]. constructor; cbn [spec_op items got]; try done.
    + by rewrite Hq, Hit.
    + by rewrite Hc.
    + rewrite Hz, Hs, wrap_u_add_idemp, length_app. f_equal. cbn. lia.
  - cbn in Hv. destruct (lookup_lt_is_Some_2 (consumers s) i) as [c Hc]; [lia|].
    destruct (run_pop n s i c Hr Ho Hc) as (s' & E & Hr' & Ho' & Hq & Hz & Hcs).
    exists s'. split; [done|].
    assert (got q !! i = Some (received c, popped c)) as Hgi by (by rewrite <- Hg, list_lookup_fmap, Hc).
    assert (forall it b, map (fun c => (received c, popped c)) (<[i := Consumer CIdle it b]> (consumers s))
      = <[i := (it, b)]> (got q)) as Hmap.
    { intros it b. rewrite <- Hg. change (map ?f ?l) with (f <$> l). by rewrite list_fmap_insert. }
    rewrite Hit in Hq, Hz, Hcs. cbn [spec_op]. rewrite Hgi. cbn [default from_option id fst].
    destruct (items q) as [|x l] eqn:Eit; cbn [hd_error tl size_after option_list] in *;
      constructor; cbn [items got]; try done.
    + rewrite Hcs, app_nil_r. apply Hmap.
    + by rewrite Hz, Hs.
    + rewrite Hcs. apply Hmap.
    + rewrite Hz, Hs. change (uint64 ?a - 1) with (uint64 a + - (1)). rewrite wrap_u_add_idemp.
      f_equal. cbn. lia.
Qed.

Lemma implements_ops n os : forall s q, implements n s q -> Forall (valid_op (length (got q))) os ->
  exists s', run_ops s os = Ok (Some s') /\ implements n s' (foldl spec_op q os).
Proof.
  induction os as [|o os IH]; intros s q HI Hv; [by exists s|]. inversion Hv as [|? ? Ho Hos]; subst.
  destruct (implements_op n s q o HI Ho) as (s1 & E & HI1). cbn [run_ops foldl]. rewrite E. cbn [mbind result_bind].
  apply IH; [done|]. pose proof (implements_length _ _ _ HI1) as Hl.
  assert (length (got (spec_op q o)) = length (got q)) as ->; [|done].
  destruct o; cbn; [done|]. destruct (items q); cbn; by rewrite length_insert.
Qed.

(** C11: As long as its operations do not overlap the queue is a first-in
    first-out queue: for every sequence of calls of [push] and [try_pop] each
    call ends within its steps, each [try_pop] delivers the oldest item or
    returns false because there is none, and the size is the number of items. *)
Theorem sequential_queue (n : nat) (os : list op) (Hos : Forall (valid_op n) os) :
  exists s, run_ops (state0 capacity junk n) os = Ok (Some s)
    /\ let q := foldl spec_op (spec0 n) os in
       map (fun c => (received c, popped c)) (consumers s) = got q
       /\ queued s = items q /\ SpmcQueue.size s = uint64 (Z.of_nat (length (items q))).
Proof.
  destruct (implements_ops n os _ _ (implements_start n)) as (s & E & [Hr Ho Hit Hg Hs]).
  - cbn. by rewrite repeat_length.
  - by exists s.
Qed.

End Sequential.

(** ** Overlapping operations *)

Section Lost.
Context {T : Type}.
Variable capacity : nat.
Variable junk : T.
Hypothesis capacity_pos : (0 < capacity)%nat.

(** The queue has left the segment [p], of which [r] places were read. *)
Record left_behind (s : state T) (p r : nat) : Prop := {
  B_segment : exists g, allocated_segments s !! p = Some g /\ read_pos g = r;
  B_head : (p < head_of s)%nat;
  B_cons : Forall (fun c => match looks_at (at_ c) with Some q => (p < q)%nat | None => True end) (consumers s)
}.

Lemma left_behind_frame s s' p r : left_behind s p r -> allocated_segments s' = allocated_segments s ->
  head_segment s' = head_segment s -> consumers s' = consumers s -> left_behind s' p r.
Proof. intros [H1 H2 H3] E1 E2 E3. constructor; rewrite ?E1, ?E3; try done. unfold head_of. by rewrite E2. Qed.

Lemma left_behind_move s p r i c c' : left_behind s p r -> consumers s !! i = Some c ->
  match looks_at (at_ c') with Some q => (p < q)%nat | None => True end ->
  left_behind (with_cons s (<[i := c']> (consumers s))) p r.
Proof. intros [H1 H2 H3] Hc Hq. constructor; try done. by apply Forall_insert. Qed.

(** No consumer gets back to it. *)
Lemma left_behind_pop n s s' i c p r : reachable capacity junk n s -> left_behind s p r ->
  consumers s !! i = Some c -> try_pop s i c = Ok (Some s') -> left_behind s' p r.
Proof.
  intros Hr HB Hc E. destruct (reachable_invariant capacity junk capacity_pos n s Hr) as [slots Hi].
  destruct (Forall2_lookup_l _ _ _ _ _ (I_consumers _ s slots Hi) Hc) as (ks & _ & Hok).
  destruct (K_pc _ s c ks Hok) as [_ Hpc]. pose proof HB as [H1 H2 H3].
  pose proof (Forall_lookup_1 _ _ _ _ H3 Hc) as Hq. cbn beta in Hq.
  unfold try_pop, segment in E.
  destruct (at_ c) as [| |h|h rd|h|h nx| |h rd|h rd|x] eqn:Ea; cbn [looks_at] in Hq; try done.
  - unfold head_of in H2. destruct (head_segment s) eqn:Eh; simplify_eq; by apply (left_behind_move s p r i c).
  - destruct (allocated_segments s !! h); simplify_eq/=. by apply (left_behind_move s p r i c).
  - destruct (allocated_segments s !! h); simplify_eq/=. apply (left_behind_move s p r i c); [done|done|].
    fields. by destruct (decide _).
  - destruct (allocated_segments s !! h) as [g|]; simplify_eq/=.
    destruct (next_segment g); simplify_eq; by apply (left_behind_move s p r i c).
  - destruct Hpc as [-> _]. destruct (decide _) as [Eh|]; simplify_eq; [|by apply (left_behind_move s p r i c)].
    apply (left_behind_move (with_head s (Some (S h))) p r i c); [|done|cbn; lia].
    constructor; [done|cbn; lia|done].
  - unfold head_of in H2. destruct (head_segment s) eqn:Eh; simplify_eq; by apply (left_behind_move s p r i c).
  - destruct (allocated_segments s !! h) as [g|] eqn:Eg; simplify_eq/=.
    destruct (decide _); simplify_eq; [|by apply (left_behind_move s p r i c)].
    apply (left_behind_move (set_segment s h (Segment (write_pos g) (S (read_pos g)) (next_segment g) (data g))) p r i c);
      [|done|done].
    destruct H1 as (g0 & Eg0 & Hg0). constructor; [|done|done]. exists g0. fields.
    by rewrite list_lookup_insert_ne by lia.
  - destruct (allocated_segments s !! h) as [g|] eqn:Eg; simplify_eq/=.
    destruct (rget _ _); simplify_eq/=. by apply (left_behind_move s p r i c).
  - simplify_eq. apply (left_behind_move (with_size s _) p r i c); [by apply (left_behind_frame s)|done|done].
Qed.

(** Nothing changes for it as long as nothing is pushed. *)
Lemma left_behind_steps n es p r : forall s s', reachable capacity junk n s -> left_behind s p r ->
  prod s = PIdle -> Forall no_push es -> steps capacity junk s es = Ok (Some s') ->
  left_behind s' p r /\ prod s' = PIdle /\ pushed s' = pushed s /\ reachable capacity junk n s'.
Proof.
  induction es as [|e es IH]; intros s s' Hr HB Hp Hes E; cbn [steps] in E; [by simplify_eq|].
  inversion Hes as [|? ? He Hes']; subst.
  destruct (step capacity junk s e) as [[s1|]| |] eqn:Es; simplify_eq/=.
  assert (e <> Produce) as Hne.
  { intros ->. cbn [step] in Es. unfold try_push in Es. by rewrite Hp in Es. }
  destruct (other_step capacity junk capacity_pos n s e s1 Hr He Hne Es) as (E1 & E2 & _).
  assert (left_behind s1 p r) as HB1.
  { destruct e as [x| |i|i]; try done; cbn [step] in Es.
    - destruct (consumers s !! i) as [c|] eqn:Ec; [|done]. cbn in Es.
      destruct (at_ c); simplify_eq. by apply (left_behind_move s p r i c).
    - destruct (consumers s !! i) as [c|] eqn:Ec; [|done]. by eapply left_behind_pop. }
  destruct (IH s1 s') as (H1 & H2 & H3 & H4); try done; [by eapply reach_step|congruence|].
  split_and!; try done. congruence.
Qed.

(** An item in the part that was not read is never delivered. *)
Lemma left_behind_lost n s p r k x : reachable capacity junk n s -> left_behind s p r ->
  (r <= k < capacity)%nat -> NoDup (contents (allocated_segments s)) ->
  contents (allocated_segments s) !! (p * capacity + k)%nat = Some x -> x ∉ delivered s.
Proof.
  intros Hr [(g & Eg & Er) _ _] Hk Hnd Hx Hin.
  destruct (reachable_invariant capacity junk capacity_pos n s Hr) as [slots Hi].
  unfold delivered in Hin. apply elem_of_concat in Hin as (l & Hxl & Hl).
  apply list_elem_of_fmap in Hl as (c & -> & Hc). apply list_elem_of_lookup in Hc as [i Hc].
  destruct (Forall2_lookup_l _ _ _ _ _ (I_consumers _ s slots Hi) Hc) as (ks & Hks & Hok).
  pose proof (received_prefix capacity s c ks Hok) as Hv.
  assert (Some x ∈ map Some (received c)) as Hsx by (by apply list_elem_of_fmap_2).
  rewrite <- Hv in Hsx. apply list_elem_of_fmap in Hsx as (q & Eq & Hq).
  assert (claimed (allocated_segments s) q) as Hcl.
  { apply (slots_claimed capacity s slots q Hi). apply elem_of_concat. exists ks.
    split; [|by eapply list_elem_of_lookup_2].
    rewrite <- (take_drop (length (received c)) ks). apply elem_of_app. by left. }
  pose proof (claimed_bound capacity capacity_pos _ q (I_segments _ s slots Hi) Hcl) as [Hq2 _].
  assert (place capacity q = (p * capacity + k)%nat) as Epl.
  { eapply NoDup_lookup; [exact Hnd|by symmetry|done]. }
  assert (q = (p, k)) as -> by (apply (place_inj capacity capacity_pos); [done|cbn; lia|exact Epl]).
  destruct Hcl as (g' & Eg' & Hlt). cbn in *. simplify_eq. lia.
Qed.

End Lost.

(** One consumer and segments of two items. The consumer has looked at the first
    segment, found it empty after one item, and is about to look for a next
    segment; then the producer pushes 2 and 3. *)
Definition overlapping : list (event Z) :=
  (Push 1 :: repeat Produce 5)
  ++ (Pop 0 :: repeat (Consume 0) 6)
  ++ (Pop 0 :: repeat (Consume 0) 3)
  ++ (Push 2 :: repeat Produce 5)
  ++ (Push 3 :: repeat Produce 8)
  ++ repeat (Consume 0) 7.

Lemma overlapping_state :
  exists s, steps 2 0 (state0 2 0 1) overlapping = Ok (Some s)
    /\ pushed s = [1; 2; 3] /\ prod s = PIdle /\ map at_ (consumers s) = [CIdle] /\ delivered s = [1; 3]
    /\ left_behind s 0 1.
Proof.
  eexists. split; [vm_compute; reflexivity|]. do 4 (split; [reflexivity|]).
  constructor; [by eexists|cbn; lia|by repeat constructor].
Qed.

Lemma three_distinct : NoDup [1; 2; 3].
Proof. apply (bool_decide_eq_true_1 (NoDup [1; 2; 3])). vm_compute. reflexivity. Qed.

(** C23: An item can get lost, even with a single consumer: a consumer that finds
    a segment empty moves on to the next one without looking again, although the
    producer may have filled the rest of the segment in the meantime. In the
    state that is reached here all three pushes have returned true and no call is
    running; the item 2 is delivered to nobody, however many further calls are
    made, and the size never gets back to 0, so that [wait_for_data] reports data
    that no [try_pop] delivers. *)
Theorem lost_item :
  exists s, steps 2 0 (state0 2 0 1) overlapping = Ok (Some s)
    /\ pushed s = [1; 2; 3] /\ prod s = PIdle /\ map at_ (consumers s) = [CIdle] /\ delivered s = [1; 3]
    /\ forall es s', Forall no_push es -> steps 2 0 s es = Ok (Some s') ->
       (2 ∉ delivered s') /\ SpmcQueue.size s' <> 0.
Proof.
  destruct overlapping_state as (s & E & Hpu & Hp & Hc & Hd & HB). exists s. do 5 (split; [done|]).
  intros es s' Hes E'.
  pose proof (steps_reachable 2 0 1 _ _ _ (reach_start _ _ 1) E) as Hr.
  destruct (left_behind_steps 2 0 ltac:(lia) 1 es 0 1 s s' Hr HB Hp Hes E') as (HB' & Hp' & Hpu' & Hr').
  destruct (reachable_invariant 2 0 ltac:(lia) 1 s' Hr') as [slots Hi].
  pose proof (I_contents _ s' slots Hi) as Hcont. unfold in_flight in Hcont. rewrite Hp', Hpu', Hpu in Hcont.
  assert (2 ∉ delivered s') as Hlost.
  { apply (left_behind_lost 2 0 ltac:(lia) 1 s' 0 1 1 2 Hr' HB'); [lia|rewrite Hcont|by rewrite Hcont].
    exact three_distinct. }
  split; [done|]. pose proof (delivered_submseteq 2 ltac:(lia) s' slots Hi) as Hsub. rewrite Hcont in Hsub.
  pose proof (submseteq_length _ _ Hsub) as Hle. cbn in Hle.
  assert (length (delivered s') <> 3%nat) as Hne.
  { intros H3. apply Hlost. assert (delivered s' ≡ₚ [1; 2; 3]) as ->.
    - apply submseteq_length_Permutation; [done|cbn; lia].
    - apply list_elem_of_further, list_elem_of_here. }
  unfold SpmcQueue.size. rewrite (I_size _ s' slots Hi), Hpu', Hpu. rewrite wrap_u_small by (cbn [length]; lia).
  cbn [length]. lia.
Qed.

(** ** A second queue object of the same name *)

(** The constructor does not recognise an object that exists: it points the
    shared header to a fresh segment of its own, so that a second queue object of
    the same name empties the queue; what was pushed and not yet delivered is
    lost, and the next [try_pop] finds nothing. *)
Theorem open_again_empties {T} (capacity : nat) (junk : T) (s : state T) (i : nat) (c : consumer T)
    (Hcap : (0 < capacity)%nat) (Hc : consumers s !! i = Some c) (Hidle : at_ c = CIdle) :
  let s2 := SPMCQueue capacity junk true s in
  SpmcQueue.size s2 = 0
  /\ exists s', run_op capacity junk s2 (OpPop i) = Ok (Some s')
    /\ consumers s' = <[i := Consumer CIdle (received c) (Some false)]> (consumers s).
Proof.
  intros s2. split; [done|]. destruct c as [p r q]. cbn in Hidle. subst p.
  set (h := length (allocated_segments s)).
  assert (allocated_segments s2 !! h = Some (new_segment capacity junk)) as Eg.
  { subst s2 h. cbn. rewrite lookup_app_r, Nat.sub_diag by lia. done. }
  set (s3 := move_consumer s2 i (Consumer CIdle r q) (CLoadRead h)).
  assert (consumers s3 !! i = Some (Consumer (CLoadRead h) r q)) as Hc3
    by (apply list_lookup_insert_eq; by eapply lookup_lt_Some).
  destruct (finish_miss capacity Hcap 6 i s3 h (new_segment capacity junk) r q Hc3 Eg) as (s' & E & H); [done|done|].
  exists s'. split.
  - rewrite (run_op_pop capacity junk s2 i (move_consumer s2 i (Consumer CIdle r q) CLoadHead)); [|subst s2; cbn; by rewrite Hc].
    rewrite <- E. apply (finish_pop_running 10 i _ (Consumer CLoadHead r q)); [|done|].
    + apply list_lookup_insert_eq. by eapply lookup_lt_Some.
    + unfold try_pop. subst s3 s2. fields. cbn [head_segment SPMCQueue with_size with_total_segments with_tail with_head].
      unfold move_consumer. fields. cbn. by rewrite list_insert_insert_eq.
  - destruct H as [A1 _ _ _ _]. rewrite A1. subst s3 s2. fields. by rewrite list_insert_insert_eq.
Qed.

(** ** Witnesses *)

Definition some_ops : list (op (T:=Z)) :=
  [OpPop 0; OpPush 1; OpPush 2; OpPush 3; OpPop 1; OpPop 0; OpPop 0; OpPop 1].

Lemma sequential_queue_witness :
  exists s, run_ops 2 0 (state0 2 0 2) some_ops = Ok (Some s)
    /\ map (fun c => (received c, popped c)) (consumers s) = [([2; 3], Some true); ([1], Some false)].
Proof.
  destruct (sequential_queue 2 0 (Nat.lt_0_succ 1) 2 some_ops) as (s & E & Hg & _);
    [repeat constructor|]. exists s. split; [exact E|]. rewrite Hg. reflexivity.
Defined.

Definition pushed_one : state Z :=
  match steps 2 0 (state0 2 0 1) (Push 7 :: repeat Produce 5) with Ok (Some s) => s | _ => state0 2 0 1 end.

Lemma open_again_empties_witness :
  SpmcQueue.size pushed_one = 1
  /\ let s2 := SPMCQueue 2 0 true pushed_one in
     SpmcQueue.size s2 = 0
     /\ exists s', run_op 2 0 s2 (OpPop 0) = Ok (Some s')
       /\ consumers s' = <[0%nat := Consumer CIdle [] (Some false)]> (consumers pushed_one).
Proof.
  split; [vm_compute; reflexivity|].
  apply (open_again_empties 2 0 pushed_one 0 (Consumer CIdle [] None) (Nat.lt_0_succ 1)); vm_compute; reflexivity.
Defined.
