(* ===== verification/SpmcIpc.v ===== *)
(** The queue of SPMCQueue.h between processes, as the programs beside it use it: the
    header is in a shared memory object that has a name, the segments are in the private
    memory of the process that allocated them.

    The steps of [try_push] and [try_pop] are those of [SpmcQueue], and the constructor is
    cut at every store to the header. A pointer is the number of a segment among all that
    were ever allocated; reading or writing through a pointer to a segment that is not in
    the memory of the process is undefined. A process opens the queue once. *)

From S2P Require Import Prelude Result SpmcQueue SpmcProps.
From stdpp Require Import strings.
#[local] Open Scope Z_scope.

Section Ipc.
Context {T : Type}.
Variable capacity : nat.
Variable junk : T.

(** ** State *)

(** [SharedMemoryHeader] *)
Record header := Header { h_head : option nat; h_tail : option nat; h_segments : Z; h_size : Z }.

(** The memory of a new object. *)
Definition zeroed : header := Header None None 0 0.

(** Where a process is in the constructor; [obj] is the object it has opened. *)
Inductive phase :=
| Outside
| Ftruncate (obj : nat) (is_creator : bool)
| Mmap (obj : nat) (is_creator : bool)
| StoreHead (obj first : nat)
| StoreTail (obj first : nat)
| StoreSegments (obj : nat)
| StoreSize (obj : nat)
| Ready (obj : nat) (is_creator : bool)
| Thrown                    (* the constructor threw an exception *)
| Closed.                   (* the destructor has run *)

Record process := Process {
  at_phase : phase;
  p_prod : producer T;
  p_pushed : list T;
  p_ret : option bool;
  p_consumers : list (consumer T)
}.

(** The objects that were ever created, the one that has the name, the segments with the
    process that has each in its memory ([None] once it is freed), and the processes. *)
Record system := System {
  headers : list header;
  name : option nat;
  segments : list (QueueSegment T);
  owner : list (option nat);
  processes : list process
}.

Definition in_phase (P : process) (ph : phase) : process :=
  Process ph (p_prod P) (p_pushed P) (p_ret P) (p_consumers P).

Definition set_process (s : system) (p : nat) (P : process) : system :=
  System (headers s) (name s) (segments s) (owner s) (<[p := P]> (processes s)).

Definition set_header (s : system) (obj : nat) (h : header) : system :=
  System (<[obj := h]> (headers s)) (name s) (segments s) (owner s) (processes s).

(** [allocate_segment] *)
Definition allocate (s : system) (p : nat) : system :=
  System (headers s) (name s) (segments s ++ [new_segment capacity junk]) (owner s ++ [Some p]) (processes s).

(** ** The constructor *)

(** The object that [shm_open] with [O_CREAT] finds or makes. *)
Definition shm_create (s : system) : nat * system :=
  match name s with
  | Some obj => (obj, s)
  | None =>
    let obj := length (headers s) in
    (obj, System (headers s ++ [zeroed]) (Some obj) (segments s) (owner s) (processes s))
  end.

(** One step of the constructor in the process [p]. [ok] says whether the system call of
    the step succeeds, and [ok2] whether the second [shm_open] does, which needs that the
    name exists. *)
Definition construct (s : system) (p : nat) (P : process) (ok ok2 : bool) : option system :=
  let go s ph := Some (set_process s p (in_phase P ph)) in
  match at_phase P with
  | Outside =>
    if ok then let (obj, s) := shm_create s in go s (Ftruncate obj true)
    else match name s with
         | Some obj => go s (if ok2 then Ftruncate obj false else Thrown)
         | None => go s Thrown
         end
  | Ftruncate obj is_creator => go s (if ok then Mmap obj is_creator else Thrown)
  | Mmap obj is_creator =>
    if ok then
      if is_creator then go (allocate s p) (StoreHead obj (length (segments s)))
      else go s (Ready obj false)
    else go s Thrown
  | StoreHead obj first =>
    h ← headers s !! obj;
    go (set_header s obj (Header (Some first) (h_tail h) (h_segments h) (h_size h))) (StoreTail obj first)
  | StoreTail obj first =>
    h ← headers s !! obj;
    go (set_header s obj (Header (h_head h) (Some first) (h_segments h) (h_size h))) (StoreSegments obj)
  | StoreSegments obj =>
    h ← headers s !! obj;
    go (set_header s obj (Header (h_head h) (h_tail h) 1 (h_size h))) (StoreSize obj)
  | StoreSize obj =>
    h ← headers s !! obj;
    go (set_header s obj (Header (h_head h) (h_tail h) (h_segments h) 0)) (Ready obj true)
  | Ready _ _ | Thrown | Closed => None
  end.

(** The destructor, when no call is running. The name is removed whatever object it leads
    to by now, and the segments are freed with [allocated_segments_]. *)
Definition destroy (s : system) (p : nat) (P : process) : option system :=
  match at_phase P with
  | Ready obj is_creator =>
    if bool_decide (pushing (p_prod P) = []) && forallb (fun c => match at_ c with CIdle => true | _ => false end) (p_consumers P) then
      Some (System (headers s) (if is_creator then None else name s) (segments s)
              ((fun o => if decide (o = Some p) then None else o) <$> owner s)
              (<[p := in_phase P Closed]> (processes s)))
    else None
  | _ => None
  end.

(** ** Calls *)

(** The segment that the next step of a call reads or writes. *)
Definition prod_uses (c : producer T) : option nat :=
  match c with
  | PLoadWrite _ g | PExtend _ g | PWrite _ g _ | PStoreWrite _ g _ => Some g
  | PIdle | PLoadTail _ | PStoreTail _ _ | PAddSegment _ _ | PAddSize _ => None
  end.

Definition cons_uses (c : consumer_pc T) : option nat :=
  match c with
  | CLoadRead g | CLoadWrite g _ | CLoadNext g | CClaim g _ | CRead g _ => Some g
  | CIdle | CLoadHead | CAdvance _ _ | CReload | CSubSize _ => None
  end.

Definition uses (P : process) (e : event T) : option nat :=
  match e with
  | Produce => prod_uses (p_prod P)
  | Consume i => c ← p_consumers P !! i; cons_uses (at_ c)
  | Push _ | Pop _ => None
  end.

(** A pointer that a step uses, if it uses one, leads to memory of the process. *)
Definition mapped (s : system) (p : nat) (g : option nat) : bool :=
  match g with Some g => bool_decide (owner s !! g = Some (Some p)) | None => true end.

(** The queue object of a process: the shared header, and everything else its own. *)
Definition view (s : system) (h : header) (P : process) : state T :=
  State (segments s) (h_head h) (h_tail h) (h_segments h) (h_size h) (p_prod P) (p_pushed P) (p_ret P) (p_consumers P).

(** The system after a step; a segment that is new belongs to the process. *)
Definition write_back (s : system) (p : nat) (P : process) (obj : nat) (v : state T) : system :=
  System (<[obj := Header (head_segment v) (tail_segment v) (total_segments v) (total_size v)]> (headers s)) (name s)
    (allocated_segments v)
    (owner s ++ replicate (length (allocated_segments v) - length (segments s)) (Some p))
    (<[p := Process (at_phase P) (prod v) (pushed v) (push_ret v) (consumers v)]> (processes s)).

(** One step of a call in the process [p], or the start of a call. *)
Definition call (s : system) (p : nat) (P : process) (e : event T) : result (option system) :=
  match at_phase P with
  | Ready obj _ =>
    match headers s !! obj with
    | None => Ok None
    | Some h =>
      if mapped s p (uses P e) then
        o ← step capacity junk (view s h P) e;
        Ok (v ← o; Some (write_back s p P obj v))
      else Undefined
    end
  | _ => Ok None
  end.

(** ** The system *)

Inductive ipc_event :=
| Open (p : nat) (ok ok2 : bool)
| Call (p : nat) (e : event T)
| Destroy (p : nat).

Definition ipc_step (s : system) (e : ipc_event) : result (option system) :=
  match e with
  | Open p ok ok2 => Ok (P ← processes s !! p; construct s p P ok ok2)
  | Call p e => match processes s !! p with Some P => call s p P e | None => Ok None end
  | Destroy p => Ok (P ← processes s !! p; destroy s p P)
  end.

Fixpoint ipc_steps (s : system) (es : list ipc_event) : result (option system) :=
  match es with
  | [] => Ok (Some s)
  | e :: es => o ← ipc_step s e; match o with Some s' => ipc_steps s' es | None => Ok None end
  end.

(** Nobody has opened the queue; [ns] are the numbers of consumers of the processes. *)
Definition ipc0 (ns : list nat) : system :=
  System [] None [] [] ((fun n => Process Outside PIdle [] None (repeat (Consumer CIdle [] None) n)) <$> ns).

(** The constructor without failures. *)
Definition opening (p : nat) : list ipc_event := replicate 7 (Open p true true).

End Ipc.

Arguments system T : clear implicits.
Arguments process T : clear implicits.
Arguments ipc_event T : clear implicits.
