(* ===== verification/SpmcIpcProps.v ===== *)
(** What the queue of [SpmcIpc] does between processes: every process receives only what it
    pushed itself, and a producer is trapped once another process has opened the queue. *)

From S2P Require Import Prelude Result SpmcQueue SpmcProps SpmcIpc.
From stdpp Require Import strings.
#[local] Open Scope Z_scope.

Section Props.
Context {T : Type}.
Variable capacity : nat.
Variable junk : T.

(** ** What a step touches *)

(** A step changes no segment but the one it uses, and new ones. *)
Lemma step_touches (s v : state T) P e : prod s = p_prod P -> consumers s = p_consumers P ->
  step capacity junk s e = Ok (Some v) ->
  (length (allocated_segments s) <= length (allocated_segments v))%nat /\
  forall g, (g < length (allocated_segments s))%nat -> uses P e <> Some g -> allocated_segments v !! g = allocated_segments s !! g.
Proof.
  intros Hp Hc E. destruct e as [x| |i|i]; cbn [step uses] in *; rewrite <- ?Hp, <- ?Hc.
  - destruct (prod s); simplify_eq/=. done.
  - unfold try_push, segment in E. destruct (prod s) as [|x|x t|x t|x new|x new|x q pos|x q pos|x]; try done.
    + by destruct (tail_segment s); simplify_eq.
    + by destruct (allocated_segments s !! t); simplify_eq/=.
    + cbn in E. destruct ((allocated_segments s ++ _) !! t) as [g|] eqn:Eg; simplify_eq/=.
      destruct (next_segment g); simplify_eq/=; rewrite ?length_insert, length_app;
        (split; [lia|]; intros g' Hl Hne; rewrite ?list_lookup_insert_ne by naive_solver; by apply lookup_app_l).
    + by simplify_eq.
    + by simplify_eq.
    + destruct (allocated_segments s !! q) as [g|]; simplify_eq/=. unfold set_data in E. destruct (rset _ _ _); simplify_eq/=.
      rewrite length_insert. split; [done|]. intros g' Hl Hne. apply list_lookup_insert_ne. naive_solver.
    + destruct (allocated_segments s !! q) as [g|]; simplify_eq/=.
      rewrite length_insert. split; [done|]. intros g' Hl Hne. apply list_lookup_insert_ne. naive_solver.
    + by simplify_eq.
  - destruct (consumers s !! i) as [c|]; simplify_eq/=. by destruct (at_ c); simplify_eq/=.
  - destruct (consumers s !! i) as [c|]; [|done]. cbn. unfold try_pop, segment in E.
    destruct (at_ c) as [| |h|h r|h|h n| |h r|h r|x]; simplify_eq/=; try done.
    + by destruct (head_segment s); simplify_eq.
    + by destruct (allocated_segments s !! h); simplify_eq/=.
    + by destruct (allocated_segments s !! h); simplify_eq/=.
    + destruct (allocated_segments s !! h) as [g|]; simplify_eq/=. by destruct (next_segment g); simplify_eq/=.
    + by case_decide; simplify_eq/=.
    + by destruct (head_segment s); simplify_eq/=.
    + destruct (allocated_segments s !! h) as [g|]; simplify_eq/=. case_decide; simplify_eq/=; [|done].
      rewrite length_insert. split; [done|]. intros g' Hl Hne. apply list_lookup_insert_ne. naive_solver.
    + destruct (allocated_segments s !! h) as [g|]; simplify_eq/=. by destruct (rget _ _); simplify_eq/=.
Qed.

(** ** The segments of a process *)

(** The item of a call that has stored it. *)
Definition committed (c : producer T) : list T := match c with PAddSize x => [x] | _ => [] end.

Definition stored (P : process T) : list T := p_pushed P ++ committed (p_prod P).

Section Process.
Variable p : nat.

(** The process has the segment [g], and [Q] holds for it. *)
Definition has_segment (l : list (QueueSegment T)) (ow : list (option nat)) (g : nat) (Q : QueueSegment T -> Prop) : Prop :=
  ow !! g = Some (Some p) /\ exists q, l !! g = Some q /\ Q q.

Definition prod_intact l ow (c : producer T) : Prop :=
  match c with
  | PStoreTail _ g | PAddSegment _ g => has_segment l ow g (fun q => write_pos q = 0%nat)
  | PWrite _ g pos => has_segment l ow g (fun q => write_pos q = pos)
  | PStoreWrite x g pos => has_segment l ow g (fun q => write_pos q = pos /\ data q !! pos = Some x)
  | _ => True
  end.

Definition cons_intact l ow (known : list T) (c : consumer T) : Prop :=
  match at_ c with
  | CClaim g r | CRead g r => has_segment l ow g (fun q => (r < write_pos q)%nat)
  | CSubSize x => x ∈ known
  | _ => True
  end /\ (forall x, x ∈ received c -> x ∈ known) /\ (popped c = Some true -> received c <> []).

(** The places that are written hold what the process stored. *)
Definition data_intact (l : list (QueueSegment T)) (ow : list (option nat)) (known : list T) : Prop :=
  forall g q, ow !! g = Some (Some p) -> l !! g = Some q -> forall i, (i < write_pos q)%nat ->
    exists x, data q !! i = Some x /\ x ∈ known.

Record intact l ow (P : process T) : Prop := {
  I_data : data_intact l ow (stored P);
  I_prod : prod_intact l ow (p_prod P);
  I_cons : forall i c, p_consumers P !! i = Some c -> cons_intact l ow (stored P) c
}.

(** The segments of the process after a step: none is lost, and none written less. *)
Definition grown (l : list (QueueSegment T)) (ow : list (option nat)) (l' : list (QueueSegment T)) (ow' : list (option nat)) : Prop :=
  forall g q, ow !! g = Some (Some p) -> l !! g = Some q ->
    ow' !! g = Some (Some p) /\ exists q', l' !! g = Some q' /\ (write_pos q <= write_pos q')%nat.

Lemma grown_refl l ow : grown l ow l ow.
Proof. intros g q H1 H2. eauto. Qed.

Lemma cons_intact_grown l ow l' ow' known known' c : grown l ow l' ow' -> known ⊆ known' ->
  cons_intact l ow known c -> cons_intact l' ow' known' c.
Proof.
  intros Hg Hk (H1 & H2 & H3). split_and!; [|by eauto|done].
  assert (forall g r, has_segment l ow g (fun q => (r < write_pos q)%nat) -> has_segment l' ow' g (fun q => (r < write_pos q)%nat)) as Hh.
  { intros g r (Ho & q & Hq & Hr). destruct (Hg g q Ho Hq) as (Ho' & q' & Hq' & Hw). split; [done|]. exists q'. split; [done|lia]. }
  destruct (at_ c); eauto.
Qed.

(** The segment [g] of the process is replaced. *)
Lemma grown_update l ow g q q' : l !! g = Some q -> (write_pos q <= write_pos q')%nat -> grown l ow (<[g := q']> l) ow.
Proof.
  intros Hq Hw g' q2 Ho Hg. split; [done|]. destruct (decide (g' = g)) as [->|Hne].
  - exists q'. split; [by apply list_lookup_insert_eq, (lookup_lt_Some l g q)|]. by simplify_eq.
  - exists q2. by rewrite list_lookup_insert_ne.
Qed.

Lemma data_intact_update l ow known g q' :
  (forall i, (i < write_pos q')%nat -> exists x, data q' !! i = Some x /\ x ∈ known) ->
  data_intact l ow known -> data_intact (<[g := q']> l) ow known.
Proof.
  intros Hq Hd g' q2 Ho Hg. apply list_lookup_insert_Some in Hg as [(<- & <- & _)|[_ Hg]]; [done|by apply (Hd g' q2)].
Qed.

Lemma data_intact_known l ow known known' : known ⊆ known' -> data_intact l ow known -> data_intact l ow known'.
Proof. intros Hk Hd g q Ho Hg i Hi. destruct (Hd g q Ho Hg i Hi) as (x & Hx & Hin). eauto. Qed.

(** The state after a step of another process. *)
Lemma intact_frame l ow l' ow' P :
  (forall g, ow !! g = Some (Some p) -> l' !! g = l !! g) -> (forall g, ow' !! g = Some (Some p) <-> ow !! g = Some (Some p)) ->
  intact l ow P -> intact l' ow' P.
Proof.
  intros Hl How [Hd Hp Hc]. assert (forall g Q, has_segment l ow g Q -> has_segment l' ow' g Q) as Hh.
  { intros g Q (Ho & q & Hq & HQ). split; [by apply How|]. exists q. by rewrite Hl. }
  split.
  - intros g q Ho Hq. apply (How g) in Ho. rewrite Hl in Hq by done. by apply (Hd g).
  - destruct (p_prod P); cbn in *; auto.
  - intros i c Hi. apply (cons_intact_grown l ow l' ow' (stored P)); [|done|by apply (Hc i)].
    intros g q Ho Hq. split; [by apply How|]. exists q. rewrite Hl by done. split; [done|lia].
Qed.

(** A new segment of the process. *)
Lemma intact_allocate l ow P : length ow = length l -> intact l ow P ->
  intact (l ++ [new_segment capacity junk]) (ow ++ [Some p]) P.
Proof.
  intros Hlen [Hd Hp Hc]. assert (forall g Q, has_segment l ow g Q -> has_segment (l ++ [new_segment capacity junk]) (ow ++ [Some p]) g Q) as Hh.
  { intros g Q (Ho & q & Hq & HQ). split; [by apply lookup_app_l_Some|]. exists q. split; [by apply lookup_app_l_Some|done]. }
  split.
  - intros g q Ho Hq i Hi. apply lookup_app_Some in Hq as [Hq|[Hge Hq]].
    + apply (Hd g q); [|done|done]. apply lookup_lt_Some in Hq. rewrite lookup_app_l in Ho; [done|lia].
    + apply list_lookup_singleton_Some in Hq as [_ <-]. cbn in Hi. lia.
  - destruct (p_prod P); cbn in *; auto.
  - intros i c Hi. apply (cons_intact_grown l ow _ _ (stored P)); [|done|by apply (Hc i)].
    intros g q Ho Hq. split; [by apply lookup_app_l_Some|]. exists q. split; [by apply lookup_app_l_Some|lia].
Qed.

(** ** A step of the process *)

Definition after (P : process T) (v : state T) : process T := Process (at_phase P) (prod v) (pushed v) (push_ret v) (consumers v).

Definition owner_after (s : system T) (v : state T) : list (option nat) :=
  owner s ++ replicate (length (allocated_segments v) - length (segments s)) (Some p).

Lemma owner_same (s : system T) (v : state T) : length (allocated_segments v) = length (segments s) -> owner_after s v = owner s.
Proof. intros E. unfold owner_after. by rewrite E, Nat.sub_diag, app_nil_r. Qed.

Definition known_of (v : state T) : list T := pushed v ++ committed (prod v).

(** What is left to show after a step that changes no consumer. *)
Lemma intact_after (s : system T) P v : consumers v = p_consumers P -> stored P ⊆ known_of v ->
  grown (segments s) (owner s) (allocated_segments v) (owner_after s v) ->
  data_intact (allocated_segments v) (owner_after s v) (known_of v) ->
  prod_intact (allocated_segments v) (owner_after s v) (prod v) ->
  intact (segments s) (owner s) P -> intact (allocated_segments v) (owner_after s v) (after P v).
Proof.
  intros Hc Hk Hg Hd Hp Hi. split; [done|done|]. intros i c Hc'. cbn in Hc'. rewrite Hc in Hc'.
  eapply cons_intact_grown; [exact Hg|exact Hk|]. by apply (I_cons _ _ _ Hi i).
Qed.

(** A step that changes no segment. *)
Lemma intact_quiet (s : system T) P v : allocated_segments v = segments s -> consumers v = p_consumers P -> stored P ⊆ known_of v ->
  prod_intact (segments s) (owner s) (prod v) ->
  intact (segments s) (owner s) P -> intact (allocated_segments v) (owner_after s v) (after P v).
Proof.
  intros E Hc Hk Hp Hi. pose proof (owner_same s v ltac:(by rewrite E)) as Ho. apply intact_after with (s := s); try done; rewrite ?Ho, ?E.
  - apply grown_refl.
  - eapply data_intact_known; [exact Hk|]. apply Hi.
  - done.
Qed.

Lemma mapped_owner (s : system T) g : mapped s p (Some g) = true -> owner s !! g = Some (Some p).
Proof. apply bool_decide_eq_true. Qed.

Lemma extend_intact (s : system T) h P v x t : length (owner s) = length (segments s) -> intact (segments s) (owner s) P ->
  p_prod P = PExtend x t -> owner s !! t = Some (Some p) -> try_push capacity junk (view s h P) = Ok (Some v) ->
  intact (allocated_segments v) (owner_after s v) (after P v).
Proof.
  intros Hlen Hi Hp Ht E. unfold try_push, segment in E. cbn in E. rewrite Hp in E. cbn in E.
  destruct ((segments s ++ [new_segment capacity junk]) !! t) as [g|] eqn:Eg; simplify_eq/=.
  pose proof (intact_allocate _ _ _ Hlen Hi) as Hi'.
  assert (length (owner s ++ [Some p]) = length (segments s ++ [new_segment capacity junk])) as Hlen' by (rewrite !length_app; cbn; lia).
  assert (stored P ⊆ p_pushed P) as Hk by (unfold stored; rewrite Hp; cbn; set_solver).
  destruct (next_segment g) as [n|]; simplify_eq/=; unfold owner_after; cbn; rewrite ?length_insert, length_app, Nat.add_sub_swap, Nat.sub_diag by done; cbn.
  - split; cbn; [apply (data_intact_known _ _ (stored P))|done|]; try apply Hi'.
    + intros y Hy. apply elem_of_app. left. by apply Hk.
    + intros i c Hc. eapply cons_intact_grown; [apply grown_refl| |by apply (I_cons _ _ _ Hi' i)]. intros y Hy. apply elem_of_app. left. by apply Hk.
  - assert (t < length (segments s))%nat as Hlt by (rewrite <- Hlen; by eapply lookup_lt_Some).
    pose proof (lookup_app_l_Some _ [Some p] _ _ Ht) as Ht'.
    assert (data_intact (<[t := Segment (write_pos g) (read_pos g) (Some (length (segments s))) (data g)]>
      (segments s ++ [new_segment capacity junk])) (owner s ++ [Some p]) (stored P)) as Hd'
      by (apply data_intact_update; [|apply Hi']; by apply (I_data _ _ _ Hi' t g)).
    split; cbn.
    + eapply data_intact_known; [|exact Hd']. intros y Hy. apply elem_of_app. left. by apply Hk.
    + split; [by rewrite lookup_app_r, Hlen, Nat.sub_diag by lia|]. exists (new_segment capacity junk).
      rewrite list_lookup_insert_ne, lookup_app_r, Nat.sub_diag by lia. done.
    + intros i c Hc. eapply cons_intact_grown; [by eapply grown_update| |by apply (I_cons _ _ _ Hi' i)]. intros y Hy. apply elem_of_app. left. by apply Hk.
Qed.

(** The item is stored at the end of the segment. *)
Lemma write_intact (s : system T) h P v x g pos : intact (segments s) (owner s) P -> p_prod P = PWrite x g pos ->
  try_push capacity junk (view s h P) = Ok (Some v) -> intact (allocated_segments v) (owner_after s v) (after P v).
Proof.
  intros Hi Hp E. pose proof (I_prod _ _ _ Hi) as Hg. rewrite Hp in Hg. destruct Hg as (Ho & q & Hq & <-).
  unfold try_push, segment, set_data, rset in E. cbn in E. rewrite Hp in E. cbn in E. rewrite Hq in E. cbn in E.
  destruct (aset (data q) (Z.of_nat (write_pos q)) x) as [d|] eqn:Ed; cbn in E; [injection E as <-|done]. apply aset_Some in Ed as [Hd ->]. rewrite Nat2Z.id.
  set (q' := Segment _ _ _ _). assert (length (<[g := q']> (segments s)) = length (segments s)) as Hl by apply length_insert.
  apply (intact_after s); cbn; try done; rewrite ?owner_same by done.
  - unfold stored, known_of. rewrite Hp. done.
  - by eapply grown_update.
  - eapply data_intact_update; [|apply (data_intact_known _ _ (stored P)); [unfold stored, known_of; by rewrite Hp|apply Hi]].
    intros i Hlt. cbn in *. rewrite list_lookup_insert_ne by lia.
    destruct (I_data _ _ _ Hi g q Ho Hq i Hlt) as (y & Hy & Hin). exists y. unfold stored in Hin. by rewrite Hp in Hin.
  - split; [done|]. exists q'. rewrite list_lookup_insert_eq by (by eapply lookup_lt_Some). split; [done|]. split; [done|].
    cbn. rewrite list_lookup_insert_eq; [done|lia].
Qed.

(** The end of the segment moves behind the item. *)
Lemma store_intact (s : system T) h P v x g pos : intact (segments s) (owner s) P -> p_prod P = PStoreWrite x g pos ->
  try_push capacity junk (view s h P) = Ok (Some v) -> intact (allocated_segments v) (owner_after s v) (after P v).
Proof.
  intros Hi Hp E. pose proof (I_prod _ _ _ Hi) as Hg. rewrite Hp in Hg. destruct Hg as (Ho & q & Hq & <- & Hx).
  unfold try_push, segment in E. cbn in E. rewrite Hp in E. cbn in E. rewrite Hq in E. injection E as <-.
  set (q' := Segment _ _ _ _). assert (length (<[g := q']> (segments s)) = length (segments s)) as Hl by apply length_insert.
  assert (stored P ⊆ p_pushed P ++ [x]) as Hk by (unfold stored; rewrite Hp; set_solver).
  apply (intact_after s); cbn; try done; rewrite ?owner_same by done.
  - eapply grown_update; [done|]. cbn. lia.
  - eapply data_intact_update; [|by apply (data_intact_known _ _ (stored P)); [|apply Hi]].
    intros i Hlt. cbn in *. destruct (decide (i = write_pos q)) as [->|Hne]; [exists x; split; [done|set_solver]|].
    destruct (I_data _ _ _ Hi g q Ho Hq i ltac:(lia)) as (y & Hy & Hin). eauto.
Qed.

Lemma push_intact (s : system T) h P v : length (owner s) = length (segments s) -> intact (segments s) (owner s) P ->
  mapped s p (prod_uses (p_prod P)) = true -> try_push capacity junk (view s h P) = Ok (Some v) ->
  intact (allocated_segments v) (owner_after s v) (after P v).
Proof.
  intros Hlen Hi Hm E. destruct (p_prod P) as [|x|x t|x t|x new|x new|x q pos|x q pos|x] eqn:Hp; cbn [prod_uses] in Hm.
  4: by eapply extend_intact; eauto using mapped_owner.
  6: by eapply write_intact.
  6: by eapply store_intact.
  all: pose proof (I_prod _ _ _ Hi) as Hpi; rewrite Hp in Hpi; unfold try_push, segment in E; cbn in E; rewrite Hp in E; cbn in E.
  - done.
  - destruct (h_tail h); simplify_eq; apply intact_quiet; try done; unfold stored, known_of; rewrite Hp; done.
  - apply mapped_owner in Hm. destruct (segments s !! t) as [g|] eqn:Eg; cbn in E; [injection E as <-|done].
    apply intact_quiet; try done; unfold stored, known_of; rewrite ?Hp; cbn; case_decide; cbn; try done.
    split; [done|]. by exists g.
  - simplify_eq. apply intact_quiet; try done; unfold stored, known_of; by rewrite Hp.
  - simplify_eq. apply intact_quiet; try done; unfold stored, known_of; by rewrite Hp.
  - simplify_eq. apply intact_quiet; try done; unfold stored, known_of; rewrite Hp; cbn. by rewrite app_nil_r.
Qed.

(** A step of a consumer, which leaves the data and the ends of the segments alone. *)
Lemma intact_moved (s : system T) P v i c' : length (allocated_segments v) = length (segments s) ->
  grown (segments s) (owner s) (allocated_segments v) (owner s) ->
  (forall g q', owner s !! g = Some (Some p) -> allocated_segments v !! g = Some q' ->
    exists q, segments s !! g = Some q /\ write_pos q' = write_pos q /\ data q' = data q) ->
  prod v = p_prod P -> pushed v = p_pushed P -> consumers v = <[i := c']> (p_consumers P) ->
  cons_intact (segments s) (owner s) (stored P) c' ->
  intact (segments s) (owner s) P -> intact (allocated_segments v) (owner_after s v) (after P v).
Proof.
  intros Hl Hg Hs Hp Hpu Hc Hc' Hi. rewrite (owner_same s v Hl).
  assert (stored (after P v) = stored P) as Hst by (unfold stored; cbn; by rewrite Hp, Hpu).
  assert (forall g Q, (forall q q', write_pos q' = write_pos q -> data q' = data q -> Q q -> Q q') ->
    has_segment (segments s) (owner s) g Q -> has_segment (allocated_segments v) (owner s) g Q) as Hh.
  { intros g Q HQ (Ho & q & Hq & H). split; [done|]. destruct (Hg g q Ho Hq) as (_ & q' & Hq' & _).
    destruct (Hs g q' Ho Hq') as (q2 & Hq2 & Hw & Hd). simplify_eq. exists q'. split; [done|]. by apply (HQ q). }
  split; rewrite ?Hst.
  - intros g q' Ho Hq'. destruct (Hs g q' Ho Hq') as (q & Hq & -> & ->). by apply (I_data _ _ _ Hi g).
  - pose proof (I_prod _ _ _ Hi) as Hpi. cbn. rewrite Hp. destruct (p_prod P); cbn in *; try done;
      (eapply Hh; [|exact Hpi]); cbn; intros q q' Hw Hd; by rewrite ?Hw, ?Hd.
  - intros j cj Hj. cbn in Hj. rewrite Hc in Hj. eapply cons_intact_grown; [exact Hg|done|].
    apply list_lookup_insert_Some in Hj as [(_ & <- & _)|[_ Hj]]; [done|by apply (I_cons _ _ _ Hi j)].
Qed.

Lemma intact_still (s : system T) P v i c' : allocated_segments v = segments s ->
  prod v = p_prod P -> pushed v = p_pushed P -> consumers v = <[i := c']> (p_consumers P) ->
  cons_intact (segments s) (owner s) (stored P) c' ->
  intact (segments s) (owner s) P -> intact (allocated_segments v) (owner_after s v) (after P v).
Proof.
  intros E Hp Hpu Hc Hc' Hi. apply (intact_moved s P v i c'); try done; rewrite ?E; [done|apply grown_refl|]. eauto.
Qed.

Lemma claim_intact (s : system T) h P v i c g r : intact (segments s) (owner s) P -> p_consumers P !! i = Some c ->
  at_ c = CClaim g r -> try_pop (view s h P) i c = Ok (Some v) ->
  intact (allocated_segments v) (owner_after s v) (after P v).
Proof.
  intros Hi Hc Ha E. pose proof (I_cons _ _ _ Hi i c Hc) as Hci. unfold cons_intact in Hci. rewrite Ha in Hci.
  destruct Hci as [Hg Hrec]. pose proof Hg as (Ho & q & Hq & Hr). unfold try_pop, segment in E. rewrite Ha in E. cbn in E.
  rewrite Hq in E. cbn in E. case_decide; injection E as <-.
  - eapply (intact_moved s P _ i); try done; fields; rewrite ?length_insert; try done; [by eapply grown_update|].
    intros g' q' Ho' Hq'. apply list_lookup_insert_Some in Hq' as [(<- & <- & _)|[_ Hq']]; eauto.
  - eapply (intact_still s P _ i); done.
Qed.

Lemma pop_intact (s : system T) h P v i c : intact (segments s) (owner s) P -> p_consumers P !! i = Some c ->
  mapped s p (cons_uses (at_ c)) = true -> try_pop (view s h P) i c = Ok (Some v) ->
  intact (allocated_segments v) (owner_after s v) (after P v).
Proof.
  intros Hi Hc Hm E. destruct (I_cons _ _ _ Hi i c Hc) as (Hci & Hrec & Hpop). pose proof E as E'.
  unfold try_pop, segment in E. destruct (at_ c) as [| |g|g r|g|g n| |g r|g r|x] eqn:Ha; cbn in E, Hm.
  - done.
  - destruct (h_head h); injection E as <-; eapply (intact_still s P _ i); try done. split_and!; [done|cbn; by rewrite app_nil_r|done].
  - destruct (segments s !! g) as [q|]; cbn in E; [injection E as <-|done]. by eapply (intact_still s P _ i).
  - destruct (segments s !! g) as [q|] eqn:Eq; cbn in E; [injection E as <-|done]. eapply (intact_still s P _ i); try done.
    destruct (decide (write_pos q <= r)%nat); (split; [|by split]); [done|]. split; [by apply mapped_owner|]. exists q. split; [done|lia].
  - destruct (segments s !! g) as [q|]; cbn in E; [|done]. destruct (next_segment q); injection E as <-; eapply (intact_still s P _ i); try done.
    split_and!; [done|cbn; by rewrite app_nil_r|done].
  - case_decide; injection E as <-; by eapply (intact_still s P _ i).
  - destruct (h_head h); [injection E as <-|done]. by eapply (intact_still s P _ i).
  - by eapply claim_intact.
  - destruct Hci as (Ho & q & Hq & Hr). rewrite Hq in E. cbn in E.
    destruct (I_data _ _ _ Hi g q Ho Hq r Hr) as (y & Hy & Hin). unfold rget in E. rewrite aget_nat, Hy in E. injection E as <-.
    by eapply (intact_still s P _ i).
  - injection E as <-. eapply (intact_still s P _ i); try done. split_and!; [done|cbn; set_solver|]. intros _. by destruct (received c).
Qed.

End Process.

(** ** The whole system *)

Record sound (s : system T) : Prop := {
  S_length : length (owner s) = length (segments s);
  S_intact : forall p P, processes s !! p = Some P -> intact p (segments s) (owner s) P
}.

Lemma step_intact p (s : system T) h P e v : length (owner s) = length (segments s) -> intact p (segments s) (owner s) P ->
  mapped s p (uses P e) = true -> step capacity junk (view s h P) e = Ok (Some v) ->
  intact p (allocated_segments v) (owner_after p s v) (after P v).
Proof.
  intros Hlen Hi Hm E. destruct e as [x| |i|i]; cbn [step] in E.
  - cbn in E. destruct (p_prod P) eqn:Hp; try done. injection E as <-. apply (intact_quiet p); try done.
    unfold stored, known_of. by rewrite Hp.
  - by eapply (push_intact p).
  - cbn in E. destruct (p_consumers P !! i) as [c|] eqn:Hc; [|done]. cbn in E. destruct (at_ c) eqn:Ha; try done. injection E as <-.
    eapply (intact_still p s P _ i); try done. destruct (I_cons _ _ _ _ Hi i c Hc) as [_ H]. by split.
  - cbn in E. destruct (p_consumers P !! i) as [c|] eqn:Hc; [|done]. cbn [uses mbind option_bind] in Hm. rewrite Hc in Hm.
    by eapply (pop_intact p).
Qed.

(** A process whose memory a step leaves alone. *)
Lemma untouched p q (s : system T) h P e v P' : p <> q -> length (owner s) = length (segments s) ->
  mapped s p (uses P e) = true -> step capacity junk (view s h P) e = Ok (Some v) ->
  intact q (segments s) (owner s) P' -> intact q (allocated_segments v) (owner_after p s v) P'.
Proof.
  intros Hne Hlen Hm E Hi.
  destruct (step_touches (view s h P) v P e eq_refl eq_refl E) as [Hl Ht]. cbn in Hl, Ht.
  apply (intact_frame q (segments s) (owner s)); [| |done].
  - intros g Hg. apply Ht; [rewrite <- Hlen; by eapply lookup_lt_Some|]. intros Hu. rewrite Hu in Hm.
    apply (mapped_owner p) in Hm. congruence.
  - intros g. unfold owner_after. rewrite lookup_app_Some, lookup_replicate. naive_solver.
Qed.

Lemma call_sound s p P e s' : sound s -> processes s !! p = Some P -> call capacity junk s p P e = Ok (Some s') -> sound s'.
Proof.
  intros [Hlen Hi] HP E. unfold call in E. destruct (at_phase P) as [| | | | | | |obj cr| |]; try done.
  destruct (headers s !! obj) as [h|]; [|done]. destruct (mapped s p (uses P e)) eqn:Hm; [|done].
  destruct (step capacity junk (view s h P) e) as [[v|]| |] eqn:Es; cbn in E; try done. injection E as <-.
  destruct (step_touches (view s h P) v P e eq_refl eq_refl Es) as [Hl _]. cbn in Hl. split; cbn.
  - rewrite length_app, length_replicate. lia.
  - intros q Q HQ. apply list_lookup_insert_Some in HQ as [(<- & <- & _)|[Hne HQ]].
    + apply (step_intact p s h P e v); auto.
    + apply (untouched p q s h P e v); auto.
Qed.

Lemma allocate_sound s p P : sound s -> processes s !! p = Some P -> sound (allocate capacity junk s p).
Proof.
  intros [Hlen Hi] HP. split; cbn; [rewrite !length_app; cbn; lia|]. intros q Q HQ.
  destruct (decide (q = p)) as [->|Hne]; [by apply intact_allocate; auto|].
  apply (intact_frame q (segments s) (owner s)); [| |by auto].
  - intros g Hg. apply lookup_app_l. rewrite <- Hlen. by eapply lookup_lt_Some.
  - intros g. rewrite lookup_app_Some, list_lookup_singleton_Some. naive_solver.
Qed.

(** The phase and the headers do not matter. *)
Lemma sound_same s s' p P P' : segments s' = segments s -> owner s' = owner s ->
  processes s' = <[p := P']> (processes s) -> processes s !! p = Some P ->
  p_prod P' = p_prod P -> p_pushed P' = p_pushed P -> p_consumers P' = p_consumers P -> sound s -> sound s'.
Proof.
  intros Es Eo Ep HP H1 H2 H3 [Hlen Hi]. split; rewrite ?Es, ?Eo; [done|]. intros q Q HQ. rewrite Ep in HQ.
  apply list_lookup_insert_Some in HQ as [(<- & <- & _)|[_ HQ]]; [|by apply Hi]. destruct (Hi p P HP) as [Hd Hp Hc].
  split; unfold stored in *; by rewrite ?H1, ?H2, ?H3.
Qed.

Lemma construct_sound s p P ok ok2 s' : sound s -> processes s !! p = Some P -> construct capacity junk s p P ok ok2 = Some s' -> sound s'.
Proof.
  intros Hs HP E. unfold construct in E. destruct (at_phase P) as [|obj cr|obj cr|obj g|obj g|obj|obj| | |]; try done.
  - destruct ok; [unfold shm_create in E|]; destruct (name s); injection E as <-; by eapply (sound_same s _ p P).
  - injection E as <-. by eapply (sound_same s _ p P).
  - destruct ok, cr; injection E as <-; try by eapply (sound_same s _ p P).
    eapply (sound_same (allocate capacity junk s p) _ p P); try done. by eapply allocate_sound.
  - destruct (headers s !! obj); [|done]. injection E as <-. by eapply (sound_same s _ p P).
  - destruct (headers s !! obj); [|done]. injection E as <-. by eapply (sound_same s _ p P).
  - destruct (headers s !! obj); [|done]. injection E as <-. by eapply (sound_same s _ p P).
  - destruct (headers s !! obj); [|done]. injection E as <-. by eapply (sound_same s _ p P).
Qed.

Lemma pushing_idle (c : producer T) : pushing c = [] -> c = PIdle.
Proof. by destruct c. Qed.

Lemma destroy_sound s p P s' : sound s -> processes s !! p = Some P -> destroy s p P = Some s' -> sound s'.
Proof.
  intros [Hlen Hi] HP E. unfold destroy in E. destruct (at_phase P) as [| | | | | | |obj cr| |]; try done.
  destruct (bool_decide _) eqn:Hb; [|done]. apply bool_decide_eq_true, pushing_idle in Hb.
  destruct (forallb _ _) eqn:Hf; cbn in E; [|done]. injection E as <-.
  split; cbn; [by rewrite length_fmap|]. intros q Q HQ.
  assert (forall g, ((fun o => if decide (o = Some p) then None else o) <$> owner s) !! g = Some (Some q)
    <-> p <> q /\ owner s !! g = Some (Some q)) as Ho.
  { intros g. rewrite list_lookup_fmap. destruct (owner s !! g) as [o|]; cbn; [|naive_solver]. case_decide; naive_solver. }
  apply list_lookup_insert_Some in HQ as [(<- & <- & _)|[Hne HQ]].
  - destruct (Hi p P HP) as [Hd Hp Hc]. split; cbn.
    + intros g q Hg. apply Ho in Hg as [Hg _]. done.
    + by rewrite Hb.
    + intros i c Hic. destruct (Hc i c Hic) as [_ H]. split; [|exact H].
      pose proof (proj1 (forallb_forall _ _) Hf c) as Hci. specialize (Hci (proj1 (list_elem_of_In _ _) (list_elem_of_lookup_2 _ _ _ Hic))).
      cbn in Hci. by destruct (at_ c).
  - apply (intact_frame q (segments s) (owner s)); [done| |by apply Hi]. intros g. rewrite Ho. naive_solver.
Qed.

Lemma ipc_step_sound s e s' : sound s -> ipc_step capacity junk s e = Ok (Some s') -> sound s'.
Proof.
  intros Hs E. destruct e as [p ok ok2|p e|p]; cbn [ipc_step] in E.
  - injection E as E. destruct (processes s !! p) eqn:HP; [|done]. cbn in E. by eapply construct_sound.
  - destruct (processes s !! p) eqn:HP; [|done]. by eapply call_sound.
  - injection E as E. destruct (processes s !! p) eqn:HP; [|done]. cbn in E. by eapply destroy_sound.
Qed.

Lemma start_sound ns : sound (@ipc0 T ns).
Proof.
  split; [done|]. intros p P HP. cbn in HP. apply list_lookup_fmap_Some in HP as (n & -> & _). split.
  - by intros g q Hg.
  - done.
  - intros i c Hc. cbn in Hc. apply list_elem_of_lookup_2 in Hc.
    apply list_elem_of_In, repeat_spec in Hc as ->. split_and!; [done|by intros x ?%elem_of_nil|done].
Qed.

(** ** What a process pushes *)

Definition sent (p : nat) (es : list (ipc_event T)) : list T :=
  omap (fun e => match e with Call q (Push x) => if decide (q = p) then Some x else None | _ => None end) es.

Definition own_items (P : process T) : list T := p_pushed P ++ pushing (p_prod P).

Lemma step_sends (s v : state T) e : step capacity junk s e = Ok (Some v) ->
  pushed v ++ pushing (prod v) ⊆ (pushed s ++ pushing (prod s)) ++ match e with Push x => [x] | _ => [] end.
Proof.
  intros E. destruct e as [x| |i|i]; cbn [step] in E.
  - destruct (prod s) eqn:Hp; try done. injection E as <-. cbn. set_solver.
  - unfold try_push, segment, set_data in E. destruct (prod s) as [|x|x t|x t|x new|x new|x q pos|x q pos|x] eqn:Hp; try done; cbn in E.
    + destruct (tail_segment s); injection E as <-; cbn; set_solver.
    + destruct (allocated_segments s !! t) as [g|]; cbn in E; [injection E as <-|done]. cbn.
      destruct (decide (capacity <= write_pos g)%nat); cbn; set_solver.
    + destruct ((allocated_segments s ++ _) !! t) as [g|]; cbn in E; [|done].
      destruct (next_segment g); injection E as <-; cbn; set_solver.
    + injection E as <-. cbn. set_solver.
    + injection E as <-. cbn. set_solver.
    + destruct (allocated_segments s !! q) as [g|]; cbn in E; [|done]. destruct (rset _ _ _); cbn in E; try done.
      injection E as <-. cbn. set_solver.
    + destruct (allocated_segments s !! q) as [g|]; cbn in E; [|done]. injection E as <-. cbn. set_solver.
    + injection E as <-. cbn. set_solver.
  - destruct (consumers s !! i) as [c|]; cbn in E; [|done]. destruct (at_ c); try done. injection E as <-. cbn. set_solver.
  - destruct (consumers s !! i) as [c|] eqn:Hc; [|done].
    assert (prod v = prod s /\ pushed v = pushed s) as [-> ->]; [|set_solver].
    unfold try_pop, segment, rget, lift, mbind, result_bind in E. destruct (at_ c); cbn in E; try done;
      repeat (match type of E with context [match ?o with _ => _ end] => destruct o end; cbn in E; try done);
      by injection E as <-.
Qed.

(** The items that the processes have pushed or are pushing are among [B]. *)
Definition bounded_by (B : nat -> list T) (s : system T) : Prop :=
  forall p P, processes s !! p = Some P -> own_items P ⊆ B p.

Lemma bounded_same B s s' p P P' : processes s' = <[p := P']> (processes s) -> processes s !! p = Some P ->
  own_items P' = own_items P -> bounded_by B s -> bounded_by B s'.
Proof.
  intros Ep HP Ho Hb q Q HQ. rewrite Ep in HQ. apply list_lookup_insert_Some in HQ as [(<- & <- & _)|[_ HQ]]; [|by apply Hb].
  rewrite Ho. by apply Hb.
Qed.

Lemma ipc_step_sends B s e s' : bounded_by B s -> ipc_step capacity junk s e = Ok (Some s') ->
  bounded_by (fun p => B p ++ sent p [e]) s'.
Proof.
  intros Hb E. assert (forall s, bounded_by B s -> bounded_by (fun p => B p ++ sent p [e]) s) as Hw
    by (intros s2 H2 p P HP; specialize (H2 p P HP); set_solver).
  destruct e as [p ok ok2|p e|p]; cbn [ipc_step] in E.
  - apply Hw. injection E as E. destruct (processes s !! p) as [P|] eqn:HP; [|done]. cbn in E. unfold construct, shm_create, mbind, option_bind in E.
    destruct (at_phase P), ok, ok2, (name s); cbn in E; try done;
      repeat (match type of E with context [match ?o with _ => _ end] => destruct o end; cbn in E; try done);
      injection E as <-; by eapply (bounded_same B s).
  - destruct (processes s !! p) as [P|] eqn:HP; [|done]. unfold call in E. destruct (at_phase P) as [| | | | | | |obj cr| |]; try done.
    destruct (headers s !! obj) as [h|]; [|done]. destruct (mapped _ _ _); [|done].
    destruct (step capacity junk (view s h P) e) as [[v|]| |] eqn:Es; cbn in E; try done. injection E as <-.
    intros q Q HQ. cbn in HQ. apply list_lookup_insert_Some in HQ as [(<- & <- & _)|[_ HQ]]; [|by apply (Hw s Hb q Q)].
    pose proof (step_sends _ _ _ Es) as H. specialize (Hb p P HP). unfold own_items in *. cbn in *.
    destruct e; rewrite ?decide_True by done; set_solver.
  - apply Hw. injection E as E. destruct (processes s !! p) as [P|] eqn:HP; [|done]. cbn in E. unfold destroy in E.
    destruct (at_phase P); try done. destruct (_ && _); [|done]. injection E as <-. by eapply (bounded_same B s).
Qed.

Lemma ipc_steps_own es : forall B s s', sound s -> bounded_by B s -> ipc_steps capacity junk s es = Ok (Some s') ->
  sound s' /\ bounded_by (fun p => B p ++ sent p es) s'.
Proof.
  induction es as [|e es IH]; intros B s s' Hs Hb E; cbn in E.
  - simplify_eq. split; [done|]. intros p P HP. specialize (Hb p P HP). set_solver.
  - destruct (ipc_step capacity junk s e) as [[s1|]| |] eqn:E1; cbn in E; try done.
    destruct (IH _ _ _ (ipc_step_sound _ _ _ Hs E1) (ipc_step_sends _ _ _ _ Hb E1) E) as [H1 H2]. split; [done|].
    intros p P HP. specialize (H2 p P HP). cbn in H2. intros x Hx. specialize (H2 x Hx).
    change (e :: es) with ([e] ++ es). unfold sent in *. rewrite omap_app. set_solver.
Qed.

(** The segments are private to the processes, so no item crosses from one process to
    another: in every execution in which no process uses a pointer to the memory of another, what the consumers of a process
    have received was pushed by this process itself. A process that pushes nothing, as the
    program consumer.cpp, receives nothing, and no call of [try_pop] returns true in it. *)
Theorem nothing_crosses ns es s p P i c :
  ipc_steps capacity junk (ipc0 ns) es = Ok (Some s) -> processes s !! p = Some P -> p_consumers P !! i = Some c ->
  (forall x, x ∈ received c -> x ∈ sent p es) /\ (sent p es = [] -> received c = [] /\ popped c <> Some true).
Proof.
  intros E HP Hc. destruct (ipc_steps_own es (fun _ => []) (ipc0 ns) s) as [[_ Hi] Hb]; [apply start_sound| |done|].
  { intros q Q HQ. cbn in HQ. apply list_lookup_fmap_Some in HQ as (n & -> & _). done. }
  assert (forall x, x ∈ received c -> x ∈ sent p es) as Hin.
  { intros x Hx. destruct (I_cons _ _ _ _ (Hi p P HP) i c Hc) as (_ & Hr & _). apply (Hb p P HP).
    specialize (Hr x Hx). unfold stored, own_items in *. destruct (p_prod P); cbn in *; set_solver. }
  split; [done|]. intros Hn. rewrite Hn in Hin. assert (received c = []) as Hr.
  { destruct (received c) as [|x l]; [done|]. by destruct (proj1 (elem_of_nil x)); apply Hin; left. }
  split; [done|]. intros Hp. by apply (I_cons _ _ _ _ (Hi p P HP) i c Hc).
Qed.

(** ** The constructor in a second process *)

Lemma open_step s q Q s' es : processes s !! q = Some Q -> construct capacity junk s q Q true true = Some s' ->
  ipc_steps capacity junk s (Open q true true :: es) = ipc_steps capacity junk s' es.
Proof. intros HQ E. cbn. rewrite HQ. cbn. by rewrite E. Qed.

Lemma open_next s s1 q Q ph ph' es : (q < length (processes s))%nat -> processes s1 = processes s ->
  construct capacity junk (set_process s q (in_phase Q ph)) q (in_phase Q ph) true true
    = Some (set_process (set_process s1 q (in_phase Q ph)) q (in_phase Q ph')) ->
  ipc_steps capacity junk (set_process s q (in_phase Q ph)) (Open q true true :: es)
    = ipc_steps capacity junk (set_process s1 q (in_phase Q ph')) es.
Proof.
  intros Hq Hs E. erewrite open_step; [|by apply list_lookup_insert_eq|exact E].
  unfold set_process. cbn. by rewrite list_insert_insert_eq.
Qed.

(** The constructor writes the four fields of the header one after the other. *)
Lemma open_header s q Q obj h h' ph ph' es : (q < length (processes s))%nat -> (obj < length (headers s))%nat ->
  construct capacity junk (set_process (set_header s obj h) q (in_phase Q ph)) q (in_phase Q ph) true true
    = (h1 ← <[obj := h]> (headers s) !! obj;
       Some (set_process (set_header (set_process (set_header s obj h) q (in_phase Q ph)) obj (h' h1)) q (in_phase Q ph'))) ->
  ipc_steps capacity junk (set_process (set_header s obj h) q (in_phase Q ph)) (Open q true true :: es)
    = ipc_steps capacity junk (set_process (set_header s obj (h' h)) q (in_phase Q ph')) es.
Proof.
  intros Hq Ho E. rewrite list_lookup_insert_eq in E by done. apply open_next; [done|done|]. etrans; [exact E|]. cbn. do 2 f_equal.
  unfold set_process, set_header. cbn. by rewrite list_insert_insert_eq.
Qed.

Lemma opening_spec s q Q obj h : processes s !! q = Some Q -> at_phase Q = Outside -> name s = Some obj ->
  headers s !! obj = Some h ->
  ipc_steps capacity junk s (opening q) = Ok (Some
    (System (<[obj := Header (Some (length (segments s))) (Some (length (segments s))) 1 0]> (headers s)) (Some obj)
       (segments s ++ [new_segment capacity junk]) (owner s ++ [Some q]) (<[q := in_phase Q (Ready obj true)]> (processes s)))).
Proof.
  intros HQ Hph Hn Hh. pose proof (lookup_lt_Some _ _ _ HQ) as Hq. pose proof (lookup_lt_Some _ _ _ Hh) as Ho.
  unfold opening. cbn [replicate]. set (first := length (segments s)). assert (set_header s obj h = s) as Hs.
  { unfold set_header. rewrite list_insert_id by done. by destruct s. }
  rewrite (open_step s q Q (set_process s q (in_phase Q (Ftruncate obj true))) _ HQ)
    by (unfold construct, shm_create; by rewrite Hph, Hn).
  rewrite (open_next s s q Q _ (Mmap obj true)) by done.
  rewrite (open_next s (allocate capacity junk s q) q Q _ (StoreHead obj first)) by done.
  rewrite <- Hs at 1.
  change (allocate capacity junk (set_header s obj h) q) with (set_header (allocate capacity junk s q) obj h).
  rewrite (open_header _ q Q obj _ (fun h => Header (Some first) (h_tail h) (h_segments h) (h_size h)) _ (StoreTail obj first)) by done.
  rewrite (open_header _ q Q obj _ (fun h => Header (h_head h) (Some first) (h_segments h) (h_size h)) _ (StoreSegments obj)) by done.
  rewrite (open_header _ q Q obj _ (fun h => Header (h_head h) (h_tail h) 1 (h_size h)) _ (StoreSize obj)) by done.
  rewrite (open_header _ q Q obj _ (fun h => Header (h_head h) (h_tail h) (h_segments h) 0) _ (Ready obj true)) by done.
  unfold set_process, set_header, allocate. cbn. by rewrite Hn.
Qed.

Lemma ipc_steps_app s es es' s1 : ipc_steps capacity junk s es = Ok (Some s1) ->
  ipc_steps capacity junk s (es ++ es') = ipc_steps capacity junk s1 es'.
Proof.
  revert s. induction es as [|e es IH]; intros s E; cbn in *; [by simplify_eq|].
  destruct (ipc_step capacity junk s e) as [[s2|]| |]; cbn in *; try done. by apply IH.
Qed.

(** A call that is started by a process whose header leads to a segment it does not have. *)
Lemma call_step s p P obj cr h e v es : processes s !! p = Some P -> at_phase P = Ready obj cr -> headers s !! obj = Some h ->
  uses P e = None -> step capacity junk (view s h P) e = Ok (Some v) ->
  ipc_steps capacity junk s (Call p e :: es) = ipc_steps capacity junk (write_back s p P obj v) es.
Proof.
  intros HP Hph Hh Hu E. cbn [ipc_steps ipc_step]. rewrite HP. unfold call. rewrite Hph, Hh, Hu. cbn [mapped].
  by rewrite E.
Qed.

Lemma call_undefined s p P obj cr h e g es : processes s !! p = Some P -> at_phase P = Ready obj cr -> headers s !! obj = Some h ->
  uses P e = Some g -> owner s !! g <> Some (Some p) -> ipc_steps capacity junk s (Call p e :: es) = Undefined.
Proof.
  intros HP Hph Hh Hu Ho. cbn [ipc_steps ipc_step]. rewrite HP. unfold call. rewrite Hph, Hh, Hu. cbn [mapped].
  by rewrite bool_decide_eq_false_2.
Qed.

(** A call of a process that goes through the new segment of another. *)
Lemma foreign_push s p P obj cr h g x : processes s !! p = Some P -> at_phase P = Ready obj cr -> p_prod P = PIdle ->
  headers s !! obj = Some h -> h_tail h = Some g -> owner s !! g <> Some (Some p) ->
  ipc_steps capacity junk s [Call p (Push x); Call p Produce; Call p Produce] = Undefined.
Proof.
  intros HP Hph Hprod Hh Hg Ho. pose proof (lookup_lt_Some _ _ _ HP). pose proof (lookup_lt_Some _ _ _ Hh).
  erewrite (call_step _ p P obj cr); [|exact HP|done|exact Hh|done|cbn; by rewrite Hprod].
  erewrite call_step; [|by apply list_lookup_insert_eq|done|by apply list_lookup_insert_eq|done|cbn; by rewrite Hg].
  eapply call_undefined; [by apply list_lookup_insert_eq; cbn; rewrite !length_insert|done|by apply list_lookup_insert_eq; cbn; rewrite !length_insert|done|].
  cbn. by rewrite !Nat.sub_diag, !app_nil_r.
Qed.

Lemma foreign_pop s p P obj cr h g i c : processes s !! p = Some P -> at_phase P = Ready obj cr ->
  p_consumers P !! i = Some c -> at_ c = CIdle -> headers s !! obj = Some h -> h_head h = Some g -> owner s !! g <> Some (Some p) ->
  ipc_steps capacity junk s [Call p (Pop i); Call p (Consume i); Call p (Consume i)] = Undefined.
Proof.
  intros HP Hph Hc Ha Hh Hg Ho. pose proof (lookup_lt_Some _ _ _ HP). pose proof (lookup_lt_Some _ _ _ Hh). pose proof (lookup_lt_Some _ _ _ Hc).
  erewrite (call_step _ p P obj cr); [|exact HP|done|exact Hh|done|cbn; by rewrite Hc; cbn; rewrite Ha].
  erewrite call_step; [|by apply list_lookup_insert_eq|done|by apply list_lookup_insert_eq
    |cbn; by rewrite list_lookup_insert_eq|cbn; rewrite list_lookup_insert_eq by done; cbn; rewrite Hg; reflexivity].
  eapply call_undefined; [by apply list_lookup_insert_eq; cbn; rewrite !length_insert|done|by apply list_lookup_insert_eq; cbn; rewrite !length_insert
    |cbn; rewrite list_lookup_insert_eq by (by rewrite length_insert); reflexivity|].
  cbn. by rewrite !Nat.sub_diag, !app_nil_r.
Qed.

(** The [i]-th consumer of the process [q] while nobody else does anything. *)
Definition consumer_at (q i obj : nat) (cr : bool) h l ow (s : system T) (c : consumer T) : Prop := exists Q,
  processes s !! q = Some Q /\ at_phase Q = Ready obj cr /\ headers s !! obj = Some h /\ segments s = l /\ owner s = ow
  /\ p_consumers Q !! i = Some c.

(** A step of it that only moves it. *)
Lemma consumer_at_moves q i obj cr h l ow s c e c' es : consumer_at q i obj cr h l ow s c ->
  e = Pop i \/ e = Consume i -> (forall g, cons_uses (at_ c) = Some g -> ow !! g = Some (Some q)) ->
  (forall v, consumers v !! i = Some c -> allocated_segments v = l -> head_segment v = h_head h ->
     step capacity junk v e = Ok (Some (with_cons v (<[i := c']> (consumers v))))) ->
  exists s', ipc_steps capacity junk s (Call q e :: es) = ipc_steps capacity junk s' es /\ consumer_at q i obj cr h l ow s' c'.
Proof.
  intros (Q & HQ & Hph & Hh & <- & <- & Hc) He Hu Hst. pose proof (lookup_lt_Some _ _ _ HQ). pose proof (lookup_lt_Some _ _ _ Hh).
  pose proof (lookup_lt_Some _ _ _ Hc).
  eexists. split.
  - cbn [ipc_steps ipc_step]. rewrite HQ. unfold call. rewrite Hph, Hh.
    assert (mapped s q (uses Q e) = true) as ->.
    { destruct He as [->| ->]; cbn; [done|]. rewrite Hc. cbn. destruct (cons_uses (at_ c)) as [g|]; [|done].
      apply bool_decide_eq_true. by apply Hu. }
    rewrite (Hst (view s h Q)) by done. cbn. reflexivity.
  - eexists. split; [by apply list_lookup_insert_eq|]. split; [done|]. cbn. rewrite list_lookup_insert_eq, Nat.sub_diag, app_nil_r by done.
    split_and!; try done; [by destruct h|by apply list_lookup_insert_eq].
Qed.

(** A [try_pop] in a new segment of the process finds nothing. *)
Lemma pops_nothing q i obj cr h l ow s c g : consumer_at q i obj cr h l ow s c -> at_ c = CIdle ->
  h_head h = Some g -> l !! g = Some (new_segment capacity junk) -> ow !! g = Some (Some q) ->
  exists s', ipc_steps capacity junk s (Call q (Pop i) :: replicate 4 (Call q (Consume i))) = Ok (Some s')
    /\ consumer_at q i obj cr h l ow s' (Consumer CIdle (received c) (Some false)).
Proof.
  intros Hs Ha Hg Hl Ho. cbn [replicate].
  destruct (consumer_at_moves q i obj cr h l ow s c (Pop i) (Consumer CLoadHead (received c) (popped c)) [Call q (Consume i); Call q (Consume i); Call q (Consume i); Call q (Consume i)] Hs)
    as (s1 & -> & H1); [by left|by rewrite Ha|intros v Hv _ _; cbn; by rewrite Hv; cbn; rewrite Ha|].
  edestruct (consumer_at_moves q i obj cr h l ow s1 _ (Consume i) (Consumer (CLoadRead g) (received c) (popped c)) [Call q (Consume i); Call q (Consume i); Call q (Consume i)] H1)
    as (s2 & -> & H2); [by right|done|intros v Hv _ Hh; cbn; rewrite Hv; cbn; by rewrite Hh, Hg|].
  edestruct (consumer_at_moves q i obj cr h l ow s2 _ (Consume i) (Consumer (CLoadWrite g 0) (received c) (popped c)) [Call q (Consume i); Call q (Consume i)] H2)
    as (s3 & -> & H3); [by right|by intros g' [= <-]|intros v Hv Hseg _; cbn; rewrite Hv; cbn; unfold segment; by rewrite Hseg, Hl|].
  edestruct (consumer_at_moves q i obj cr h l ow s3 _ (Consume i) (Consumer (CLoadNext g) (received c) (popped c)) [Call q (Consume i)] H3)
    as (s4 & -> & H4); [by right|by intros g' [= <-]|intros v Hv Hseg _; cbn; rewrite Hv; cbn; unfold segment; by rewrite Hseg, Hl|].
  edestruct (consumer_at_moves q i obj cr h l ow s4 _ (Consume i) (Consumer CIdle (received c) (Some false)) [] H4)
    as (s5 & Hs5 & H5); [by right|by intros g' [= <-]|intros v Hv Hseg _; cbn; rewrite Hv; cbn; unfold segment, return_pop; rewrite Hseg, Hl; cbn; by rewrite app_nil_r|].
  exists s5. split; [exact Hs5|exact H5].
Qed.

(** C34: Only the header of the queue is shared; the segments are private to the processes.
    Take any execution of any number of processes, after which a process [p] has opened the
    queue, with whatever items in it, and let another process [q] open it too, as consumer.cpp
    does after producer.cpp. Then the next [try_push] of [p] and its next [try_pop] go through
    a pointer to memory that [p] does not have, and a [try_pop] of [q] finds nothing: it returns
    false, and no item of [p] reaches [q]. *)
Theorem opening_traps ns es s p P q Q obj cr h : ipc_steps capacity junk (ipc0 ns) es = Ok (Some s) -> p <> q ->
  processes s !! p = Some P -> at_phase P = Ready obj cr -> processes s !! q = Some Q -> at_phase Q = Outside ->
  name s = Some obj -> headers s !! obj = Some h ->
  exists s', ipc_steps capacity junk s (opening q) = Ok (Some s')
    /\ (p_prod P = PIdle -> forall x, ipc_steps capacity junk s' [Call p (Push x); Call p Produce; Call p Produce] = Undefined)
    /\ (forall i c, p_consumers P !! i = Some c -> at_ c = CIdle ->
          ipc_steps capacity junk s' [Call p (Pop i); Call p (Consume i); Call p (Consume i)] = Undefined)
    /\ (forall i c, p_consumers Q !! i = Some c -> at_ c = CIdle -> exists s2 Q' c',
          ipc_steps capacity junk s' (Call q (Pop i) :: replicate 4 (Call q (Consume i))) = Ok (Some s2)
          /\ processes s2 !! q = Some Q' /\ p_consumers Q' !! i = Some c' /\ popped c' = Some false /\ received c' = received c).
Proof.
  intros E Hne HP Hph HQ HphQ Hn Hh. pose proof (lookup_lt_Some _ _ _ Hh). pose proof (lookup_lt_Some _ _ _ HQ).
  assert (length (owner s) = length (segments s)) as Hlen.
  { apply (ipc_steps_own es (fun _ => []) (ipc0 ns) s); [apply start_sound| |done].
    intros r R HR. cbn in HR. apply list_lookup_fmap_Some in HR as (n & -> & _). done. }
  eexists. split; [by eapply opening_spec|]. set (g := length (segments s)).
  assert ((owner s ++ [Some q]) !! g <> Some (Some p)) as Ho.
  { unfold g. rewrite lookup_app_r, Hlen, Nat.sub_diag by lia. cbn. congruence. }
  split_and!.
  - intros Hprod x. eapply foreign_push; [cbn; rewrite list_lookup_insert_ne by done; exact HP|exact Hph|done|by apply list_lookup_insert_eq|done|done].
  - intros i c Hc Ha. eapply foreign_pop; [cbn; rewrite list_lookup_insert_ne by done; exact HP|exact Hph|exact Hc|done|by apply list_lookup_insert_eq|done|done].
  - intros i c Hc Ha.
    match goal with |- context [ipc_steps _ _ ?s' _] =>
      edestruct (pops_nothing q i obj true (Header (Some g) (Some g) 1 0) (segments s ++ [new_segment capacity junk]) (owner s ++ [Some q]) s' c)
        as (s2 & E2 & Q' & HQ' & _ & _ & _ & _ & Hc') end; [|exact Ha|done|by apply list_lookup_middle| |].
    + eexists. split; [by apply list_lookup_insert_eq|]. split; [done|]. split; [by apply list_lookup_insert_eq|]. by split_and!.
    + unfold g. rewrite <- Hlen. by apply list_lookup_middle.
    + exists s2, Q'. eexists. by split_and!.
Qed.

(** ** One process *)

(** The system of one process, whose queue object is [v]. *)
Definition embed (v : state T) : system T :=
  System [Header (head_segment v) (tail_segment v) (total_segments v) (total_size v)] (Some 0%nat) (allocated_segments v)
    (replicate (length (allocated_segments v)) (Some 0%nat)) [Process (Ready 0 true) (prod v) (pushed v) (push_ret v) (consumers v)].

Lemma embed_opening n : ipc_steps capacity junk (ipc0 [n]) (opening 0) = Ok (Some (embed (state0 capacity junk n))).
Proof. done. Qed.

Hypothesis capacity_pos : (0 < capacity)%nat.

Lemma uses_valid n v e v' g : reachable capacity junk n v -> step capacity junk v e = Ok (Some v') ->
  uses (Process (Ready 0 true) (prod v) (pushed v) (push_ret v) (consumers v)) e = Some g -> (g < length (allocated_segments v))%nat.
Proof.
  intros Hr E Hu. destruct (reachable_invariant capacity junk capacity_pos n v Hr) as [slots Hi].
  pose proof (I_producer _ _ _ Hi) as Hp. unfold producer_ok, at_tail in Hp. apply lookup_lt_is_Some.
  destruct e as [x| |i|i]; cbn in Hu; try done; cbn [step] in E.
  - unfold try_push, segment in E. destruct (prod v); cbn in Hu; try done; injection Hu as ->.
    2: { apply lookup_lt_is_Some. lia. }
    all: by destruct (allocated_segments v !! g).
  - destruct (consumers v !! i) as [c|]; [|done]. cbn in Hu. unfold try_pop, segment in E.
    destruct (at_ c); cbn in Hu; try done; injection Hu as ->; by destruct (allocated_segments v !! g).
Qed.

Lemma embed_step n v e v' : reachable capacity junk n v -> step capacity junk v e = Ok (Some v') ->
  ipc_step capacity junk (embed v) (Call 0 e) = Ok (Some (embed v')).
Proof.
  intros Hr E. cbn. assert (mapped (embed v) 0 (uses (Process (Ready 0 true) (prod v) (pushed v) (push_ret v) (consumers v)) e) = true) as ->.
  { destruct (uses _ e) as [g|] eqn:Hu; [|done]. apply bool_decide_eq_true. apply lookup_replicate. split; [done|]. by eapply uses_valid. }
  assert (view (embed v) (Header (head_segment v) (tail_segment v) (total_segments v) (total_size v))
    (Process (Ready 0 true) (prod v) (pushed v) (push_ret v) (consumers v)) = v) as -> by (by destruct v).
  rewrite E. cbn. do 2 f_equal. unfold write_back, embed. cbn. f_equal.
  destruct (step_touches v v' (Process (Ready 0 true) (prod v) (pushed v) (push_ret v) (consumers v)) e eq_refl eq_refl E) as [Hl _].
  rewrite <- replicate_add. f_equal. lia.
Qed.

(** In one process the queue is the one of [SpmcQueue]: every execution there is an
    execution of the process after its constructor, with the same results. *)
Theorem one_process n es v : steps capacity junk (state0 capacity junk n) es = Ok (Some v) ->
  ipc_steps capacity junk (ipc0 [n]) (opening 0 ++ (Call 0 <$> es)) = Ok (Some (embed v)).
Proof.
  intros E. rewrite (ipc_steps_app _ _ _ _ (embed_opening n)).
  assert (reachable capacity junk n (state0 capacity junk n)) as Hr by apply reach_start.
  revert E Hr. generalize (state0 capacity junk n). induction es as [|e es IH]; intros s E Hr; cbn in E.
  - by simplify_eq.
  - destruct (step capacity junk s e) as [[s1|]| |] eqn:E1; cbn in E; try done.
    cbn [fmap list_fmap ipc_steps]. rewrite (embed_step n s e s1) by done. cbn. apply IH; [done|]. by eapply reach_step.
Qed.

End Props.

(** ** Instances *)

(** A producer stores an item, a second process opens the queue and finds nothing. *)
Definition ipc_push (p : nat) (x : Z) : list (ipc_event Z) := Call p (Push x) :: replicate 5 (Call p Produce).
Definition ipc_pop (p n : nat) : list (ipc_event Z) := Call p (Pop 0) :: replicate n (Call p (Consume 0)).

Definition demo_ipc : list (ipc_event Z) := opening 0 ++ ipc_push 0 7 ++ opening 1 ++ ipc_pop 1 4.

Lemma nothing_crosses_witness : exists s P c, ipc_steps 2 0 (ipc0 [0; 1]%nat) demo_ipc = Ok (Some s)
  /\ processes s !! 1%nat = Some P /\ p_consumers P !! 0%nat = Some c
  /\ sent 0 demo_ipc = [7] /\ received c = [] /\ popped c <> Some true.
Proof.
  eexists _, _, _. split; [vm_compute; reflexivity|]. split; [reflexivity|]. split; [reflexivity|]. split; [reflexivity|].
  eapply (nothing_crosses 2 0 [0; 1]%nat demo_ipc _ 1%nat _ 0%nat _); [vm_compute; reflexivity|reflexivity..].
Defined.

(** One process pushes and pops. *)
Definition demo_alone : list (event Z) := Push 7 :: repeat Produce 5 ++ Pop 0 :: repeat (Consume 0) 5.

Lemma one_process_witness : match steps 2 0 (state0 2 0 1) demo_alone with
  | Ok (Some v) => ipc_steps 2 0 (ipc0 [1%nat]) (opening 0 ++ (Call 0 <$> demo_alone)) = Ok (Some (embed v))
  | _ => False
  end.
Proof.
  destruct (steps 2 0 (state0 2 0 1) demo_alone) as [[v|]| |] eqn:E; [|by vm_compute in E..].
  apply (one_process 2 0 ltac:(lia) 1 demo_alone v E).
Defined.

(** After the producer of [demo_ipc] has stored its item, the second process opens. *)
Lemma opening_traps_witness :
  let start := opening 0 ++ ipc_push 0 7 in
  exists s, ipc_steps 2 0 (ipc0 [1; 1]%nat) start = Ok (Some s) /\ exists s', ipc_steps 2 0 s (opening 1) = Ok (Some s')
    /\ ipc_steps 2 0 s' [Call 0 (Push 8); Call 0 Produce; Call 0 Produce] = Undefined.
Proof.
  eexists. split; [vm_compute; reflexivity|].
  destruct (opening_traps 2 0 [1; 1]%nat (opening 0 ++ ipc_push 0 7) _ 0 _ 1 _ 0 true _ ltac:(vm_compute; reflexivity) ltac:(done)
    eq_refl eq_refl eq_refl eq_refl eq_refl eq_refl) as (s' & E & Hpush & _).
  exists s'. split; [exact E|]. by apply Hpush.
Defined.
