(* ===== verification/SpmcTests.v ===== *)
(** The tests of the queue, src/opencode-demo2/tests (src/opencode-vibe-demo has the same
    files): the tests with one thread as programs that collect the outcomes of their
    expectations, and the tests with a producer and consumers as steps of their threads.

    Clocks and what is printed are left out: the rates that [PerformanceBenchmark] expects
    are no matter of the queue. *)

From S2P Require Import Prelude Result SpmcQueue SpmcProps SpmcAbstract.
#[local] Open Scope Z_scope.
#[local] Open Scope cint_scope.

(** ** Tests with one thread *)

Section Sequential.
Context (capacity : nat) (junk : Z).

(** The queue, whose only consumer is the test, and the expectations so far. *)
Record tester := Tester { queue : state Z; expected : list bool }.

(** A test runs on, or a call does not end within its steps. *)
Definition test (A : Type) : Type := tester -> result (option (A * tester)).

#[export] Instance test_ret : MRet test := fun A a t => Ok (Some (a, t)).
#[export] Instance test_bind : MBind test := fun A B f m t =>
  match m t with
  | Ok (Some (a, t)) => f a t
  | Ok None => Ok None
  | Fatal msg => Fatal msg
  | Undefined => Undefined
  end.

(** [EXPECT_TRUE] and its like: the test goes on in any case. *)
Definition EXPECT (b : bool) : test unit := fun t => Ok (Some (tt, Tester (queue t) (expected t ++ [b]))).

(** [push], [emplace_back], and [try_push] until it returns true *)
Definition t_push (x : Z) : test unit := fun t =>
  s ← run_op capacity junk (queue t) (OpPush x);
  Ok (match s with Some s => Some (tt, Tester s (expected t)) | None => None end).

(** [try_pop]: the item, if it returns true. *)
Definition t_try_pop : test (option Z) := fun t =>
  s ← run_op capacity junk (queue t) (OpPop 0);
  match s with
  | None => Ok None
  | Some s =>
    c ← lift (consumers s !! 0%nat);
    Ok (Some (match popped c with Some true => last (received c) | _ => None end, Tester s (expected t)))
  end.

Definition t_size : test Z := fun t => Ok (Some (SpmcQueue.size (queue t), t)).
Definition t_empty : test bool := fun t => Ok (Some (SpmcQueue.empty (queue t), t)).

(** [for (int i = first; i < first + n; ++i) queue.push(i)] *)
Fixpoint push_from (n : nat) (first : Z) : test unit :=
  match n with
  | O => mret tt
  | S n => _ ← t_push first; push_from n (first + 1)
  end.

(** [while (queue.try_pop(value)) popped_items.push_back(value)] *)
Fixpoint pop_items (fuel : nat) (popped_items : list Z) : test (list Z) :=
  match fuel with
  | O => fun _ => Ok None
  | S fuel =>
    value ← t_try_pop;
    match value with Some value => pop_items fuel (popped_items ++ [value]) | None => mret popped_items end
  end.

(** [while (popped < num_items) if (queue.try_pop(value)) popped++] *)
Fixpoint pop_count (fuel : nat) (popped num_items : Z) : test unit :=
  if popped <? num_items then
    match fuel with
    | O => fun _ => Ok None
    | S fuel =>
      value ← t_try_pop;
      pop_count fuel (match value with Some _ => popped + 1 | None => popped end) num_items
    end
  else mret tt.

(** [EXPECT_TRUE(queue.try_pop(value)); EXPECT_EQ(value, x);] *)
Definition expect_pop (x : Z) : test unit :=
  value ← t_try_pop;
  _ ← EXPECT (bool_decide (is_Some value));
  EXPECT (bool_decide (value = Some x)).

Definition expect_size (n : Z) : test unit := size ← t_size; EXPECT (size =? n).
Definition expect_empty (b : bool) : test unit := e ← t_empty; EXPECT (eqb e b).

Definition EmptyQueueInitialState : test unit :=
  _ ← expect_empty true; expect_size 0.

Definition SinglePushPop : test unit :=
  _ ← t_push 42;
  _ ← expect_empty false; _ ← expect_size 1;
  _ ← expect_pop 42;
  _ ← expect_empty true; expect_size 0.

(** 100 items in one file, 1000 in the other *)
Definition MultiplePushPop (num_items : nat) : test unit :=
  _ ← push_from num_items 0;
  _ ← expect_size (Z.of_nat num_items);
  popped_items ← pop_items (S num_items) [];
  _ ← EXPECT (Z.of_nat (length popped_items) =? Z.of_nat num_items);
  EXPECT (bool_decide (take num_items popped_items = seqZ 0 (Z.of_nat num_items))).

Definition EmplaceBackBasic : test unit :=
  _ ← t_push 123;
  _ ← expect_empty false; _ ← expect_size 1;
  _ ← expect_pop 123;
  _ ← expect_empty true; expect_size 0.

(** [EmplaceBackMultipleArgs] and [PushMoveSemantics] *)
Definition push_one (x : Z) : test unit :=
  _ ← t_push x; _ ← expect_size 1; expect_pop x.

Definition PerformanceBenchmark (num_items : nat) : test unit :=
  _ ← push_from num_items 0;
  pop_count num_items 0 (Z.of_nat num_items).

(** With segments of 64 bytes, which hold [16] integers. *)
Definition CapacityManagement (capacity' : nat) : test unit :=
  _ ← push_from capacity' 0;
  _ ← t_push (Z.of_nat capacity');
  expect_size (Z.of_nat capacity' + 1).

(** A test of a new queue passes: it ends, and every expectation is met. *)
Definition passes {A} (m : test A) : Prop :=
  exists a t, m (Tester (state0 capacity junk 1) []) = Ok (Some (a, t)) /\ forallb id (expected t) = true.

End Sequential.

(** ** Tests with threads *)

Section Threads.
Context (capacity : nat) (junk : Z).

(** A consumer of [MultiConsumerScenario]: at the test of [stop_consumers], in the call of
    the loop, in a call of the last loop, at its end. *)
Inductive consumer_thread := Look | Trying | Draining | Gone.

Record threads_test := {
  shared : state Z;
  stop_consumers : bool;
  total_consumed : Z;
  pcs : list consumer_thread
}.

Definition new_test (num_consumers : nat) : threads_test :=
  {| shared := state0 capacity junk num_consumers; stop_consumers := false; total_consumed := 0;
     pcs := replicate num_consumers Look |}.

Definition with_shared (t : threads_test) (s : state Z) : threads_test :=
  {| shared := s; stop_consumers := stop_consumers t; total_consumed := total_consumed t; pcs := pcs t |}.
Definition with_pc (t : threads_test) (i : nat) (p : consumer_thread) : threads_test :=
  {| shared := shared t; stop_consumers := stop_consumers t; total_consumed := total_consumed t; pcs := <[i := p]> (pcs t) |}.
Definition add_consumed (t : threads_test) : threads_test :=
  {| shared := shared t; stop_consumers := stop_consumers t; total_consumed := total_consumed t + 1; pcs := pcs t |}.

(** A step of the queue that the thread can take. *)
Definition queue_step (t : threads_test) (e : event Z) : result threads_test :=
  o ← SpmcQueue.step capacity junk (shared t) e;
  Ok (match o with Some s => with_shared t s | None => t end).

(** The producer, whose [i] is the number of items that were pushed; a call that returned
    false is repeated. *)
Definition producer_ended (num_items : nat) (t : threads_test) : bool :=
  (num_items <=? length (pushed (shared t)))%nat && match prod (shared t) with PIdle => true | _ => false end.

Definition producer_thread (num_items : nat) (t : threads_test) : result threads_test :=
  match prod (shared t) with
  | PIdle =>
    if (length (pushed (shared t)) <? num_items)%nat
    then queue_step t (Push (Z.of_nat (length (pushed (shared t)))))
    else Ok t
  | _ => queue_step t Produce
  end.

(** [producer.join()] and [stop_consumers.store(true)] *)
Definition main_thread (num_items : nat) (t : threads_test) : threads_test :=
  if producer_ended num_items t
  then {| shared := shared t; stop_consumers := true; total_consumed := total_consumed t; pcs := pcs t |}
  else t.

Definition start_pop (t : threads_test) (i : nat) (p : consumer_thread) : result threads_test :=
  t ← queue_step t (Pop i); Ok (with_pc t i p).

(** A step of the consumer [i]: in a call, or at its result. *)
Definition consumer_thread_step (t : threads_test) (i : nat) : result threads_test :=
  match pcs t !! i, consumers (shared t) !! i with
  | Some Look, Some c => start_pop t i (if stop_consumers t then Draining else Trying)
  | Some p, Some c =>
    match at_ c, p with
    | CIdle, Gone => Ok t
    | CIdle, _ =>
      match popped c with
      | Some true =>
        let t := add_consumed t in
        match p with Draining => start_pop t i Draining | _ => Ok (with_pc t i Look) end
      | _ => Ok (with_pc t i match p with Draining => Gone | _ => Look end)
      end
    | _, _ => queue_step t (Consume i)
    end
  | _, _ => Ok t
  end.

Inductive turn := Producer_turn | Main_turn | Consumer_turn (i : nat).

Definition test_step (num_items : nat) (t : threads_test) (e : turn) : result threads_test :=
  match e with
  | Producer_turn => producer_thread num_items t
  | Main_turn => Ok (main_thread num_items t)
  | Consumer_turn i => consumer_thread_step t i
  end.

Fixpoint test_steps (num_items : nat) (t : threads_test) (l : list turn) : result threads_test :=
  match l with [] => Ok t | e :: l => t ← test_step num_items t e; test_steps num_items t l end.

(** All the threads have ended. *)
Definition joined (t : threads_test) : bool :=
  forallb (fun p => match p with Gone => true | _ => false end) (pcs t).

End Threads.

(** ** [SingleProducerMultipleConsumers] *)

Section Quota.
Context (capacity : nat) (junk : Z) (items_per_producer num_consumers : nat).

(** A consumer with its number of items, at the test of its loop or in a call. *)
Record taker := Taker { consumed : nat; calling : bool }.

Record quota_test := QuotaTest { queue_of : state Z; total_taken : Z; takers : list taker }.

Definition new_quota_test : quota_test :=
  QuotaTest (state0 capacity junk num_consumers) 0 (replicate num_consumers (Taker 0 false)).

(** [items_per_producer / num_consumers] *)
Definition quota : nat := items_per_producer / num_consumers.

Definition with_taker (t : quota_test) (i : nat) (x : taker) : quota_test :=
  QuotaTest (queue_of t) (total_taken t) (<[i := x]> (takers t)).

Definition take_step (t : quota_test) (e : event Z) : result quota_test :=
  o ← SpmcQueue.step capacity junk (queue_of t) e;
  Ok (match o with Some s => QuotaTest s (total_taken t) (takers t) | None => t end).

(** A step of the consumer [i]. *)
Definition taker_step (t : quota_test) (i : nat) : result quota_test :=
  match takers t !! i, consumers (queue_of t) !! i with
  | Some x, Some c =>
    if calling x then
      match at_ c with
      | CIdle =>
        Ok (match popped c with
            | Some true => QuotaTest (queue_of t) (total_taken t + 1) (<[i := Taker (S (consumed x)) false]> (takers t))
            | _ => with_taker t i (Taker (consumed x) false)
            end)
      | _ => take_step t (Consume i)
      end
    else if (consumed x <? quota)%nat then t ← take_step t (Pop i); Ok (with_taker t i (Taker (consumed x) true))
    else Ok t
  | _, _ => Ok t
  end.

(** A step of the producer, whose [i] is the number of items that were pushed. *)
Definition pusher_step (t : quota_test) : result quota_test :=
  let i := length (pushed (queue_of t)) in
  match prod (queue_of t) with
  | PIdle => if (i <? items_per_producer)%nat then take_step t (Push (Z.of_nat i)) else Ok t
  | _ => take_step t Produce
  end.

(** The producer ([None]) or a consumer. *)
Definition quota_step (t : quota_test) (e : option nat) : result quota_test :=
  match e with Some i => taker_step t i | None => pusher_step t end.

Fixpoint quota_steps (t : quota_test) (l : list (option nat)) : result quota_test :=
  match l with [] => Ok t | e :: l => t ← quota_step t e; quota_steps t l end.

(** The producer and the consumers have ended. *)
Definition all_joined (t : quota_test) : bool :=
  (items_per_producer <=? length (pushed (queue_of t)))%nat
  && match prod (queue_of t) with PIdle => true | _ => false end
  && forallb (fun x => negb (calling x) && (quota <=? consumed x)%nat) (takers t).

End Quota.

(** ** The tests with one thread pass *)

Section Passing.
Context (capacity : nat) (junk : Z) (Hcap : (0 < capacity)%nat).

(** All the expectations are met so far, and the queue is the list [l]. *)
Definition holds (t : tester) (l : list Z) : Prop :=
  forallb id (expected t) = true /\ exists g o, implements capacity junk 1 (queue t) (Spec l [(g, o)]).

Definition runs {A} (m : test A) (t : tester) (a : A) (l : list Z) : Prop :=
  exists t', m t = Ok (Some (a, t')) /\ holds t' l.

Lemma runs_ret {A} (a : A) t l : holds t l -> runs (mret a) t a l.
Proof. intros H. by exists t. Qed.

Lemma runs_bind {A B} (m : test A) (f : A -> test B) t a b l l' :
  runs m t a l -> (forall t', holds t' l -> runs (f a) t' b l') -> runs (m ≫= f) t b l'.
Proof.
  intros (t1 & E & H1) Hf. destruct (Hf t1 H1) as (t2 & E2 & H2). exists t2. split; [|done].
  unfold mbind, test_bind. by rewrite E.
Qed.

Lemma runs_expect b t l : b = true -> holds t l -> runs (EXPECT b) t tt l.
Proof. intros -> [He Hi]. eexists. split; [done|]. split; [|exact Hi]. cbn. by rewrite forallb_app, He. Qed.

Lemma runs_push x t l : holds t l -> runs (t_push capacity junk x) t tt (l ++ [x]).
Proof.
  intros [He (g & o & Hi)]. destruct (implements_op capacity junk Hcap 1 _ _ (OpPush x) Hi) as (s' & E & Hi'); [done|].
  exists (Tester s' (expected t)). unfold t_push. rewrite E. split; [done|]. split; [done|]. by exists g, o.
Qed.

Lemma runs_pop t l : holds t l -> runs (t_try_pop capacity junk) t (head l) (tail l).
Proof.
  intros [He (g & o & Hi)]. destruct (implements_op capacity junk Hcap 1 _ _ (OpPop 0) Hi) as (s' & E & Hi'); [cbn; lia|].
  exists (Tester s' (expected t)). unfold t_try_pop. rewrite E. cbn [mbind result_bind].
  pose proof (M_got _ _ _ _ _ Hi') as Hg. destruct l as [|x l]; cbn in Hg |- *;
    destruct (consumers s') as [|c [|]]; try done; injection Hg as Hr Hp; cbn; rewrite Hp.
  - split; [done|]. split; [done|]. do 2 eexists. exact Hi'.
  - rewrite Hr, last_snoc. split; [done|]. split; [done|]. do 2 eexists. exact Hi'.
Qed.

Lemma holds_size t l : holds t l -> SpmcQueue.size (queue t) = uint64 (Z.of_nat (length l)).
Proof. intros [_ (g & o & Hi)]. apply (M_size _ _ _ _ _ Hi). Qed.

Lemma runs_expect_size t l n : n = uint64 (Z.of_nat (length l)) -> holds t l -> runs (expect_size n) t tt l.
Proof.
  intros -> H. eapply runs_bind; [by exists t|]. intros t1 H1. rewrite <- (holds_size _ _ H). apply runs_expect; [apply Z.eqb_refl|done].
Qed.

Lemma runs_expect_empty t l b : b = (uint64 (Z.of_nat (length l)) =? 0) -> holds t l -> runs (expect_empty b) t tt l.
Proof.
  intros -> H. eapply runs_bind; [by exists t|]. intros t1 H1. rewrite <- (holds_size _ _ H).
  apply runs_expect; [apply eqb_reflx|done].
Qed.

Lemma runs_expect_pop t x l : holds t (x :: l) -> runs (expect_pop capacity junk x) t tt l.
Proof.
  intros H. eapply runs_bind; [by apply runs_pop|]. intros t1 H1. cbn [head tail] in *.
  eapply runs_bind; [by apply runs_expect|]. intros t2 H2. by apply runs_expect; [apply bool_decide_eq_true_2|].
Qed.

Lemma runs_push_from n : forall first t l, holds t l -> runs (push_from capacity junk n first) t tt (l ++ seqZ first (Z.of_nat n)).
Proof.
  induction n as [|n IH]; intros first t l H; cbn [push_from].
  - change (Z.of_nat 0) with 0. rewrite seqZ_nil, app_nil_r by lia. by apply runs_ret.
  - eapply runs_bind; [by apply runs_push|]. intros t1 H1. rewrite seqZ_cons by lia.
    replace (Z.pred (Z.of_nat (S n))) with (Z.of_nat n) by lia.
    change (first :: ?r) with ([first] ++ r). rewrite (assoc_L (++)). by apply IH.
Qed.

Lemma runs_pop_items l : forall fuel got t, (length l < fuel)%nat -> holds t l -> runs (pop_items capacity junk fuel got) t (got ++ l) [].
Proof.
  induction l as [|x l IH]; intros [|fuel] got t Hf H; cbn [length] in Hf; try lia; cbn [pop_items];
    (eapply runs_bind; [by apply runs_pop|]; intros t1 H1; cbn [head tail] in * ).
  - rewrite app_nil_r. by apply runs_ret.
  - change (x :: l) with ([x] ++ l). rewrite (assoc_L (++)). apply IH; [lia|done].
Qed.

Lemma runs_pop_count l : forall fuel n t, (length l <= fuel)%nat -> holds t l ->
  runs (pop_count capacity junk fuel n (n + Z.of_nat (length l))) t tt [].
Proof.
  induction l as [|x l IH]; intros fuel n t Hf H; cbn [length] in *.
  - destruct fuel; cbn [pop_count]; rewrite (proj2 (Z.ltb_ge _ _)) by lia; by apply runs_ret.
  - destruct fuel as [|fuel]; [lia|]. cbn [pop_count]. rewrite (proj2 (Z.ltb_lt _ _)) by lia.
    eapply runs_bind; [by apply runs_pop|]. intros t1 H1. cbn [head tail] in *.
    replace (n + Z.of_nat (S (length l))) with (n + 1 + Z.of_nat (length l)) by lia. apply IH; [lia|done].
Qed.

Lemma runs_passes {A} (m : test A) a l : (forall t, holds t [] -> runs m t a l) -> passes capacity junk m.
Proof.
  intros Hm. destruct (Hm (Tester (state0 capacity junk 1) [])) as (t' & E & [He _]); [|by exists a, t'].
  split; [done|]. do 2 eexists. apply (implements_start capacity junk 1).
Qed.

(** Every test with one thread passes, whatever the capacity of a segment: its calls end
    and its expectations are met, for any number of items that the size can count. *)
Theorem tests_pass (num_items : nat) (Hn : Z.of_nat num_items < 2 ^ 63) :
  passes capacity junk EmptyQueueInitialState
  /\ passes capacity junk (SinglePushPop capacity junk)
  /\ passes capacity junk (MultiplePushPop capacity junk num_items)
  /\ passes capacity junk (EmplaceBackBasic capacity junk)
  /\ (forall x, passes capacity junk (push_one capacity junk x))
  /\ passes capacity junk (PerformanceBenchmark capacity junk num_items)
  /\ passes capacity junk (CapacityManagement capacity junk num_items).
Proof.
  assert (forall x, passes capacity junk (push_one capacity junk x)) as Hone.
  { intros x. apply (runs_passes _ tt []). intros t H. eapply runs_bind; [by apply runs_push|]. intros t1 H1.
    eapply runs_bind; [apply runs_expect_size; [|done]; reflexivity|]. intros t2 H2. by apply runs_expect_pop. }
  assert (forall x, passes capacity junk (_ ← t_push capacity junk x; _ ← expect_empty false; _ ← expect_size 1;
    _ ← expect_pop capacity junk x; _ ← expect_empty true; expect_size 0)) as Hsingle.
  { intros x. apply (runs_passes _ tt []). intros t H. eapply runs_bind; [by apply runs_push|]. intros t1 H1.
    eapply runs_bind; [apply runs_expect_empty; [|done]; reflexivity|]. intros t2 H2. eapply runs_bind; [apply runs_expect_size; [|done]; reflexivity|]. intros t3 H3.
    eapply runs_bind; [by apply runs_expect_pop|]. intros t4 H4. eapply runs_bind; [apply runs_expect_empty; [|done]; reflexivity|].
    intros t5 H5. apply runs_expect_size; [|done]; reflexivity. }
  assert (forall t, holds t [] -> runs (push_from capacity junk num_items 0) t tt (seqZ 0 (Z.of_nat num_items))) as Hpush
    by (intros t H; by apply (runs_push_from num_items 0 t [])).
  assert (length (seqZ 0 (Z.of_nat num_items)) = num_items) as Hlen by (rewrite length_seqZ; lia).
  assert (uint64 (Z.of_nat num_items) = Z.of_nat num_items) as Hu by (apply wrap_u_small; lia).
  split_and!; [|apply (Hsingle 42)| |apply (Hsingle 123)|done|..]; [apply (runs_passes _ tt [])|apply (runs_passes _ tt [])
    |apply (runs_passes _ tt [])|apply (runs_passes _ tt (seqZ 0 (Z.of_nat num_items) ++ [Z.of_nat num_items]))]; intros t H.
  - eapply runs_bind; [apply runs_expect_empty; [|done]; reflexivity|]. intros t1 H1. apply runs_expect_size; [|done]; reflexivity.
  - eapply runs_bind; [by apply Hpush|]. intros t1 H1. eapply runs_bind; [apply runs_expect_size; [by rewrite Hlen|done]|].
    intros t2 H2. eapply runs_bind; [apply runs_pop_items; [|done]; rewrite Hlen; lia|]. intros t3 H3. cbn [app].
    eapply runs_bind; [apply runs_expect; [|done]; rewrite Hlen; apply Z.eqb_refl|]. intros t4 H4.
    apply runs_expect; [|done]. apply bool_decide_eq_true_2. rewrite <- Hlen at 1. by rewrite firstn_all.
  - eapply runs_bind; [by apply Hpush|]. intros t1 H1. unfold PerformanceBenchmark.
    pose proof (runs_pop_count (seqZ 0 (Z.of_nat num_items)) num_items 0 t1) as Hc. rewrite Hlen in Hc. by apply Hc.
  - eapply runs_bind; [by apply Hpush|]. intros t1 H1. eapply runs_bind; [by apply runs_push|]. intros t2 H2.
    apply runs_expect_size; [|done]. rewrite length_app, Hlen. cbn [length]. rewrite wrap_u_small by lia. lia.
Qed.

End Passing.

Lemma tests_pass_witness : Z.of_nat 16 < 2 ^ 63 /\ passes 16 0 (CapacityManagement 16 0 16).
Proof. split; [lia|]. apply (tests_pass 16 0 ltac:(lia) 16). lia. Defined.
