(* ===== verification/SpmcTestsProps.v ===== *)
(** The test of the queue with a producer and several consumers passes in every interleaving,
    because its items fit into the first segment; when segments are smaller the items of the
    same test can get lost. *)

From S2P Require Import Prelude Result SpmcQueue SpmcProps SpmcAbstract SpmcTests.
#[local] Open Scope Z_scope.
#[local] Open Scope cint_scope.

Lemma sum_insert {A} (f : A -> nat) l i x y : l !! i = Some x ->
  (sum_list_with f (<[i := y]> l) + f x = sum_list_with f l + f y)%nat.
Proof.
  revert i. induction l as [|z l IH]; intros [|i] Hi; try done; simplify_eq/=; [lia|].
  specialize (IH i Hi). lia.
Qed.

Section Threads.
Context (capacity : nat) (junk : Z) (Hcap : (0 < capacity)%nat).

Notation reachable := (reachable capacity junk).

(** ** One segment *)

(** The items that the consumer has, or has claimed. *)
Definition claims (c : consumer Z) : nat :=
  length (received c) + match at_ c with CRead _ _ | CSubSize _ => 1 | _ => 0 end.

(** The queue has one segment [g], and nobody has seen another. *)
Record one_segment (q : state Z) (g : QueueSegment Z) : Prop := {
  os_segment : allocated_segments q = [g];
  os_claims : read_pos g = sum_list_with claims (consumers q);
  os_prod : match prod q with PExtend _ _ | PStoreTail _ _ | PAddSegment _ _ => False | _ => True end;
  os_consumers i c : consumers q !! i = Some c -> match at_ c with
    | CLoadWrite _ r => (r <= read_pos g)%nat | CAdvance _ _ => False | _ => True end
}.

Lemma one_segment_ok n q g : reachable n q -> one_segment q g ->
  next_segment g = None /\ (read_pos g <= write_pos g <= capacity)%nat /\ head_segment q = Some 0%nat
  /\ (prod q = PIdle \/ (exists x, prod q = PLoadTail x) \/ (exists x t, prod q = PLoadWrite x t) -> write_pos g = length (pushed q)).
Proof.
  intros Hr [Hs _ _ _]. destruct (reachable_invariant capacity junk Hcap n q Hr) as [slots Hi].
  assert (segment_ok capacity 1 0 g) as [G1 G2 G3 G4 _].
  { pose proof (I_segments _ _ _ Hi) as Hg. rewrite Hs in Hg. by apply (Hg 0%nat g). }
  destruct (I_head _ _ _ Hi) as (h & Hh & Hlt). rewrite Hs in Hlt. cbn in Hlt. split_and!; [done..| |].
  - rewrite Hh. f_equal. lia.
  - intros Hp. pose proof (I_contents _ _ _ Hi) as Hc. rewrite Hs in Hc. apply (f_equal length) in Hc.
    assert (in_flight q = []) as E by (unfold in_flight; destruct Hp as [->|[[x ->]|(x & t & ->)]]; done).
    rewrite E, app_nil_r in Hc. unfold contents, published in Hc. cbn in Hc. rewrite app_nil_r, length_take in Hc. lia.
Qed.

(** *** The producer *)

Lemma produce_one n q g q' : reachable n q -> one_segment q g -> (length (pushed q) < capacity)%nat ->
  try_push capacity junk q = Ok (Some q') ->
  exists g' : QueueSegment Z, one_segment q' g' /\ consumers q' = consumers q /\ read_pos g' = read_pos g
    /\ (pushed q' = pushed q /\ prod q' <> PIdle \/ length (pushed q') = S (length (pushed q)) /\ prod q' = PIdle).
Proof.
  intros Hr Ho Hlt E. destruct (one_segment_ok n q g Hr Ho) as (Hn & [Hrw Hw] & Hh & Hwp). pose proof Ho as [Hs Hc Hp Hcs].
  destruct (reachable_invariant capacity junk Hcap n q Hr) as [slots Hi]. pose proof (I_producer _ _ _ Hi) as Hpr.
  unfold producer_ok, at_tail in Hpr. rewrite Hs in Hpr. cbn [length] in Hpr.
  unfold try_push, segment in E. rewrite Hs in E. destruct (prod q) as [|x|x t|x t|x nw|x nw|x sg p|x sg p|x] eqn:Ep; try done.
  - destruct Hpr as (t & Ht & _). rewrite Ht in E. injection E as <-. exists g. split; [split; cbn; done|]. cbn. by auto.
  - destruct Hpr as [_ Ht]. injection Ht as ->. cbn in E. rewrite decide_False in E by (rewrite Hwp; [lia|by right; right; eauto]).
    injection E as <-. exists g. split; [split; cbn; done|]. cbn. by auto.
  - destruct Hpr as ([_ Ht] & g0 & Hg0 & Hpos & Hlt'). injection Ht as ->. injection Hg0 as <-. cbn in E.
    unfold set_data, rset in E. destruct (aset (data g) (Z.of_nat p) x) as [d|]; [|done]. cbn in E. injection E as <-.
    eexists. split; [split; cbn; rewrite ?Hs; done|]. cbn. by auto.
  - destruct Hpr as ([_ Ht] & g0 & Hg0 & _). injection Ht as ->. injection Hg0 as <-. cbn in E. injection E as <-.
    eexists. split; [split; cbn; rewrite ?Hs; done|]. cbn. by auto.
  - injection E as <-. exists g. split; [split; cbn; done|]. cbn. rewrite length_app. split_and!; [done..|]. right. cbn. split; [lia|done].
Qed.

(** *** A consumer *)

(** How far a call is from its item, when nobody else moves and there is one. *)
Definition rank (g : QueueSegment Z) (c : consumer Z) : nat :=
  match at_ c with
  | CLoadNext _ => 12
  | CIdle => match popped c with Some true => 1 | _ => 11 end
  | CLoadWrite _ r => if (r =? read_pos g)%nat then 5 else 9
  | CClaim _ r => if (r =? read_pos g)%nat then 4 else 8
  | CLoadHead | CReload => 7
  | CLoadRead _ => 6
  | CRead _ _ => 3
  | CSubSize _ => 2
  | CAdvance _ _ => 0
  end.

(** What a step of [try_pop] does. *)
Record pop_effect (q q' : state Z) (i : nat) (c c' : consumer Z) (g g' : QueueSegment Z) : Prop := {
  pe_one : one_segment q' g';
  pe_consumers : consumers q' = <[i := c']> (consumers q);
  pe_producer : prod q' = prod q /\ pushed q' = pushed q;
  pe_read : (read_pos g <= read_pos g')%nat;
  pe_write : write_pos g' = write_pos g;
  pe_result : match at_ c' with
    | CIdle => popped c' = Some true /\ length (received c') = S (length (received c))
               \/ popped c' = Some false /\ received c' = received c /\ exists h, at_ c = CLoadNext h
    | _ => received c' = received c
    end;
  pe_empty h : at_ c' = CLoadNext h -> read_pos g = write_pos g;
  pe_rank : match at_ c with CRead _ _ | CSubSize _ => True | _ => (read_pos g < write_pos g)%nat end -> (rank g' c' < rank g c)%nat
}.

Ltac ranks := cbn; try done; try lia; unfold rank;
  try match goal with E : at_ _ = _ |- context [at_ _] => rewrite E end; cbn; intros; rewrite ?Nat.eqb_refl;
  repeat match goal with |- context [(?a =? ?b)%nat] => destruct (Nat.eqb_spec a b) end; lia.

Lemma consume_one n q g i c q' : reachable n q -> one_segment q g -> consumers q !! i = Some c -> at_ c <> CIdle ->
  try_pop q i c = Ok (Some q') -> exists c' g', pop_effect q q' i c c' g g'.
Proof.
  intros Hr Ho Hi Hne E. destruct (one_segment_ok n q g Hr Ho) as (Hn & [Hrw Hw] & Hh & _). pose proof Ho as [Hs Hc Hp Hcs].
  pose proof (Hcs i c Hi) as Hci.
  assert (Hmove : forall q1 c' g', allocated_segments q1 = [g'] -> consumers q1 = <[i := c']> (consumers q) -> prod q1 = prod q ->
    (read_pos g <= read_pos g')%nat -> (read_pos g' + claims c = read_pos g + claims c')%nat ->
    match at_ c' with CLoadWrite _ r => (r <= read_pos g')%nat | CAdvance _ _ => False | _ => True end -> one_segment q1 g').
  { intros q1 c' g' H1 H2 H3 H4 H5 H6. split; [done| |by rewrite H3|].
    - rewrite H2. pose proof (sum_insert claims _ _ _ c' Hi). lia.
    - intros j cj. rewrite H2. intros [(<- & <- & _)|[_ Hj]]%list_lookup_insert_Some; [done|].
      specialize (Hcs j cj Hj). destruct (at_ cj); try done. lia. }
  destruct (reachable_invariant capacity junk Hcap n q Hr) as [slots Hinv].
  destruct (Forall2_lookup_l _ _ _ _ _ (I_consumers _ _ _ Hinv) Hi) as (ks & _ & [Hpc _ _ _ _]).
  destruct Hpc as [Hfl Hpc]. unfold head_of, floor in Hfl. rewrite Hh in Hfl. rewrite Hs in Hpc.
  assert (Hstay : forall p, p <> CIdle -> claims (Consumer p (received c) (popped c)) = claims c ->
    match p with CLoadWrite _ r => (r <= read_pos g)%nat | CAdvance _ _ => False | _ => True end ->
    (forall h, p = CLoadNext h -> read_pos g = write_pos g) ->
    (match at_ c with CRead _ _ | CSubSize _ => True | _ => (read_pos g < write_pos g)%nat end ->
      (rank g (Consumer p (received c) (popped c)) < rank g c)%nat) ->
    pop_effect q (move_consumer q i c p) i c (Consumer p (received c) (popped c)) g g).
  { intros p Hp1 Hcl Hp2 Hp3 Hp4. split; try done; [|by destruct p].
    by apply (Hmove _ (Consumer p (received c) (popped c)) g); rewrite ?Hcl. }
  unfold try_pop, segment in E. rewrite Hs, ?Hh in E. unfold claims in Hmove, Hstay. unfold rank in Hstay |- *. revert E Hci Hfl Hpc Hmove Hstay Hne.
  destruct (at_ c) as [|h|h r|h r|h|h nx| |h r|h r|x] eqn:Ec; intros E Hci Hfl Hpc Hmove Hstay Hne; cbn in Hfl;
    try (assert (h = 0%nat) as -> by lia); try done.
  - injection E as <-. do 2 eexists. apply Hstay; ranks.
  - injection E as <-. do 2 eexists. apply Hstay; ranks.
  - injection E as <-. case_decide; do 2 eexists; apply Hstay; ranks.
  - cbn in E. rewrite Hn in E. injection E as <-. eexists _, g. split; [|reflexivity|done..| |done|ranks].
    + eapply Hmove; cbn; try done. by rewrite app_nil_r.
    + cbn. right. rewrite app_nil_r. by eauto.
  - injection E as <-. do 2 eexists. apply Hstay; ranks.
  - cbn in E. case_decide as Er; [subst r|]; injection E as <-.
    + eexists _, (Segment (write_pos g) (S (read_pos g)) (next_segment g) (data g)).
      split; [|reflexivity|done|cbn; lia|done..|ranks]. eapply Hmove; cbn; rewrite ?Hs; try done; cbn; lia.
    + do 2 eexists. apply Hstay; ranks.
  - cbn in E. unfold rget in E. destruct (aget (data g) (Z.of_nat r)) as [x|]; [|done]. injection E as <-.
    do 2 eexists. apply Hstay; ranks.
  - injection E as <-. eexists _, g. split; [|reflexivity|done..| |done|ranks].
    + eapply Hmove; cbn; try done. cbn [received at_]. rewrite length_app. cbn. lia.
    + cbn. left. rewrite length_app. cbn. split; [done|lia].
Qed.

(** *** Calls that begin *)

(** The steps that the producer of [N] items has left at most. *)
Definition push_left (N : nat) (q : state Z) : nat :=
  10 * (N - length (pushed q)) - match prod q with PIdle => 0 | p => 10 - push_steps p end.

(** A step of the producer of [N] items, which begins a call or goes on. *)
Lemma producer_runs n N q g x : (N <= capacity)%nat -> reachable n q -> one_segment q g ->
  (length (pushed q) < N)%nat ->
  exists q' g', SpmcQueue.step capacity junk q (match prod q with PIdle => Push x | _ => Produce end) = Ok (Some q')
    /\ reachable n q' /\ one_segment q' g' /\ consumers q' = consumers q /\ read_pos g' = read_pos g
    /\ ((length (pushed q') <= N)%nat /\ (prod q' <> PIdle -> length (pushed q') < N)%nat)
    /\ (push_left N q' < push_left N q)%nat.
Proof.
  intros HN Hr Ho Hlt. destruct (reachable_invariant capacity junk Hcap n q Hr) as [slots Hi].
  destruct (decide (push_steps (prod q) = 0)%nat) as [Hz|Hnz].
  - assert (prod q = PIdle) as Hp by (by destruct (prod q)). rewrite Hp.
    assert (SpmcQueue.step capacity junk q (Push x) = Ok (Some (with_prod q (PLoadTail x)))) as E by (cbn; by rewrite Hp).
    exists (with_prod q (PLoadTail x)), g. destruct Ho as [H1 H2 H3 H4].
    split_and!; [done|by eapply reach_step|by split|done|done|cbn; lia|done|]. unfold push_left. rewrite Hp. cbn. lia.
  - assert (Hne : prod q <> PIdle) by (by destruct (prod q)).
    destruct (produce_ok capacity junk Hcap q slots Hi Hne) as (q' & E & _ & Hpp).
    destruct (produce_one n q g q' Hr Ho ltac:(lia) E) as (g' & Ho' & Hc & Hrd & Hpu). exists q', g'.
    assert (Es : SpmcQueue.step capacity junk q (match prod q with PIdle => Push x | _ => Produce end) = Ok (Some q')) by (by destruct (prod q)).
    split_and!; [done|by eapply reach_step|done..|destruct Hpu as [[-> _]|[-> _]]; lia|destruct Hpu as [[-> _]|[_ Hx]]; done|].
    destruct Hpp as [Hps _]. unfold push_left. destruct Hpu as [[-> Hn]|[-> ->]]; destruct (prod q); try done; cbn in *; try lia;
      destruct (prod q'); try done; cbn in *; lia.
Qed.

Lemma pop_starts n q g i c : reachable n q -> one_segment q g -> consumers q !! i = Some c -> at_ c = CIdle ->
  let q' := move_consumer q i c CLoadHead in
  SpmcQueue.step capacity junk q (Pop i) = Ok (Some q') /\ reachable n q' /\ one_segment q' g.
Proof.
  intros Hr [S1 S2 S3 S4] Hc Ha q'.
  assert (SpmcQueue.step capacity junk q (Pop i) = Ok (Some q')) as E by (cbn; rewrite Hc; cbn; by rewrite Ha).
  split_and!; [done|by eapply reach_step|]. split; [done| |done|].
  - cbn. rewrite S2. pose proof (sum_insert claims _ _ _ (Consumer CLoadHead (received c) (popped c)) Hc) as Hx.
    unfold claims in Hx at 2 4. rewrite Ha in Hx. cbn in Hx. lia.
  - intros j cj [(<- & <- & _)|[_ Hj]]%list_lookup_insert_Some; [done|by apply (S4 j)].
Qed.

(** ** The test *)

(** A call has delivered an item that its thread has not counted yet. *)
Definition uncounted (k : consumer_thread * consumer Z) : nat :=
  match k.1, at_ k.2, popped k.2 with
  | (Trying | Draining), CIdle, Some true => 1
  | _, _, _ => 0
  end.

(** A consumer, with [rp] the read position and [stop] what it can see: the last loop only
    ends when all the [N] items are claimed. *)
Definition thread_ok (N : nat) (stop : bool) (rp : nat) (p : consumer_thread) (c : consumer Z) : Prop :=
  match p with
  | Look => at_ c = CIdle
  | Trying => True
  | Draining => stop = true /\ match at_ c with
      | CIdle => popped c = Some true \/ rp = N
      | CLoadNext _ => rp = N
      | _ => True
      end
  | Gone => stop = true /\ at_ c = CIdle /\ rp = N
  end.

Record test_ok (n N : nat) (t : threads_test) (g : QueueSegment Z) : Prop := {
  to_reachable : reachable n (shared t);
  to_segment : one_segment (shared t) g;
  to_length : length (pcs t) = n /\ length (consumers (shared t)) = n;
  to_pushed : (length (pushed (shared t)) <= N)%nat /\ (prod (shared t) <> PIdle -> length (pushed (shared t)) < N)%nat;
  to_stop : stop_consumers t = true -> prod (shared t) = PIdle /\ length (pushed (shared t)) = N;
  to_total : total_consumed t + Z.of_nat (sum_list_with uncounted (zip (pcs t) (consumers (shared t))))
             = Z.of_nat (sum_list_with (length ∘ received) (consumers (shared t)));
  to_threads i p c : pcs t !! i = Some p -> consumers (shared t) !! i = Some c ->
    thread_ok N (stop_consumers t) (read_pos g) p c
}.

Lemma thread_keeps N stop rp rp' p c : thread_ok N stop rp p c -> (rp <= rp')%nat -> (stop = true -> rp' <= N)%nat ->
  thread_ok N stop rp' p c.
Proof.
  intros H Hle Hn. destruct p; cbn in *; [done..| |].
  - destruct H as [Hs H]. specialize (Hn Hs). split; [done|]. destruct (at_ c); try done; [destruct H; [by left|right]|]; lia.
  - destruct H as (Hs & Ha & H). specialize (Hn Hs). split_and!; [done..|lia].
Qed.

Lemma stopped_read n N t g : test_ok n N t g -> stop_consumers t = true -> write_pos g = N /\ (read_pos g <= N)%nat.
Proof.
  intros [H1 H2 _ _ H5 _ _] Hs. destruct (H5 Hs) as [Hp Hn]. destruct (one_segment_ok n _ g H1 H2) as (_ & Hw & _ & He).
  specialize (He (or_introl Hp)). lia.
Qed.

(** A step of the consumer [i] and of nothing else. *)
Lemma popper_moves n N t g t' g' i p c p' c' : test_ok n N t g ->
  pcs t !! i = Some p -> consumers (shared t) !! i = Some c ->
  reachable n (shared t') -> one_segment (shared t') g' -> (read_pos g <= read_pos g')%nat -> write_pos g' = write_pos g ->
  pcs t' = <[i := p']> (pcs t) -> consumers (shared t') = <[i := c']> (consumers (shared t)) ->
  prod (shared t') = prod (shared t) /\ pushed (shared t') = pushed (shared t) -> stop_consumers t' = stop_consumers t ->
  total_consumed t' + Z.of_nat (uncounted (p', c')) + Z.of_nat (length (received c))
    = total_consumed t + Z.of_nat (uncounted (p, c)) + Z.of_nat (length (received c')) ->
  thread_ok N (stop_consumers t) (read_pos g') p' c' ->
  test_ok n N t' g'.
Proof.
  intros Hok Hp Hc Hr Ho Hle Hw Ep Ec [Epr Epu] Es Et Hth. pose proof Hok as [_ _ H3 H4 H5 H6 H7].
  destruct (one_segment_ok n _ g' Hr Ho) as (_ & Hrw & _). split; try done; rewrite ?Ep, ?Ec, ?Epr, ?Epu, ?Es; try done.
  - by rewrite !length_insert.
  - rewrite <- (insert_zip_with pair).
    assert (Hz : zip (pcs t) (consumers (shared t)) !! i = Some (p, c)) by (rewrite lookup_zip_with, Hp; cbn; by rewrite Hc).
    pose proof (sum_insert uncounted _ _ _ (p', c') Hz). pose proof (sum_insert (length ∘ received) _ _ _ c' Hc) as Hl. cbn in Hl. lia.
  - intros j pj cj [(<- & <- & _)|[Hj Hpj]]%list_lookup_insert_Some [(Hij & <- & _)|[Hj' Hcj]]%list_lookup_insert_Some; try done.
    eapply thread_keeps; [by eapply H7|done|]. intros Hs. pose proof (stopped_read _ _ _ _ Hok Hs). lia.
Qed.

Lemma queue_step_ok n N t g e : test_ok n N t g -> exists t', queue_step capacity junk t e = Ok t'
  /\ (t' = t \/ exists q, SpmcQueue.step capacity junk (shared t) e = Ok (Some q) /\ reachable n q /\ t' = with_shared t q).
Proof.
  intros Hok. destruct (reachable_invariant capacity junk Hcap n _ (to_reachable _ _ _ _ Hok)) as [slots Hi].
  destruct (invariant_step capacity junk Hcap _ slots e Hi) as [[q|] E]; unfold queue_step; rewrite E; eexists; (split; [done|]); [|by left].
  right. exists q. split_and!; [done|by eapply reach_step; [apply Hok|]|done].
Qed.

(** The thread [i] begins a call, which is counted as [p']. *)
Lemma start_pop_ok n N t g i p c p' k : test_ok n N t g -> pcs t !! i = Some p -> consumers (shared t) !! i = Some c ->
  at_ c = CIdle -> uncounted (p, c) = (if k : bool then 1 else 0)%nat -> (p' = Trying \/ p' = Draining /\ stop_consumers t = true) ->
  exists t' g', start_pop capacity junk (if k then add_consumed t else t) i p' = Ok t' /\ test_ok n N t' g'.
Proof.
  intros Hok Hp Hc Ha Hu Hp'.
  destruct (pop_starts n _ g i c (to_reachable _ _ _ _ Hok) (to_segment _ _ _ _ Hok) Hc Ha) as (E & Hr & Ho).
  assert (Hs : shared (if k then add_consumed t else t) = shared t) by (by destruct k).
  unfold start_pop, queue_step. rewrite Hs, E. cbn [mbind result_bind]. eexists _, g. split; [done|].
  eapply (popper_moves n N t g _ _ i p c p' (Consumer CLoadHead (received c) (popped c)) Hok Hp Hc); try done.
  - cbn. by destruct k.
  - by destruct k.
  - rewrite Hu. cbn. destruct Hp' as [->|[-> _]]; destruct k; cbn; lia.
  - destruct Hp' as [->|[-> Hst]]; cbn; [done|]. by split.
Qed.

(** A step within a call *)
Lemma in_call_ok n N t g i p c : test_ok n N t g -> pcs t !! i = Some p -> consumers (shared t) !! i = Some c ->
  at_ c <> CIdle -> exists t' g', queue_step capacity junk t (Consume i) = Ok t' /\ test_ok n N t' g'.
Proof.
  intros Hok Hp Hc Ha. pose proof (to_threads _ _ _ _ Hok i p c Hp Hc) as Hth.
  destruct (queue_step_ok n N t g (Consume i) Hok) as (t' & E & [->|(q & Eq & Hr & ->)]); [by eexists t, g|].
  exists (with_shared t q). cbn in Eq. rewrite Hc in Eq.
  destruct (consume_one n _ g i c q (to_reachable _ _ _ _ Hok) (to_segment _ _ _ _ Hok) Hc Ha Eq) as (c' & g' & [E1 E2 E3 E4 E5 E6 E7]).
  exists g'. split; [done|].
  assert (H0 : uncounted (p, c) = 0%nat) by (unfold uncounted; cbn; by destruct p, (at_ c)).
  assert (Hpt : p = Trying \/ p = Draining).
  { destruct p; [done|by left|by right|]. by destruct Hth as (_ & Hi & _). }
  eapply (popper_moves n N t g _ g' i p c p c' Hok Hp Hc); try done.
  - cbn. by rewrite list_insert_id.
  - rewrite H0. unfold uncounted. cbn. destruct (at_ c'); try (rewrite E6; destruct p; lia).
    destruct E6 as [[-> ->]|(-> & -> & _)]; destruct Hpt as [->| ->]; lia.
  - destruct Hpt as [->| ->]; [done|]. destruct Hth as [Hst Hth]. pose proof (stopped_read _ _ _ _ Hok Hst) as [Hw Hrn].
    pose proof (one_segment_ok n _ _ Hr E1) as (_ & Hrw & _). split; [done|]. destruct (at_ c') as [| | | |h| | | | |] eqn:Ea'; try done.
    + destruct E6 as [[Hx _]|(_ & _ & h & Eh)]; [by left|]. rewrite Eh in Hth. right. lia.
    + specialize (E7 h eq_refl). lia.
Qed.

(** A thread looks at the result of its call. *)
Lemma at_result_ok n N t g i p c : test_ok n N t g -> pcs t !! i = Some p -> consumers (shared t) !! i = Some c ->
  at_ c = CIdle -> p = Trying \/ p = Draining -> popped c <> Some true ->
  test_ok n N (with_pc t i match p with Draining => Gone | _ => Look end) g.
Proof.
  intros Hok Hp Hc Ha Hpt Hnp. pose proof (to_threads _ _ _ _ Hok i p c Hp Hc) as Hth.
  eapply (popper_moves n N t g _ g i p c _ c Hok Hp Hc); cbn; try done; try apply Hok.
  - by rewrite list_insert_id.
  - unfold uncounted. cbn. rewrite Ha. destruct Hpt as [->| ->]; destruct (popped c) as [[]|]; done || lia.
  - destruct Hpt as [->| ->]; cbn; [done|]. destruct Hth as [Hst Hth]. rewrite Ha in Hth. destruct Hth; [done|]. by split_and!.
Qed.

Lemma popper_step_ok n N t g i : test_ok n N t g ->
  exists t' g', consumer_thread_step capacity junk t i = Ok t' /\ test_ok n N t' g'.
Proof.
  intros Hok. unfold consumer_thread_step. destruct (pcs t !! i) as [p|] eqn:Hp; [|by eexists t, g].
  assert (exists c, consumers (shared t) !! i = Some c) as [c Hc].
  { apply lookup_lt_is_Some. destruct (to_length _ _ _ _ Hok) as [H1 H2]. rewrite H2, <- H1. by eapply lookup_lt_Some. }
  rewrite Hc. pose proof (to_threads _ _ _ _ Hok i p c Hp Hc) as Hth.
  assert (Hcall : at_ c <> CIdle -> exists t' g', queue_step capacity junk t (Consume i) = Ok t' /\ test_ok n N t' g') by by eapply in_call_ok.
  destruct p.
  - apply (start_pop_ok n N t g i Look c _ false Hok Hp Hc Hth); [done|]. destruct (stop_consumers t); auto.
  - destruct (at_ c) eqn:Ha; try by apply Hcall. destruct (popped c) as [[]|] eqn:Epo; try (eexists _, g; split; [done|]; by apply (at_result_ok n N t g i Trying c); rewrite ?Epo; auto).
    eexists _, g. split; [done|].
    eapply (popper_moves n N t g _ g i Trying c Look c Hok Hp Hc); cbn; try done; try apply Hok; [by rewrite list_insert_id|].
    unfold uncounted. cbn. rewrite Ha, Epo. lia.
  - destruct (at_ c) eqn:Ha; try by apply Hcall. destruct (popped c) as [[]|] eqn:Epo; try (eexists _, g; split; [done|]; by apply (at_result_ok n N t g i Draining c); rewrite ?Epo; auto).
    apply (start_pop_ok n N t g i Draining c Draining true Hok Hp Hc Ha); [unfold uncounted; cbn; by rewrite Ha, Epo|].
    right. split; [done|apply Hth].
  - destruct Hth as (_ & Ha & _). rewrite Ha. by eexists t, g.
Qed.

(** *** The other threads, and all together *)

(** A step of the producer, which has not stopped the others yet. *)
Lemma pusher_moves n N t g q g' : test_ok n N t g -> stop_consumers t = false -> reachable n q -> one_segment q g' ->
  consumers q = consumers (shared t) -> read_pos g' = read_pos g ->
  (length (pushed q) <= N)%nat /\ (prod q <> PIdle -> length (pushed q) < N)%nat -> test_ok n N (with_shared t q) g'.
Proof.
  intros [_ _ H3 _ _ H6 H7] Hst Hr Ho Hc Hrd Hpu. split; cbn; rewrite ?Hc; try done.
  - by rewrite Hst.
  - intros j p c Hp Hcj. rewrite Hrd. by eapply H7.
Qed.

Lemma pusher_step_ok n N t g : (N <= capacity)%nat -> test_ok n N t g ->
  exists t' g', producer_thread capacity junk N t = Ok t' /\ test_ok n N t' g'.
Proof.
  intros HN Hok. pose proof (to_pushed _ _ _ _ Hok) as [_ Hlt]. unfold producer_thread.
  destruct (decide (length (pushed (shared t)) < N)%nat) as [Hl|Hl].
  - assert (Hst : stop_consumers t = false) by (destruct (stop_consumers t) eqn:Es; [destruct (to_stop _ _ _ _ Hok Es); lia|done]).
    destruct (producer_runs n N _ g (Z.of_nat (length (pushed (shared t)))) HN (to_reachable _ _ _ _ Hok) (to_segment _ _ _ _ Hok) Hl)
      as (q & g' & E & Hr & Ho & Hc & Hrd & Hpu & _).
    exists (with_shared t q), g'. split; [|by apply (pusher_moves n N t g)]. rewrite (proj2 (Nat.ltb_lt _ _) Hl). unfold queue_step.
    by destruct (prod (shared t)); rewrite E.
  - destruct (prod (shared t)) eqn:Ep; [|destruct Hl; by apply Hlt..]. rewrite (proj2 (Nat.ltb_ge _ _)) by lia. by eexists t, g.
Qed.

Lemma main_step_ok n N t g : test_ok n N t g -> test_ok n N (main_thread N t) g.
Proof.
  intros Hok. unfold main_thread, producer_ended. destruct Hok as [H1 H2 H3 [H4 H4'] H5 H6 H7].
  destruct (Nat.leb_spec N (length (pushed (shared t)))) as [Hl|]; [|by split].
  destruct (prod (shared t)) eqn:Ep; cbn; try by split; rewrite ?Ep.
  split; cbn; rewrite ?Ep; try done.
  - intros _. split; [done|lia].
  - intros i p c Hp Hc. specialize (H7 i p c Hp Hc). destruct p; cbn in *; try done; by destruct H7.
Qed.

Lemma test_steps_ok n N l : (N <= capacity)%nat -> forall t g, test_ok n N t g ->
  exists t' g', test_steps capacity junk N t l = Ok t' /\ test_ok n N t' g'.
Proof.
  intros HN. induction l as [|e l IH]; intros t g Hok; cbn [test_steps]; [by eexists t, g|].
  assert (exists t' g', test_step capacity junk N t e = Ok t' /\ test_ok n N t' g') as (t' & g' & -> & Hok').
  { destruct e as [| |i]; [by eapply pusher_step_ok|eexists _, g; split; [done|by apply main_step_ok]|by eapply popper_step_ok]. }
  by eapply IH.
Qed.

Lemma sum_zero {A} (f : A -> nat) l : (forall i x, l !! i = Some x -> f x = 0%nat) -> sum_list_with f l = 0%nat.
Proof. intros H. induction l as [|x l IH]; [done|]. cbn. rewrite (H 0%nat x eq_refl), IH; [done|]. intros i. apply (H (S i)). Qed.

Lemma sum_ext {A} (f f' : A -> nat) l : (forall i x, l !! i = Some x -> f x = f' x) -> sum_list_with f l = sum_list_with f' l.
Proof. intros H. induction l as [|x l IH]; [done|]. cbn. rewrite (H 0%nat x eq_refl), IH; [done|]. intros i. apply (H (S i)). Qed.

Lemma new_test_ok n N : test_ok n N (new_test capacity junk n) (new_segment capacity junk).
Proof.
  assert (Hc : forall i c, consumers (state0 capacity junk n) !! i = Some c -> c = Consumer CIdle [] None).
  { intros i c Hc. cbn in Hc. apply list_elem_of_lookup_2 in Hc. by apply list_elem_of_In, repeat_spec in Hc. }
  assert (Hz : forall f, (f (Consumer CIdle [] None) = 0)%nat -> sum_list_with f (consumers (state0 capacity junk n)) = 0%nat)
    by (intros f Hf; apply sum_zero; intros i c E; by rewrite (Hc i c E)).
  split; cbn [new_test shared stop_consumers total_consumed pcs]; try done.
  - constructor.
  - split; try done; [by rewrite Hz|]. intros i c E. by rewrite (Hc i c E).
  - split; [apply length_replicate|apply repeat_length].
  - split; [cbn; lia|done].
  - rewrite Hz by done. rewrite sum_zero; [done|]. intros i [p c] E. apply lookup_zip_with_Some in E as (p' & c' & [= -> ->] & Hp & _).
    by apply lookup_replicate in Hp as [-> _].
  - intros i p c Hp E. rewrite (Hc i c E). by apply lookup_replicate in Hp as [-> _].
Qed.

(** C26: [MultiConsumerScenario] passes in every interleaving of its threads when its items fit
    into one segment: no step of it goes wrong, and when the last consumer has ended every
    item has been counted once. *)
Theorem threads_test_passes (num_items num_consumers : nat) (l : list turn)
    (Hn : (0 < num_consumers)%nat) (Hi : (num_items <= capacity)%nat) :
  exists t, test_steps capacity junk num_items (new_test capacity junk num_consumers) l = Ok t
    /\ (joined t = true -> total_consumed t = Z.of_nat num_items).
Proof.
  destruct (test_steps_ok num_consumers num_items l Hi _ _ (new_test_ok _ _)) as (t & g & E & Hok).
  exists t. split; [done|]. intros Hj. unfold joined in Hj. rewrite forallb_forall in Hj.
  pose proof Hok as [_ Ho [Hp Hc] _ Hst Htot Hth].
  assert (Hgone : forall i c, consumers (shared t) !! i = Some c ->
    pcs t !! i = Some Gone /\ stop_consumers t = true /\ at_ c = CIdle /\ read_pos g = num_items).
  { intros i c Hic. destruct (lookup_lt_is_Some_2 (pcs t) i) as [p Hip].
    { rewrite Hp, <- Hc. by eapply lookup_lt_Some. }
    assert (p = Gone) as ->.
    { specialize (Hj p). destruct p; try done; discriminate Hj; apply list_elem_of_In; by eapply list_elem_of_lookup_2. }
    split; [done|]. apply (Hth i Gone c Hip Hic). }
  destruct (lookup_lt_is_Some_2 (consumers (shared t)) 0) as [c0 H0]; [lia|].
  destruct (Hgone 0%nat c0 H0) as (_ & _ & _ & Hrd). rewrite <- Hrd, (os_claims _ _ Ho).
  rewrite sum_zero in Htot.
  - rewrite (sum_ext claims (length ∘ received)); [lia|]. intros i c Hic. destruct (Hgone i c Hic) as (_ & _ & Ha & _).
    unfold claims. rewrite Ha. cbn. lia.
  - intros i [p c] E'. apply lookup_zip_with_Some in E' as (p' & c' & [= -> ->] & Hip & Hic).
    destruct (Hgone i c' Hic) as (Hip' & _). rewrite Hip' in Hip. by injection Hip as <-.
Qed.

End Threads.

(** A run with two items, in which the first consumer waits for its thread to be stopped. *)
Definition demo_turns : list turn :=
  Consumer_turn 0 :: Consumer_turn 1 :: repeat Producer_turn 12 ++ repeat (Consumer_turn 1) 12 ++ Main_turn
  :: repeat (Consumer_turn 0) 12 ++ repeat (Consumer_turn 1) 12.

Lemma threads_test_passes_witness : exists t,
  test_steps 4 0 2 (new_test 4 0 2) demo_turns = Ok t /\ joined t = true /\ total_consumed t = 2.
Proof.
  destruct (threads_test_passes 4 0 ltac:(lia) 2 2 demo_turns ltac:(lia) ltac:(lia)) as (t & E & H).
  exists t. split; [exact E|]. vm_compute in E. injection E as <-. split; [reflexivity|]. by apply H.
Defined.

(** With segments of one item the second item can get lost: the consumer finds the first
    segment empty, which is then filled and left. *)
Definition losing_turns : list turn :=
  repeat (Consumer_turn 0) 4 ++ repeat Producer_turn 16 ++ Main_turn :: repeat (Consumer_turn 0) 30.

Example threads_test_fails :
  match test_steps 1 0 2 (new_test 1 0 1) losing_turns with
  | Ok t => joined t = true /\ total_consumed t = 1
  | _ => False
  end.
Proof. vm_compute. done. Qed.
