(* ===== verification/SpmcQuotaProps.v ===== *)
(** The test of the queue whose consumers stop at a number of items each: it can always go
    on to its end, and then every item has been taken. *)

From S2P Require Import Prelude Result SpmcQueue SpmcProps SpmcTests SpmcTestsProps.
#[local] Open Scope Z_scope.
#[local] Open Scope cint_scope.

(** ** Sums *)

Lemma sum_bound {A} (f : A -> nat) m l : (forall i x, l !! i = Some x -> f x <= m)%nat -> (sum_list_with f l <= length l * m)%nat.
Proof.
  intros H. induction l as [|x l IH]; [done|]. cbn. pose proof (H 0%nat x eq_refl).
  assert (sum_list_with f l <= length l * m)%nat by (apply IH; intros i; apply (H (S i))). lia.
Qed.

Lemma sum_bound_strict {A} (f : A -> nat) m l i x : (forall i x, l !! i = Some x -> f x <= m)%nat ->
  l !! i = Some x -> (f x < m)%nat -> (sum_list_with f l < length l * m)%nat.
Proof.
  intros H Hi Hx. revert i H Hi. induction l as [|z l IH]; intros [|i] H Hi; [done..| |]; cbn in *.
  - injection Hi as ->. pose proof (sum_bound f m l (fun j => H (S j))). lia.
  - pose proof (H 0%nat z eq_refl). pose proof (IH i (fun j => H (S j)) Hi). lia.
Qed.

Lemma sum_const {A} (f : A -> nat) m l : (forall i x, l !! i = Some x -> f x = m)%nat -> (sum_list_with f l = length l * m)%nat.
Proof.
  intros H. induction l as [|x l IH]; [done|]. cbn. rewrite (H 0%nat x eq_refl), IH; [done|]. intros i. apply (H (S i)).
Qed.

Lemma sum_pos {A} (f : A -> nat) l : (0 < sum_list_with f l)%nat -> exists i x, l !! i = Some x /\ (0 < f x)%nat.
Proof.
  induction l as [|x l IH]; cbn; [lia|]. intros H. destruct (decide (0 < f x)%nat) as [Hx|Hx]; [by exists 0%nat, x|].
  destruct IH as (i & y & Hi & Hy); [lia|]. by exists (S i), y.
Qed.

Section Quota.
Context (capacity : nat) (junk : Z) (Hcap : (0 < capacity)%nat).
Context (N n : nat) (Hn : (0 < n)%nat) (HN : (N <= capacity)%nat).

Notation Q := (quota N n).

Lemma quotas_fit : (n * Q <= N)%nat.
Proof. apply Nat.Div0.mul_div_le. Qed.

(** ** The invariant *)

Definition delivers (c : consumer Z) : nat := match at_ c, popped c with CIdle, Some true => 1 | _, _ => 0 end.

Definition taker_ok (x : taker) (c : consumer Z) : Prop :=
  if calling x then (consumed x < Q)%nat /\ length (received c) = (consumed x + delivers c)%nat
  else (consumed x <= Q)%nat /\ at_ c = CIdle /\ length (received c) = consumed x.

Record quota_ok (t : quota_test) (g : QueueSegment Z) : Prop := {
  qo_reachable : reachable capacity junk n (queue_of t);
  qo_segment : one_segment (queue_of t) g;
  qo_length : length (takers t) = n /\ length (consumers (queue_of t)) = n;
  qo_pushed : (length (pushed (queue_of t)) <= N)%nat /\ (prod (queue_of t) <> PIdle -> length (pushed (queue_of t)) < N)%nat;
  qo_total : total_taken t = Z.of_nat (sum_list_with consumed (takers t));
  qo_takers i x c : takers t !! i = Some x -> consumers (queue_of t) !! i = Some c -> taker_ok x c
}.

Lemma taker_claims x c : taker_ok x c -> (claims c <= Q)%nat
  /\ (calling x = true -> (claims c < Q)%nat \/ match at_ c with CRead _ _ | CSubSize _ => True | CIdle => popped c = Some true | _ => False end).
Proof.
  unfold taker_ok, claims, delivers. destruct (calling x).
  - intros [H1 ->]. destruct (at_ c); try (split; [lia|]; intros _; by auto); try (split; [lia|]; intros _; left; lia).
    destruct (popped c) as [[]|]; (split; [lia|]; intros _; by auto with lia).
  - intros (H1 & -> & ->). split; [lia|done].
Qed.

(** A step of the consumer [i] and of nothing else. *)
Lemma taker_moves t g t' g' i x c x' c' : quota_ok t g -> takers t !! i = Some x -> consumers (queue_of t) !! i = Some c ->
  reachable capacity junk n (queue_of t') -> one_segment (queue_of t') g' ->
  takers t' = <[i := x']> (takers t) -> consumers (queue_of t') = <[i := c']> (consumers (queue_of t)) ->
  prod (queue_of t') = prod (queue_of t) /\ pushed (queue_of t') = pushed (queue_of t) ->
  total_taken t' + Z.of_nat (consumed x) = total_taken t + Z.of_nat (consumed x') -> taker_ok x' c' -> quota_ok t' g'.
Proof.
  intros [_ _ [H1 H2] H3 H4 H5] Hx Hc Hr Ho Ex Ec [E1 E2] Et Hok. split; rewrite ?Ex, ?Ec, ?E1, ?E2, ?length_insert; try done.
  - pose proof (sum_insert consumed _ _ _ x' Hx). lia.
  - intros j xj cj [(<- & <- & _)|[Hj Hxj]]%list_lookup_insert_Some [(Hij & <- & _)|[Hj' Hcj]]%list_lookup_insert_Some; try done. by eapply H5.
Qed.

(** *** The steps of a consumer *)

(** The producer has ended. *)
Definition produced (t : quota_test) : Prop := prod (queue_of t) = PIdle /\ length (pushed (queue_of t)) = N.

Definition remaining (t : quota_test) : nat := sum_list_with (fun x => Q - consumed x)%nat (takers t).

(** How far the consumer [i] is from counting its next item. *)
Definition distance (g : QueueSegment Z) (t : quota_test) (i : nat) : nat :=
  match takers t !! i, consumers (queue_of t) !! i with
  | Some x, Some c => if calling x then rank g c else 10
  | _, _ => 0
  end.

Lemma item_left t g i x c : quota_ok t g -> produced t -> takers t !! i = Some x -> consumers (queue_of t) !! i = Some c ->
  calling x = true -> at_ c <> CIdle -> match at_ c with CRead _ _ | CSubSize _ => True | _ => (read_pos g < write_pos g)%nat end.
Proof.
  intros Hok [Hp Hl] Hx Hc Hca Ha. pose proof Hok as [H1 H2 [H3 H4] _ _ H5].
  destruct (taker_claims x c (H5 i x c Hx Hc)) as [_ Hcl]. specialize (Hcl Hca).
  assert (Hlt : (claims c < Q)%nat -> (read_pos g < write_pos g)%nat).
  { intros Hlt. destruct (one_segment_ok capacity junk Hcap n _ g H1 H2) as (_ & _ & _ & ->); [|by left]. rewrite Hl, (os_claims _ _ H2).
    eapply Nat.lt_le_trans; [|apply quotas_fit]. 
    enough (sum_list_with claims (consumers (queue_of t)) < length (consumers (queue_of t)) * Q)%nat as Hs by by rewrite H4 in Hs.
    eapply sum_bound_strict; [|exact Hc|exact Hlt]. intros j cj Hj. destruct (lookup_lt_is_Some_2 (takers t) j) as [xj Hxj]; [rewrite H3, <- H4; by eapply lookup_lt_Some|].
    by apply (taker_claims xj cj), (H5 j). }
  destruct Hcl as [Hcl|Hcl]; [specialize (Hlt Hcl); by destruct (at_ c)|]. by destruct (at_ c).
Qed.

Lemma take_step_ok t g e : quota_ok t g -> exists t', take_step capacity junk t e = Ok t'
  /\ (t' = t \/ exists q, SpmcQueue.step capacity junk (queue_of t) e = Ok (Some q) /\ reachable capacity junk n q
       /\ t' = QuotaTest q (total_taken t) (takers t)).
Proof.
  intros Hok. destruct (reachable_invariant capacity junk Hcap n _ (qo_reachable _ _ Hok)) as [slots Hi].
  destruct (invariant_step capacity junk Hcap _ slots e Hi) as [[q|] E]; unfold take_step; rewrite E; eexists; (split; [done|]); [|by left].
  right. exists q. split_and!; [done|by eapply reach_step; [apply Hok|]|done].
Qed.

(** The step brings the consumer [i] closer to its next item. *)
Definition advances (i : nat) (t : quota_test) (g : QueueSegment Z) (t' : quota_test) (g' : QueueSegment Z) : Prop :=
  (remaining t' < remaining t)%nat
  \/ remaining t' = remaining t /\ consumed <$> takers t' !! i = consumed <$> takers t !! i
     /\ (distance g' t' i < distance g t i)%nat.

Definition steps_well (i : nat) (t : quota_test) (g : QueueSegment Z) (r : result quota_test) : Prop :=
  exists t' g', r = Ok t' /\ quota_ok t' g' /\ (produced t -> produced t')
  /\ (produced t -> forall x, takers t !! i = Some x -> (consumed x < Q)%nat -> advances i t g t' g').

Lemma remaining_insert t i x x' : takers t !! i = Some x ->
  (sum_list_with (fun x => Q - consumed x)%nat (<[i := x']> (takers t)) + (Q - consumed x) = remaining t + (Q - consumed x'))%nat.
Proof. intros Hx. apply (sum_insert (fun x => Q - consumed x)%nat _ _ _ x' Hx). Qed.

Lemma remaining_same t i x b q total : takers t !! i = Some x ->
  let t' := QuotaTest q total (<[i := Taker (consumed x) b]> (takers t)) in
  remaining t' = remaining t /\ consumed <$> takers t' !! i = consumed <$> takers t !! i.
Proof.
  intros Hx t'. pose proof (remaining_insert t i x (Taker (consumed x) b) Hx) as Hr. unfold remaining in *. cbn in *. split; [lia|].
  rewrite list_lookup_insert_eq by (by eapply lookup_lt_Some). by rewrite Hx.
Qed.

(** *** In a call *)
Lemma call_goes_on t g i x c : quota_ok t g -> takers t !! i = Some x -> consumers (queue_of t) !! i = Some c ->
  calling x = true -> at_ c <> CIdle -> steps_well i t g (take_step capacity junk t (Consume i)).
Proof.
  intros Hok Hx Hc Hca Ha. pose proof (qo_takers _ _ Hok i x c Hx Hc) as Hth. unfold taker_ok in Hth. rewrite Hca in Hth.
  destruct (reachable_invariant capacity junk Hcap n _ (qo_reachable _ _ Hok)) as [slots Hi].
  destruct (consume_ok capacity Hcap _ slots i c Hi Hc Ha) as (q & _ & Eq & _).
  destruct (consume_one capacity junk Hcap n _ g i c q (qo_reachable _ _ Hok) (qo_segment _ _ Hok) Hc Ha Eq) as (c' & g' & [E1 E2 [E3 E3'] E4 E5 E6 E7 E8]).
  assert (Es : SpmcQueue.step capacity junk (queue_of t) (Consume i) = Ok (Some q)) by (cbn; by rewrite Hc).
  exists (QuotaTest q (total_taken t) (takers t)), g'. split_and!.
  - unfold take_step. by rewrite Es.
  - eapply (taker_moves t g _ g' i x c x c'); cbn; try done; [by eapply reach_step; [apply Hok|]|by rewrite list_insert_id|].
    unfold taker_ok. rewrite Hca. split; [apply Hth|]. destruct Hth as [_ Hth]. revert Hth E6. unfold delivers.
    destruct (at_ c); try done; intros Hth; (destruct (at_ c'); [intros [[-> Hl]|(-> & -> & _)]|intros -> ..]; lia).
  - intros [H1 H2]. split; cbn; by rewrite ?E3, ?E3'.
  - intros Hp x0 _ _. right. split_and!; [done..|]. unfold distance. cbn. rewrite Hx, Hc, Hca, E2.
    rewrite list_lookup_insert_eq by (by eapply lookup_lt_Some). apply E8. by eapply item_left.
Qed.

(** *** At the result of a call *)
Lemma call_ends t g i x c : quota_ok t g -> takers t !! i = Some x -> consumers (queue_of t) !! i = Some c ->
  calling x = true -> at_ c = CIdle ->
  steps_well i t g (Ok (match popped c with
    | Some true => QuotaTest (queue_of t) (total_taken t + 1) (<[i := Taker (S (consumed x)) false]> (takers t))
    | _ => with_taker t i (Taker (consumed x) false)
    end)).
Proof.
  intros Hok Hx Hc Hca Ha. pose proof (qo_takers _ _ Hok i x c Hx Hc) as Hth. unfold taker_ok, delivers in Hth. rewrite Hca, Ha in Hth.
  destruct Hth as [Hlt Hlen]. eexists _, g. split; [done|].
  assert (Hgo : forall k, length (received c) = (consumed x + k)%nat -> (k <= 1)%nat ->
    quota_ok (QuotaTest (queue_of t) (total_taken t + Z.of_nat k) (<[i := Taker (consumed x + k) false]> (takers t))) g).
  { intros k Hk Hk1. eapply (taker_moves t g _ g i x c (Taker (consumed x + k) false) c Hok Hx Hc); cbn; try apply Hok; try done; [by rewrite list_insert_id|lia|].
    unfold taker_ok. cbn. split_and!; [lia|done..]. }
  destruct (popped c) as [[]|] eqn:Ep.
  1: specialize (Hgo 1%nat Hlen ltac:(lia)); rewrite Nat.add_1_r in Hgo.
  2,3: specialize (Hgo 0%nat Hlen ltac:(lia)); rewrite Nat.add_0_r, Z.add_0_r in Hgo.
  all: split_and!; [done..|]; intros Hp x0 Hx0 Hl; rewrite Hx in Hx0; injection Hx0 as <-.
  { left. pose proof (remaining_insert t i x (Taker (S (consumed x)) false) Hx) as Hr. unfold remaining in Hr |- *. cbn in *. lia. }
  all: right; destruct (remaining_same t i x false (queue_of t) (total_taken t) Hx) as [H1 H2]; split_and!; [exact H1|exact H2|].
  all: unfold distance, with_taker; cbn [takers queue_of]; rewrite list_lookup_insert_eq by (by eapply lookup_lt_Some).
  all: rewrite Hx, Hc, Hca; unfold rank; rewrite Ha, Ep; cbn; lia.
Qed.

(** *** Between the calls *)
Lemma call_starts t g i x c : quota_ok t g -> takers t !! i = Some x -> consumers (queue_of t) !! i = Some c ->
  calling x = false -> (consumed x < Q)%nat ->
  steps_well i t g (t ← take_step capacity junk t (Pop i); Ok (with_taker t i (Taker (consumed x) true))).
Proof.
  intros Hok Hx Hc Hca Hlt. pose proof (qo_takers _ _ Hok i x c Hx Hc) as Hth. unfold taker_ok in Hth. rewrite Hca in Hth.
  destruct Hth as (_ & Ha & Hlen).
  destruct (pop_starts capacity junk Hcap n _ g i c (qo_reachable _ _ Hok) (qo_segment _ _ Hok) Hc Ha) as (E & Hr & Ho).
  unfold take_step. rewrite E. cbn [mbind result_bind]. eexists _, g. split_and!; [done|..].
  - eapply (taker_moves t g _ g i x c (Taker (consumed x) true) (Consumer CLoadHead (received c) (popped c)) Hok Hx Hc); [exact Hr|exact Ho|done..|].
    unfold taker_ok, delivers. cbn. split; [done|lia].
  - done.
  - intros Hp x0 _ _. right. destruct (remaining_same t i x true (move_consumer (queue_of t) i c CLoadHead) (total_taken t) Hx) as [H1 H2].
    split_and!; [exact H1|exact H2|]. unfold distance, with_taker. cbn [takers queue_of].
    rewrite list_lookup_insert_eq by (by eapply lookup_lt_Some). cbn. rewrite Hx, Hc, Hca.
    rewrite list_lookup_insert_eq by (by eapply lookup_lt_Some). cbn. lia.
Qed.

Lemma taker_steps_well t g i : quota_ok t g -> steps_well i t g (taker_step capacity junk N n t i).
Proof.
  intros Hok. unfold taker_step. destruct (takers t !! i) as [x|] eqn:Hx; [|by eexists t, g; rewrite Hx].
  destruct (lookup_lt_is_Some_2 (consumers (queue_of t)) i) as [c Hc].
  { destruct (qo_length _ _ Hok) as [H1 H2]. rewrite H2, <- H1. by eapply lookup_lt_Some. }
  rewrite Hc. destruct (calling x) eqn:Hca.
  - destruct (at_ c) eqn:Ha; [by eapply call_ends|..]; (eapply call_goes_on; [done..|by rewrite Ha]).
  - destruct (Nat.ltb_spec (consumed x) Q) as [Hl|Hl]; [by eapply call_starts|]. eexists t, g. split_and!; [done..|].
    intros _ x0 Hx0 Hl0. rewrite Hx in Hx0. injection Hx0 as <-. lia.
Qed.

(** *** The producer *)
Lemma pusher_quota_ok t g : quota_ok t g -> exists t' g', pusher_step capacity junk N t = Ok t' /\ quota_ok t' g'
  /\ ((length (pushed (queue_of t)) < N)%nat -> (push_left N (queue_of t') < push_left N (queue_of t))%nat).
Proof.
  intros Hok. pose proof Hok as [H1 H2 H3 [_ Hlt] H5 H6]. unfold pusher_step.
  destruct (decide (length (pushed (queue_of t)) < N)%nat) as [Hl|Hl].
  - destruct (producer_runs capacity junk Hcap n N _ g (Z.of_nat (length (pushed (queue_of t)))) HN H1 H2 Hl)
      as (q & g' & E & Hr & Ho & Hc & Hrd & Hpu & Hle).
    exists (QuotaTest q (total_taken t) (takers t)), g'. rewrite (proj2 (Nat.ltb_lt _ _) Hl). split_and!; [|split; cbn; rewrite ?Hc; done|done].
    unfold take_step. by destruct (prod (queue_of t)); rewrite E.
  - destruct (prod (queue_of t)) eqn:Ep; [|destruct Hl; by apply Hlt..]. rewrite (proj2 (Nat.ltb_ge _ _)) by lia. by exists t, g.
Qed.

(** ** All steps *)

Lemma quota_steps_ok l : forall t g, quota_ok t g -> exists t' g', quota_steps capacity junk N n t l = Ok t' /\ quota_ok t' g'.
Proof.
  induction l as [|e l IH]; intros t g Hok; cbn [quota_steps]; [by eexists t, g|].
  assert (exists t' g', quota_step capacity junk N n t e = Ok t' /\ quota_ok t' g') as (t' & g' & -> & Hok').
  { destruct e as [i|]; [destruct (taker_steps_well t g i Hok) as (t' & g' & E & Hok' & _)|destruct (pusher_quota_ok t g Hok) as (t' & g' & E & Hok' & _)];
      by exists t', g'. }
  by eapply IH.
Qed.

(** From [t] the threads can go on to a state with [P]. *)
Definition leads (t : quota_test) (P : quota_test -> Prop) : Prop :=
  exists l t' g', quota_steps capacity junk N n t l = Ok t' /\ quota_ok t' g' /\ P t'.

Lemma go_on_step t e t' P : quota_step capacity junk N n t e = Ok t' -> leads t' P -> leads t P.
Proof. intros E (l & t2 & g2 & E2 & H). exists (e :: l), t2, g2. split; [|done]. cbn. rewrite E. done. Qed.

Lemma go_on_trans t P R : leads t P -> (forall t' g', quota_ok t' g' -> P t' -> leads t' R) -> leads t R.
Proof.
  intros (l & t1 & g1 & E1 & Hok & HP) Hr. specialize (Hr t1 g1 Hok HP). clear -E1 Hr. revert t E1.
  induction l as [|e l IH]; intros t E1; cbn in E1; [by injection E1 as ->|].
  destruct (quota_step capacity junk N n t e) as [t2| |] eqn:E; [|done..]. eapply go_on_step; [done|by apply IH].
Qed.

Lemma producer_can_end k : forall t g, quota_ok t g -> (push_left N (queue_of t) <= k)%nat -> leads t produced.
Proof.
  induction k as [|k IH]; intros t g Hok Hk; (destruct (decide (length (pushed (queue_of t)) < N)%nat) as [Hl|Hl];
    [destruct (pusher_quota_ok t g Hok) as (t' & g' & E & Hok' & Hle); specialize (Hle Hl)
    |exists [], t, g; split_and!; [done..|]; destruct (qo_pushed _ _ Hok) as [Hle Hlt]]).
  - lia.
  - split; [destruct (prod (queue_of t)); [done|destruct Hl; by apply Hlt..]|lia].
  - apply (go_on_step t None t'); [done|]. eapply IH; [done|lia].
  - split; [destruct (prod (queue_of t)); [done|destruct Hl; by apply Hlt..]|lia].
Qed.

(** A consumer that has not ended can take its next item. *)
Lemma taker_can_count i k : forall t g x, quota_ok t g -> produced t -> (distance g t i <= k)%nat ->
  takers t !! i = Some x -> (consumed x < Q)%nat -> leads t (fun t' => produced t' /\ remaining t' < remaining t)%nat.
Proof.
  induction k as [|k IH]; intros t g x Hok Hp Hk Hx Hl;
    destruct (taker_steps_well t g i Hok) as (t' & g' & E & Hok' & Hp' & Ha);
    specialize (Hp' Hp); (destruct (Ha Hp x Hx Hl) as [Hr|(Hr & Hc & Hd)]; [exists [Some i], t', g'; cbn; by rewrite E|]); [lia|].
  rewrite Hx in Hc. cbn in Hc. destruct (takers t' !! i) as [x'|] eqn:Hx'; [|done]. injection Hc as Hc.
  apply (go_on_step t (Some i) t'); [done|]. rewrite <- Hr. apply (IH t' g' x'); try done; [lia|by rewrite Hc].
Qed.

Lemma takers_can_end k : forall t g, quota_ok t g -> produced t -> (remaining t <= k)%nat -> leads t (fun t' => produced t' /\ remaining t' = 0%nat).
Proof.
  induction k as [|k IH]; intros t g Hok Hp Hk; [exists [], t, g; split_and!; [done..|]; lia|].
  destruct (decide (0 < remaining t)%nat) as [Hr|Hr]; [|exists [], t, g; split_and!; [done..|]; lia].
  apply sum_pos in Hr as (i & x & Hx & Hl). eapply go_on_trans.
  - apply (taker_can_count i (distance g t i) t g x); try done; lia.
  - intros t' g' Hok' [Hp' Hlt]. apply (IH t' g'); [done..|lia].
Qed.

Lemma ended_all t g : quota_ok t g -> (forall i x, takers t !! i = Some x -> (Q <= consumed x)%nat) ->
  total_taken t = Z.of_nat (n * Q) /\ forall i x, takers t !! i = Some x -> calling x = false.
Proof.
  intros Hok He. pose proof Hok as [_ _ [H1 H2] _ -> H6].
  assert (Hx : forall i x, takers t !! i = Some x -> consumed x = Q /\ calling x = false).
  { intros i x Hx. destruct (lookup_lt_is_Some_2 (consumers (queue_of t)) i) as [c Hc]; [rewrite H2, <- H1; by eapply lookup_lt_Some|].
    specialize (H6 i x c Hx Hc). specialize (He i x Hx). unfold taker_ok in H6. destruct (calling x); [lia|]. split; [lia|done]. }
  split; [|intros i x E; by destruct (Hx i x E)]. rewrite (sum_const consumed Q), H1; [done|]. intros i x E. by destruct (Hx i x E).
Qed.

Lemma joined_total t g : quota_ok t g -> all_joined N n t = true -> total_taken t = Z.of_nat (n * Q).
Proof.
  intros Hok [_ Hj]%andb_true_iff. rewrite forallb_forall in Hj. eapply ended_all; [done|]. intros i x Hx.
  specialize (Hj x ltac:(apply list_elem_of_In; by eapply list_elem_of_lookup_2)). apply andb_true_iff in Hj as [_ Hj]. by apply Nat.leb_le.
Qed.

Lemma remaining_joined t g : quota_ok t g -> produced t -> remaining t = 0%nat -> all_joined N n t = true.
Proof.
  intros Hok [Hp Hl] Hr. assert (forall i x, takers t !! i = Some x -> (Q <= consumed x)%nat) as He.
  { intros i x Hx. pose proof (remaining_insert t i x (Taker Q false) Hx) as Hi. cbn in Hi. lia. }
  destruct (ended_all t g Hok He) as [_ Hc]. unfold all_joined. rewrite Hp, Hl, Nat.leb_refl. apply forallb_forall.
  intros x Hx. apply list_elem_of_In, list_elem_of_lookup_1 in Hx as [i Hi]. rewrite (Hc i x Hi). cbn. by apply Nat.leb_le, (He i).
Qed.

Lemma new_quota_ok : quota_ok (new_quota_test capacity junk n) (new_segment capacity junk).
Proof.
  destruct (new_test_ok capacity junk Hcap n N) as [H1 H2 _ H4 _ _ _].
  split; cbn [new_quota_test queue_of total_taken takers]; try done.
  - split; [apply length_replicate|apply repeat_length].
  - rewrite (sum_const consumed 0); [lia|]. by intros i x [-> _]%lookup_replicate.
  - intros i x c [-> _]%lookup_replicate Hc. cbn in Hc. apply list_elem_of_lookup_2, list_elem_of_In, repeat_spec in Hc as ->.
    split_and!; [apply Nat.le_0_l|done..].
Qed.

(** C32: [SingleProducerMultipleConsumers], whose items fit into one segment: no step of it goes
    wrong; whatever the threads did, they can go on until all of them have ended; and then
    every consumer has taken its share, so that with shares of equal size every item is
    counted. *)
Theorem quota_test_completes (l : list (option nat)) :
  exists t, quota_steps capacity junk N n (new_quota_test capacity junk n) l = Ok t
  /\ (all_joined N n t = true -> total_taken t = Z.of_nat (n * Q))
  /\ exists l' t', quota_steps capacity junk N n t l' = Ok t' /\ all_joined N n t' = true.
Proof.
  destruct (quota_steps_ok l _ _ new_quota_ok) as (t & g & E & Hok). exists t. split; [done|]. split; [by eapply joined_total|].
  destruct (go_on_trans t produced (fun t' => produced t' /\ remaining t' = 0%nat)) as (l' & t' & g' & E' & Hok' & Hp & Hr).
  - by eapply producer_can_end.
  - intros t' g' Hok' Hp. by eapply takers_can_end.
  - exists l', t'. split; [done|by eapply remaining_joined].
Qed.

End Quota.

(** Two consumers of one item each; the first one looks before there is an item. *)
Definition quota_turns : list (option nat) := repeat (Some 0%nat) 6 ++ repeat None 12 ++ repeat (Some 1%nat) 8.

Lemma quota_test_completes_witness : exists t,
  quota_steps 4 0 2 2 (new_quota_test 4 0 2) quota_turns = Ok t /\ total_taken t = 1
  /\ exists l' t', quota_steps 4 0 2 2 t l' = Ok t' /\ all_joined 2 2 t' = true.
Proof.
  destruct (quota_test_completes 4 0 ltac:(lia) 2 2 ltac:(lia) ltac:(lia) quota_turns) as (t & E & _ & H).
  exists t. split; [exact E|]. split; [|exact H]. vm_compute in E. by injection E as <-.
Defined.
