(* ===== verification/SpmcPrograms.v ===== *)
(** The programs beside the queue, src/opencode-demo2/src/producer.cpp and consumer.cpp (the
    files of opencode-vibe-demo are the same): the message, and the loops of the two [main]
    functions over the queue, the clock, the random numbers and the signals.

    The arguments are the numbers that [std::stoi] makes of the texts. Sleeping takes time,
    which the clock tells, and printing is left out except for the numbers of the progress
    reports, whose conversion to [int] can be undefined. *)

From S2P Require Import Prelude Result.
From Stdlib Require Import Ascii.
From stdpp Require Import strings pretty.
#[local] Open Scope Z_scope.

(** ** The message *)

Record IPCMessage := Message {
  timestamp : Z;
  producer_id : Z;
  sequence : Z;
  payload : list ascii       (* [char payload[64]] *)
}.

Definition NUL : ascii := Ascii.zero.
Definition payload_size : nat := 64.

(** A C string: what comes before the first NUL. *)
Fixpoint c_str (l : list ascii) : list ascii :=
  match l with
  | [] => []
  | c :: l => if decide (c = NUL) then [] else c :: c_str l
  end.

(** [strncpy]: at most [n] characters, filled up with NUL. *)
Definition strncpy (n : nat) (s : list ascii) : list ascii :=
  let s := take n (c_str s) in s ++ replicate (n - length s) NUL.

(** [IPCMessage()] *)
Definition IPCMessage0 : IPCMessage := Message 0 0 0 (replicate payload_size NUL).

(** [IPCMessage(prod_id, seq, data)] at the time [now] in milliseconds. *)
Definition IPCMessage_of (now prod_id seq : Z) (data : string) : IPCMessage :=
  Message (wrap_u 64 now) (wrap_u 32 prod_id) (wrap_u 32 seq) (strncpy (payload_size - 1) (String.list_ascii_of_string data) ++ [NUL]).

(** [operator==] *)
Definition message_eqb (a b : IPCMessage) : bool :=
  (timestamp a =? timestamp b) && (producer_id a =? producer_id b) && (sequence a =? sequence b)
  && bool_decide (c_str (payload a) = c_str (payload b)).

(** The text of the message [i], with the number [d]. *)
Definition payload_text (producer i d : Z) : string :=
  "Producer_" +:+ pretty producer +:+ "_Message_" +:+ pretty i +:+ "_Data_" +:+ pretty d.

(** ** What is around the programs *)

(** The state [W] of everything outside: the queue, the signals, the clocks in nanoseconds
    and milliseconds, and the random numbers. *)
Class World (W : Type) := {
  try_push : W -> IPCMessage -> bool * W;
  try_pop : W -> option IPCMessage * W;
  queue_size : W -> Z;
  stopped : W -> bool * W;
  now : W -> Z * W;
  system_now : W -> Z * W;
  data_dist : W -> Z * W
}.

(** What went into the queue and came out of it, and whether a signal has come: [stop] is
    never taken back. *)
Class Account (W : Type) := { accepted : W -> list IPCMessage; taken : W -> list IPCMessage; halted : W -> bool }.

Record keeps `{Account W} (w w' : W) : Prop := {
  K_accepted : accepted w' = accepted w;
  K_taken : taken w' = taken w;
  K_halted : halted w -> halted w'
}.

Class WorldLaws (W : Type) `{World W, Account W} := {
  push_law w m b w' : try_push w m = (b, w') ->
    accepted w' = accepted w ++ (if b then [m] else []) /\ taken w' = taken w /\ (halted w -> halted w');
  pop_law w o w' : try_pop w = (o, w') ->
    taken w' = taken w ++ option_list o /\ accepted w' = accepted w /\ (halted w -> halted w');
  stopped_law w b w' : stopped w = (b, w') -> keeps w w' /\ (b -> halted w') /\ (halted w -> b);
  now_law w t w' : now w = (t, w') -> keeps w w';
  system_law w t w' : system_now w = (t, w') -> keeps w w';
  data_law w d w' : data_dist w = (d, w') -> keeps w w'
}.

(** ** The progress reports *)

(** A report: the messages so far, the two rates, the size of the queue. *)
Record report := Report { r_messages : Z; r_rate : Z; r_overall : Z; r_size : Z }.

(** [static_cast<int>(n * 1000000.0 / t)]: the product is below 2^53, so that the double
    that is cast has the integer part of the exact quotient. *)
Definition rate_of (n t : Z) : result Z :=
  if t =? 0 then Undefined
  else let q := Z.quot (n * 1000000) t in if (- 2 ^ 31 <=? q) && (q <? 2 ^ 31) then Ok q else Undefined.

(** The variables of the reports: [messages_produced] or [messages_consumed], [last_report],
    [last_report_count], and what was reported. *)
Record progress := Progress { messages : Z; last_report : Z; last_report_count : Z; reports : list report }.

(** A message was transferred; [t] is the time. *)
Definition count_message (start_time t size : Z) (g : progress) : result progress :=
  n ← (if messages g + 1 <? 2 ^ 31 then Ok (messages g + 1) else Undefined);
  let elapsed := Z.quot (t - last_report g) 1000000000 in
  if 1 <=? elapsed then
    let total_elapsed := Z.quot (t - start_time) 1000 in
    rate ← rate_of (n - last_report_count g) elapsed;
    overall_rate ← rate_of n total_elapsed;
    Ok (Progress n t n (reports g ++ [Report n rate overall_rate size]))
  else Ok (Progress n (last_report g) (last_report_count g) (reports g)).

(** ** The producer *)

Section Programs.
Context {W : Type} `{World W}.

(** The attempts to push a message: [fuel] of the 1000 are left. *)
Fixpoint push_attempts (fuel : nat) (msg : IPCMessage) (w : W) : bool * W :=
  match fuel with
  | O => (false, w)
  | S fuel =>
    let (stop, w) := stopped w in
    if stop then (false, w)
    else
      let (pushed, w) := try_push w msg in
      if pushed then (true, w) else push_attempts fuel msg w
  end.

(** How the loop of the producer ends. *)
Inductive ending := All_sent | Stopped | Gave_up.

(** The messages from [i] on, of which [rest] are left. *)
Fixpoint produce (producer start_time : Z) (rest : nat) (i : Z) (g : progress) (w : W) : result (ending * progress * W) :=
  match rest with
  | O => Ok (All_sent, g, w)
  | S rest =>
    let (stop, w) := stopped w in
    if stop then Ok (Stopped, g, w)
    else
      let (d, w) := data_dist w in
      let (ms, w) := system_now w in
      let msg := IPCMessage_of ms producer i (payload_text producer i d) in
      let (pushed, w) := push_attempts 1000 msg w in
      if pushed then
        let (t, w) := now w in
        g ← count_message start_time t (queue_size w) g;
        produce producer start_time rest (i + 1) g w
      else
        let (stop, w) := stopped w in
        if stop then produce producer start_time rest (i + 1) g w else Ok (Gave_up, g, w)
  end.

(** [main] of the producer, once it has the queue. *)
Definition producer_main (num_messages producer : Z) (w : W) : result (ending * progress * W) :=
  let (start_time, w) := now w in
  produce producer start_time (Z.to_nat num_messages) 0 (Progress 0 start_time 0 []) w.

(** ** The consumer *)

(** The attempts to pop a message: [fuel] of the 10 are left. *)
Fixpoint pop_attempts (fuel : nat) (w : W) : bool * W :=
  match fuel with
  | O => (false, w)
  | S fuel =>
    let (stop, w) := stopped w in
    if stop then (false, w)
    else
      let (msg, w) := try_pop w in
      match msg with Some _ => (true, w) | None => pop_attempts fuel w end
  end.

(** [end_time] is [None] for the last time there is. [Ok None] when the fuel runs out. *)
Fixpoint consume (fuel : nat) (start_time : Z) (end_time : option Z) (g : progress) (w : W) : result (option (progress * W)) :=
  match fuel with
  | O => Ok None
  | S fuel =>
    let (t, w) := now w in
    if from_option (fun e => e <=? t) false end_time then Ok (Some (g, w))
    else
      let (stop, w) := stopped w in
      if stop then Ok (Some (g, w))
      else
        let (consumed, w) := pop_attempts 10 w in
        if consumed then
          let (t, w) := now w in
          g ← count_message start_time t (queue_size w) g;
          consume fuel start_time end_time g w
        else consume fuel start_time end_time g w
  end.

(** [main] of the consumer, once it has the queue. *)
Definition consumer_main (fuel : nat) (duration_ms : Z) (w : W) : result (option (progress * W)) :=
  let (start_time, w) := now w in
  let end_time := if 0 <? duration_ms then Some (start_time + duration_ms * 1000000) else None in
  consume fuel start_time end_time (Progress 0 start_time 0 []) w.

End Programs.

(** ** The text of a message *)

#[local] Notation chars := String.list_ascii_of_string.

Lemma chars_app (a b : string) : chars (a +:+ b) = chars a ++ chars b.
Proof. induction a as [|c a IH]; [done|]. change (c :: chars (a +:+ b) = c :: chars a ++ chars b). by rewrite IH. Qed.

Lemma c_str_clean l : NUL ∉ l -> c_str l = l.
Proof. induction l as [|c l IH]; intros Hl; [done|]. apply not_elem_of_cons in Hl as [Hc Hl]. cbn. rewrite decide_False by done. by rewrite IH. Qed.

Lemma c_str_no_nul l : NUL ∉ c_str l.
Proof. induction l as [|c l IH]; cbn; [apply not_elem_of_nil|]. case_decide; [apply not_elem_of_nil|]. by apply not_elem_of_cons. Qed.

Lemma c_str_padded l n : NUL ∉ l -> c_str (l ++ replicate (S n) NUL) = l.
Proof. induction l as [|c l IH]; intros Hl; [done|]. apply not_elem_of_cons in Hl as [Hc Hl]. cbn. rewrite decide_False by done. f_equal. by apply IH. Qed.

(** A digit of a number, and numbers of [k] digits. *)
Lemma digit_not_nul n : pretty_N_char n <> NUL.
Proof. unfold pretty_N_char. by repeat case_match. Qed.

Lemma pretty_go_digits (k : nat) : forall (n : N) s, (n < 10 ^ N.of_nat k)%N -> NUL ∉ chars s ->
  NUL ∉ chars (pretty_N_go n s) /\ (length (chars (pretty_N_go n s)) <= k + length (chars s))%nat.
Proof.
  induction k as [|k IH]; intros n s Hn Hs.
  - assert (n = 0)%N as -> by (cbn in Hn; lia). by rewrite pretty_N_go_0.
  - destruct (decide (n = 0)%N) as [->|Hz]; [rewrite pretty_N_go_0; split; [done|lia]|]. rewrite pretty_N_go_step by lia.
    destruct (IH (n `div` 10)%N (String (pretty_N_char (n `mod` 10)) s)) as [H1 H2].
    + apply N.Div0.div_lt_upper_bound. rewrite Nat2N.inj_succ, N.pow_succ_r' in Hn. lia.
    + cbn. apply not_elem_of_cons. split; [|done]. intros E. by apply (digit_not_nul (n `mod` 10)%N).
    + split; [done|]. cbn [String.list_ascii_of_string length] in H2. lia.
Qed.

Lemma number_digits (k : nat) (z : Z) : - 10 ^ Z.of_nat k < z < 10 ^ Z.of_nat k -> (0 < k)%nat ->
  NUL ∉ chars (pretty z) /\ (length (chars (pretty z)) <= S k)%nat /\ (0 <= z -> (length (chars (pretty z)) <= k)%nat).
Proof.
  intros Hz Hk. assert (forall p : positive, Z.pos p < 10 ^ Z.of_nat k ->
    NUL ∉ chars (pretty p) /\ (length (chars (pretty p)) <= k)%nat) as Hp.
  { intros p Hp. unfold pretty, pretty_positive, pretty, pretty_N. rewrite decide_False by done.
    destruct (pretty_go_digits k (N.pos p) "") as [H1 H2]; [|apply not_elem_of_nil|].
    - apply N2Z.inj_lt. rewrite N2Z.inj_pow, nat_N_Z. exact Hp.
    - split; [done|]. cbn [String.list_ascii_of_string length] in H2. lia. }
  destruct z as [|p|p]; unfold pretty, pretty_Z.
  - cbn. split_and!; [|lia|lia]. apply not_elem_of_cons. split; [done|apply not_elem_of_nil].
  - destruct (Hp p ltac:(lia)). split_and!; [done|lia|done].
  - destruct (Hp p ltac:(lia)) as [H1 H2]. rewrite chars_app. cbn. split_and!; [by apply not_elem_of_cons; split|lia|lia].
Qed.

Lemma clean_app l l' : NUL ∉ l -> NUL ∉ l' -> NUL ∉ l ++ l'.
Proof. intros H1 H2. rewrite elem_of_app. tauto. Qed.

Ltac clean_text := refine (proj1 (bool_decide_eq_true _) _); vm_compute; reflexivity.

(** For the numbers that the program has, the text of a message has no NUL and at most 49
    characters. *)
Lemma payload_text_short producer i d : - 2 ^ 31 <= producer < 2 ^ 31 -> 0 <= i < 2 ^ 31 -> 1 <= d <= 1000 ->
  NUL ∉ chars (payload_text producer i d) /\ (length (chars (payload_text producer i d)) <= 49)%nat.
Proof.
  intros Hp Hi Hd. destruct (number_digits 10 producer) as (H1 & H2 & _); [lia..|].
  destruct (number_digits 10 i) as (H3 & _ & H4); [lia..|]. destruct (number_digits 4 d) as (H5 & _ & H6); [lia..|].
  unfold payload_text. rewrite !chars_app, !length_app. split.
  - repeat apply clean_app; try done; clean_text.
  - specialize (H4 ltac:(lia)). specialize (H6 ltac:(lia)).
    change (length (chars "Producer_")) with 9%nat. change (length (chars "_Message_")) with 9%nat. change (length (chars "_Data_")) with 6%nat. lia.
Qed.

(** The payload of a message that the producer makes is its whole text, filled up with
    NUL to the size of the field, and the text can be read back. *)
Theorem payload_fits ms producer i d : - 2 ^ 31 <= producer < 2 ^ 31 -> 0 <= i < 2 ^ 31 -> 1 <= d <= 1000 ->
  let s := chars (payload_text producer i d) in
  let m := IPCMessage_of ms producer i (payload_text producer i d) in
  payload m = s ++ replicate (64 - length s) NUL /\ length (payload m) = 64%nat /\ c_str (payload m) = s /\ sequence m = i.
Proof.
  intros Hp Hi Hd s m. destruct (payload_text_short producer i d Hp Hi Hd) as [Hn Hl]. fold s in Hn, Hl.
  assert (payload m = s ++ replicate (64 - length s) NUL) as E.
  { unfold m, IPCMessage_of, strncpy, payload_size. cbn [payload]. fold s. rewrite (c_str_clean s Hn), take_ge by (cbn; lia).
    rewrite <- (assoc_L (++)). f_equal. replace (64 - length s)%nat with ((64 - 1 - length s) + 1)%nat by lia. by rewrite replicate_add. }
  rewrite E. split_and!; [done| | |].
  - rewrite length_app, length_replicate. lia.
  - replace (64 - length s)%nat with (S (63 - length s)) by lia. by apply c_str_padded.
  - cbn. apply wrap_u_small. lia.
Qed.

(** What the constructor makes of a text. *)
Lemma c_str_strncpy n s : c_str (strncpy n s ++ [NUL]) = take n (c_str s).
Proof.
  unfold strncpy. rewrite <- (assoc_L (++)). change [NUL] with (replicate 1 NUL). rewrite <- replicate_add, Nat.add_comm. apply c_str_padded.
  intros Hin. apply (c_str_no_nul s). rewrite <- (take_drop n (c_str s)). apply elem_of_app. by left.
Qed.

(** On messages that were constructed the comparison is equality, although it looks only at
    what comes before the NUL. *)
Theorem message_eqb_spec t p q x t' p' q' x' :
  message_eqb (IPCMessage_of t p q x) (IPCMessage_of t' p' q' x') = true <-> IPCMessage_of t p q x = IPCMessage_of t' p' q' x'.
Proof.
  unfold message_eqb. rewrite !andb_true_iff, !Z.eqb_eq, bool_decide_eq_true. split; [|by intros ->].
  intros [[[Ht Hp] Hq] Hc]. unfold IPCMessage_of in *. cbn [timestamp producer_id sequence payload] in *.
  rewrite !c_str_strncpy in Hc. unfold strncpy. by rewrite Ht, Hp, Hq, Hc.
Qed.

(** ** The reports *)

(** The printed rate is a million times the messages per second: [elapsed] is in seconds
    already. *)
Lemma rate_of_seconds n t : 0 < t -> 0 <= n -> n * 1000000 < 2 ^ 31 * t -> rate_of n t = Ok (n * 1000000 / t).
Proof.
  intros Ht Hn Hr. unfold rate_of. destruct (Z.eqb_spec t 0); [lia|]. rewrite Z.quot_div_nonneg by lia.
  assert (0 <= n * 1000000 / t) by (apply Z.div_pos; lia).
  assert (n * 1000000 / t < 2 ^ 31) by (apply Z.div_lt_upper_bound; lia).
  by rewrite (proj2 (Z.leb_le _ _)), (proj2 (Z.ltb_lt _ _)) by lia.
Qed.

Lemma rate_of_overflow n t : 0 < t -> 2148 * t <= n -> rate_of n t = Undefined.
Proof.
  intros Ht Hn. unfold rate_of. destruct (Z.eqb_spec t 0); [lia|]. rewrite Z.quot_div_nonneg by lia.
  assert (2 ^ 31 <= n * 1000000 / t) by (apply Z.div_le_lower_bound; lia).
  by rewrite (proj2 (Z.ltb_ge _ _)), andb_false_r by lia.
Qed.

(** A report is undefined as soon as 2148 messages per second were transferred since the
    last one. *)
Theorem fast_reports_undefined start_time t size g : 1000000000 <= t - last_report g ->
  2148 * ((t - last_report g) / 1000000000) <= messages g + 1 - last_report_count g ->
  count_message start_time t size g = Undefined.
Proof.
  intros Ht Hn. unfold count_message. destruct (_ <? 2 ^ 31); [|done]. cbn [mbind result_bind].
  rewrite Z.quot_div_nonneg by lia. assert (1 <= (t - last_report g) / 1000000000) as He by (apply Z.div_le_lower_bound; lia).
  rewrite (proj2 (Z.leb_le _ _)) by done. 
  rewrite (rate_of_overflow (messages g + 1 - last_report_count g) ((t - last_report g) / 1000000000)) by lia.
  reflexivity.
Qed.

Lemma count_message_Ok start_time t size g g' : count_message start_time t size g = Ok g' -> messages g' = messages g + 1.
Proof.
  unfold count_message. intros E. destruct (_ <? 2 ^ 31); [|done]. cbn in E. destruct (1 <=? _); [|by simplify_eq].
  destruct (rate_of (messages g + 1 - last_report_count g) _) as [r| |]; cbn in E; [|done..].
  destruct (rate_of (messages g + 1) _) as [r'| |]; cbn in E; [by simplify_eq|done..].
Qed.

(** ** What the loops do *)

Section Loops.
Context {W : Type} `{WorldLaws W}.

Lemma keeps_refl (w : W) : keeps w w.
Proof. done. Qed.

Lemma keeps_trans (w w1 w2 : W) : keeps w w1 -> keeps w1 w2 -> keeps w w2.
Proof. intros [] []. split; [congruence..|auto]. Qed.

(** A message is pushed once or not at all, and if not, a signal came or 1000 attempts
    failed. *)
Lemma push_attempts_spec fuel : forall msg (w w' : W) b, push_attempts fuel msg w = (b, w') ->
  accepted w' = accepted w ++ (if b then [msg] else []) /\ taken w' = taken w /\ (halted w -> halted w').
Proof.
  induction fuel as [|fuel IH]; intros msg w w' b E; cbn in E.
  - simplify_eq. by rewrite app_nil_r.
  - destruct (stopped w) as [st w1] eqn:E1. destruct (stopped_law _ _ _ E1) as [[K1 K2 K3] _].
    destruct st; [simplify_eq; rewrite app_nil_r; naive_solver|].
    destruct (try_push w1 msg) as [pu w2] eqn:E2. destruct (push_law _ _ _ _ E2) as (P1 & P2 & P3).
    destruct pu; [simplify_eq; rewrite P1, K1, P2, K2; naive_solver|].
    destruct (IH _ _ _ _ E) as (I1 & I2 & I3). rewrite I1, P1, K1, app_nil_r, I2, P2, K2. naive_solver.
Qed.

Lemma pop_attempts_spec fuel : forall (w w' : W) b, pop_attempts fuel w = (b, w') ->
  exists l, taken w' = taken w ++ l /\ length l = (if b then 1 else 0)%nat /\ accepted w' = accepted w /\ (halted w -> halted w').
Proof.
  induction fuel as [|fuel IH]; intros w w' b E; cbn in E.
  - simplify_eq. exists []. by rewrite app_nil_r.
  - destruct (stopped w) as [st w1] eqn:E1. destruct (stopped_law _ _ _ E1) as [[K1 K2 K3] _].
    destruct st; [simplify_eq; exists []; rewrite app_nil_r; naive_solver|].
    destruct (try_pop w1) as [o w2] eqn:E2. destruct (pop_law _ _ _ E2) as (P1 & P2 & P3).
    destruct o as [m|]; [simplify_eq; exists [m]; rewrite P1, K2, P2, K1; naive_solver|].
    destruct (IH _ _ _ E) as (l & I1 & I2 & I3 & I4). exists l. rewrite I1, P1, K2, app_nil_r, I3, P2, K1. naive_solver.
Qed.

(** The messages [l] are those with the numbers from [i] on. *)
Definition numbered (producer i : Z) (l : list IPCMessage) : Prop :=
  forall k m, l !! k = Some m -> exists ms d, let n := i + Z.of_nat k in m = IPCMessage_of ms producer n (payload_text producer n d).

Lemma numbered_cons producer i m l : (exists ms d, m = IPCMessage_of ms producer i (payload_text producer i d)) ->
  numbered producer (i + 1) l -> numbered producer i (m :: l).
Proof.
  intros Hm Hl [|k] m' Hk; cbn in Hk.
  - simplify_eq. destruct Hm as (ms & d & ->). exists ms, d. cbn. by rewrite Z.add_0_r.
  - destruct (Hl k m' Hk) as (ms & d & ->). exists ms, d. cbn. by replace (i + Z.of_nat (S k)) with (i + 1 + Z.of_nat k) by lia.
Qed.

(** What is known of the messages [l] that a loop has sent, of [rest] that were to be sent. *)
Definition sent_so (e : ending) (rest : nat) (l : list IPCMessage) (w : W) : Prop :=
  (length l <= rest)%nat /\
  match e with
  | All_sent => length l = rest \/ halted w
  | Stopped => halted w
  | Gave_up => (length l < rest)%nat
  end.

Lemma halted_produce producer start_time rest : forall i g (w : W) e g' w', halted w ->
  produce producer start_time rest i g w = Ok (e, g', w') -> keeps w w' /\ g' = g /\ sent_so e rest [] w'.
Proof.
  destruct rest as [|rest]; intros i g w e g' w' Hh E; cbn in E.
  - simplify_eq. split_and!; try done. split; [done|by left].
  - destruct (stopped w) as [st w1] eqn:E1. destruct (stopped_law _ _ _ E1) as (K & K' & Hst). specialize (Hst Hh).
    destruct st; [|done]. simplify_eq. split_and!; [done|done|]. split; [cbn; lia|by apply K'].
Qed.

Lemma produce_spec producer start_time rest : forall i g (w : W) e g' w',
  produce producer start_time rest i g w = Ok (e, g', w') ->
  exists l, accepted w' = accepted w ++ l /\ numbered producer i l /\ taken w' = taken w
    /\ messages g' = messages g + Z.of_nat (length l) /\ (halted w -> halted w') /\ sent_so e rest l w'.
Proof.
  induction rest as [|rest IH]; intros i g w e g' w' E; cbn [produce] in E.
  - simplify_eq. exists []. rewrite app_nil_r. split_and!; try done; [cbn; lia|]. split; [done|by left].
  - destruct (stopped w) as [st w1] eqn:E1. destruct (stopped_law _ _ _ E1) as (K1 & Hst & _).
    destruct st.
    { simplify_eq. exists []. destruct K1 as [-> -> Hh]. rewrite app_nil_r. split_and!; try done; [cbn; lia|]. split; [cbn; lia|by apply Hst]. }
    destruct (data_dist w1) as [d w2] eqn:E2. pose proof (data_law _ _ _ E2) as K2.
    destruct (system_now w2) as [ms w3] eqn:E3. pose proof (system_law _ _ _ E3) as K3.
    pose proof (keeps_trans _ _ _ K1 (keeps_trans _ _ _ K2 K3)) as [A3 T3 H3]. clear K1 K2 K3 Hst.
    destruct (push_attempts _ _ w3) as [pu w4] eqn:E4. destruct (push_attempts_spec _ _ _ _ _ E4) as (A4 & T4 & H4).
    destruct pu.
    + destruct (now w4) as [t w5] eqn:E5. destruct (now_law _ _ _ E5) as [A5 T5 H5].
      destruct (count_message start_time t (queue_size w5) g) as [g1| |] eqn:E6; cbn in E; try done.
      apply count_message_Ok in E6. destruct (IH _ _ _ _ _ _ E) as (l & I1 & I2 & I3 & I4 & I5 & I6 & I7).
      exists (IPCMessage_of ms producer i (payload_text producer i d) :: l). rewrite I1, A5, A4, A3, <- (assoc_L (++)). split_and!; [done| | | |auto|].
      * apply numbered_cons; eauto.
      * congruence.
      * rewrite I4, E6. cbn. lia.
      * split; [cbn; lia|]. destruct e; cbn; [destruct I7; [left; lia|by right]|done|lia].
    + rewrite app_nil_r in A4. destruct (stopped w4) as [st w5] eqn:E5. destruct (stopped_law _ _ _ E5) as ([A5 T5 H5] & Hst & _). destruct st.
      * destruct (halted_produce _ _ _ _ _ _ _ _ _ (Hst I) E) as ([A6 T6 H6] & -> & _ & H7).
        exists []. rewrite app_nil_r. split_and!; [congruence|done|congruence|cbn; lia|auto|]. split; [cbn; lia|].
        specialize (H6 (Hst I)). destruct e; cbn; [by right|done|lia].
      * simplify_eq. exists []. rewrite app_nil_r. split_and!; [congruence|done|congruence|cbn; lia|auto|]. split; cbn; lia.
Qed.

(** What the producer puts into the queue are its messages with the numbers 0, 1, 2 and
    so on, each once and in this order, and it counts exactly these. Unless a signal comes
    or a message finds no place in 1000 attempts, they are all of them. *)
Theorem producer_sends num_messages producer (w : W) e g w' :
  producer_main num_messages producer w = Ok (e, g, w') ->
  exists l, accepted w' = accepted w ++ l /\ numbered producer 0 l /\ taken w' = taken w
    /\ messages g = Z.of_nat (length l) /\ sent_so e (Z.to_nat num_messages) l w'.
Proof.
  unfold producer_main. intros E. destruct (now w) as [t w1] eqn:E1. destruct (now_law _ _ _ E1) as [A1 T1 _].
  destruct (produce_spec _ _ _ _ _ _ _ _ _ E) as (l & I1 & I2 & I3 & I4 & I5 & I6). exists l. by rewrite <- A1, <- T1.
Qed.

Lemma consume_spec fuel start_time end_time : forall g (w : W) g' w',
  consume fuel start_time end_time g w = Ok (Some (g', w')) ->
  exists l, taken w' = taken w ++ l /\ accepted w' = accepted w /\ messages g' = messages g + Z.of_nat (length l).
Proof.
  induction fuel as [|fuel IH]; intros g w g' w' E; cbn [consume] in E; [done|].
  destruct (now w) as [t w1] eqn:E1. destruct (now_law _ _ _ E1) as [A1 T1 _]. destruct (from_option _ _ _).
  { simplify_eq. exists []. rewrite app_nil_r. split_and!; [done..|cbn; lia]. }
  destruct (stopped w1) as [st w2] eqn:E2. destruct (stopped_law _ _ _ E2) as ([A2 T2 _] & _). destruct st.
  { simplify_eq. exists []. rewrite app_nil_r. split_and!; [congruence..|cbn; lia]. }
  destruct (pop_attempts 10 w2) as [co w3] eqn:E3. destruct (pop_attempts_spec _ _ _ _ E3) as (l & T3 & Hl & A3 & _). destruct co.
  - destruct (now w3) as [t' w4] eqn:E4. destruct (now_law _ _ _ E4) as [A4 T4 _].
    destruct (count_message _ _ _ _) as [g1| |] eqn:E5; cbn in E; try done. apply count_message_Ok in E5.
    destruct (IH _ _ _ _ E) as (l' & I1 & I2 & I3). exists (l ++ l'). rewrite I1, T4, T3, T2, T1, (assoc_L (++)), length_app.
    split_and!; [done|congruence|lia].
  - destruct (IH _ _ _ _ E) as (l' & I1 & I2 & I3). exists (l ++ l'). rewrite I1, T3, T2, T1, (assoc_L (++)), length_app.
    split_and!; [done|congruence|lia].
Qed.

(** The number that the consumer prints is the number of messages that it took from the
    queue; in a process that can take none, as [SpmcIpcProps] shows, it is 0. *)
Theorem consumer_counts fuel duration_ms (w : W) g w' : consumer_main fuel duration_ms w = Ok (Some (g, w')) ->
  exists l, taken w' = taken w ++ l /\ accepted w' = accepted w /\ messages g = Z.of_nat (length l).
Proof.
  unfold consumer_main. intros E. destruct (now w) as [t w1] eqn:E1. destruct (now_law _ _ _ E1) as [A1 T1 _].
  destruct (consume_spec _ _ _ _ _ _ _ E) as (l & I1 & I2 & I3). exists l. rewrite I1, I2, T1, A1. done.
Qed.

End Loops.

(** ** The end of the consumer *)

(** A clock that goes forward whenever it is looked at, and not backward otherwise. *)
Class Ticking (W : Type) `{World W} (clock : W -> Z) := {
  tick_now w t w' : now w = (t, w') -> clock w < t /\ clock w' = t;
  tick_push w m b w' : try_push w m = (b, w') -> clock w <= clock w';
  tick_pop w o w' : try_pop w = (o, w') -> clock w <= clock w';
  tick_stopped w b w' : stopped w = (b, w') -> clock w <= clock w'
}.

Section Time.
Context {W : Type} {clock : W -> Z} `{Ticking W clock}.

Lemma pop_attempts_time fuel : forall (w w' : W) b, pop_attempts fuel w = (b, w') -> clock w <= clock w'.
Proof.
  induction fuel as [|fuel IH]; intros w w' b E; cbn in E; [simplify_eq; lia|].
  destruct (stopped w) as [st w1] eqn:E1. apply tick_stopped in E1. destruct st; [simplify_eq; lia|].
  destruct (try_pop w1) as [o w2] eqn:E2. apply tick_pop in E2. destruct o; [simplify_eq; lia|]. apply IH in E. lia.
Qed.

Lemma consume_ends fuel start_time e : forall g (w : W), e - clock w < Z.of_nat fuel -> (0 < fuel)%nat ->
  consume fuel start_time (Some e) g w <> Ok None.
Proof.
  induction fuel as [|fuel IH]; intros g w Hf Hp; [lia|]. cbn [consume from_option].
  destruct (now w) as [t w1] eqn:E1. apply tick_now in E1 as [E1 E1']. destruct (Z.leb_spec e t); [done|].
  destruct (stopped w1) as [st w2] eqn:E2. apply tick_stopped in E2. destruct st; [done|].
  destruct (pop_attempts 10 w2) as [co w3] eqn:E3. apply pop_attempts_time in E3. destruct co; [|apply IH; lia].
  destruct (now w3) as [t' w4] eqn:E4. apply tick_now in E4 as [E4 E4'].
  destruct (count_message _ _ _ _) as [g'| |]; cbn; [apply IH; lia|done..].
Qed.

(** With a duration the consumer ends: a round for every nanosecond is enough fuel. *)
Theorem consumer_ends fuel duration_ms (w : W) : 0 < duration_ms -> duration_ms * 1000000 < Z.of_nat fuel ->
  consumer_main fuel duration_ms w <> Ok None.
Proof.
  intros Hd Hf. unfold consumer_main. destruct (now w) as [t w1] eqn:E1. apply tick_now in E1 as [E1 E1'].
  rewrite (proj2 (Z.ltb_lt _ _)) by done. apply consume_ends; lia.
Qed.

End Time.

(** ** Instances *)

(** The queue as a list, what went into it and came out, the time, a clock that takes
    [tick] nanoseconds, and the time of the signal. *)
Record outside := Outside { fifo : list IPCMessage; log_in : list IPCMessage; log_out : list IPCMessage; time : Z; stop_at : option Z }.

Definition signal (w : outside) : bool := match stop_at w with Some t => t <=? time w | None => false end.

Lemma signal_later w w' : time w <= time w' -> stop_at w' = stop_at w -> signal w -> signal w'.
Proof.
  unfold signal. intros Ht ->. destruct (stop_at w) as [t|]; [|done]. intros Hs.
  apply Is_true_true, Z.leb_le. apply Is_true_true, Z.leb_le in Hs. lia.
Qed.

Section Instance.
Variable tick : Z.

#[export] Instance list_world : World outside := {
  try_push w m := (true, Outside (fifo w ++ [m]) (log_in w ++ [m]) (log_out w) (time w) (stop_at w));
  try_pop w := match fifo w with
    | m :: l => (Some m, Outside l (log_in w) (log_out w ++ [m]) (time w) (stop_at w))
    | [] => (None, w)
    end;
  queue_size w := Z.of_nat (length (fifo w));
  stopped w := (signal w, w);
  now w := (time w + Z.pos (Z.to_pos tick), Outside (fifo w) (log_in w) (log_out w) (time w + Z.pos (Z.to_pos tick)) (stop_at w));
  system_now w := (time w / 1000000, w);
  data_dist w := (1 + time w mod 1000, w)
}.

#[export] Instance list_account : Account outside := { accepted := log_in; taken := log_out; halted := signal }.

#[export] Instance list_world_laws : WorldLaws outside.
Proof.
  split; cbn; intros w.
  - intros m b w' E. by simplify_eq/=.
  - intros o w' E. destruct (fifo w); simplify_eq/=; [by rewrite app_nil_r|done].
  - intros b w' E. simplify_eq. split_and!; [done|done|]. by destruct (signal w').
  - intros t w' E. simplify_eq/=. split; [done|done|]. apply signal_later; cbn; [lia|done].
  - intros t w' E. by simplify_eq.
  - intros d w' E. by simplify_eq.
Qed.

#[export] Instance list_ticking : Ticking outside time.
Proof.
  split; cbn; intros w.
  - intros t w' E. simplify_eq/=. split; [lia|done].
  - intros m b w' E. simplify_eq/=. lia.
  - intros o w' E. destruct (fifo w); simplify_eq/=; lia.
  - intros b w' E. simplify_eq/=. lia.
Qed.

End Instance.

Lemma payload_fits_witness :
  let m := IPCMessage_of 5 1 12 (payload_text 1 12 77) in
  c_str (payload m) = chars "Producer_1_Message_12_Data_77" /\ sequence m = 12.
Proof. destruct (payload_fits 5 1 12 77 ltac:(lia) ltac:(lia) ltac:(lia)) as (_ & _ & Hc & Hs). split; [exact Hc|exact Hs]. Defined.

(** Three messages in three seconds. *)
Lemma producer_sends_witness :
  match producer_main (H := list_world 1000000000) 3 1 (Outside [] [] [] 0 None) with
  | Ok (e, g, w) => (exists l, log_in w = l /\ numbered 1 0 l) /\ messages g = 3 /\ e = All_sent
      /\ map r_rate (reports g) = [1000000; 1000000; 1000000]
  | _ => False
  end.
Proof.
  destruct (producer_main (H := list_world 1000000000) 3 1 (Outside [] [] [] 0 None)) as [[[e g] w]| |] eqn:E; [|by vm_compute in E..].
  split; [|vm_compute in E; by simplify_eq].
  destruct (producer_sends (H := list_world 1000000000) 3 1 _ e g w E) as (l & Hl & Hn & _). exists l. split; [exact Hl|exact Hn].
Defined.
