(* ===== verification/SpmcLauncher.v ===== *)
(** The program that starts the others, src/opencode-demo2/src/ipc_launcher.cpp: one producer
    and four consumers are forked one after the other, their process numbers are kept in two
    vectors, and [cleanup_processes] kills what is in the vectors, at the end or when a
    signal comes.

    The kernel's table of the children is part of the state. A child that has ended stays in
    it, since the program never waits for it. Printing and sleeping are left out. *)

From S2P Require Import Prelude.
From stdpp Require Import strings pretty.
#[local] Open Scope Z_scope.

Definition queue_name : string := "ipc_test_queue".
Definition num_producers : nat := 1.
Definition num_consumers : nat := 4.
Definition messages_per_producer : Z := 500000.

(** A process that is to be started, the [i]-th of its kind. *)
Inductive job := Producer (i : nat) | Consumer (i : nat).

Definition jobs : list job := (Producer <$> seq 0 num_producers) ++ (Consumer <$> seq 0 num_consumers).

(** The program and the arguments that the child gives to [execl]. *)
Definition command (test_duration : Z) (j : job) : string * list string :=
  match j with
  | Producer i => ("./build/producer", ["producer"; queue_name; pretty messages_per_producer; pretty (Z.of_nat i + 1)])
  | Consumer i => ("./build/consumer", ["consumer"; queue_name; pretty (Z.of_nat i + 1); pretty (test_duration * 1000)])
  end.

(** ** State *)

(** A child runs, with its command, or has ended. *)
Inductive child := Running (j : job) | Ended.

(** Where [main] is: before the next [fork], between a [fork] and [push_back], waiting for
    the end of the test, or gone. [Gone] keeps the child that was not in a vector yet. *)
Inductive place :=
| Before (rest : list job)
| Forked (j : job) (pid : Z) (rest : list job)
| Gone (forked : option Z).

Record launcher := Launcher {
  children : gmap Z child;
  producer_pids : list Z;
  consumer_pids : list Z;
  at_place : place
}.

Definition launcher0 : launcher := Launcher ∅ [] [] (Before jobs).

(** ** The signals *)

Inductive signal := SIGTERM | SIGKILL.

(** [kill(pid, sig)]: the result is 0 when there is such a child, even one that has ended.
    [obeys] says whether a child ends itself before the next look at it. *)
Definition kill (obeys : bool) (t : gmap Z child) (pid : Z) (sig : signal) : bool * gmap Z child :=
  match t !! pid with
  | None => (false, t)
  | Some c =>
    (true, match sig with
           | SIGKILL => <[pid := Ended]> t
           | SIGTERM => if obeys then <[pid := Ended]> t else t
           end)
  end.

(** One of the loops of [cleanup_processes]. *)
Fixpoint kill_all (obeys : Z -> bool) (t : gmap Z child) (pids : list Z) : gmap Z child :=
  match pids with
  | [] => t
  | pid :: pids =>
    if 0 <? pid then
      let (_, t) := kill (obeys pid) t pid SIGTERM in
      let t := match t !! pid with Some _ => (kill false t pid SIGKILL).2 | None => t end in
      kill_all obeys t pids
    else kill_all obeys t pids
  end.

Definition cleanup_processes (obeys : Z -> bool) (s : launcher) : launcher :=
  Launcher (kill_all obeys (kill_all obeys (children s) (producer_pids s)) (consumer_pids s))
    (producer_pids s) (consumer_pids s) (at_place s).

(** ** Steps *)

Inductive launch_event :=
| Fork (pid : option Z)             (* the result of [fork], [None] when it fails *)
| Push_back
| Child_ends (pid : Z)
| Time_up (obeys : Z -> bool)       (* the test is over *)
| Signal (obeys : Z -> bool).       (* SIGINT or SIGTERM for the launcher *)

Definition leave (obeys : Z -> bool) (s : launcher) (forked : option Z) : launcher :=
  let s := cleanup_processes obeys s in Launcher (children s) (producer_pids s) (consumer_pids s) (Gone forked).

(** [None] when the event is not possible. The kernel gives a positive number that no child
    has. *)
Definition launch_step (s : launcher) (e : launch_event) : option launcher :=
  match e, at_place s with
  | Fork None, Before (_ :: rest) => Some (Launcher (children s) (producer_pids s) (consumer_pids s) (Before rest))
  | Fork (Some pid), Before (j :: rest) =>
    if bool_decide (0 < pid /\ children s !! pid = None) then
      Some (Launcher (<[pid := Running j]> (children s)) (producer_pids s) (consumer_pids s) (Forked j pid rest))
    else None
  | Push_back, Forked j pid rest =>
    Some (match j with
          | Producer _ => Launcher (children s) (producer_pids s ++ [pid]) (consumer_pids s) (Before rest)
          | Consumer _ => Launcher (children s) (producer_pids s) (consumer_pids s ++ [pid]) (Before rest)
          end)
  | Child_ends pid, _ =>
    match children s !! pid with
    | Some _ => Some (Launcher (<[pid := Ended]> (children s)) (producer_pids s) (consumer_pids s) (at_place s))
    | None => None
    end
  | Time_up obeys, Before [] => Some (leave obeys s None)
  | Signal obeys, Before _ => Some (leave obeys s None)
  | Signal obeys, Forked _ pid _ => Some (leave obeys s (Some pid))
  | _, _ => None
  end.

Definition launch_steps (s : launcher) (es : list launch_event) : option launcher := foldl (fun o e => s ← o; launch_step s e) (Some s) es.

(** ** The theorems *)

(** What the loops kill. *)
Lemma kill_all_spec obeys pids : forall t pid,
  kill_all obeys t pids !! pid = if decide (0 < pid /\ pid ∈ pids) then const Ended <$> t !! pid else t !! pid.
Proof.
  induction pids as [|q pids IH]; intros t pid; cbn [kill_all].
  { rewrite decide_False; [done|]. intros [_ H]. by apply elem_of_nil in H. }
  assert (forall t', (forall p, t' !! p = if decide (p = q) then const Ended <$> t !! p else t !! p) -> 0 < q ->
    kill_all obeys t' pids !! pid = if decide (0 < pid /\ pid ∈ q :: pids) then const Ended <$> t !! pid else t !! pid) as Hk.
  { intros t' Ht' Hq. rewrite IH, Ht'. pose proof (elem_of_cons pids pid q). destruct (t !! pid); repeat case_decide; naive_solver. }
  destruct (Z.ltb_spec 0 q) as [Hq|Hq].
  - unfold kill. destruct (t !! q) as [c|] eqn:Eq; cbn.
    + destruct (obeys q); cbn; rewrite ?lookup_insert_eq, ?Eq; cbn; apply Hk; try done; intros p;
        (destruct (decide (p = q)) as [->|Hp]; [by rewrite ?lookup_insert_eq, Eq|by rewrite !lookup_insert_ne by done]).
    + rewrite Eq. apply Hk; [|done]. intros p. destruct (decide (p = q)) as [->|]; [by rewrite Eq|done].
  - rewrite IH. pose proof (elem_of_cons pids pid q). repeat case_decide; try done; exfalso; naive_solver lia.
Qed.

Definition recorded (s : launcher) : list Z := producer_pids s ++ consumer_pids s.

(** A child that runs is in a vector, unless it was just forked. *)
Definition tracked (s : launcher) : Prop :=
  forall pid j, children s !! pid = Some (Running j) -> 0 < pid /\
    match at_place s with
    | Before _ => pid ∈ recorded s
    | Forked _ q _ => pid = q \/ pid ∈ recorded s
    | Gone o => o = Some pid
    end.

Lemma leave_tracked obeys s o : (forall pid j, children s !! pid = Some (Running j) -> 0 < pid /\ (o = Some pid \/ pid ∈ recorded s)) ->
  tracked (leave obeys s o).
Proof.
  intros Hs pid j. cbn. rewrite !kill_all_spec. intros H.
  assert (children s !! pid = Some (Running j) /\ pid ∉ recorded s) as [H1 H2].
  { unfold recorded. rewrite elem_of_app. destruct (children s !! pid) as [c|] eqn:Ec; repeat case_decide; cbn in H; simplify_eq;
      split; try done; destruct (Hs pid j); naive_solver. }
  destruct (Hs pid j H1) as [? [?|?]]; naive_solver.
Qed.

Lemma launch_step_tracked s e s' : tracked s -> launch_step s e = Some s' -> tracked s'.
Proof.
  intros Ht E. unfold launch_step in E. destruct e as [[pid|]| |pid|obeys|obeys].
  - destruct (at_place s) as [[|j rest]| |] eqn:Ep; try done. case_bool_decide as Hb; [|done]. injection E as <-.
    intros q j'. cbn. rewrite lookup_insert_Some. intros [[<- _]|[Hne Hq]]; [split; [tauto|by left]|].
    destruct (Ht q j' Hq) as [H1 H2]. rewrite Ep in H2. split; [done|by right].
  - destruct (at_place s) as [[|j rest]| |] eqn:Ep; try done. injection E as <-. intros q j' Hq.
    destruct (Ht q j' Hq) as [H1 H2]. by rewrite Ep in H2.
  - destruct (at_place s) as [|j pid rest|] eqn:Ep; try done. injection E as <-.
    destruct j; intros q j' Hq; (destruct (Ht q j' Hq) as [H1 H2]; rewrite Ep in H2; split; [done|]); unfold recorded in *; cbn; set_solver.
  - destruct (children s !! pid) as [c|] eqn:Ec; [|done]. injection E as <-. intros q j'. cbn.
    rewrite lookup_insert_Some. intros [[_ ?]|[_ Hq]]; [done|]. by apply (Ht q j').
  - destruct (at_place s) as [[|j rest]| |] eqn:Ep; try done. injection E as <-. apply leave_tracked. intros q j' Hq.
    destruct (Ht q j' Hq) as [H1 H2]. rewrite Ep in H2. by split; [|right].
  - destruct (at_place s) as [rest|j pid rest|] eqn:Ep; try done; injection E as <-; apply leave_tracked; intros q j' Hq;
      destruct (Ht q j' Hq) as [H1 H2]; rewrite Ep in H2; split; try done; [by right|naive_solver].
Qed.

(** When the launcher is gone, no child runs but the one that it had forked and not yet put
    into a vector when the signal came. *)
Theorem launcher_cleans es s o : launch_steps launcher0 es = Some s -> at_place s = Gone o ->
  forall pid j, children s !! pid = Some (Running j) -> o = Some pid.
Proof.
  intros E Ho. assert (tracked s) as Ht.
  { clear Ho. revert s E. induction es as [|e es IH] using rev_ind; intros s E.
    - injection E as <-. by intros pid j.
    - unfold launch_steps in *. rewrite foldl_app in E. cbn in E. destruct (foldl _ _ _) as [s1|] eqn:E1; [|done]. cbn in E.
      eapply launch_step_tracked; [by apply IH|exact E]. }
  intros pid j Hj. destruct (Ht pid j Hj) as [_ H]. by rewrite Ho in H.
Qed.

(** A signal between [fork] and [push_back] leaves the child running. *)
Example child_left : exists s, launch_steps launcher0 [Fork (Some 7); Signal (fun _ => true)] = Some s
  /\ at_place s = Gone (Some 7) /\ children s !! 7 = Some (Running (Producer 0)).
Proof. eexists. split; [vm_compute; reflexivity|]. by split. Qed.

(** The whole test, in which the fourth [fork] fails and no child obeys. *)
Definition demo_launch : list launch_event :=
  [Fork (Some 7); Push_back; Fork (Some 8); Push_back; Fork (Some 9); Push_back; Fork None; Fork (Some 11); Push_back;
   Time_up (fun _ => false)].

Lemma launcher_cleans_witness : match launch_steps launcher0 demo_launch with
  | Some s => dom (children s) = {[7; 8; 9; 11]} /\ forall pid j, children s !! pid <> Some (Running j)
  | None => False
  end.
Proof.
  destruct (launch_steps launcher0 demo_launch) as [s|] eqn:E; [|by vm_compute in E]. split.
  - vm_compute in E. injection E as <-. by vm_compute.
  - intros pid j Hj. pose proof (launcher_cleans demo_launch s None E) as H. vm_compute in E. injection E as <-.
    by specialize (H eq_refl pid j Hj).
Defined.

Example launcher_commands : command 10 (Consumer 3) = ("./build/consumer", ["consumer"; "ipc_test_queue"; "4"; "10000"]).
Proof. reflexivity. Qed.
