(* ===== verification/ChatWire.v ===== *)
(** The packets of the chat program (src/network/server.c and client.c):
    the structures [ClientInfo], [Request] and [Response], and their memory
    image, which is what travels between the two programs.

    A codec is a pair of functions between a type and its memory image together
    with the laws that reading an image back gives the value; the codecs of the
    structures are put together from those of their fields. *)

From S2P Require Import Prelude.
#[local] Open Scope Z_scope.

Definition is_byte (c : Z) : Prop := 0 <= c < 256.

(** ** Codecs *)

Record codec (A : Type) := Codec {
  c_size : nat;
  c_wf : A -> Prop;
  c_enc : A -> list Z;
  c_dec : list Z -> A;
  c_length : forall a, c_wf a -> length (c_enc a) = c_size;
  c_bytes : forall a, c_wf a -> Forall is_byte (c_enc a);
  c_round : forall a rest, c_wf a -> c_dec (c_enc a ++ rest) = a
}.
Arguments Codec {A} c_size c_wf c_enc c_dec c_length c_bytes c_round.
Arguments c_size {A} c.
Arguments c_wf {A} c a.
Arguments c_enc {A} c a.
Arguments c_dec {A} c l.
Arguments c_length {A} c a.
Arguments c_bytes {A} c a.
Arguments c_round {A} c a rest.

(** The [n] bytes of a number, least significant first. *)
Fixpoint le_bytes (n : nat) (z : Z) : list Z :=
  match n with O => [] | S n => z mod 256 :: le_bytes n (z / 256) end.

Fixpoint le_value (n : nat) (l : list Z) : Z :=
  match n, l with S n, b :: l => b + 256 * le_value n l | _, _ => 0 end.

Lemma le_bytes_length n z : length (le_bytes n z) = n.
Proof. revert z. induction n as [|n IH]; intros z; simpl; [done|by rewrite IH]. Qed.

Lemma le_bytes_bytes n z : Forall is_byte (le_bytes n z).
Proof.
  revert z. induction n as [|n IH]; intros z; simpl; constructor; [|apply IH].
  apply Z.mod_pos_bound. lia.
Qed.

Lemma le_value_bytes n z rest : le_value n (le_bytes n z ++ rest) = z mod 2 ^ (8 * Z.of_nat n).
Proof.
  revert z. induction n as [|n IH]; intros z; cbn [le_value le_bytes app].
  - by rewrite Z.mod_1_r.
  - rewrite IH. replace (8 * Z.of_nat (S n)) with (8 + 8 * Z.of_nat n) by lia.
    rewrite Z.pow_add_r by lia. change (2 ^ 8) with 256.
    rewrite Z.rem_mul_r; [done|lia|]. apply Z.pow_pos_nonneg; lia.
Qed.

(** A signed integer of [n] bytes. *)
Definition c_int (n : nat) (Hn : (0 < n)%nat) : codec Z.
Proof.
  refine (Codec n (fun z => - 2 ^ (8 * Z.of_nat n - 1) <= z < 2 ^ (8 * Z.of_nat n - 1))
            (le_bytes n) (fun l => wrap_s (8 * Z.of_nat n) (le_value n l)) _ _ _).
  - intros z _. apply le_bytes_length.
  - intros z _. apply le_bytes_bytes.
  - intros z rest Hz. rewrite le_value_bytes. unfold wrap_s.
    rewrite Zplus_mod_idemp_l. by apply wrap_s_small; [lia|].
Defined.

Definition c_int32 : codec Z := c_int 4 ltac:(lia).
Definition c_int64 : codec Z := c_int 8 ltac:(lia).

(** An array of [n] characters. *)
Definition c_chars (n : nat) : codec (list Z).
Proof.
  refine (Codec n (fun l => length l = n /\ Forall is_byte l) id (take n) _ _ _).
  - by intros a [H _].
  - by intros a [_ H].
  - intros a rest [<- _]. apply take_app_length.
Defined.

(** Padding between two fields. *)
Definition c_pad (n : nat) : codec unit.
Proof.
  refine (Codec n (fun _ => True) (fun _ => repeat 0 n) (fun _ => tt) _ _ _).
  - intros _ _. apply repeat_length.
  - intros _ _. apply List.Forall_forall. intros x Hx. by apply repeat_spec in Hx as ->.
  - by intros [] rest _.
Defined.

Definition c_pair {A B} (ca : codec A) (cb : codec B) : codec (A * B).
Proof.
  refine (Codec (c_size ca + c_size cb) (fun p => c_wf ca p.1 /\ c_wf cb p.2)
            (fun p => c_enc ca p.1 ++ c_enc cb p.2)
            (fun l => (c_dec ca l, c_dec cb (drop (c_size ca) l))) _ _ _).
  - intros [a b] [Ha Hb]. by rewrite length_app, (c_length ca), (c_length cb).
  - intros [a b] [Ha Hb]. apply Forall_app. split; [by apply c_bytes|by apply c_bytes].
  - intros [a b] rest [Ha Hb]. simpl in *. rewrite <- (assoc_L (++)), c_round by done.
    by rewrite <- (c_length ca a Ha), drop_app_length, c_round.
Defined.

Fixpoint dec_list {A} (c : codec A) (n : nat) (l : list Z) : list A :=
  match n with O => [] | S n => c_dec c l :: dec_list c n (drop (c_size c) l) end.

(** An array of [n] elements. *)
Definition c_array {A} (n : nat) (c : codec A) : codec (list A).
Proof.
  refine (Codec (n * c_size c) (fun l => length l = n /\ Forall (c_wf c) l)
            (fun l => concat (map (c_enc c) l)) (dec_list c n) _ _ _).
  - intros l [<- Hl]. induction Hl as [|a l Ha Hl IH]; simpl; [done|].
    by rewrite length_app, IH, (c_length c).
  - intros l [_ Hl]. induction Hl as [|a l Ha Hl IH]; simpl; [constructor|].
    apply Forall_app. split; [by apply c_bytes|done].
  - intros l rest [<- Hl]. induction Hl as [|a l Ha Hl IH]; simpl; [done|].
    rewrite <- (assoc_L (++)), (c_round c a) by done.
    by rewrite <- (c_length c a Ha), drop_app_length, IH.
Defined.

(** A structure with the fields of [ca]. *)
Definition c_struct {A B} (ca : codec A) (f : A -> B) (g : B -> A) (Hfg : forall b, f (g b) = b) : codec B.
Proof.
  refine (Codec (c_size ca) (fun b => c_wf ca (g b)) (fun b => c_enc ca (g b))
            (fun l => f (c_dec ca l)) _ _ _).
  - intros b Hb. by apply c_length.
  - intros b Hb. by apply c_bytes.
  - intros b rest Hb. by rewrite c_round, Hfg.
Defined.

(** ** The structures *)

Definition MAXNUMOFCONNECT : Z := 100.

Record ClientInfo := {
  connectfd : Z;
  id : Z;
  ip : list Z;       (* char[20] *)
  port : Z
}.

Record Request := {
  type : Z;
  target : Z;        (* the field id: the destination *)
  message : list Z   (* char[200] *)
}.

Record Response := {
  rtype : Z;
  timeInSecond : Z;
  serverName : list Z;          (* char[20] *)
  clients : list ClientInfo;    (* clientList[MAXNUMOFCONNECT] *)
  numOfConnect : Z;
  success : Z;
  error : list Z;               (* char[50] *)
  client : ClientInfo;
  rmessage : list Z             (* char[200] *)
}.

Definition c_ClientInfo : codec ClientInfo :=
  c_struct (c_pair c_int32 (c_pair c_int32 (c_pair (c_chars 20) c_int32)))
    (fun '(a, (b, (c, d))) => {| connectfd := a; id := b; ip := c; port := d |})
    (fun x => (connectfd x, (id x, (ip x, port x))))
    (fun x => match x with Build_ClientInfo _ _ _ _ => eq_refl end).

Definition c_Request : codec Request :=
  c_struct (c_pair c_int32 (c_pair c_int32 (c_chars 200)))
    (fun '(a, (b, c)) => {| type := a; target := b; message := c |})
    (fun x => (type x, (target x, message x)))
    (fun x => match x with Build_Request _ _ _ => eq_refl end).

Definition c_Response : codec Response :=
  c_struct (c_pair c_int32 (c_pair (c_pad 4) (c_pair c_int64 (c_pair (c_chars 20)
             (c_pair (c_array 100 c_ClientInfo) (c_pair c_int32 (c_pair c_int32
             (c_pair (c_chars 50) (c_pair (c_pad 2) (c_pair c_ClientInfo (c_chars 200)))))))))))
    (fun '(a, (_, (b, (c, (d, (e, (f, (g, (_, (h, i)))))))))) =>
       {| rtype := a; timeInSecond := b; serverName := c; clients := d; numOfConnect := e;
          success := f; error := g; client := h; rmessage := i |})
    (fun x => (rtype x, (tt, (timeInSecond x, (serverName x, (clients x, (numOfConnect x,
       (success x, (error x, (tt, (client x, rmessage x)))))))))))
    (fun x => match x with Build_Response _ _ _ _ _ _ _ _ _ => eq_refl end).

(** What the laws of the codecs ask of the fields. *)
Lemma wf_chars n l : c_wf (c_chars n) l <-> length l = n /\ Forall is_byte l.
Proof. reflexivity. Qed.

Lemma wf_ClientInfo c : c_wf c_ClientInfo c <->
  c_wf c_int32 (connectfd c) /\ c_wf c_int32 (id c) /\ c_wf (c_chars 20) (ip c) /\ c_wf c_int32 (port c).
Proof. reflexivity. Qed.

Lemma wf_Request r : c_wf c_Request r <->
  c_wf c_int32 (type r) /\ c_wf c_int32 (target r) /\ c_wf (c_chars 200) (message r).
Proof. reflexivity. Qed.

Lemma wf_Response r : c_wf c_Response r <->
  c_wf c_int32 (rtype r) /\ True /\ c_wf c_int64 (timeInSecond r) /\ c_wf (c_chars 20) (serverName r)
  /\ c_wf (c_array 100 c_ClientInfo) (clients r) /\ c_wf c_int32 (numOfConnect r)
  /\ c_wf c_int32 (success r) /\ c_wf (c_chars 50) (error r) /\ True
  /\ c_wf c_ClientInfo (client r) /\ c_wf (c_chars 200) (rmessage r).
Proof. reflexivity. Qed.

(** [sizeof] *)
Example sizes : (c_size c_ClientInfo, c_size c_Request, Z.of_nat (c_size c_Response)) = (32%nat, 208%nat, 3528).
Proof. vm_compute. reflexivity. Qed.

(** ** C strings *)

(** The characters in front of the terminating NUL character, if there is one. *)
Fixpoint c_str (l : list Z) : option (list Z) :=
  match l with
  | [] => None
  | c :: l => if c =? 0 then Some [] else s ← c_str l; Some (c :: s)
  end.

(** [strcpy]: undefined without a NUL character in the source or when the
    destination is too small. *)
Definition strcpy (dst src : list Z) : option (list Z) :=
  s ← c_str src;
  if (length s <? length dst)%nat then Some (s ++ 0 :: drop (S (length s)) dst) else None.

Lemma c_str_spec l s : c_str l = Some s ->
  exists rest, l = s ++ 0 :: rest /\ Forall (fun c => c <> 0) s.
Proof.
  revert s. induction l as [|c l IH]; intros s; simpl; [done|].
  destruct (Z.eqb_spec c 0) as [->|Hc].
  - intros; simplify_eq. by exists l.
  - destruct (c_str l) as [s'|]; simpl; [|done]. intros; simplify_eq.
    destruct (IH s' eq_refl) as (rest & -> & Hf). exists rest. split; [done|by constructor].
Qed.

Lemma c_str_app s rest : Forall (fun c => c <> 0) s -> c_str (s ++ 0 :: rest) = Some s.
Proof.
  induction 1 as [|c s Hc Hs IH]; simpl; [done|]. by rewrite (proj2 (Z.eqb_neq c 0) Hc), IH.
Qed.

Lemma c_str_none l : c_str l = None <-> Forall (fun c => c <> 0) l.
Proof.
  induction l as [|c l IH]; simpl; [done|]. destruct (Z.eqb_spec c 0) as [->|Hc].
  - split; [done|]. intros H. by inversion H.
  - split.
    + destruct (c_str l); [done|]. intros _. constructor; [done|by apply IH].
    + intros H. inversion H; subst. by rewrite (proj2 IH).
Qed.

Lemma strcpy_length dst src r : strcpy dst src = Some r -> length r = length dst.
Proof.
  unfold strcpy. destruct (c_str src) as [s|]; simpl; [|done].
  destruct (Nat.ltb_spec (length s) (length dst)); intros; simplify_eq.
  rewrite length_app. simpl. rewrite length_drop. lia.
Qed.

(** The string in the destination is the string of the source. *)
Lemma strcpy_str dst src r : strcpy dst src = Some r -> c_str r = c_str src.
Proof.
  unfold strcpy. destruct (c_str src) as [s|] eqn:E; simpl; [|done].
  destruct (Nat.ltb_spec (length s) (length dst)); intros; simplify_eq.
  apply c_str_spec in E as (rest & _ & Hf). by apply c_str_app.
Qed.
