(* ===== verification/ChatServer.v ===== *)
(** The chat server (src/network/server.c): its list of clients, the handlers of
    the requests, the transfer loop [recvOrSendAll], and the interleaving of the
    accepting thread with the threads of the clients.

    The calls of the kernel are inputs: a reply of [recv] or [send] is a [reply],
    and the next action of the system is an [event]. *)

From S2P Require Import Prelude Result ChatWire.
From stdpp Require Import strings gmap.
#[local] Open Scope Z_scope.

(** A string literal with its terminating NUL character. *)
Fixpoint literal (s : string) : list Z :=
  match s with
  | EmptyString => [0]
  | String a s => Z.of_nat (Ascii.nat_of_ascii a) :: literal s
  end.

(** ** [recvOrSendAll] *)

(** What a call of [recv] or [send] returns: at most as many characters as it was
    asked for. *)
Inductive reply :=
| Data (l : list Z)     (* recv stored these characters *)
| Count (n : nat)       (* send took this many *)
| Fail.                 (* a negative result *)

Record transfer := Transfer { ret : Z; moved : list Z; later : list reply }.

(** The loop with [flag = 0]; [None] when a call does not return. *)
Fixpoint recv_all (calls : list reply) (length : nat) (got : list Z) : option transfer :=
  match length with
  | O => Some (Transfer 1 got calls)
  | _ =>
    match calls with
    | Data (c :: l) :: calls => recv_all calls (length - S (List.length l)) (got ++ c :: l)
    | _ :: calls => Some (Transfer 0 got calls)
    | [] => None
    end
  end.

(** The loop with [flag = 1]; [ptr] are the characters from the pointer on. *)
Fixpoint send_all (calls : list reply) (length : nat) (ptr sent : list Z) : option transfer :=
  match length with
  | O => Some (Transfer 1 sent calls)
  | _ =>
    match calls with
    | Count (S i) :: calls => send_all calls (length - S i) (drop (S i) ptr) (sent ++ take (S i) ptr)
    | _ :: calls => Some (Transfer 0 sent calls)
    | [] => None
    end
  end.

(** ** State *)

Inductive thread :=
| Starting (id : Z)
| Receiving (id fd : Z)
| Serving (id fd : Z) (request : Request)
| Finished.

(** Where the loop of [main] is. *)
Inductive main_pc :=
| MAccept
| MFill (fd : Z) (addr : list Z) (port : Z)
| MSpawn.

Record server := Server {
  clientList : list ClientInfo;
  count : Z;
  flag : list Z;
  pc : main_pc;
  threads : list thread;
  sent_to : gmap Z (list Z)      (* per open socket, the characters sent on it *)
}.

Definition zeros (n : nat) : list Z := repeat 0 n.
Definition empty_info : ClientInfo := {| connectfd := 0; id := 0; ip := zeros 20; port := 0 |}.

Definition with_connectfd (c : ClientInfo) (fd : Z) : ClientInfo :=
  {| connectfd := fd; id := id c; ip := ip c; port := port c |}.

(** The globals after the initialising loop of [main]. *)
Definition server0 : server :=
  Server (repeat (with_connectfd empty_info (-1)) 100) (-1) (map Z.of_nat (seq 0 100)) MAccept [] empty.

Definition with_list (s : server) (l : list ClientInfo) : server :=
  Server l (count s) (flag s) (pc s) (threads s) (sent_to s).
Definition with_pc (s : server) (p : main_pc) : server :=
  Server (clientList s) (count s) (flag s) p (threads s) (sent_to s).
Definition with_threads (s : server) (t : list thread) : server :=
  Server (clientList s) (count s) (flag s) (pc s) t (sent_to s).
Definition with_sent (s : server) (m : gmap Z (list Z)) : server :=
  Server (clientList s) (count s) (flag s) (pc s) (threads s) m.

(** ** Handlers *)

(** [memset(response, 0, sizeof(struct Response))] *)
Definition empty_response : Response :=
  {| rtype := 0; timeInSecond := 0; serverName := zeros 20; clients := repeat empty_info 100;
     numOfConnect := 0; success := 0; error := zeros 50; client := empty_info; rmessage := zeros 200 |}.

Definition timeResponse (now : Z) (r : Response) : Response :=
  {| rtype := 0; timeInSecond := now; serverName := serverName r; clients := clients r;
     numOfConnect := numOfConnect r; success := success r; error := error r;
     client := client r; rmessage := rmessage r |}.

Definition nameResponse (r : Response) : result Response :=
  name ← lift (strcpy (serverName r) (literal "Yusen"));
  Ok {| rtype := 1; timeInSecond := timeInSecond r; serverName := name; clients := clients r;
        numOfConnect := numOfConnect r; success := success r; error := error r;
        client := client r; rmessage := rmessage r |}.

(** The loop of [clientListResponse]: [n] rounds from [i] on. *)
Fixpoint list_loop (clientList : list ClientInfo) (n : nat) (i index : Z) (out : list ClientInfo) :
    result (Z * list ClientInfo) :=
  match n with
  | O => Ok (index, out)
  | S n =>
    c ← rget clientList i;
    if connectfd c =? -1 then list_loop clientList n (i + 1) index out
    else out ← rset out index c; list_loop clientList n (i + 1) (index + 1) out
  end.

Definition clientListResponse (clientList : list ClientInfo) (r : Response) : result Response :=
  '(index, out) ← list_loop clientList (Z.to_nat MAXNUMOFCONNECT) 0 0 (clients r);
  Ok {| rtype := 2; timeInSecond := timeInSecond r; serverName := serverName r; clients := out;
        numOfConnect := index; success := success r; error := error r;
        client := client r; rmessage := rmessage r |}.

(** [response->type = 3], the fields [success] and [error]. *)
Definition message_result (r : Response) (code : Z) (text : list Z) : Response :=
  {| rtype := 3; timeInSecond := timeInSecond r; serverName := serverName r; clients := clients r;
     numOfConnect := numOfConnect r; success := code; error := text;
     client := client r; rmessage := rmessage r |}.

Definition fail_with (r : Response) (text : string) : result Response :=
  e ← lift (strcpy (error r) (literal text)); Ok (message_result r 1 e).

(** The packet [response1] for the destination; [junk] is the memory [malloc]
    returned. *)
Definition forwarded (junk : Response) (sender : ClientInfo) (message : list Z) : result Response :=
  m ← lift (strcpy (rmessage junk) message);
  Ok {| rtype := 4; timeInSecond := timeInSecond junk; serverName := serverName junk;
        clients := clients junk; numOfConnect := numOfConnect junk; success := success junk;
        error := error junk; client := with_connectfd sender (-1); rmessage := m |}.

(** [send] on a socket: nothing is sent on a closed one. *)
Definition send_packet (m : gmap Z (list Z)) (fd : Z) (r : Response) (calls : list reply) :
    option (Z * gmap Z (list Z)) :=
  match m !! fd with
  | None => Some (0, m)
  | Some old =>
    t ← send_all calls (c_size c_Response) (c_enc c_Response r) [];
    Some (ret t, <[fd := old ++ moved t]> m)
  end.

(** [messageResponse]: the response to the sender and the characters sent;
    [None] inside the result when [send] does not return. *)
Definition messageResponse (s : server) (junk : Response) (request : Request) (clientId : Z)
    (calls : list reply) (r : Response) : result (option (Response * gmap Z (list Z))) :=
  if MAXNUMOFCONNECT <=? target request then
    r ← fail_with r "invalid id!"; Ok (Some (r, sent_to s))
  else
    dest ← rget (clientList s) (target request);
    if connectfd dest =? -1 then
      r ← fail_with r "no connect with target host!"; Ok (Some (r, sent_to s))
    else
      sender ← rget (clientList s) clientId;
      response1 ← forwarded junk sender (message request);
      match send_packet (sent_to s) (connectfd dest) response1 calls with
      | None => Ok None
      | Some (ok, m) =>
        if ok =? 0 then r ← fail_with r "send message failed!"; Ok (Some (r, m))
        else Ok (Some (message_result r 0 (error r), m))
      end.

(** [response]: the packet for the client, and the characters sent to others. *)
Definition answer (s : server) (junk : Response) (now : Z) (request : Request) (clientId : Z)
    (calls : list reply) : result (option (Response * gmap Z (list Z))) :=
  let r := empty_response in
  if type request =? 0 then Ok (Some (timeResponse now r, sent_to s))
  else if type request =? 1 then r ← nameResponse r; Ok (Some (r, sent_to s))
  else if type request =? 2 then r ← clientListResponse (clientList s) r; Ok (Some (r, sent_to s))
  else if type request =? 3 then messageResponse s junk request clientId calls r
  else Ok (Some (r, sent_to s)).

Definition response (s : server) (junk : Response) (now : Z) (socketfd : Z) (request : Request)
    (clientId : Z) (calls calls' : list reply) : result (option server) :=
  a ← answer s junk now request clientId calls;
  match a with
  | None => Ok None
  | Some (r, m) =>
    match send_packet m socketfd r calls' with
    | None => Ok None
    | Some (_, m) => Ok (Some (with_sent s m))
    end
  end.

(** ** The threads *)

Inductive event :=
| EAccept (fd : Z) (addr : list Z) (port : Z)   (* accept returned *)
| EFill
| ESpawn
| EStart (t : nat)
| ERecv (t : nat) (calls : list reply)
| ERespond (t : nat) (junk : Response) (now : Z) (calls calls' : list reply).

(** [accept] returned [fd] of a peer with the printed address [addr]: the
    counter moves on and the old connection of its slot is closed. *)
Definition accept_client (s : server) (fd : Z) (addr : list Z) (p : Z) : result server :=
  let count' := Z.rem (count s + 1) MAXNUMOFCONNECT in
  old ← rget (clientList s) count';
  let m := if connectfd old =? -1 then sent_to s else delete (connectfd old) (sent_to s) in
  Ok (Server (clientList s) count' (flag s) (MFill fd addr p) (threads s) (<[fd := []]> m)).

(** The new client enters the list. *)
Definition fill_client (s : server) (fd : Z) (addr : list Z) (p : Z) : result server :=
  _ ← rget (clientList s) (count s);
  text ← lift (strcpy (zeros 20) (addr ++ [0]));
  l ← rset (clientList s) (count s) {| connectfd := fd; id := count s; ip := text; port := p |};
  Ok (with_pc (with_list s l) MSpawn).

(** [pthread_create(.., threadFunc, &flag[count])] *)
Definition spawn (s : server) : result server :=
  n ← rget (flag s) (count s);
  Ok (with_pc (with_threads s (threads s ++ [Starting n])) MAccept).

(** The first lines of [threadFunc]. *)
Definition start_thread (s : server) (t : nat) (n : Z) : result server :=
  c ← rget (clientList s) n;
  Ok (with_threads s (<[t := Receiving n (connectfd c)]> (threads s))).

(** One request is received; on a failure the thread marks its slot as free
    and ends. *)
Definition receive (s : server) (t : nat) (n fd : Z) (calls : list reply) : result (option server) :=
  match recv_all calls (c_size c_Request) [] with
  | None => Ok None
  | Some tr =>
    if ret tr =? 0 then
      c ← rget (clientList s) n;
      l ← rset (clientList s) n (with_connectfd c (-1));
      Ok (Some (with_threads (with_list s l) (<[t := Finished]> (threads s))))
    else
      Ok (Some (with_threads s (<[t := Serving n fd (c_dec c_Request (moved tr))]> (threads s))))
  end.

(** One step; [Ok None] when the event is not possible. *)
Definition step (s : server) (e : event) : result (option server) :=
  match e with
  | EAccept fd addr p =>
    match pc s with
    | MAccept =>
      if decide (0 <= fd /\ sent_to s !! fd = None) then s ← accept_client s fd addr p; Ok (Some s)
      else Ok None
    | _ => Ok None
    end
  | EFill => match pc s with MFill fd addr p => s ← fill_client s fd addr p; Ok (Some s) | _ => Ok None end
  | ESpawn => match pc s with MSpawn => s ← spawn s; Ok (Some s) | _ => Ok None end
  | EStart t =>
    match threads s !! t with Some (Starting n) => s ← start_thread s t n; Ok (Some s) | _ => Ok None end
  | ERecv t calls =>
    match threads s !! t with Some (Receiving n fd) => receive s t n fd calls | _ => Ok None end
  | ERespond t junk now calls calls' =>
    match threads s !! t with
    | Some (Serving n fd request) =>
      s' ← response s junk now fd request n calls calls';
      Ok (s' ← s'; Some (with_threads s' (<[t := Receiving n fd]> (threads s'))))
    | _ => Ok None
    end
  end.

Fixpoint steps (s : server) (es : list event) : result (option server) :=
  match es with
  | [] => Ok (Some s)
  | e :: es =>
    s' ← step s e;
    match s' with Some s' => steps s' es | None => Ok None end
  end.
