(* ===== verification/ChatProps.v ===== *)
(** The theorems about the chat server of ChatServer: transfers, the responses
    to each request, the invariant of its list of clients, and the executions in
    which the list and the connections fall apart. *)

From S2P Require Import Prelude Result ChatWire ChatServer.
From stdpp Require Import strings gmap.
#[local] Open Scope Z_scope.

(** ** Transfers *)

Lemma recv_all_gen chunks : forall more n got bs,
  Forall (fun l => l <> []) chunks -> concat chunks = bs -> n = length bs ->
  recv_all (map Data chunks ++ more) n got = Some (Transfer 1 (got ++ bs) more).
Proof.
  induction chunks as [|l chunks IH]; intros more n got bs Hne Hbs Hn; simpl in *; subst.
  - destruct more; by rewrite app_nil_r.
  - inversion Hne as [|? ? Hl Hne']; subst. destruct l as [|c l]; [done|]. simpl.
    rewrite length_app, Nat.sub_0_r || rewrite length_app.
    replace (length l + length (concat chunks) - length l)%nat with (length (concat chunks)) by lia.
    rewrite (IH more _ (got ++ c :: l) (concat chunks)) by done. by rewrite <- (assoc_L (++)).
Qed.

Lemma recv_all_fails chunks : forall more n got,
  Forall (fun l => l <> []) chunks -> (length (concat chunks) < n)%nat ->
  recv_all (map Data chunks ++ Fail :: more) n got = Some (Transfer 0 (got ++ concat chunks) more).
Proof.
  induction chunks as [|l chunks IH]; intros more n got Hne Hn; simpl in *.
  - destruct n; [lia|]. by rewrite app_nil_r.
  - inversion Hne as [|? ? Hl Hne']; subst. destruct l as [|c l]; [done|].
    rewrite length_app in Hn. destruct n as [|n]; [simpl in Hn; lia|]. simpl in *.
    rewrite IH by (done || lia). by rewrite <- (assoc_L (++)).
Qed.

Lemma send_all_gen ns : forall more n ptr sent,
  Forall (fun k => (0 < k)%nat) ns -> sum_list ns = n -> length ptr = n ->
  send_all (map Count ns ++ more) n ptr sent = Some (Transfer 1 (sent ++ ptr) more).
Proof.
  induction ns as [|k ns IH]; intros more n ptr sent Hk Hs Hl; simpl in *; subst.
  - destruct ptr; [|done]. destruct more; by rewrite app_nil_r.
  - inversion Hk as [|? ? Hk0 Hk']; subst. destruct k as [|k]; [lia|].
    cbn [Nat.add send_all].
    rewrite (IH more _ (drop (S k) ptr)); [|done|lia|rewrite length_drop; lia].
    by rewrite <- (assoc_L (++)), take_drop.
Qed.

(** A server whose thread [t] waits for a request of the client [n]. *)
Definition waiting (s : server) (t : nat) (n fd : Z) : Prop := threads s !! t = Some (Receiving n fd).

(** A request arrives as it was sent, however the network cuts it into
    pieces: the thread that receives the 208 characters of a request serves
    exactly this request, and keeps what follows for the next one. *)
Theorem request_received (s : server) (t : nat) (n fd : Z) (r : Request) (chunks : list (list Z))
    (more : list reply) (Hw : waiting s t n fd) (Hr : c_wf c_Request r)
    (Hne : Forall (fun l => l <> []) chunks) (Hc : concat chunks = c_enc c_Request r) :
  step s (ERecv t (map Data chunks ++ more))
    = Ok (Some (with_threads s (<[t := Serving n fd r]> (threads s))))
  /\ recv_all (map Data chunks ++ more) (c_size c_Request) []
    = Some (Transfer 1 (c_enc c_Request r) more).
Proof.
  assert (recv_all (map Data chunks ++ more) (c_size c_Request) []
    = Some (Transfer 1 (c_enc c_Request r) more)) as E.
  { apply (recv_all_gen chunks more _ [] (c_enc c_Request r)); [done|done|].
    symmetry. by apply c_length. }
  split; [|done]. cbn [step]. unfold waiting in Hw. rewrite Hw. unfold receive. rewrite E.
  change (ret (Transfer 1 (c_enc c_Request r) more) =? 0) with false. cbn iota. cbn [moved].
  rewrite <- (app_nil_r (c_enc c_Request r)), c_round by done. done.
Qed.

(** A packet is sent whole or the socket gets a beginning of it: with any
    positive replies of [send] that add up to its length the socket receives the
    memory image of the packet once, and the client that reads it back has the
    packet. *)
Theorem packet_sent (m : gmap Z (list Z)) (fd : Z) (old : list Z) (r : Response) (ns : list nat)
    (more : list reply) (Hfd : m !! fd = Some old) (Hr : c_wf c_Response r)
    (Hns : Forall (fun k => (0 < k)%nat) ns) (Hsum : sum_list ns = c_size c_Response) :
  send_packet m fd r (map Count ns ++ more) = Some (1, <[fd := old ++ c_enc c_Response r]> m)
  /\ c_dec c_Response (c_enc c_Response r) = r.
Proof.
  split.
  - unfold send_packet. rewrite Hfd.
    rewrite (send_all_gen ns more (c_size c_Response) (c_enc c_Response r) [] Hns Hsum)
      by by apply c_length.
    done.
  - rewrite <- (app_nil_r (c_enc c_Response r)). by apply c_round.
Qed.

(** ** The list of clients *)

Definition connected (c : ClientInfo) : bool := negb (connectfd c =? -1).

Lemma list_loop_ok l n : forall i out (k : nat),
  (i + n <= length l)%nat -> (k <= i)%nat -> length out = length l ->
  let found := List.filter connected (take n (drop i l)) in
  list_loop l n (Z.of_nat i) (Z.of_nat k) out
  = Ok (Z.of_nat (k + length found), take k out ++ found ++ drop (k + length found) out).
Proof.
  induction n as [|n IH]; intros i out k Hi Hk Ho found; cbn [list_loop].
  - unfold found. simpl. rewrite Nat.add_0_r, take_drop. done.
  - destruct (lookup_lt_is_Some_2 l i) as [c Ec]; [lia|].
    unfold rget, rset. rewrite aget_nat, Ec. cbn [lift mbind result_bind].
    subst found. rewrite (drop_S l c i Ec). cbn [take List.filter]. replace (connected c) with (negb (connectfd c =? -1)) by done.
    rewrite !Z_of_nat_succ. destruct (connectfd c =? -1); cbn [negb].
    + by rewrite IH by lia.
    + rewrite aset_nat by lia. cbn [lift mbind result_bind].
      rewrite IH by (rewrite ?length_insert; lia).
      set (found := List.filter connected (take n (drop (S i) l))). cbn [length].
      rewrite (take_S_r (<[k := c]> out) k c) by (apply list_lookup_insert_eq; lia).
      rewrite take_insert_ge, drop_insert_lt by lia.
      rewrite <- (assoc_L (++)). replace (k + S (length found))%nat with (S k + length found)%nat by lia.
      done.
Qed.

Lemma clientListResponse_ok (l : list ClientInfo) (Hl : length l = 100%nat) :
  let found := List.filter connected l in
  exists r, clientListResponse l empty_response = Ok r
    /\ rtype r = 2 /\ numOfConnect r = Z.of_nat (length found)
    /\ clients r = found ++ repeat empty_info (100 - length found).
Proof.
  intros found. unfold clientListResponse.
  change (Z.to_nat MAXNUMOFCONNECT) with 100%nat. change 0 with (Z.of_nat 0).
  rewrite (list_loop_ok l 100 0) by (rewrite ?Hl; simpl; lia).
  assert (take 100 (drop 0 l) = l) as E by (rewrite drop_0; apply take_ge; lia). rewrite E.
  fold found. cbn [mbind result_bind]. eexists. split; [done|]. split; [done|]. split; [done|].
  cbn [clients empty_response]. rewrite take_0, app_nil_l, Nat.add_0_l. f_equal.
  assert (length found <= 100)%nat as Hf by (rewrite <- Hl; apply List.filter_length_le).
  clearbody found. generalize (length found) Hf. clear. intros k Hk.
  replace 100%nat with (k + (100 - k))%nat at 1 by lia. rewrite repeat_app.
  apply drop_app_length'. symmetry; apply repeat_length.
Qed.

(** The answer to a LIST request is the connected clients in the order of
    their slots and their number; the rest of the packet's array is empty. *)
Theorem list_response (l : list ClientInfo) (Hl : length l = 100%nat) :
  let found := List.filter connected l in
  exists r, clientListResponse l empty_response = Ok r
    /\ rtype r = 2 /\ numOfConnect r = Z.of_nat (length found)
    /\ clients r = found ++ repeat empty_info (100 - length found).
Proof. by apply clientListResponse_ok. Qed.

(** ** Forwarding a message *)

(** C29: A message for a connected client is sent to it once, as one packet of
    type 4 that names the sender and carries the text; the sender is told that
    it succeeded. *)
Theorem message_delivered (s : server) (junk : Response) (request : Request) (n : Z)
    (dest sender : ClientInfo) (old text : list Z) (ns : list nat) (more : list reply)
    (Htarget : target request < MAXNUMOFCONNECT)
    (Hdest : aget (clientList s) (target request) = Some dest) (Hfd : connectfd dest <> -1)
    (Hsender : aget (clientList s) n = Some sender) (Hopen : sent_to s !! connectfd dest = Some old)
    (Htext : c_str (message request) = Some text) (Hjunk : c_wf c_Response junk)
    (Hmessage : c_wf c_Request request) (Hinfo : c_wf c_ClientInfo sender)
    (Hns : Forall (fun k => (0 < k)%nat) ns) (Hsum : sum_list ns = c_size c_Response) :
  exists packet, messageResponse s junk request n (map Count ns ++ more) empty_response
    = Ok (Some (message_result empty_response 0 (error empty_response),
                <[connectfd dest := old ++ c_enc c_Response packet]> (sent_to s)))
    /\ rtype packet = 4 /\ id (client packet) = id sender /\ connectfd (client packet) = -1
    /\ c_str (rmessage packet) = Some text
    /\ c_dec c_Response (c_enc c_Response packet) = packet.
Proof.
  pose proof (proj1 (wf_Response junk) Hjunk) as (_ & _ & J3 & J4 & J5 & J6 & J7 & J8 & _ & _ & J11).
  pose proof (proj1 (wf_Request request) Hmessage) as (_ & _ & M).
  apply wf_chars in M as [M3 M4]. apply wf_chars in J11 as [J11 J12].
  assert (exists m, strcpy (rmessage junk) (message request) = Some m /\ length m = 200%nat
            /\ Forall is_byte m) as (m & Em & Hm & Hmb).
  { unfold strcpy. rewrite Htext. apply c_str_spec in Htext as (rest & E & _). simpl.
    assert (length text < 200)%nat as Hlt.
    { rewrite E, length_app in M3. cbn [length] in M3. lia. }
    rewrite J11. destruct (Nat.ltb_spec (length text) 200); [|lia]. eexists. split; [done|].
    split; [rewrite length_app; simpl; rewrite length_drop; lia|].
    rewrite E, Forall_app in M4. apply Forall_app. split; [apply M4|].
    constructor; [done|]. by apply Forall_drop. }
  unfold messageResponse. destruct (Z.leb_spec MAXNUMOFCONNECT (target request)); [lia|].
  unfold rget. rewrite Hdest, Hsender. cbn [lift mbind result_bind].
  rewrite (proj2 (Z.eqb_neq _ _) Hfd). unfold forwarded. rewrite Em. cbn [lift mbind result_bind].
  set (packet := Build_Response 4 _ _ _ _ _ _ _ m).
  assert (c_wf c_Response packet) as Hwf.
  { pose proof (proj1 (wf_ClientInfo sender) Hinfo) as (_ & I2 & I3 & I4).
    apply wf_Response. by split_and!. }
  destruct (packet_sent (sent_to s) (connectfd dest) old packet ns more) as [Es Ed]; try done.
  rewrite Es. exists packet. split_and!; try done. simpl. by rewrite (strcpy_str _ _ _ Em).
Qed.

(** A message for a number from 100 up, or for a slot without a client, is
    not sent to anybody; the sender is told why. *)
Theorem message_refused (s : server) (junk : Response) (request : Request) (n : Z) (calls : list reply)
    (Hrefused : MAXNUMOFCONNECT <= target request
       \/ exists dest, target request < MAXNUMOFCONNECT
            /\ aget (clientList s) (target request) = Some dest /\ connectfd dest = -1) :
  exists text, messageResponse s junk request n calls empty_response
    = Ok (Some (message_result empty_response 1 text, sent_to s))
    /\ text = (if MAXNUMOFCONNECT <=? target request
               then literal "invalid id!" ++ zeros 38
               else literal "no connect with target host!" ++ zeros 21).
Proof.
  unfold messageResponse. destruct (Z.leb_spec MAXNUMOFCONNECT (target request)) as [Hle|Hlt].
  - by eexists.
  - destruct Hrefused as [Hle|(dest & _ & Hd & Hfd)]; [lia|].
    unfold rget. rewrite Hd. cbn [lift mbind result_bind]. rewrite (proj2 (Z.eqb_eq _ _) Hfd).
    by eexists.
Qed.

(** The destination is not checked from below and the text is not checked
    for its end: a request for a negative number, or one without a NUL
    character for a connected client, makes the server access memory outside
    its arrays. *)
Theorem message_undefined (s : server) (junk : Response) (request : Request) (n : Z) (calls : list reply)
    (Hbad : target request < 0
       \/ exists dest sender, target request < MAXNUMOFCONNECT
            /\ aget (clientList s) (target request) = Some dest /\ connectfd dest <> -1
            /\ aget (clientList s) n = Some sender /\ Forall (fun c => c <> 0) (message request)) :
  messageResponse s junk request n calls empty_response = Undefined.
Proof.
  unfold messageResponse, rget. destruct Hbad as [Hneg|(dest & sender & Ht & Hd & Hfd & Hs & Hm)].
  - destruct (Z.leb_spec MAXNUMOFCONNECT (target request)); [unfold MAXNUMOFCONNECT in *; lia|].
    by rewrite (aget_out_of_range (clientList s) (target request)) by (left; lia).
  - destruct (Z.leb_spec MAXNUMOFCONNECT (target request)); [lia|].
    rewrite Hd, Hs. cbn [lift mbind result_bind]. rewrite (proj2 (Z.eqb_neq _ _) Hfd).
    unfold forwarded, strcpy. by rewrite (proj2 (c_str_none _) Hm).
Qed.

(** ** The invariant of the server *)

Definition thread_slot (th : thread) : Z :=
  match th with Starting n | Receiving n _ | Serving n _ _ => n | Finished => 0 end.

(** What [accept] and [inet_ntoa] deliver. *)
Definition peer_ok (fd : Z) (addr : list Z) (p : Z) : Prop :=
  0 <= fd < 2 ^ 31 /\ (length addr <= 15)%nat /\ Forall (fun c => is_byte c /\ c <> 0) addr
  /\ 0 <= p < 65536.

Record server_inv (s : server) : Prop := {
  I_length : length (clientList s) = 100%nat;
  I_flag : flag s = map Z.of_nat (seq 0 100);
  I_count : -1 <= count s < 100;
  I_pc : match pc s with MAccept => True | MSpawn => 0 <= count s
         | MFill fd addr p => 0 <= count s /\ peer_ok fd addr p end;
  I_slot : forall i c, clientList s !! i = Some c -> connectfd c = -1 \/ id c = Z.of_nat i;
  I_info : Forall (c_wf c_ClientInfo) (clientList s);
  I_thread : Forall (fun th => 0 <= thread_slot th < 100) (threads s)
}.

(** The requests that the server can answer. *)
Definition request_ok (r : Request) : Prop :=
  type r = 3 -> 0 <= target r /\ exists text, c_str (message r) = Some text /\ (length text < 200)%nat.

Definition event_ok (s : server) (e : event) : Prop :=
  match e with
  | EAccept fd addr p => peer_ok fd addr p
  | ERespond t junk _ _ _ =>
    length (rmessage junk) = 200%nat
    /\ forall n fd r, threads s !! t = Some (Serving n fd r) -> request_ok r
  | _ => True
  end.

Lemma slot_access (l : list ClientInfo) n : length l = 100%nat -> 0 <= n < 100 ->
  exists c, rget l n = Ok c /\ l !! Z.to_nat n = Some c
    /\ forall x, rset l n x = Ok (<[Z.to_nat n := x]> l).
Proof.
  intros Hl Hn. destruct (aget_in_range l n) as [c Ec]; [lia|].
  exists c. unfold rget, rset. rewrite Ec. split; [done|].
  split; [by apply aget_Some in Ec as [_ ?]|]. intros x. by rewrite aset_in_range by lia.
Qed.

Lemma strcpy_fits dst s : (length s < length dst)%nat -> Forall (fun c => c <> 0) s ->
  exists r, strcpy dst (s ++ [0]) = Some r /\ length r = length dst
    /\ (Forall is_byte s -> Forall is_byte dst -> Forall is_byte r).
Proof.
  intros Hl Hs. unfold strcpy. rewrite (c_str_app s [] Hs). simpl.
  destruct (Nat.ltb_spec (length s) (length dst)); [|lia]. eexists. split; [done|].
  split; [rewrite length_app; simpl; rewrite length_drop; lia|].
  intros Hb Hd. apply Forall_app. split; [done|]. constructor; [done|by apply Forall_drop].
Qed.

(** The answers to the requests that the server can answer are defined. *)
Lemma messageResponse_ok s junk r n calls :
  server_inv s -> length (rmessage junk) = 200%nat -> 0 <= n < 100 -> type r = 3 -> request_ok r ->
  exists o, messageResponse s junk r n calls empty_response = Ok o.
Proof.
  intros [Hl _ _ _ _ _ _] Hj Hn Ht Hr. destruct (Hr Ht) as (H0 & text & Hm & Hlt).
  unfold messageResponse. destruct (Z.leb_spec MAXNUMOFCONNECT (target r)); [by eexists|].
  destruct (slot_access (clientList s) (target r) Hl) as (dest & -> & _); [done|].
  cbn [mbind result_bind]. destruct (connectfd dest =? -1); [by eexists|].
  destruct (slot_access (clientList s) n Hl Hn) as (sender & -> & _). cbn [mbind result_bind].
  unfold forwarded, strcpy. rewrite Hm, Hj. cbn [mbind option_bind].
  destruct (Nat.ltb_spec (length text) 200); [|lia]. cbn [lift mbind result_bind].
  destruct (send_packet _ _ _ _) as [[ok m]|]; [|by eexists].
  destruct (ok =? 0); by eexists.
Qed.

Lemma response_ok s junk now fd r n calls calls' :
  server_inv s -> length (rmessage junk) = 200%nat -> 0 <= n < 100 -> request_ok r ->
  exists o, response s junk now fd r n calls calls' = Ok o
    /\ forall s', o = Some s' -> exists m, s' = with_sent s m.
Proof.
  intros Hs Hj Hn Hr. unfold response.
  assert (exists o, answer s junk now r n calls = Ok o) as [o ->].
  { unfold answer. destruct (type r =? 0); [by eexists|]. destruct (type r =? 1); [by eexists|].
    destruct (type r =? 2).
    - destruct (clientListResponse_ok (clientList s)) as (r' & -> & _); [by apply Hs|by eexists].
    - destruct (Z.eqb_spec (type r) 3); [by apply messageResponse_ok|by eexists]. }
  cbn [mbind result_bind]. destruct o as [[r' m]|]; [|by eexists].
  destruct (send_packet m fd r' calls') as [[z m']|]; [|by eexists].
  eexists. split; [done|]. intros s' E. simplify_eq. by exists m'.
Qed.

Lemma inv_threads s t th : server_inv s -> threads s !! t = Some th -> 0 <= thread_slot th < 100.
Proof. intros [_ _ _ _ _ _ H]. apply (Forall_lookup_1 _ _ _ _ H). Qed.

(** Only the state of a thread, or what was sent, changes. *)
Lemma inv_update s t th m : server_inv s -> 0 <= thread_slot th < 100 ->
  server_inv (with_threads (with_sent s m) (<[t := th]> (threads s))).
Proof. intros [] Hth. constructor; try done. by apply Forall_insert. Qed.

(** An entry of the list changes. *)
Lemma inv_list s n c : server_inv s -> 0 <= n < 100 -> c_wf c_ClientInfo c ->
  connectfd c = -1 \/ id c = n -> server_inv (with_list s (<[Z.to_nat n := c]> (clientList s))).
Proof.
  intros [Hl Hf Hc Hp Hs Hi Ht] Hn Hw Hfd. constructor; try done.
  - cbn. by rewrite length_insert.
  - intros i x Hx. cbn in Hx. destruct (decide (i = Z.to_nat n)) as [->|Hne].
    + rewrite list_lookup_insert_eq in Hx by lia. simplify_eq.
      destruct Hfd; [by left|right; lia].
    + rewrite list_lookup_insert_ne in Hx by done. by apply Hs.
  - by apply Forall_insert.
Qed.

Lemma int32_small z : 0 <= z < 2 ^ 31 -> c_wf c_int32 z.
Proof. intros H. change (- 2 ^ 31 <= z < 2 ^ 31). lia. Qed.

Lemma wf_with_connectfd c fd : c_wf c_ClientInfo c -> c_wf c_int32 fd -> c_wf c_ClientInfo (with_connectfd c fd).
Proof. rewrite !wf_ClientInfo. by intros (_ & H2 & H3 & H4) H1. Qed.

Lemma accept_safe s fd addr p : server_inv s -> pc s = MAccept -> peer_ok fd addr p ->
  exists s', accept_client s fd addr p = Ok s' /\ server_inv s'.
Proof.
  intros Hs Hpc Hp. pose proof Hs as [Hl Hf Hc _ Hsl Hi Ht]. unfold accept_client.
  assert (0 <= Z.rem (count s + 1) MAXNUMOFCONNECT < 100) as Hr by (apply Z.rem_bound_pos; unfold MAXNUMOFCONNECT; lia).
  destruct (slot_access (clientList s) _ Hl Hr) as (c & -> & _). cbn [mbind result_bind].
  eexists. split; [done|]. constructor; try done; cbn; [lia|]. split; [lia|done].
Qed.

Lemma fill_safe s fd addr p : server_inv s -> pc s = MFill fd addr p ->
  exists s', fill_client s fd addr p = Ok s' /\ server_inv s'.
Proof.
  intros Hs Hpc. pose proof Hs as [Hl Hf Hc Hp Hsl Hi Ht]. rewrite Hpc in Hp.
  destruct Hp as (H0 & Hfd & Ha & Hb & Hport).
  assert (0 <= count s < 100) as Hr by lia.
  destruct (slot_access (clientList s) _ Hl Hr) as (c & Ec & _ & Hset).
  destruct (strcpy_fits (zeros 20) addr) as (text & Et & Hlt & Hbt).
  { cbn. lia. }
  { eapply Forall_impl; [exact Hb|]. by intros x [_ ?]. }
  unfold fill_client. rewrite Ec. cbn [mbind result_bind]. rewrite Et. cbn [lift mbind result_bind].
  rewrite Hset. cbn [mbind result_bind]. eexists. split; [done|].
  assert (server_inv (with_list s (<[Z.to_nat (count s):=
    {| connectfd := fd; id := count s; ip := text; port := p |}]> (clientList s)))) as Hs'.
  { apply inv_list; [done|done| |by right]. apply wf_ClientInfo. cbn [connectfd id ip port].
    split_and!; try (apply int32_small; lia). apply wf_chars. split; [done|]. apply Hbt.
    - eapply Forall_impl; [exact Hb|]. by intros x [? _].
    - by repeat constructor. }
  destruct Hs'. by constructor.
Qed.

Lemma spawn_safe s : server_inv s -> pc s = MSpawn -> exists s', spawn s = Ok s' /\ server_inv s'.
Proof.
  intros Hs Hpc. pose proof Hs as [Hl Hf Hc Hp Hsl Hi Ht]. rewrite Hpc in Hp.
  unfold spawn, rget. rewrite Hf. unfold aget. destruct (Z.leb_spec 0 (count s)); [|lia].
  rewrite list_lookup_fmap, lookup_seq_lt by lia. cbn [fmap option_fmap option_map lift mbind result_bind].
  eexists. split; [done|]. constructor; try done. cbn. apply Forall_app. split; [done|].
  constructor; [|done]. cbn. lia.
Qed.

Lemma step_safe (s : server) (e : event) (Hs : server_inv s) (He : event_ok s e) :
  exists o, step s e = Ok o /\ forall s', o = Some s' -> server_inv s'.
Proof.
  destruct e as [fd addr p| | |t|t calls|t junk now calls calls']; cbn [step event_ok] in *.
  - destruct (pc s) eqn:Hpc; [|by eexists..]. destruct (decide _); [|by eexists].
    destruct (accept_safe s fd addr p Hs Hpc He) as (s' & -> & Hs'). cbn [mbind result_bind].
    eexists. split; [done|]. intros ? E. by simplify_eq.
  - destruct (pc s) as [|fd addr p|] eqn:Hpc; [by eexists| |by eexists].
    destruct (fill_safe s fd addr p Hs Hpc) as (s' & -> & Hs'). cbn [mbind result_bind].
    eexists. split; [done|]. intros ? E. by simplify_eq.
  - destruct (pc s) as [|fd addr p|] eqn:Hpc; [by eexists..|].
    destruct (spawn_safe s Hs Hpc) as (s' & -> & Hs'). cbn [mbind result_bind].
    eexists. split; [done|]. intros ? E. by simplify_eq.
  - destruct (threads s !! t) as [[n| | |]|] eqn:Et; try by eexists.
    pose proof (inv_threads s t _ Hs Et) as Hn. unfold start_thread.
    destruct (slot_access (clientList s) n (I_length s Hs) Hn) as (c & -> & _). cbn [mbind result_bind].
    eexists. split; [done|]. intros ? E. simplify_eq. by apply (inv_update s t _ (sent_to s)).
  - destruct (threads s !! t) as [[|n fd| |]|] eqn:Et; try by eexists.
    pose proof (inv_threads s t _ Hs Et) as Hn. unfold receive.
    destruct (recv_all _ _ _) as [tr|]; [|by eexists]. destruct (ret tr =? 0).
    + destruct (slot_access (clientList s) n (I_length s Hs) Hn) as (c & -> & Hc & Hset).
      cbn [mbind result_bind]. rewrite Hset. cbn [mbind result_bind]. eexists. split; [done|].
      intros ? E. simplify_eq.
      apply (inv_update (with_list s _) t Finished (sent_to s)); [|done].
      apply inv_list; [done|done| |by left]. apply wf_with_connectfd; [|done].
      by apply (Forall_lookup_1 _ _ _ _ (I_info s Hs) Hc).
    + eexists. split; [done|]. intros ? E. simplify_eq. by apply (inv_update s t _ (sent_to s)).
  - destruct (threads s !! t) as [[| |n fd r|]|] eqn:Et; try by eexists.
    pose proof (inv_threads s t _ Hs Et) as Hn. destruct He as [Hj Hr].
    destruct (response_ok s junk now fd r n calls calls' Hs Hj Hn (Hr n fd r eq_refl)) as (o & -> & Ho).
    cbn [mbind result_bind]. eexists. split; [done|]. intros s' E.
    destruct o as [s1|]; [|done]. cbn in E. simplify_eq.
    destruct (Ho s1 eq_refl) as [m ->]. by apply (inv_update s t (Receiving n fd) m).
Qed.

(** C9: Whatever clients connect and send and in whatever order the threads
    run, the server stays inside its arrays and keeps its list well formed: a
    step from a good state is defined and leads to a good state, as long as no
    request to forward a message has a negative number or an endless text. *)
Theorem server_safe (s : server) (e : event) (Hs : server_inv s) (He : event_ok s e) :
  exists o, step s e = Ok o /\ forall s', o = Some s' -> server_inv s'.
Proof. by apply step_safe. Qed.

(** Events that need no condition on the state. *)
Definition plain_event (e : event) : Prop :=
  match e with EAccept fd addr p => peer_ok fd addr p | ERespond _ _ _ _ _ => False | _ => True end.

Lemma steps_inv es : forall s s', Forall plain_event es -> server_inv s ->
  steps s es = Ok (Some s') -> server_inv s'.
Proof.
  induction es as [|e es IH]; intros s s' Hes Hs E; cbn [steps] in E; [by simplify_eq|].
  inversion Hes as [|? ? He Hes']; subst.
  destruct (step_safe s e Hs) as (o & Eo & Ho); [by destruct e|].
  rewrite Eo in E. cbn [mbind result_bind] in E. destruct o as [s1|]; [|done].
  apply (IH s1); [done|by apply Ho|done].
Qed.

(** ** Executions *)

Definition peer : list Z := removelast (literal "10.0.0.1").

(** [n] clients join; thread [t] serves the socket [3 + t]. *)
Definition joins (n : nat) : list event :=
  concat (map (fun t => [EAccept (3 + Z.of_nat t) peer 4000; EFill; ESpawn; EStart t]) (seq 0 n)).

Lemma server0_inv : server_inv server0.
Proof.
  constructor; cbn [clientList flag count pc threads server0]; try done; try lia.
  - intros i c Hc. apply lookup_replicate in Hc as [-> _] || apply list_elem_of_lookup_2, list_elem_of_In, repeat_spec in Hc as ->.
    by left.
  - apply List.Forall_forall. intros c Hc. apply repeat_spec in Hc as ->.
    apply wf_ClientInfo. cbn. split_and!; try done. by repeat constructor.
Qed.

(** The thread of an evicted client takes its successor off the list: when
    the old thread of a slot notices that its connection is gone, it marks the
    slot as free, although the new client's thread goes on and its connection is
    open; the new client gets no more messages and is missing from the list. *)
Theorem stale_thread_unlists (s : server) (t t' : nat) (n fd fd' : Z) (got : list (list Z))
    (more : list reply) (Hs : server_inv s) (Hold : waiting s t n fd) (Hnew : waiting s t' n fd')
    (Ht : t <> t') (Hgot : Forall (fun l => l <> []) got)
    (Hlen : (length (concat got) < c_size c_Request)%nat) :
  exists s' c, step s (ERecv t (map Data got ++ Fail :: more)) = Ok (Some s')
    /\ waiting s' t' n fd' /\ sent_to s' = sent_to s
    /\ aget (clientList s') n = Some c /\ connectfd c = -1
    /\ forall junk request m calls, target request = n -> type request = 3 ->
         exists r, answer s' junk m request n calls = Ok (Some (r, sent_to s)) /\ success r = 1.
Proof.
  pose proof (inv_threads s t _ Hs Hold) as Hn. cbn in Hn.
  destruct (slot_access (clientList s) n (I_length s Hs) Hn) as (c & Ec & Hc & Hset).
  cbn [step]. unfold waiting in *. rewrite Hold. unfold receive.
  rewrite (recv_all_fails got more (c_size c_Request) [] Hgot Hlen). cbn [ret].
  change (0 =? 0) with true. cbn iota. rewrite Ec. cbn [mbind result_bind]. rewrite Hset.
  cbn [mbind result_bind]. eexists _, (with_connectfd c (-1)). split; [done|].
  assert (aget (<[Z.to_nat n:=with_connectfd c (-1)]> (clientList s)) n = Some (with_connectfd c (-1))) as Hget.
  { unfold aget. destruct (Z.leb_spec 0 n); [|lia]. apply list_lookup_insert_eq.
    rewrite (I_length s Hs). lia. }
  split; [cbn; by rewrite list_lookup_insert_ne|]. split; [done|]. split; [exact Hget|].
  split; [done|]. intros junk request m calls Htarget Htype. unfold answer. rewrite Htype.
  change (3 =? 0) with false. change (3 =? 1) with false. change (3 =? 2) with false.
  change (3 =? 3) with true. cbn iota. unfold messageResponse. rewrite Htarget.
  destruct (Z.leb_spec MAXNUMOFCONNECT n); [unfold MAXNUMOFCONNECT in *; lia|].
  cbn [clientList with_threads with_list].
  assert (rget (<[Z.to_nat n:=with_connectfd c (-1)]> (clientList s)) n = Ok (with_connectfd c (-1))) as ->
    by (unfold rget; by rewrite Hget).
  eexists. split; reflexivity.
Qed.

(** The first connection is open in [s] and closed in [s'], its thread waits,
    and the sixth slot is free. *)
Definition evicted_first (s s' : server) : bool :=
  match clientList s !! 5%nat, sent_to s !! 3, sent_to s' !! 3, threads s' !! 0%nat with
  | Some c, Some _, None, Some (Receiving 0 3) => connectfd c =? -1
  | _, _, _, _ => false
  end.

Lemma evicted_first_spec s s' : evicted_first s s' = true ->
  exists c, clientList s !! 5%nat = Some c /\ connectfd c = -1
    /\ is_Some (sent_to s !! 3) /\ sent_to s' !! 3 = None /\ waiting s' 0 0 3.
Proof.
  unfold evicted_first, waiting. intros H. repeat case_match; simplify_eq.
  eexists. split_and!; [done|by apply Z.eqb_eq|done..].
Qed.

Definition hundred_and_leave : list event := joins 100 ++ [ERecv 5 [Fail]].

Lemma eviction_trace :
  match steps server0 hundred_and_leave with
  | Ok (Some s) => match step s (EAccept 200 peer 4000) with
                   | Ok (Some s') => evicted_first s s' | _ => false end
  | _ => false
  end = true.
Proof. vm_compute. reflexivity. Qed.

(** The server closes a connection although it has room: after a hundred
    clients came and the sixth one left, the next client takes the first slot
    and the first client's connection is closed, while slot 5 stays free. *)
Theorem evicts_while_free :
  exists s s' c, steps server0 hundred_and_leave = Ok (Some s)
    /\ step s (EAccept 200 peer 4000) = Ok (Some s')
    /\ clientList s !! 5%nat = Some c /\ connectfd c = -1
    /\ is_Some (sent_to s !! 3) /\ sent_to s' !! 3 = None /\ waiting s' 0 0 3.
Proof.
  pose proof eviction_trace as H.
  destruct (steps server0 hundred_and_leave) as [[s|]| |]; [|done..].
  destruct (step s (EAccept 200 peer 4000)) as [[s'|]| |] eqn:E; [|done..].
  apply evicted_first_spec in H as (c & H). by exists s, s', c.
Qed.

(** ** The hypotheses hold on concrete states *)

(** The server with two clients that wait. *)
Definition two_clients : server :=
  match steps server0 (joins 2) with Ok (Some s) => s | _ => server0 end.

Definition hello : Request :=
  {| type := 3; target := 1; message := literal "hello" ++ zeros 194 |}.

Lemma hello_wf : c_wf c_Request hello.
Proof.
  apply wf_Request. split_and!; try done. apply wf_chars. split; [done|].
  apply (Forall_app_2); by repeat constructor.
Qed.

Lemma request_received_witness :
  step two_clients (ERecv 0 (map Data [take 100 (c_enc c_Request hello); drop 100 (c_enc c_Request hello)] ++ []))
    = Ok (Some (with_threads two_clients (<[0%nat := Serving 0 3 hello]> (threads two_clients))))
  /\ recv_all (map Data [take 100 (c_enc c_Request hello); drop 100 (c_enc c_Request hello)] ++ [])
       (c_size c_Request) [] = Some (Transfer 1 (c_enc c_Request hello) []).
Proof.
  apply (request_received two_clients 0 0 3 hello
    [take 100 (c_enc c_Request hello); drop 100 (c_enc c_Request hello)] []);
    [vm_compute; reflexivity|apply hello_wf| |vm_compute; reflexivity].
  by repeat constructor.
Defined.

Lemma empty_response_wf : c_wf c_Response empty_response.
Proof.
  apply wf_Response. cbn [rtype timeInSecond serverName clients numOfConnect success error client rmessage empty_response].
  assert (forall n, c_wf (c_chars n) (zeros n)) as Hz.
  { intros n. apply wf_chars. split; [apply repeat_length|]. apply List.Forall_forall.
    intros x Hx. by apply repeat_spec in Hx as ->. }
  assert (c_wf c_ClientInfo empty_info) as Hi.
  { apply wf_ClientInfo. repeat apply conj; try done; apply Hz. }
  repeat apply conj; try done; try apply Hz.
  apply List.Forall_forall. intros x Hx. by apply repeat_spec in Hx as ->.
Qed.

Lemma packet_sent_witness :
  send_packet {[3 := [7]]} 3 empty_response (map Count [528; 3000]%nat ++ [])
    = Some (1, <[3 := [7] ++ c_enc c_Response empty_response]> {[3 := [7]]})
  /\ c_dec c_Response (c_enc c_Response empty_response) = empty_response.
Proof.
  apply (packet_sent {[3 := [7]]} 3 [7] empty_response [528; 3000]%nat []);
    [vm_compute; reflexivity|apply empty_response_wf| |vm_compute; reflexivity].
  constructor; [lia|]. constructor; [lia|constructor].
Defined.

Lemma list_response_witness :
  let found := List.filter connected (clientList two_clients) in
  exists r, clientListResponse (clientList two_clients) empty_response = Ok r
    /\ rtype r = 2 /\ numOfConnect r = Z.of_nat (length found)
    /\ clients r = found ++ repeat empty_info (100 - length found).
Proof. apply (list_response (clientList two_clients)). vm_compute. reflexivity. Defined.

Lemma peer_peer_ok fd : 0 <= fd < 2 ^ 31 -> peer_ok fd peer 4000.
Proof.
  intros H. split; [done|]. split; [vm_compute; lia|]. split; [|lia].
  repeat constructor; vm_compute; done.
Qed.

Lemma joins_plain n : Z.of_nat n < 2 ^ 30 -> Forall plain_event (joins n).
Proof.
  intros Hn. unfold joins. apply Forall_concat, Forall_map, Forall_seq. intros t Ht.
  apply Forall_cons_2; [apply peer_peer_ok; lia|]. by repeat (apply Forall_cons_2; [exact I|]).
Qed.

Lemma two_clients_inv : server_inv two_clients.
Proof.
  assert (exists s, steps server0 (joins 2) = Ok (Some s) /\ two_clients = s) as (s & E & ->)
    by (eexists; split; vm_compute; reflexivity).
  apply (steps_inv (joins 2) server0 s); [by apply joins_plain|apply server0_inv|done].
Qed.

Lemma server_safe_witness :
  exists o, step two_clients (ERecv 0 [Fail]) = Ok o /\ forall s', o = Some s' -> server_inv s'.
Proof. apply (server_safe two_clients (ERecv 0 [Fail]) two_clients_inv I). Defined.

Definition client0 : ClientInfo :=
  {| connectfd := 3; id := 0; ip := peer ++ zeros 12; port := 4000 |}.
Definition client1 : ClientInfo :=
  {| connectfd := 4; id := 1; ip := peer ++ zeros 12; port := 4000 |}.

Lemma message_delivered_witness :
  exists packet, messageResponse two_clients empty_response hello 0 (map Count [3528]%nat ++ []) empty_response
    = Ok (Some (message_result empty_response 0 (error empty_response),
                <[4 := [] ++ c_enc c_Response packet]> (sent_to two_clients)))
    /\ rtype packet = 4 /\ id (client packet) = 0 /\ connectfd (client packet) = -1
    /\ c_str (rmessage packet) = Some (removelast (literal "hello"))
    /\ c_dec c_Response (c_enc c_Response packet) = packet.
Proof.
  apply (message_delivered two_clients empty_response hello 0 client1 client0 []
    (removelast (literal "hello")) [3528]%nat []).
  - vm_compute. reflexivity.
  - vm_compute. reflexivity.
  - vm_compute. discriminate.
  - vm_compute. reflexivity.
  - vm_compute. reflexivity.
  - vm_compute. reflexivity.
  - apply empty_response_wf.
  - apply hello_wf.
  - apply wf_ClientInfo. repeat apply conj; try done.
    unfold client0, peer. cbn. by repeat constructor.
  - constructor; [lia|constructor].
  - vm_compute. reflexivity.
Defined.

Definition to_nobody : Request := {| type := 3; target := 7; message := zeros 200 |}.

Lemma message_refused_witness :
  exists text, messageResponse two_clients empty_response to_nobody 0 [] empty_response
    = Ok (Some (message_result empty_response 1 text, sent_to two_clients))
    /\ text = literal "no connect with target host!" ++ zeros 21.
Proof.
  apply (message_refused two_clients empty_response to_nobody 0 []). right.
  exists (with_connectfd empty_info (-1)). split_and!; vm_compute; reflexivity.
Defined.

Lemma message_undefined_witness :
  messageResponse two_clients empty_response {| type := 3; target := -1; message := zeros 200 |} 0 []
    empty_response = Undefined.
Proof. apply message_undefined. left. vm_compute. reflexivity. Defined.

(** The server after 101 clients: two threads belong to the first slot. *)
Definition two_threads (s : server) : bool :=
  match threads s !! 0%nat, threads s !! 100%nat with
  | Some (Receiving 0 3), Some (Receiving 0 103) => true
  | _, _ => false
  end.

Lemma overflow_trace :
  match steps server0 (joins 101) with Ok (Some s) => two_threads s | _ => false end = true.
Proof. vm_compute. reflexivity. Qed.

Lemma overflow_state : exists s, server_inv s /\ waiting s 0 0 3 /\ waiting s 100 0 103.
Proof.
  pose proof overflow_trace as H. destruct (steps server0 (joins 101)) as [[s|]| |] eqn:E; [|done..].
  exists s. split; [apply (steps_inv (joins 101) server0 s); [by apply joins_plain|apply server0_inv|done]|].
  unfold two_threads, waiting in *. clear E. repeat case_match; simplify_eq. done.
Qed.

Lemma stale_thread_unlists_witness :
  exists s s' c, waiting s 0 0 3 /\ waiting s 100 0 103
    /\ step s (ERecv 0 [Fail]) = Ok (Some s') /\ waiting s' 100 0 103
    /\ aget (clientList s') 0 = Some c /\ connectfd c = -1.
Proof.
  destruct overflow_state as (s & Hs & Ho & Hn).
  destruct (stale_thread_unlists s 0 100 0 3 103 [] [] Hs Ho Hn) as (s' & c & E & Hw & _ & Hc & Hfd & _);
    [done|constructor|vm_compute; lia|].
  by exists s, s', c.
Defined.
