(* ===== verification/ChatClient.v ===== *)
(** The chat client (src/network/client.c): the commands of the menu, the loop
    that sends a message and the thread that receives and prints packets.

    The results of the calls of the kernel and what the user types are inputs.
    Memory behind a packet does not belong to the program: a call that reads it
    is [Undefined]. *)

From S2P Require Import Prelude Result ChatWire ChatServer.
From stdpp Require Import strings.
#[local] Open Scope Z_scope.

(** ** State *)

Inductive socket := Unconnected | Connected | Closed.

Inductive output :=
| Print (text : string)
| PrintTime (t : Z)
| PrintName (name : list Z)
| PrintClient (id : Z) (ip : list Z) (port : Z)
| PrintError (text : list Z)
| PrintMessage (from : ClientInfo) (text : list Z)
| Sent (l : list Z)
| Exit (code : Z).

Record state := State {
  currentStatus : Z;
  sock : socket;
  out : list output
}.

Definition say (s : state) (o : list output) : state := State (currentStatus s) (sock s) (out s ++ o).

(** The process ends. *)
Inductive progress := Continue (s : state) | Ended (s : state).

(** ** Commands *)

(** [connect] on the socket of the program; it fails on a closed socket. *)
Definition connect (s : state) (accepted : bool) : bool :=
  match sock s with Unconnected => accepted | _ => false end.

Definition connectToServer (s : state) (accepted : bool) : progress :=
  if currentStatus s =? 1 then
    Continue (say s [Print "Message: The client has already been connected to the server!"])
  else if connect s accepted then
    Continue (say (State 1 Connected (out s)) [Print "Connect success!"])
  else Ended (say (State (currentStatus s) Closed (out s))
                [Print "ERROR: Cannot connect to the server!"; Exit (-1)]).

(** [send] with [MSG_DONTWAIT]: the number of characters taken, or a negative
    result. *)
Definition send (l : list Z) (n : Z) : list Z := take (Z.to_nat n) l.

Definition exit_message : list Z := literal "EXIT" ++ zeros 45.

Definition disconnectFromServer (s : state) (n : Z) : progress :=
  if currentStatus s =? 0 then Continue (say s [Print "Message: The client is not connected to the server."])
  else Continue (say (State 0 Closed (out s))
                   [Sent (send exit_message n);
                    Print "The client has been disconnected from the server."]).

(** [getTimeFromServer], [getNameFromServer] and [getClientsFromServer]: the
    request on the stack has only its field [type] set. *)
Definition request_of (kind : Z) (junk : Request) : Request :=
  {| type := kind; target := target junk; message := message junk |}.

Definition getFromServer (kind : Z) (junk : Request) (s : state) (n : Z) : progress :=
  if currentStatus s =? 0 then
    Continue (say s [Print "ERROR: The client has not been connected to the server!"])
  else if n <? 0 then Continue (say s [Print "ERROR: Request error!"])
  else Continue (say s [Sent (send (c_enc c_Request (request_of kind junk)) n)]).

Definition getTimeFromServer := getFromServer 0.
Definition getNameFromServer := getFromServer 1.
Definition getClientsFromServer := getFromServer 2.

(** [while((n = send(sockfd, ptr, len - n, MSG_DONTWAIT)))]: [ptr] is the offset
    of the pointer in the packet, [n] the result of the previous call. The
    characters from [ptr] on must belong to the packet. *)
Fixpoint send_loop (packet : list Z) (calls : list Z) (ptr n : Z) (s : state) : result (option state) :=
  match calls with
  | [] => Ok None
  | r :: calls =>
    let len := Z.of_nat (length packet) in
    if len <? ptr + (len - n) then Undefined
    else if r =? 0 then Ok (Some s)
    else if r <=? 0 then Ok (Some (say s [Print "ERROR: Send message error!"]))
    else send_loop packet calls (ptr + r) r
           (say s [Sent (send (drop (Z.to_nat ptr) packet) r)])
  end.

(** [sendMsgToAnotherClient]: the user types a number and a word; [scanf("%s")]
    stores the word and a NUL character however long it is. *)
Definition sendMsgToAnotherClient (junk : Request) (dest : Z) (word : list Z) (calls : list Z) (s : state) :
    result (option state) :=
  if currentStatus s =? 0 then
    Ok (Some (say s [Print "ERROR: The client has not been connected to the server!"]))
  else
    m ← lift (strcpy (message junk) (word ++ [0]));
    send_loop (c_enc c_Request {| type := 3; target := dest; message := m |}) calls 0 0
      (say s [Print "Please input your destination client's id and message ended with ENTER:";
              Print "Format: $id $msg."]).

(** What the user selects, with the inputs of the command. *)
Inductive command :=
| Connect (accepted : bool)
| Disconnect (n : Z)
| GetTime (junk : Request) (n : Z)
| GetName (junk : Request) (n : Z)
| GetClients (junk : Request) (n : Z)
| Send (junk : Request) (dest : Z) (word : list Z) (calls : list Z)
| Other
| Leave (n : Z).

(** The loop of [main] over the selected options; [None]: more input is needed. *)
Fixpoint menu (s : state) (cs : list command) : result (option progress) :=
  match cs with
  | [] => Ok None
  | c :: cs =>
    let go p := match p with Continue s => menu s cs | Ended s => Ok (Some (Ended s)) end in
    match c with
    | Connect accepted => go (connectToServer s accepted)
    | Disconnect n => go (disconnectFromServer s n)
    | GetTime junk n => go (getTimeFromServer junk s n)
    | GetName junk n => go (getNameFromServer junk s n)
    | GetClients junk n => go (getClientsFromServer junk s n)
    | Send junk dest word calls =>
      s' ← sendMsgToAnotherClient junk dest word calls s;
      match s' with Some s' => menu s' cs | None => Ok None end
    | Other => menu s cs
    | Leave n =>
      match (if currentStatus s =? 0 then Continue s else disconnectFromServer s n) with
      | Continue s => Ok (Some (Ended (say s [Print "Bye!"; Exit 0])))
      | Ended s => Ok (Some (Ended s))
      end
    end
  end.

(** ** The receiving thread *)

(** What [recv] with [MSG_DONTWAIT] returns; it never delivers more than it was
    asked for. *)
Inductive arrival :=
| Arrived (l : list Z)
| EndOfFile
| WouldBlock     (* EAGAIN, EWOULDBLOCK or EINTR *)
| Failed.

Inductive received :=
| Packet (l : list Z) (later : list arrival)
| Died
| Waiting.

(** [while((len = recv(sockfd, ptr, totalLen, MSG_DONTWAIT)) && totalLen)] *)
Fixpoint receive_loop (calls : list arrival) (totalLen : nat) (got : list Z) : received :=
  match calls with
  | [] => Waiting
  | r :: calls =>
    match r with
    | EndOfFile => Packet got calls
    | _ =>
      match totalLen with
      | O => Packet got calls
      | _ =>
        match r with
        | Arrived l => receive_loop calls (totalLen - length l) (got ++ l)
        | WouldBlock => receive_loop calls totalLen got
        | _ => Died
        end
      end
    end
  end.

(** [switch(resp.type)]; the list of clients is read up to the number in the
    packet. *)
Definition show (r : Response) : result (list output) :=
  if rtype r =? 0 then Ok [PrintTime (timeInSecond r)]
  else if rtype r =? 1 then Ok [PrintName (serverName r)]
  else if rtype r =? 2 then
    if Z.of_nat (length (clients r)) <? numOfConnect r then Undefined
    else Ok (map (fun c => PrintClient (id c) (ip c) (port c))
               (take (Z.to_nat (numOfConnect r)) (clients r)))
  else if rtype r =? 3 then
    Ok (if success r =? 0 then [Print "Send message success!"] else [PrintError (error r)])
  else if rtype r =? 4 then Ok [PrintMessage (client r) (rmessage r)]
  else Ok [].

(** One round of the loop of [receiveMessage]; the packet was cleared before.
    [exit] is [Fatal]; [None] when the thread waits for more. *)
Definition receive_round (calls : list arrival) : result (option (list output * list arrival)) :=
  match receive_loop calls (c_size c_Response) [] with
  | Packet got later =>
    o ← show (c_dec c_Response (got ++ zeros (c_size c_Response - length got)));
    Ok (Some (o, later))
  | Died => Fatal "ERROR: Receive messages failed."
  | Waiting => Ok None
  end.

(** [receiveMessage] for [n] rounds while the status stays 1. *)
Fixpoint receiveMessage (n : nat) (calls : list arrival) : result (option (list output * list arrival)) :=
  match n with
  | O => Ok (Some ([], calls))
  | S n =>
    r ← receive_round calls;
    match r with
    | None => Ok None
    | Some (o, calls) =>
      r' ← receiveMessage n calls;
      Ok ('(o', calls) ← r'; Some (o ++ o', calls))
    end
  end.

(** ** Theorems *)

(** The characters that arrive. *)
Definition arrived (calls : list arrival) : list Z :=
  concat (map (fun r => match r with Arrived l => l | _ => [] end) calls).

(** The connection stays up: characters come or have to be waited for. *)
Definition alive (r : arrival) : Prop :=
  match r with Arrived l => l <> [] | WouldBlock => True | _ => False end.

Lemma receive_loop_all calls : forall n got x more,
  Forall alive calls -> length (arrived calls) = n -> match calls with [] => True | _ => n <> 0%nat end ->
  last calls <> Some WouldBlock -> alive x \/ x = Failed \/ x = EndOfFile ->
  receive_loop (calls ++ x :: more) n got = Packet (got ++ arrived calls) more.
Proof.
  induction calls as [|r calls IH]; intros n got x more Ha Hn H0 Hl Hx.
  - cbn in Hn. subst n. unfold arrived. cbn. rewrite app_nil_r. by destruct x.
  - inversion Ha as [|? ? Hr Ha']; subst. cbn [app receive_loop].
    assert (calls <> [] -> length (arrived calls) <> 0%nat) as Hc.
    { clear -Ha' Hl. intros Hne. destruct (last calls) as [y|] eqn:E.
      - apply last_Some in E as [pre ->]. apply Forall_app in Ha' as [_ Hy].
        inversion Hy as [|? ? Hy1 _]; subst. unfold arrived. rewrite map_app, concat_app, length_app.
        rewrite app_comm_cons, last_snoc in Hl. destruct y as [[|c l]| | |]; simpl in *; try done; lia.
      - by apply last_None in E. }
    destruct (length (arrived (r :: calls))) as [|k] eqn:Ek; [done|]. destruct r as [l| | |]; try done.
    + change (arrived (Arrived l :: calls)) with (l ++ arrived calls) in *.
      rewrite length_app in Ek. rewrite (assoc_L (++)). apply IH; try done.
      * lia.
      * destruct calls as [|r' calls]; [done|]. specialize (Hc ltac:(done)).
        replace (S k - length l)%nat with (length (arrived (r' :: calls))) by lia. done.
      * intros E. apply Hl. destruct calls; [done|]. exact E.
    + change (arrived (WouldBlock :: calls)) with (arrived calls) in *. apply IH; try done.
      * destruct calls; [done|lia].
      * intros E. apply Hl. destruct calls; [done|]. exact E.
Qed.

(** A packet of the server is printed as it was sent: however its memory
    image is cut into pieces and however often the socket has nothing to
    deliver in between, one round of the receiving thread reads exactly this
    packet and prints its content. The call behind the last piece asks for no
    characters and delivers none. *)
Theorem packet_shown (r : Response) (calls : list arrival) (x : arrival) (more : list arrival)
    (Hr : c_wf c_Response r) (Ha : Forall alive calls) (Hc : arrived calls = c_enc c_Response r)
    (Hl : last calls <> Some WouldBlock) (Hx : x = WouldBlock \/ x = Failed \/ x = EndOfFile) :
  receive_round (calls ++ x :: more) = (o ← show r; Ok (Some (o, more))).
Proof.
  unfold receive_round. rewrite receive_loop_all; try done.
  - cbn [app]. rewrite Hc, c_round by done. done.
  - rewrite Hc. by apply c_length.
  - by destruct calls.
  - destruct Hx as [->|Hx]; [by left|by right].
Qed.

(** When the server has closed the connection, the receiving thread does
    not stop: every end of file is taken for a packet and the time 0 is printed,
    over and over. *)
Theorem eof_prints_time (n : nat) (more : list arrival) :
  receiveMessage n (repeat EndOfFile n ++ more) = Ok (Some (repeat (PrintTime 0) n, more)).
Proof.
  induction n as [|n IH]; [done|]. cbn [receiveMessage repeat app].
  assert (forall calls, receive_round (EndOfFile :: calls) = Ok (Some ([PrintTime 0], calls))) as ->.
  { intros calls. unfold receive_round. cbn [receive_loop c_size c_Response]. vm_compute. reflexivity. }
  cbn [mbind result_bind]. rewrite IH. done.
Qed.

(** A message that [send] takes at once is sent once. After a first call
    that took only a part, the length of the next calls is computed from the
    result of the last call alone: the packet is completed by the second call,
    but then a third one is made, which reads behind the packet. *)
Theorem message_send (packet : list Z) (s : state) :
  let len := Z.of_nat (length packet) in
  (forall more, 0 < len -> send_loop packet (len :: 0 :: more) 0 0 s
     = Ok (Some (say s [Sent packet])))
  /\ (forall r1 r2 r3 more, 0 < r1 < len -> 0 < r2 ->
       send_loop packet (r1 :: r2 :: r3 :: more) 0 0 s = Undefined).
Proof.
  intros len. split.
  - intros more H. cbn [send_loop]. fold len.
    destruct (Z.ltb_spec len (0 + (len - 0))); [lia|]. destruct (Z.eqb_spec len 0); [lia|].
    destruct (Z.leb_spec len 0); [lia|]. destruct (Z.ltb_spec len (0 + len + (len - len))); [lia|].
    change (0 =? 0) with true. cbn iota. unfold send, len. rewrite Nat2Z.id, drop_0. by rewrite firstn_all.
  - intros r1 r2 r3 more H1 H2. cbn [send_loop]. fold len.
    destruct (Z.ltb_spec len (0 + (len - 0))); [lia|]. destruct (Z.eqb_spec r1 0); [lia|].
    destruct (Z.leb_spec r1 0); [lia|]. destruct (Z.ltb_spec len (0 + r1 + (len - r1))); [lia|].
    destruct (Z.eqb_spec r2 0); [lia|]. destruct (Z.leb_spec r2 0); [lia|].
    by destruct (Z.ltb_spec len (0 + r1 + r2 + (len - r2))); [|lia].
Qed.

(** The client cannot come back: once it has disconnected, its socket is
    closed, and selecting to connect again ends the program with an error,
    whether or not the server would accept. *)
Theorem reconnect_fails (s : state) (n : Z) (accepted : bool) (rest : list command)
    (Hs : currentStatus s = 1) :
  exists s', menu s (Disconnect n :: Connect accepted :: rest) = Ok (Some (Ended s'))
    /\ last (out s') = Some (Exit (-1)) /\ sock s' = Closed.
Proof.
  cbn [menu]. unfold disconnectFromServer. rewrite Hs. change (1 =? 0) with false. cbn iota.
  unfold connectToServer. cbn. eexists. split; [done|]. split; [|done]. cbn.
  rewrite <- (assoc_L (++)). by rewrite last_app.
Qed.

(** ** The hypotheses hold on concrete inputs *)

Definition named : Response := {| rtype := 1; timeInSecond := 0; serverName := literal "Yusen" ++ zeros 14;
  clients := repeat empty_info 100; numOfConnect := 0; success := 0; error := zeros 50;
  client := empty_info; rmessage := zeros 200 |}.

Lemma named_wf : c_wf c_Response named.
Proof.
  apply wf_Response. cbn [rtype timeInSecond serverName clients numOfConnect success error client rmessage named].
  assert (forall n, c_wf (c_chars n) (zeros n)) as Hz.
  { intros n. apply wf_chars. split; [apply repeat_length|]. apply List.Forall_forall.
    intros x Hx. by apply repeat_spec in Hx as ->. }
  assert (c_wf c_ClientInfo empty_info) as Hi.
  { apply wf_ClientInfo. repeat apply conj; try done; apply Hz. }
  repeat apply conj; try done; try apply Hz.
  - by repeat constructor.
  - apply List.Forall_forall. intros x Hx. by apply repeat_spec in Hx as ->.
Qed.

(** A text that arrives in two parts. *)
Definition in_two_parts (l : list Z) : list arrival :=
  [Arrived (take 1000 l); WouldBlock; Arrived (drop 1000 l)].

Lemma in_two_parts_ok l : (1000 < length l)%nat ->
  arrived (in_two_parts l) = l /\ Forall alive (in_two_parts l) /\ last (in_two_parts l) <> Some WouldBlock.
Proof.
  intros Hl. split; [|split; [|done]].
  - unfold arrived, in_two_parts. cbn [map concat app]. by rewrite app_nil_r, take_drop.
  - assert (take 1000 l <> [] /\ drop 1000 l <> []) as [H1 H2].
    { split; intros E; apply (f_equal length) in E; rewrite ?length_take, ?length_drop in E; cbn [length] in E; lia. }
    by repeat constructor.
Qed.

Lemma named_length : (1000 < length (c_enc c_Response named))%nat.
Proof. rewrite (c_length c_Response named named_wf). vm_compute. lia. Qed.

Lemma packet_shown_witness :
  receive_round (in_two_parts (c_enc c_Response named) ++ WouldBlock :: [])
  = (o ← show named; Ok (Some (o, []))).
Proof.
  destruct (in_two_parts_ok (c_enc c_Response named) named_length) as (H1 & H2 & H3).
  apply (packet_shown named _ WouldBlock [] named_wf H2 H1 H3). by left.
Defined.

Lemma reconnect_fails_witness :
  exists s', menu (State 1 Connected []) [Disconnect 50; Connect true] = Ok (Some (Ended s'))
    /\ last (out s') = Some (Exit (-1)) /\ sock s' = Closed.
Proof. by apply (reconnect_fails (State 1 Connected []) 50 true []). Defined.
