(* ===== verification/Crossing.v ===== *)
(** The crossing simulation (src/os/p1.c): four directions, four areas with a
    semaphore each, a thread per car, and the thread that looks for deadlocks.

    The four thread functions of the cars are the same up to the names of the
    areas and neighbours, so they are one program here, with the direction as
    its parameter. Every operation on a shared variable, semaphore or condition
    is a step of its own; an [event] says whose step is next. *)

From S2P Require Import Prelude Result.
From stdpp Require Import strings functions.
#[local] Open Scope Z_scope.

Definition MAX_THREAD_NUM : Z := 1000.

Inductive dir := North | East | South | West.
Inductive area := A | B | C | D.

#[export] Instance dir_eq_dec : EqDecision dir.
Proof. solve_decision. Defined.
#[export] Instance area_eq_dec : EqDecision area.
Proof. solve_decision. Defined.

(** The area behind the queue, and the area on the other side. *)
Definition first (d : dir) : area :=
  match d with North => C | East => B | South => A | West => D end.
Definition second (d : dir) : area :=
  match d with North => D | East => C | South => B | West => A end.

(** The direction a car gives way to, and the one it signals when it leaves. *)
Definition right_of (d : dir) : dir :=
  match d with North => West | East => North | South => East | West => South end.
Definition left_of (d : dir) : dir :=
  match d with North => East | East => South | South => West | West => North end.

(** ** State *)

(** [struct CarQueue] *)
Record CarQueue := {
  carId : list Z;
  front : Z;
  rear : Z;
  count : Z
}.

(** Where a car thread is. *)
Inductive pc :=
| Start            (* pthread_mutex_lock, pthread_cond_wait *)
| QueueWait
| Woken            (* flag = 1 *)
| WantFirst        (* sem_wait(first) *)
| HasFirst         (* remain[first] = 0 *)
| Arrived          (* if(flag[right]) *)
| GoWait           (* pthread_cond_wait on the crossing *)
| CrossWait
| WantSecond       (* sem_wait(second) *)
| HasBoth          (* remain[first] = 1 *)
| ClearFlag        (* flag = 0 *)
| ReadFirst        (* sem_getvalue(first) *)
| PostFirst (val : Z)
| SignalLeft
| ReadSecond       (* sem_getvalue(second) *)
| PostSecond (val : Z)
| PopNext          (* if(count > 0) *)
| SignalNext
| Done.

#[export] Instance pc_eq_dec : EqDecision pc.
Proof. solve_decision. Defined.

Record car := Car { heading : dir; at_ : pc }.

(** Where [threadDeadlock] is. *)
Inductive watch :=
| WPop (ds : list dir)                 (* the queues whose first car is still to go *)
| WSignal (d : dir) (ds : list dir)
| WRead                                (* sem_getvalue of the four semaphores *)
| WCheck (val4 : Z)
| WSignalNorth (val4 : Z)
| WPost (val4 : Z).

Record state := State {
  sem : area -> Z;
  remain : area -> Z;
  flag : dir -> Z;
  queue : dir -> CarQueue;
  currentId : dir -> Z;
  cars : list car;
  watcher : watch
}.

Definition with_sem (s : state) (a : area) (v : Z) : state :=
  State (<[a := v]> (sem s)) (remain s) (flag s) (queue s) (currentId s) (cars s) (watcher s).
Definition with_remain (s : state) (a : area) (v : Z) : state :=
  State (sem s) (<[a := v]> (remain s)) (flag s) (queue s) (currentId s) (cars s) (watcher s).
Definition with_flag (s : state) (d : dir) (v : Z) : state :=
  State (sem s) (remain s) (<[d := v]> (flag s)) (queue s) (currentId s) (cars s) (watcher s).
Definition with_queue (s : state) (d : dir) (q : CarQueue) (id : Z) : state :=
  State (sem s) (remain s) (flag s) (<[d := q]> (queue s)) (<[d := id]> (currentId s)) (cars s) (watcher s).
Definition with_cars (s : state) (cs : list car) : state :=
  State (sem s) (remain s) (flag s) (queue s) (currentId s) cs (watcher s).
Definition with_watcher (s : state) (w : watch) : state :=
  State (sem s) (remain s) (flag s) (queue s) (currentId s) (cars s) w.

Definition move_car (s : state) (i : nat) (c : car) (p : pc) : state :=
  with_cars s (<[i := Car (heading c) p]> (cars s)).

(** ** Conditions *)

(** The car [j] waits at the place [p] in the direction [d]. *)
Definition waits (d : dir) (p : pc) (c : car) : bool :=
  bool_decide (heading c = d) && bool_decide (at_ c = p).

(** [pthread_cond_signal]: one waiting thread, [who], is woken up if there is
    one; [None] when [who] is not a possible choice. *)
Definition signal (s : state) (d : dir) (p p' : pc) (who : option nat) : option state :=
  match who with
  | None => if existsb (waits d p) (cars s) then None else Some s
  | Some j =>
    c ← cars s !! j;
    if waits d p c then Some (move_car s j c p') else None
  end.

(** The next car of the queue: [currentId = carId[front++]; count--;] *)
Definition pop (s : state) (d : dir) : result state :=
  let q := queue s d in
  id ← rget (carId q) (front q);
  Ok (with_queue s d {| carId := carId q; front := front q + 1; rear := rear q; count := count q - 1 |} id).

(** ** The threads of the cars *)

(** One step of the car [i] from the direction [d] at the place [p]; [Ok None]
    when it cannot go on. *)
Definition car_thread (d : dir) (s : state) (i : nat) (p : pc) (who : option nat) : result (option state) :=
  let c := Car d p in
  let go s p := Ok (Some (move_car s i c p)) in
  match p with
  | Start => go s QueueWait
  | QueueWait | CrossWait | Done => Ok None
  | Woken => go (with_flag s d 1) WantFirst
  | WantFirst => if 0 <? sem s (first d) then go (with_sem s (first d) (sem s (first d) - 1)) HasFirst
                 else Ok None
  | HasFirst => go (with_remain s (first d) 0) Arrived
  | Arrived => go s (if flag s (right_of d) =? 0 then WantSecond else GoWait)
  | GoWait => go s CrossWait
  | WantSecond => if 0 <? sem s (second d) then go (with_sem s (second d) (sem s (second d) - 1)) HasBoth
                  else Ok None
  | HasBoth => go (with_remain s (first d) 1) ClearFlag
  | ClearFlag => go (with_flag s d 0) ReadFirst
  | ReadFirst => go s (PostFirst (sem s (first d)))
  | PostFirst val =>
    go (if val =? 0 then with_sem s (first d) (sem s (first d) + 1) else s) SignalLeft
  | SignalLeft =>
    Ok (s' ← signal s (left_of d) CrossWait WantSecond who; Some (move_car s' i c ReadSecond))
  | ReadSecond => go s (PostSecond (sem s (second d)))
  | PostSecond val =>
    go (if val =? 0 then with_sem s (second d) (sem s (second d) + 1) else s) PopNext
  | PopNext => if 0 <? count (queue s d) then s' ← pop s d; go s' SignalNext else go s Done
  | SignalNext => Ok (s' ← signal s d QueueWait Woken who; Some (move_car s' i c Done))
  end.

Definition threadNorth := car_thread North.
Definition threadEast := car_thread East.
Definition threadSouth := car_thread South.
Definition threadWest := car_thread West.

Definition car_step (s : state) (i : nat) (c : car) (who : option nat) : result (option state) :=
  match heading c with
  | North => threadNorth s i (at_ c) who
  | East => threadEast s i (at_ c) who
  | South => threadSouth s i (at_ c) who
  | West => threadWest s i (at_ c) who
  end.

(** ** [threadDeadlock] *)

Definition all_taken (s : state) : bool :=
  (remain s A =? 0) && (remain s D =? 0) && (remain s B =? 0) && (remain s C =? 0).

Definition watch_step (s : state) (who : option nat) : result (option state) :=
  match watcher s with
  | WPop [] => Ok (Some (with_watcher s WRead))
  | WPop (d :: ds) =>
    if 0 <? count (queue s d) then s' ← pop s d; Ok (Some (with_watcher s' (WSignal d ds)))
    else Ok (Some (with_watcher s (WPop ds)))
  | WSignal d ds => Ok (s' ← signal s d QueueWait Woken who; Some (with_watcher s' (WPop ds)))
  | WRead => Ok (Some (with_watcher s (WCheck (sem s D))))
  | WCheck val4 => Ok (Some (with_watcher s (if all_taken s then WSignalNorth val4 else WRead)))
  | WSignalNorth val4 =>
    Ok (s' ← signal s North CrossWait WantSecond who; Some (with_watcher s' (WPost val4)))
  | WPost val4 =>
    let s' := if val4 =? 0 then with_sem s D (sem s D + 1) else s in
    Ok (Some (with_watcher s' WRead))
  end.

Inductive event :=
| Move (i : nat) (who : option nat)
| Watch (who : option nat)
| Spurious (i : nat).    (* a wakeup without a signal *)

Definition step (s : state) (e : event) : result (option state) :=
  match e with
  | Move i who => match cars s !! i with Some c => car_step s i c who | None => Ok None end
  | Watch who => watch_step s who
  | Spurious i =>
    match cars s !! i with
    | Some c => match at_ c with
                | QueueWait => Ok (Some (move_car s i c Woken))
                | CrossWait => Ok (Some (move_car s i c WantSecond))
                | _ => Ok None
                end
    | None => Ok None
    end
  end.

Fixpoint steps (s : state) (es : list event) : result (option state) :=
  match es with
  | [] => Ok (Some s)
  | e :: es => o ← step s e; match o with Some s' => steps s' es | None => Ok None end
  end.

(** ** [main] *)

Definition empty_queue : CarQueue :=
  {| carId := repeat 0 (Z.to_nat MAX_THREAD_NUM); front := 0; rear := 0; count := 0 |}.

Definition state0 : state :=
  State (fun _ => 1) (fun _ => 1) (fun _ => 0) (fun _ => empty_queue) (fun _ => 0) []
        (WPop [North; East; West; South]).

Definition dir_of (c : Z) : option dir :=
  match c with 101 => Some East | 110 => Some North | 119 => Some West | 115 => Some South | _ => None end.

(** A car is pushed into its queue and its thread is created; the first element
    is the next index of [carIds] and [carThreads]. *)
Definition add_car (s : state) (i : Z) (d : dir) : result state :=
  let q := queue s d in
  ids ← rset (carId q) (rear q) (i + 1);
  let q' := {| carId := ids; front := front q; rear := rear q + 1; count := count q + 1 |} in
  let s := with_queue (with_flag s d 1) d q' (currentId s d) in
  Ok (with_cars s (cars s ++ [Car d Start])).

Fixpoint add_cars (s : state) (i : Z) (arg : list Z) : result state :=
  match arg with
  | [] => Ok s
  | c :: arg =>
    if MAX_THREAD_NUM <=? i then Undefined   (* carIds[i], carThreads[i] *)
    else
      s ← match dir_of c with Some d => add_car s i d | None => Ok s end;
      add_cars s (i + 1) arg
  end.

Definition main (arg : list Z) : result state := add_cars state0 0 arg.
