(* ===== verification/CrossingProps.v ===== *)
(** The theorems about the crossing of Crossing: the areas exclude each other as
    long as the deadlock thread does not interfere, the deadlock it looks for,
    what its intervention does, and a wakeup that is lost. *)

From S2P Require Import Prelude Result Crossing.
From stdpp Require Import strings functions.
#[local] Open Scope Z_scope.

(** ** Areas and their cars *)

(** The car is in the area [a]: it took the semaphore and did not give it back. *)
Definition holds (a : area) (c : car) : bool :=
  let f := bool_decide (first (heading c) = a) in
  let s := bool_decide (second (heading c) = a) in
  match at_ c with
  | HasFirst | Arrived | GoWait | CrossWait | WantSecond => f
  | HasBoth | ClearFlag | ReadFirst | PostFirst _ => f || s
  | SignalLeft | ReadSecond | PostSecond _ => s
  | _ => false
  end.

Definition b2z (b : bool) : Z := if b then 1 else 0.

Fixpoint inside (a : area) (cs : list car) : Z :=
  match cs with [] => 0 | c :: cs => b2z (holds a c) + inside a cs end.

Lemma inside_nonneg a cs : 0 <= inside a cs.
Proof. induction cs as [|c cs IH]; simpl; [lia|]. unfold b2z. destruct (holds a c); lia. Qed.

Lemma inside_insert a cs i c c' : cs !! i = Some c ->
  inside a (<[i := c']> cs) = inside a cs - b2z (holds a c) + b2z (holds a c').
Proof.
  revert i. induction cs as [|x cs IH]; intros [|i] H; simpl in *; simplify_eq; [lia|].
  rewrite (IH i H). lia.
Qed.

Lemma inside_app a cs cs' : inside a (cs ++ cs') = inside a cs + inside a cs'.
Proof. induction cs as [|x cs IH]; simpl; [done|]. lia. Qed.

Lemma inside_holds a cs i c : cs !! i = Some c -> holds a c = true -> 1 <= inside a cs.
Proof.
  intros H Hc. rewrite <- (list_insert_id cs i c H), (inside_insert a cs i c c H), Hc.
  pose proof (inside_insert a cs i c (Car (heading c) Done) H) as E.
  pose proof (inside_nonneg a (<[i:=Car (heading c) Done]> cs)). rewrite Hc in E. cbn in *. lia.
Qed.

Lemma inside_two a cs i j ci cj : i <> j -> cs !! i = Some ci -> cs !! j = Some cj ->
  holds a ci = true -> holds a cj = true -> 2 <= inside a cs.
Proof.
  intros Hij Hi Hj Hci Hcj.
  pose proof (inside_insert a cs i ci (Car (heading ci) Done) Hi) as E. rewrite Hci in E.
  assert (1 <= inside a (<[i:=Car (heading ci) Done]> cs)).
  { apply (inside_holds a _ j cj); [by rewrite list_lookup_insert_ne|done]. }
  cbn in *. lia.
Qed.

(** ** The invariant without interference *)

(** A car that read a semaphore it had taken read 0. *)
Definition read_ok (c : car) : Prop :=
  match at_ c with PostFirst v | PostSecond v => v = 0 | _ => True end.

Record exclusive (s : state) : Prop := {
  X_sem : forall a, sem s a + inside a (cars s) = 1;
  X_nonneg : forall a, 0 <= sem s a;
  X_read : Forall read_ok (cars s)
}.

(** The deadlock thread does not post a semaphore. *)
Definition quiet (s : state) (e : event) : Prop :=
  match e with Watch _ => watcher s <> WPost 0 | _ => True end.

(** A move that changes no semaphore and takes or leaves no area. *)
Lemma exclusive_move s i c p : exclusive s -> cars s !! i = Some c ->
  (forall a, holds a (Car (heading c) p) = holds a c) -> read_ok (Car (heading c) p) ->
  exclusive (move_car s i c p).
Proof.
  intros [Hs Hn Hr] Hc Hh Hp. constructor; cbn [sem cars move_car with_cars]; try done.
  - intros a. rewrite (inside_insert a _ i c _ Hc), Hh. specialize (Hs a). lia.
  - by apply Forall_insert.
Qed.

(** A move that takes the area [x] ([k] is -1) or leaves it ([k] is 1). *)
Lemma exclusive_sem s i c p x k : exclusive s -> cars s !! i = Some c ->
  0 <= sem s x + k -> read_ok (Car (heading c) p) ->
  (forall a, b2z (holds a (Car (heading c) p)) = b2z (holds a c) - (if decide (a = x) then k else 0)) ->
  exclusive (move_car (with_sem s x (sem s x + k)) i c p).
Proof.
  intros [Hs Hn Hr] Hc Hk Hp Hh.
  constructor; cbn [sem cars move_car with_cars with_sem].
  - intros a. rewrite (inside_insert a _ i c _ Hc), Hh. specialize (Hs a).
    destruct (decide (a = x)) as [->|Hne]; [rewrite fn_lookup_insert; lia|].
    rewrite fn_lookup_insert_ne by done. lia.
  - intros a. destruct (decide (a = x)) as [->|Hne]; [by rewrite fn_lookup_insert|].
    by rewrite fn_lookup_insert_ne.
  - by apply Forall_insert.
Qed.

Lemma exclusive_signal s d p p' who s' : exclusive s -> signal s d p p' who = Some s' ->
  (p = CrossWait /\ p' = WantSecond \/ p = QueueWait /\ p' = Woken) ->
  exclusive s' /\ (forall i c, cars s !! i = Some c -> at_ c <> p -> cars s' !! i = Some c)
  /\ watcher s' = watcher s.
Proof.
  intros Hs E Hp. unfold signal in E. destruct who as [j|].
  - destruct (cars s !! j) as [c|] eqn:Ec; [|done]. cbn in E. unfold waits in E.
    destruct (bool_decide_reflect (heading c = d)); [|done].
    destruct (bool_decide_reflect (at_ c = p)) as [Hc|]; [|done]. simplify_eq/=.
    split; [|split; [|done]].
    + apply exclusive_move; try done.
      * intros a. unfold holds. cbn [heading at_]. by destruct Hp as [[-> ->]|[-> ->]].
      * by destruct Hp as [[_ ->]|[_ ->]].
    + intros i c' Hi Hne. cbn. rewrite list_lookup_insert_ne; [done|].
      intros ->. by simplify_eq.
  - destruct (existsb _ _); [done|]. by simplify_eq.
Qed.

Lemma pop_frame s d s' : pop s d = Ok s' -> sem s' = sem s /\ cars s' = cars s /\ watcher s' = watcher s.
Proof.
  unfold pop. destruct (rget _ _); cbn; intros; simplify_eq. done.
Qed.

Lemma exclusive_frame s s' : exclusive s -> sem s' = sem s -> cars s' = cars s -> exclusive s'.
Proof. intros [Hs Hn Hr] E1 E2. constructor; intros; rewrite ?E1, ?E2; auto. Qed.

Lemma held_zero s i c a : exclusive s -> cars s !! i = Some c -> holds a c = true -> sem s a = 0.
Proof.
  intros [Hs Hn Hr] Hc Hh. pose proof (inside_holds a _ i c Hc Hh). specialize (Hs a). specialize (Hn a). lia.
Qed.

(** A step that touches no semaphore. *)
Lemma exclusive_step s s0 i d p p' :
  exclusive s -> cars s !! i = Some (Car d p) -> sem s0 = sem s -> cars s0 = cars s ->
  (forall a, holds a (Car d p') = holds a (Car d p)) -> read_ok (Car d p') ->
  exclusive (move_car s0 i (Car d p) p').
Proof.
  intros Hs Hc E1 E2 Hh Hr. apply exclusive_move; try done; [by eapply exclusive_frame|by rewrite E2].
Qed.

Ltac same_holds := first [done | intros []; reflexivity].
Ltac other_holds d := intros a; destruct d, a; reflexivity.

Lemma car_step_eq s i d p who : car_step s i (Car d p) who = car_thread d s i p who.
Proof. by destruct d. Qed.

Lemma car_exclusive s i c who s' :
  exclusive s -> cars s !! i = Some c -> car_step s i c who = Ok (Some s') ->
  exclusive s' /\ watcher s' = watcher s.
Proof.
  intros Hs Hc E. pose proof (Forall_lookup_1 _ _ i c (X_read s Hs) Hc) as Hrc.
  destruct c as [d p]. rewrite car_step_eq in E. unfold car_thread in E. cbn [heading at_] in *.
  destruct p; simplify_eq; cbn [read_ok at_] in Hrc.
  - split; [by apply (exclusive_step s s)|done].
  - split; [by apply (exclusive_step s (with_flag s d 1))|done].
  - destruct (Z.ltb_spec 0 (sem s (first d))); simplify_eq. split; [|done].
    apply (exclusive_sem s i (Car d WantFirst) HasFirst (first d) (-1)); try done; [lia|other_holds d].
  - split; [by apply (exclusive_step s (with_remain s (first d) 0))|done].
  - split; [|done]. destruct (flag s (right_of d) =? 0); by apply (exclusive_step s s).
  - split; [by apply (exclusive_step s s)|done].
  - destruct (Z.ltb_spec 0 (sem s (second d))); simplify_eq. split; [|done].
    apply (exclusive_sem s i (Car d WantSecond) HasBoth (second d) (-1)); try done; [lia|other_holds d].
  - split; [by apply (exclusive_step s (with_remain s (first d) 1))|done].
  - split; [by apply (exclusive_step s (with_flag s d 0))|done].
  - split; [|done]. apply (exclusive_step s s); try done.
    apply (held_zero s i (Car d ReadFirst) (first d) Hs Hc). by destruct d.
  - subst val. split; [|done].
    apply (exclusive_sem s i (Car d (PostFirst 0)) SignalLeft (first d) 1); try done; [|other_holds d].
    pose proof (X_nonneg s Hs (first d)). lia.
  - destruct (signal s _ _ _ who) as [s1|] eqn:Es; simplify_eq/=.
    destruct (exclusive_signal s _ _ _ who s1 Hs Es) as (Hs1 & Hk & Hw); [by left|].
    split; [|done]. apply (exclusive_step s1 s1); try done. by apply Hk.
  - split; [|done]. apply (exclusive_step s s); try done.
    apply (held_zero s i (Car d ReadSecond) (second d) Hs Hc). by destruct d.
  - subst val. split; [|done].
    apply (exclusive_sem s i (Car d (PostSecond 0)) PopNext (second d) 1); try done; [|other_holds d].
    pose proof (X_nonneg s Hs (second d)). lia.
  - destruct (0 <? count (queue s d)); [|simplify_eq; split; [by apply (exclusive_step s s)|done]].
    destruct (pop s d) as [s1| |] eqn:Ep; simplify_eq/=.
    destruct (pop_frame s d s1 Ep) as (E1 & E2 & E3).
    split; [by apply (exclusive_step s s1)|done].
  - destruct (signal s _ _ _ who) as [s1|] eqn:Es; simplify_eq/=.
    destruct (exclusive_signal s _ _ _ who s1 Hs Es) as (Hs1 & Hk & Hw); [by right|].
    split; [|done]. apply (exclusive_step s1 s1); try done. by apply Hk.
Qed.

Lemma watch_exclusive s who s' :
  exclusive s -> watcher s <> WPost 0 -> watch_step s who = Ok (Some s') -> exclusive s'.
Proof.
  intros Hs Hw E. unfold watch_step in E. destruct (watcher s) as [[|d ds]|d ds| |v|v|v]; simplify_eq/=.
  - by eapply exclusive_frame.
  - destruct (0 <? count (queue s d)); [|simplify_eq; by eapply exclusive_frame].
    destruct (pop s d) as [s1| |] eqn:Ep; simplify_eq/=.
    destruct (pop_frame s d s1 Ep) as (E1 & E2 & _). eapply exclusive_frame; [exact Hs|done|done].
  - destruct (signal s _ _ _ who) as [s1|] eqn:Es; simplify_eq/=.
    destruct (exclusive_signal s _ _ _ who s1 Hs Es) as (Hs1 & _ & _); [by right|]. by eapply exclusive_frame.
  - by eapply exclusive_frame.
  - by eapply exclusive_frame.
  - destruct (signal s _ _ _ who) as [s1|] eqn:Es; simplify_eq/=.
    destruct (exclusive_signal s _ _ _ who s1 Hs Es) as (Hs1 & _ & _); [by left|]. by eapply exclusive_frame.
  - destruct (Z.eqb_spec v 0) as [->|]; [done|]. by eapply exclusive_frame.
Qed.

Lemma step_exclusive s e s' : exclusive s -> quiet s e -> step s e = Ok (Some s') -> exclusive s'.
Proof.
  intros Hs Hq E. destruct e as [i who|who|i]; cbn [step quiet] in *.
  - destruct (cars s !! i) as [c|] eqn:Ec; [|done]. by eapply car_exclusive.
  - by eapply watch_exclusive.
  - destruct (cars s !! i) as [[d p]|] eqn:Ec; [|done]. cbn in E.
    destruct p; simplify_eq; by apply (exclusive_step s s).
Qed.

(** ** The start *)

(** [add_cars] only queues cars. *)
Lemma add_cars_frame arg : forall s i s', add_cars s i arg = Ok s' ->
  sem s' = sem s /\ remain s' = remain s /\ watcher s' = watcher s
  /\ exists new, cars s' = cars s ++ new /\ Forall (fun c => at_ c = Start) new.
Proof.
  induction arg as [|c arg IH]; intros s i s' E; cbn [add_cars] in E.
  - simplify_eq. split_and!; try done. exists []. by rewrite app_nil_r.
  - destruct (MAX_THREAD_NUM <=? i); [done|]. destruct (dir_of c) as [d|]; cbn in E; [|by eapply IH].
    unfold add_car in E. destruct (rset _ _ _) as [ids| |]; cbn in E; try done.
    destruct (IH _ _ _ E) as (E1 & E2 & E3 & new & E4 & Hn). split_and!; try done.
    exists (Car d Start :: new). cbn in E4. rewrite E4. split; [by rewrite <- (assoc_L (++))|by constructor].
Qed.

Lemma inside_start a cs : Forall (fun c => at_ c = Start) cs -> inside a cs = 0.
Proof. induction 1 as [|[d p] cs Hc Hcs IH]; [done|]. cbn in *. subst. by rewrite IH. Qed.

Lemma main_exclusive arg s : main arg = Ok s -> exclusive s.
Proof.
  intros E. apply add_cars_frame in E as (E1 & _ & _ & new & E4 & Hn). cbn in E4.
  constructor; rewrite ?E1, ?E4; cbn.
  - intros a. by rewrite inside_start.
  - lia.
  - eapply List.Forall_impl; [|exact Hn]. intros c Hc. unfold read_ok. by rewrite Hc.
Qed.

(** The states of the simulation in which the deadlock thread did not post. *)
Inductive undisturbed : state -> Prop :=
| from_main arg s : main arg = Ok s -> undisturbed s
| by_step s e s' : undisturbed s -> quiet s e -> step s e = Ok (Some s') -> undisturbed s'.

Lemma undisturbed_exclusive s : undisturbed s -> exclusive s.
Proof. induction 1; [by eapply main_exclusive|by eapply step_exclusive]. Qed.

(** C17: As long as the deadlock thread does not post a semaphore, no two cars
    are in the same area, whatever cars come and however their threads
    interleave, wakeups without a signal included. *)
Theorem areas_exclusive (s : state) (a : area) (i j : nat) (ci cj : car)
    (Hs : undisturbed s) (Hi : cars s !! i = Some ci) (Hj : cars s !! j = Some cj)
    (Hci : holds a ci = true) (Hcj : holds a cj = true) : i = j.
Proof.
  destruct (decide (i = j)) as [|Hij]; [done|].
  pose proof (inside_two a _ i j ci cj Hij Hi Hj Hci Hcj).
  destruct (undisturbed_exclusive s Hs) as [Hsem Hn _]. specialize (Hsem a). specialize (Hn a). lia.
Qed.

(** ** The deadlock and its resolution *)

(** One car from each direction: cars 0 to 3 come from North, East, South and
    West. *)
Definition nesw : list Z := [110; 101; 115; 119].

(** All cars wait for their queue, the deadlock thread wakes the first ones, and
    every car enters its first area and waits for the one on its right. *)
Definition jam : list event :=
  map (fun i => Move i None) (seq 0 4)
  ++ [Watch None; Watch (Some 0%nat); Watch None; Watch (Some 1%nat);
      Watch None; Watch (Some 3%nat); Watch None; Watch (Some 2%nat)]
  ++ concat (map (fun _ => map (fun i => Move i None) (seq 0 4)) (seq 0 5)).

(** The deadlock thread finds the jam, signals North and posts the semaphore
    of its second area, and North enters. *)
Definition intervene : list event :=
  [Watch None; Watch None; Watch None; Watch (Some 0%nat); Watch None; Move 0 None].

(** Then the cars leave one after the other, each waking the next. *)
Definition leave (i : nat) (next : option nat) : list event :=
  map (fun _ => Move i None) (seq 0 4) ++ [Move i next]
  ++ map (fun _ => Move i None) (seq 0 3).

Definition resolve : list event :=
  leave 0 (Some 1%nat) ++ [Move 1 None] ++ leave 1 (Some 2%nat) ++ [Move 2 None]
  ++ leave 2 (Some 3%nat) ++ [Move 3 None] ++ leave 3 None.

Definition run (arg : list Z) (es : list event) : result (option state) :=
  s ← main arg; steps s es.

Definition check (arg : list Z) (es : list event) (p : state -> bool) : bool :=
  match run arg es with Ok (Some s) => p s | _ => false end.

Lemma check_spec arg es p : check arg es p = true -> exists s, run arg es = Ok (Some s) /\ p s = true.
Proof. unfold check. destruct (run arg es) as [[s|]| |]; [|done..]. by exists s. Qed.

(** All cars are at this place. *)
Definition all_at (p : pc) (s : state) : bool := forallb (fun c => bool_decide (at_ c = p)) (cars s).
Definition all_sems (v : Z) (s : state) : bool := forallb (fun a => sem s a =? v) [A; B; C; D].

Lemma forallb_lookup {X} (f : X -> bool) l i x : forallb f l = true -> l !! i = Some x -> f x = true.
Proof. intros H Hi. rewrite forallb_forall in H. apply H. apply list_elem_of_In. by eapply list_elem_of_lookup_2. Qed.

(** The jam can happen: one car from each direction is enough to reach a
    state in which every area is taken, every car waits for a signal, and no car
    can take a step. *)
Theorem deadlock_reachable :
  exists s, run nesw jam = Ok (Some s) /\ length (cars s) = 4%nat
    /\ (forall a, sem s a = 0) /\ (forall i c, cars s !! i = Some c -> at_ c = CrossWait)
    /\ (forall i who, step s (Move i who) = Ok None).
Proof.
  assert (check nesw jam (fun s => all_at CrossWait s && all_sems 0 s && (length (cars s) =? 4)%nat) = true)
    as H by (vm_compute; reflexivity).
  apply check_spec in H as (s & E & H). apply andb_prop in H as [H H3]. apply andb_prop in H as [H1 H2].
  assert (forall i c, cars s !! i = Some c -> at_ c = CrossWait) as Hat.
  { intros i c Hc. pose proof (forallb_lookup _ _ i c H1 Hc) as Hb. by apply bool_decide_eq_true in Hb. }
  exists s. split; [exact E|]. split; [by apply Nat.eqb_eq|]. split; [|split; [exact Hat|]].
  - intros a. pose proof (proj1 (forallb_forall _ _) H2 a) as Ha. apply Z.eqb_eq, Ha.
    by destruct a; simpl; auto.
  - intros i who. cbn [step]. destruct (cars s !! i) as [c|] eqn:Ec; [|done].
    destruct c as [d p]. pose proof (Hat i _ Ec) as Hp. cbn in Hp. subst p. by rewrite car_step_eq.
Qed.

(** The deadlock thread ends the jam by letting North into an area that is
    taken: after its intervention the car from North and the car from West are
    both in the area D; from there all cars can leave, and every semaphore is
    back at 1. *)
Theorem resolver_collides :
  exists s s' cn cw, run nesw (jam ++ intervene) = Ok (Some s)
    /\ cars s !! 0%nat = Some cn /\ holds D cn = true
    /\ cars s !! 3%nat = Some cw /\ holds D cw = true
    /\ steps s resolve = Ok (Some s')
    /\ (forall i c, cars s' !! i = Some c -> at_ c = Done) /\ (forall a, sem s' a = 1).
Proof.
  assert (check nesw (jam ++ intervene) (fun s =>
      match cars s !! 0%nat, cars s !! 3%nat, steps s resolve with
      | Some cn, Some cw, Ok (Some s') => holds D cn && holds D cw && all_at Done s' && all_sems 1 s'
      | _, _, _ => false
      end) = true) as H by (vm_compute; reflexivity).
  apply check_spec in H as (s & E & H).
  destruct (cars s !! 0%nat) as [cn|] eqn:E0; [|done].
  destruct (cars s !! 3%nat) as [cw|] eqn:E3; [|done].
  destruct (steps s resolve) as [[s'|]| |] eqn:Er; [|done..].
  apply andb_prop in H as [H H4]. apply andb_prop in H as [H H3]. apply andb_prop in H as [H1 H2].
  exists s, s', cn, cw. split; [exact E|]. split; [exact E0|]. split; [done|]. split; [exact E3|].
  split; [done|]. split; [exact Er|]. split.
  - intros i c Hc. pose proof (forallb_lookup _ _ i c H3 Hc) as Hb. by apply bool_decide_eq_true in Hb.
  - intros a. pose proof (proj1 (forallb_forall _ _) H4 a) as Ha. apply Z.eqb_eq, Ha.
    by destruct a; simpl; auto.
Qed.

(** ** A lost wakeup *)

(** Cars from North and West. North sees the flag of West and is about to wait;
    West passes, signals nobody and ends; then North waits. *)
Definition lost : list event :=
  [Move 0 None; Move 1 None; Watch None; Watch (Some 0%nat); Watch None; Watch None; Watch (Some 1%nat); Watch None]
  ++ map (fun _ => Move 0 None) (seq 0 4)
  ++ map (fun _ => Move 1 None) (seq 0 4)
  ++ map (fun _ => Move 1 None) (seq 0 9)
  ++ [Move 0 None; Watch None].

(** North waits, West is gone, and the deadlock thread finds a free area. *)
Definition abandoned (s : state) : Prop :=
  cars s = [Car North CrossWait; Car West Done] /\ remain s D = 1
  /\ (watcher s = WRead \/ exists v, watcher s = WCheck v).

Definition abandoned_b (s : state) : bool :=
  bool_decide (map heading (cars s) = [North; West]) && bool_decide (map at_ (cars s) = [CrossWait; Done])
  && (remain s D =? 1) && match watcher s with WRead => true | _ => false end.

Lemma abandoned_b_spec s : abandoned_b s = true -> abandoned s.
Proof.
  unfold abandoned_b. intros H. apply andb_prop in H as [H H4]. apply andb_prop in H as [H H3].
  apply andb_prop in H as [H1 H2]. apply bool_decide_eq_true in H1, H2. split_and!.
  - destruct (cars s) as [|[d1 p1] [|[d2 p2] [|]]]; cbn in *; by simplify_eq.
  - by apply Z.eqb_eq.
  - left. by destruct (watcher s).
Qed.

Lemma abandoned_step s e s' : abandoned s -> (forall i, e <> Spurious i) ->
  step s e = Ok (Some s') -> abandoned s'.
Proof.
  intros (Hc & Hr & Hw) He E. destruct e as [i who|who|i]; cbn [step] in E.
  - rewrite Hc in E. destruct i as [|[|i]]; cbn in E; by simplify_eq.
  - unfold watch_step in E. destruct Hw as [Hw|[v Hw]]; rewrite Hw in E; simplify_eq.
    + split; [done|]. split; [done|]. right. by eexists.
    + assert (all_taken s = false) as Ht.
      { unfold all_taken. rewrite Hr. by rewrite andb_false_r. }
      rewrite Ht. split; [done|]. split; [done|]. by left.
  - by destruct (He i).
Qed.

(** A car can be forgotten: with one car from North and one from West a
    state is reachable from which, by any number of steps of the threads
    without a spurious wakeup, the car from North never moves again, although
    the other car is gone; the deadlock thread does not see it. *)
Theorem lost_wakeup :
  exists s, run [110; 119] lost = Ok (Some s)
    /\ forall es s', Forall (fun e => forall i, e <> Spurious i) es -> steps s es = Ok (Some s') ->
         cars s' = [Car North CrossWait; Car West Done].
Proof.
  assert (check [110; 119] lost abandoned_b = true) as H by (vm_compute; reflexivity).
  apply check_spec in H as (s & E & H). exists s. split; [exact E|].
  apply abandoned_b_spec in H as Ha.
  clear E H. intros es. revert s Ha. induction es as [|e es IH]; intros s Ha s' Hes E; cbn [steps] in E.
  - simplify_eq. apply Ha.
  - inversion Hes as [|? ? He Hes']; subst. destruct (step s e) as [[s1|]| |] eqn:Es; cbn in E; try done.
    apply (IH s1); [by eapply abandoned_step|done|done].
Qed.

(** No step of the execution is a post of the deadlock thread. *)
Fixpoint quiet_steps (s : state) (es : list event) : bool :=
  match es with
  | [] => true
  | e :: es =>
    match e, watcher s with Watch _, WPost _ => false | _, _ => true end
    && match step s e with Ok (Some s') => quiet_steps s' es | _ => true end
  end.

Lemma quiet_steps_undisturbed es : forall s s', undisturbed s -> quiet_steps s es = true ->
  steps s es = Ok (Some s') -> undisturbed s'.
Proof.
  induction es as [|e es IH]; intros s s' Hs Hq E; cbn [steps quiet_steps] in *; [by simplify_eq|].
  apply andb_prop in Hq as [Hq Hq']. destruct (step s e) as [[s1|]| |] eqn:Es; cbn in E; try done.
  apply (IH s1); [|done|done]. eapply by_step; [exact Hs| |exact Es].
  destruct e; cbn [quiet]; try done. by destruct (watcher s).
Qed.

Lemma jam_state : exists s c, undisturbed s /\ cars s !! 0%nat = Some c /\ holds C c = true.
Proof.
  assert (match main nesw with
    | Ok s0 => quiet_steps s0 jam && match steps s0 jam with
        | Ok (Some s) => match cars s !! 0%nat with Some c => holds C c | None => false end
        | _ => false end
    | _ => false end = true) as H by (vm_compute; reflexivity).
  destruct (main nesw) as [s0| |] eqn:Em; [|done..]. apply andb_prop in H as [Hq H].
  destruct (steps s0 jam) as [[s|]| |] eqn:Es; [|done..].
  destruct (cars s !! 0%nat) as [c|] eqn:Ec; [|done]. exists s, c.
  split; [|done]. eapply quiet_steps_undisturbed; [by eapply from_main|exact Hq|exact Es].
Qed.

Lemma areas_exclusive_witness :
  exists s c, undisturbed s /\ cars s !! 0%nat = Some c /\ holds C c = true
    /\ forall j cj, cars s !! j = Some cj -> holds C cj = true -> 0%nat = j.
Proof.
  destruct jam_state as (s & c & Hu & Ec & H).
  exists s, c. split; [done|]. split; [done|]. split; [done|].
  intros j cj Hj Hh. by apply (areas_exclusive s C 0 j c cj Hu Ec Hj H Hh).
Defined.

(** ** The queues *)

(** The cars of the argument that come from [d], numbered from [i + 1]. *)
Fixpoint cars_from (d : dir) (i : Z) (arg : list Z) : list Z :=
  match arg with
  | [] => []
  | c :: arg => (if bool_decide (dir_of c = Some d) then [i + 1] else []) ++ cars_from d (i + 1) arg
  end.

(** The queue holds these cars, none has left. *)
Definition queued (q : CarQueue) (ids : list Z) : Prop :=
  front q = 0 /\ rear q = Z.of_nat (length ids) /\ count q = Z.of_nat (length ids)
  /\ length (carId q) = Z.to_nat MAX_THREAD_NUM /\ take (length ids) (carId q) = ids.

Lemma add_cars_queues arg : forall s i (ids : dir -> list Z),
  0 <= i -> i + Z.of_nat (length arg) <= MAX_THREAD_NUM ->
  (forall d, queued (queue s d) (ids d) /\ Z.of_nat (length (ids d)) <= i) ->
  exists s', add_cars s i arg = Ok s' /\ forall d, queued (queue s' d) (ids d ++ cars_from d i arg).
Proof.
  induction arg as [|c arg IH]; intros s i ids H0 Hi Hq; cbn [add_cars cars_from length] in *.
  - exists s. split; [done|]. intros d. rewrite app_nil_r. apply Hq.
  - destruct (Z.leb_spec MAX_THREAD_NUM i); [lia|].
    destruct (dir_of c) as [d0|] eqn:Ed; cbn [mbind result_bind].
    + destruct (Hq d0) as ((Hf & Hr & Hc & Hl & Ht) & Hle).
      unfold add_car, rset. rewrite Hr, aset_nat by lia. cbn [lift mbind result_bind].
      set (ids' := <[d0 := ids d0 ++ [i + 1]]> ids).
      match goal with |- exists s', add_cars ?s1 _ _ = _ /\ _ =>
        destruct (IH s1 (i + 1) ids') as (s' & E & Hs'); [lia|lia| |] end.
      2:{ exists s'. split; [exact E|]. intros d. specialize (Hs' d). unfold ids' in Hs'.
          destruct (decide (d0 = d)) as [->|Hne].
          - rewrite fn_lookup_insert in Hs'. by rewrite bool_decide_true, (assoc_L (++)) by done.
          - rewrite fn_lookup_insert_ne in Hs' by done.
            by rewrite bool_decide_false by congruence. }
      intros d. unfold ids'. cbn [queue with_cars with_queue with_flag].
      destruct (decide (d0 = d)) as [->|Hne].
      * rewrite !fn_lookup_insert. unfold queued. cbn [front rear count carId]. rewrite length_app.
        cbn [length]. split; [|lia]. split_and!; try done; try lia; [by rewrite length_insert|].
        rewrite Nat.add_1_r, (take_S_r _ (length (ids d)) (i + 1)), take_insert_ge, Ht; [done|lia|].
        apply list_lookup_insert_eq. lia.
      * rewrite !fn_lookup_insert_ne by done. destruct (Hq d). split; [done|lia].
    + destruct (IH s (i + 1) ids) as (s' & E & Hs'); [lia|lia| |].
      { intros d. destruct (Hq d). split; [done|lia]. }
      exists s'. split; [exact E|]. intros d. rewrite bool_decide_false by congruence. apply Hs'.
Qed.

Lemma add_cars_overflow arg : forall s i, 0 <= i -> MAX_THREAD_NUM < i + Z.of_nat (length arg) ->
  i <= MAX_THREAD_NUM -> (forall d, length (carId (queue s d)) = Z.to_nat MAX_THREAD_NUM /\ 0 <= rear (queue s d) <= i) ->
  add_cars s i arg = Undefined.
Proof.
  induction arg as [|c arg IH]; intros s i H0 Hi Hm Hq; cbn [add_cars length] in *; [lia|].
  destruct (Z.leb_spec MAX_THREAD_NUM i); [done|].
  destruct (dir_of c) as [d0|]; cbn [mbind result_bind].
  - unfold add_car, rset. destruct (Hq d0) as [Hl Hr]. rewrite aset_in_range by lia.
    cbn [lift mbind result_bind]. apply IH; [lia..|]. intros d. cbn [queue with_cars with_queue with_flag].
    destruct (decide (d0 = d)) as [->|Hne].
    + rewrite fn_lookup_insert. cbn [carId rear]. rewrite length_insert. split; [done|lia].
    + rewrite fn_lookup_insert_ne by done. destruct (Hq d). split; [done|lia].
  - apply IH; [lia..|]. intros d. destruct (Hq d). split; [done|lia].
Qed.

(** [main] queues the cars of its argument per direction in the order in
    which they come and numbers them from 1, for up to 1000 letters; a longer
    argument overruns its arrays. *)
Theorem main_queues (arg : list Z) :
  (Z.of_nat (length arg) <= MAX_THREAD_NUM ->
     exists s, main arg = Ok s /\ forall d, queued (queue s d) (cars_from d 0 arg))
  /\ (MAX_THREAD_NUM < Z.of_nat (length arg) -> main arg = Undefined).
Proof.
  split; intros H.
  - apply (add_cars_queues arg state0 0 (fun _ => [])); [lia|lia|].
    intros d. split; [|done]. unfold queued. cbn [queue state0 empty_queue front rear count carId length].
    by split_and!.
  - apply add_cars_overflow; [lia|lia|unfold MAX_THREAD_NUM; lia|].
    intros d. cbn [queue state0 empty_queue carId rear]. by rewrite repeat_length.
Qed.

Lemma main_queues_witness :
  exists s, main [110; 120; 119; 110] = Ok s /\ forall d, queued (queue s d) (cars_from d 0 [110; 120; 119; 110]).
Proof. apply (main_queues [110; 120; 119; 110]). vm_compute. discriminate. Defined.
