(* ===== verification/ObjWire.v ===== *)
(** The messages of the object storage (src/cpp-object-storage-demo/object.h and
    object.cpp): memory blocks, sockets as the kernel shows them, the loops [readn]
    and [writen], and the two ends of [Request] and [Response].

    A socket is the list of what arrives on it and the list of how much the kernel
    takes for sending; both are decided by the other end and the network. Memory
    comes from [malloc], a parameter with the law that a block has at least the
    size asked for: how much more it has is not in the program, and the program
    writes behind its blocks. *)

From S2P Require Import Prelude Result ChatWire.
From stdpp Require Import strings.
#[local] Open Scope Z_scope.

(** ** Memory *)

(** [malloc n] is [None] when there is no block, else the block with the junk it
    contains. The size is a [size_t]: a negative [int] arrives as a huge number,
    for which there is no block. *)
Class Malloc := {
  malloc : Z -> option (list Z);
  malloc_room n b : malloc n = Some b -> n <= Z.of_nat (length b) < 2 ^ 63
}.

(** The blocks of glibc on 64 bit machines: multiples of 16 with a header of 8. *)
Definition glibc_usable (n : Z) : Z := Z.max 24 ((n + 8 + 15) / 16 * 16 - 8).

#[export] Program Instance glibc_malloc : Malloc := {|
  malloc n := if (0 <=? n) && (n <? 2 ^ 47) then Some (repeat 0 (Z.to_nat (glibc_usable n))) else None
|}.
Next Obligation.
  intros n b. cbv beta. case_bool; simpl; intros; simplify_eq.
  rewrite repeat_length. unfold glibc_usable.
  pose proof (Z.div_mod (n + 8 + 15) 16). pose proof (Z.mod_pos_bound (n + 8 + 15) 16). lia.
Qed.

Definition size_t (z : Z) : Z := wrap_u 64 z.
Definition int (z : Z) : Z := wrap_s 32 z.

(** The memory of an [int], and the [int] in a memory, of a little endian machine. *)
Definition memory (z : Z) : list Z := le_bytes 4 z.
Definition int_at (l : list Z) : Z := int (le_value 4 l).

(** [htonl] and [ntohl] turn the bytes around; their value is stored in an [int]. *)
Definition htonl (z : Z) : Z := int_at (rev (memory z)).
Definition ntohl (z : Z) : Z := htonl z.

(** ** Sockets *)

Inductive arrival :=
| Bytes (c : Z) (l : list Z)   (* these bytes can be read *)
| Nothing                      (* a call now finds nothing: EAGAIN *)
| Closed                       (* the other end has closed *)
| Broken.                      (* a call fails with another error *)

Inductive room :=
| Takes (n : nat)              (* the kernel takes up to [n] bytes *)
| Full                         (* EAGAIN *)
| Gone.                        (* another error *)

Inductive received := Got (l : list Z) | Again | Error.

Definition left_over (l : list Z) : list arrival :=
  match l with [] => [] | c :: l => [Bytes c l] end.

(** [recv(fd, buf, n, 0)], [n] above 0: what it returns and what is left of the arrival. *)
Definition recv (a : arrival) (n : nat) : received * list arrival :=
  match a with
  | Bytes c l => (Got (take n (c :: l)), left_over (drop n (c :: l)))
  | Nothing => (Again, [])
  | Closed => (Got [], [Closed])
  | Broken => (Error, [Broken])
  end.

Inductive send_result := Sent (len : nat) | Full_now | Send_error.

(** [send(fd, buf, n, 0)]: what it returns and what is left of the room. *)
Definition send (r : room) (n : nat) : send_result * list room :=
  match r with
  | Takes m => (Sent (Nat.min m n), if (n <? m)%nat then [Takes (m - n)] else [])
  | Full => (Full_now, [])
  | Gone => (Send_error, [Gone])
  end.

(** The bytes in front of any other event. *)
Fixpoint stream (net : list arrival) : list Z :=
  match net with
  | Bytes c l :: net => c :: l ++ stream net
  | Nothing :: net => stream net
  | _ => []
  end.

(** The outcome of a call that may wait for ever. *)
Inductive io (A : Type) := Done (a : A) | Waits | Wrong.
Arguments Done {A} a.
Arguments Waits {A}.
Arguments Wrong {A}.

#[export] Instance io_ret : MRet io := @Done.
#[export] Instance io_bind : MBind io := fun A B f r =>
  match r with Done a => f a | Waits => Waits | Wrong => Wrong end.

Definition in_io {A} (r : result A) : io A :=
  match r with Ok a => Done a | _ => Wrong end.

Record socket := Socket {
  is_open : bool;
  net : list arrival;
  rooms : list room;
  out : list Z            (* what has been sent *)
}.

Definition close (s : socket) : socket := Socket false (net s) (rooms s) (out s).

(** The loop of [readn]: the result, the bytes stored and the arrivals left. When
    [recv] leaves a part of the arrival, everything asked for has come. *)
Fixpoint readn_loop (net : list arrival) (size count : Z) (got : list Z) :
    io (Z * list Z * list arrival) :=
  if 0 <? count then
    match net with
    | [] => Waits
    | a :: rest =>
      match recv a (Z.to_nat count) with
      | (Again, _) => readn_loop rest size count got
      | (Error, kept) => Done (-1, got, kept ++ rest)
      | (Got [], kept) => Done (size - count, got, kept ++ rest)
      | (Got l, []) => readn_loop rest size (count - Z.of_nat (length l)) (got ++ l)
      | (Got l, kept) => Done (size, got ++ l, kept ++ rest)
      end
    end
  else Done (size, got, net).

Definition readn (s : socket) (size : Z) : io (Z * list Z * socket) :=
  if is_open s then
    '(ret, got, net) ← readn_loop (net s) size size [];
    Done (ret, got, Socket true net (rooms s) (out s))
  else if 0 <? size then Done (-1, [], s) else Done (size, [], s).

(** The loop of [writen]; [msg] is what is left to send. When [send] leaves room,
    everything has been sent. *)
Fixpoint writen_loop (rooms : list room) (size count : Z) (msg sent : list Z) :
    io (Z * list Z * list room) :=
  if 0 <? count then
    match rooms with
    | [] => Waits
    | a :: rest =>
      match send a (Z.to_nat count) with
      | (Full_now, _) => writen_loop rest size count msg sent
      | (Send_error, kept) => Done (-1, sent, kept ++ rest)
      | (Sent O, _) => writen_loop rest size count msg sent
      | (Sent len, []) =>
        writen_loop rest size (count - Z.of_nat len) (drop len msg) (sent ++ take len msg)
      | (Sent len, kept) => Done (size, sent ++ take len msg, kept ++ rest)
      end
    end
  else Done (size - count, sent, rooms).

Definition writen (s : socket) (msg : list Z) (size : Z) : io (Z * socket) :=
  if is_open s then
    '(ret, sent, rooms) ← writen_loop (rooms s) size size msg [];
    let s := Socket true (net s) rooms (out s ++ sent) in
    Done (ret, if ret =? -1 then close s else s)
  else if 0 <? size then Done (-1, s) else Done (0, s).

(** ** Requests *)

Definition METHOD_PUT : Z := 0.
Definition METHOD_DELETE : Z := 1.
Definition METHOD_GET : Z := 2.

Record Request := {
  rq_len : Z;
  rq_method : Z;
  rq_key : list Z;
  rq_buf : option (list Z)
}.

Definition new_Request : Request := {| rq_len := 0; rq_method := -1; rq_key := []; rq_buf := None |}.

Definition setLen (r : Request) (l : Z) : Request :=
  {| rq_len := l; rq_method := rq_method r; rq_key := rq_key r; rq_buf := rq_buf r |}.
Definition setMethod (r : Request) (m : Z) : Request :=
  {| rq_len := rq_len r; rq_method := m; rq_key := rq_key r; rq_buf := rq_buf r |}.
Definition setKey (r : Request) (k : list Z) : Request :=
  {| rq_len := rq_len r; rq_method := rq_method r; rq_key := k; rq_buf := rq_buf r |}.
Definition setBuf (r : Request) (data : option (list Z)) : Request :=
  {| rq_len := rq_len r; rq_method := rq_method r; rq_key := rq_key r; rq_buf := data |}.

(** ** Responses *)

Definition RESP_INVALID : Z := -2.
Definition RESP_EXCEPTION : Z := -1.
Definition RESP_OK : Z := 0.
Definition RESP_NOT_FOUND : Z := 1.

Record Response := {
  rs_len : Z;
  rs_status : Z;
  rs_buf : option (list Z)
}.

Definition new_Response : Response := {| rs_len := 0; rs_status := RESP_OK; rs_buf := None |}.

Definition setRespLen (r : Response) (l : Z) : Response :=
  {| rs_len := l; rs_status := rs_status r; rs_buf := rs_buf r |}.
Definition setRespStatus (r : Response) (s : Z) : Response :=
  {| rs_len := rs_len r; rs_status := s; rs_buf := rs_buf r |}.
Definition setRespBuf (r : Response) (b : option (list Z)) : Response :=
  {| rs_len := rs_len r; rs_status := rs_status r; rs_buf := b |}.

Definition statusToString (status : Z) : string :=
  if status =? 0 then "OK"
  else if status =? 1 then "NOT_FOUND"
  else if status =? -2 then "METHOD_INVALID"
  else "EXCEPTION".

(** [Response::write]: the block [data] of the caller, filled. *)
Definition Response_write (r : Response) (data : list Z) : result (list Z) :=
  data ← poke data 0 (memory (htonl (8 + rs_len r)));
  data ← poke data 4 (memory (htonl (rs_len r)));
  data ← poke data 8 (memory (htonl (rs_status r)));
  if 0 <? rs_len r then
    buf ← lift (rs_buf r);
    src ← peek buf 0 (rs_len r);
    poke data 12 src
  else Ok data.

(** The part of an [int] variable that a call of [readn] has filled. *)
Definition fill (old : Z) (got : list Z) : Z := int_at (got ++ drop (length got) (memory old)).

Section Allocation.
Context `{Malloc}.

(** [Request::write]: the total length is a [size_t] of which 32 bits are kept. *)
Definition Request_write (r : Request) (s : socket) : io (Z * socket) :=
  let key := rq_key r in
  let key_size := Z.of_nat (length key) in
  data ← in_io (lift (malloc (size_t (rq_len r + 16))));
  data ← in_io (poke data 0 (memory (htonl (rq_len r + 12 + key_size))));
  data ← in_io (poke data 4 (memory (htonl (rq_len r))));
  data ← in_io (poke data 8 (memory (htonl (rq_method r))));
  data ← in_io (poke data 12 (memory (htonl key_size)));
  data ← in_io (poke data 16 key);
  data ← in_io (match rq_buf r with
                | Some buf =>
                  if 0 <? rq_len r then src ← peek buf 0 (rq_len r); poke data (16 + key_size) src
                  else Ok data
                | None => Ok data
                end);
  let size := int (rq_len r + 16 + key_size) in
  if 0 <? size then msg ← in_io (peek data 0 size); writen s msg size else writen s [] size.

(** [Request::read]: the result is always 0. The key ends at its first NUL
    character, as [std::string(str)] takes a C string. *)
Definition Request_read (r : Request) (data : list Z) : result Request :=
  l ← peek data 0 4;
  let len := ntohl (int_at l) in
  l ← peek data 4 4;
  let method := ntohl (int_at l) in
  l ← peek data 8 4;
  let keyLen := ntohl (int_at l) in
  str ← peek data 12 keyLen;
  key ← lift (c_str (str ++ [0]));
  let ptr := 12 + keyLen in
  if 0 <? len then
    buf ← lift (malloc (size_t len));
    src ← peek data ptr len;
    buf ← poke buf 0 src;
    Ok {| rq_len := len; rq_method := method; rq_key := key; rq_buf := Some buf |}
  else Ok {| rq_len := len; rq_method := method; rq_key := key; rq_buf := rq_buf r |}.

(** [Response::read]: the result, the response and the socket. *)
Definition Response_read (r : Response) (s : socket) : io (Z * Response * socket) :=
  '(ret, _, s) ← readn s 4;
  if ret =? -1 then Done (-1, r, close s) else
  '(ret, got, s) ← readn s 4;
  if ret =? -1 then Done (-1, setRespLen r (fill (rs_len r) got), close s) else
  let len := ntohl (fill (rs_len r) got) in
  let r := setRespLen r len in
  '(ret, got, s) ← readn s 4;
  if ret =? -1 then Done (-1, setRespStatus r (fill (rs_status r) got), close s) else
  let r := setRespStatus r (ntohl (fill (rs_status r) got)) in
  if 0 <? len then
    buf ← in_io (lift (malloc (size_t len)));
    '(ret, got, s) ← readn s len;
    buf ← in_io (poke buf 0 got);
    (* the freed block stays in the field *)
    if ret =? len then
      buf ← in_io (poke buf len [0]);
      Done (int (8 + len), setRespBuf r (Some buf), s)
    else Done (-1, setRespBuf r (Some buf), close s)
  else Done (int (8 + len), r, s).

End Allocation.
