(* ===== verification/ObjWireProps.v ===== *)
(** What the messages of the object storage promise: the transfer loops move
    everything however it is cut, and a message read is the message written. *)

From S2P Require Import Prelude Result ChatWire ObjWire.
#[local] Open Scope Z_scope.

Create HintDb wire.

(** ** Integers in memory *)

(** An integer of 32 bits, most significant byte first. *)
Definition be32 (z : Z) : list Z := rev (memory z).

Lemma be32_length z : length (be32 z) = 4%nat.
Proof. reflexivity. Qed.

Lemma le_bytes_mod n z : le_bytes n (z mod 2 ^ (8 * Z.of_nat n)) = le_bytes n z.
Proof.
  revert z. induction n as [|n IH]; intros z; [done|]. cbn [le_bytes].
  replace (8 * Z.of_nat (S n)) with (8 + 8 * Z.of_nat n) by lia.
  rewrite Z.pow_add_r by lia. change (2 ^ 8) with 256.
  assert (0 < 2 ^ (8 * Z.of_nat n)) by (apply Z.pow_pos_nonneg; lia).
  rewrite Z.rem_mul_r by lia. f_equal.
  - rewrite (Z.mul_comm 256), Z_mod_plus_full. by rewrite Z.mod_mod.
  - rewrite <- (IH (z / 256)). f_equal.
    rewrite (Z.mul_comm 256), Z.div_add by lia. by rewrite Z.div_small by (apply Z.mod_pos_bound; lia).
Qed.

Lemma memory_int z : memory (int z) = memory z.
Proof.
  unfold memory. rewrite <- (le_bytes_mod 4 (int z)), <- (le_bytes_mod 4 z). f_equal.
  unfold int, wrap_s. change (2 ^ (8 * Z.of_nat 4)) with (2 ^ 32).
  rewrite Zminus_mod_idemp_l. f_equal. lia.
Qed.

Lemma le_bytes_value l n : length l = n -> Forall is_byte l -> le_bytes n (le_value n l) = l.
Proof.
  intros <- H. induction H as [|b l Hb Hl IH]; [done|]. unfold is_byte in Hb. cbn [le_value le_bytes length].
  f_equal.
  - rewrite (Z.mul_comm 256), Z_mod_plus_full. by apply Z.mod_small.
  - rewrite (Z.mul_comm 256), Z.div_add by lia. by rewrite Z.div_small, Z.add_0_l.
Qed.

Lemma memory_int_at l : length l = 4%nat -> Forall is_byte l -> memory (int_at l) = l.
Proof. intros. unfold int_at. rewrite memory_int. by apply le_bytes_value. Qed.

Lemma memory_length z : length (memory z) = 4%nat.
Proof. reflexivity. Qed.

Lemma memory_bytes z : Forall is_byte (memory z).
Proof. apply le_bytes_bytes. Qed.

Lemma be32_bytes z : Forall is_byte (be32 z).
Proof. unfold be32. apply Forall_rev, memory_bytes. Qed.

Lemma int_at_memory z : int_at (memory z) = int z.
Proof.
  unfold int_at, memory. rewrite <- (app_nil_r (le_bytes 4 z)), le_value_bytes.
  unfold int, wrap_s. change (2 ^ (8 * Z.of_nat 4)) with (2 ^ 32). by rewrite Zplus_mod_idemp_l.
Qed.

Lemma memory_htonl z : memory (htonl z) = be32 z.
Proof. apply memory_int_at; [done|apply be32_bytes]. Qed.

Lemma ntohl_be32 z : ntohl (int_at (be32 z)) = int z.
Proof.
  unfold ntohl, htonl. rewrite memory_int_at by (done || apply be32_bytes).
  unfold be32. by rewrite rev_involutive, int_at_memory.
Qed.

Lemma int_small z : - 2 ^ 31 <= z < 2 ^ 31 -> int z = z.
Proof. intros H. by apply (wrap_s_small 32). Qed.

Lemma size_t_small z : 0 <= z < 2 ^ 64 -> size_t z = z.
Proof. intros H. by apply (wrap_u_small 64). Qed.

(** ** Blocks *)

Lemma poke_ok pre old post new : length old = length new ->
  poke (pre ++ old ++ post) (Z.of_nat (length pre)) new = Ok (pre ++ new ++ post).
Proof.
  intros H. unfold poke. rewrite !length_app. case_bool; simpl; try lia.
  rewrite Nat2Z.id, take_app_length. f_equal. f_equal. f_equal.
  rewrite <- H, <- length_app, (assoc_L (++)). apply drop_app_length.
Qed.

(** Filling a block from the front. *)
Lemma poke_next pre block new : (length new <= length block)%nat ->
  poke (pre ++ block) (Z.of_nat (length pre)) new = Ok ((pre ++ new) ++ drop (length new) block).
Proof.
  intros H. rewrite <- (take_drop (length new) block) at 1.
  rewrite poke_ok; [by rewrite (assoc_L (++))|]. rewrite length_take. lia.
Qed.

Lemma poke_too_long block off new : Z.of_nat (length block) < off + Z.of_nat (length new) ->
  poke block off new = Undefined.
Proof. intros H. unfold poke. case_bool; simpl; try done; lia. Qed.

Lemma peek_app pre l post n : n = Z.of_nat (length l) ->
  peek (pre ++ l ++ post) (Z.of_nat (length pre)) n = Ok l.
Proof.
  intros ->. unfold peek. rewrite !length_app. case_bool; simpl; try lia.
  by rewrite !Nat2Z.id, drop_app_length, take_app_length.
Qed.

Lemma peek_front l post n : n = Z.of_nat (length l) -> peek (l ++ post) 0 n = Ok l.
Proof. exact (peek_app [] l post n). Qed.

(** ** The transfer loops *)

Lemma stream_left_over l net : stream (left_over l ++ net) = l ++ stream net.
Proof. by destruct l. Qed.

(** [readn] stores the next bytes of the stream, however they arrive. *)
Lemma readn_loop_ok net size count got :
  0 <= count <= Z.of_nat (length (stream net)) ->
  exists net', readn_loop net size count got = Done (size, got ++ take (Z.to_nat count) (stream net), net')
    /\ stream net' = drop (Z.to_nat count) (stream net).
Proof.
  revert count got. induction net as [|a net IH]; intros count got Hc; cbn [readn_loop];
    destruct (Z.ltb_spec 0 count) as [Hpos|Hpos].
  - cbn in Hc. lia.
  - exists []. cbn [stream]. by rewrite take_nil, drop_nil, app_nil_r.
  - destruct a as [c l| | |]; cbn [recv stream] in *; [|by apply IH|cbn in Hc; lia..].
    destruct (Z.to_nat count) as [|n] eqn:En; [lia|]. cbn [take drop app].
    rewrite take_app, drop_app. destruct (drop n l) as [|d l'] eqn:El; cbn [left_over].
    + apply (f_equal length) in El as Hl. rewrite length_drop in Hl. cbn [length] in *.
      rewrite length_app in Hc.
      destruct (IH (count - Z.of_nat (S (length (take n l)))) (got ++ c :: take n l)) as (net' & -> & Hn).
      { rewrite length_take. lia. }
      assert (Z.to_nat (count - Z.of_nat (S (length (take n l)))) = (n - length l)%nat) as Ek
        by (rewrite length_take; lia).
      exists net'. rewrite Hn, Ek. split; [|done]. by rewrite <- (assoc_L (++)).
    + apply (f_equal length) in El as Hl. rewrite length_drop in Hl. cbn [length] in Hl.
      replace (n - length l)%nat with O by lia. eexists. split; [by rewrite take_0, app_nil_r|].
      by cbn.
  - exists (a :: net). replace count with 0 by lia. cbn [Z.to_nat]. by rewrite take_0, drop_0, app_nil_r.
Qed.

Lemma readn_ok s size : is_open s = true -> 0 <= size <= Z.of_nat (length (stream (net s))) ->
  exists net', readn s size = Done (size, take (Z.to_nat size) (stream (net s)), Socket true net' (rooms s) (out s))
    /\ stream net' = drop (Z.to_nat size) (stream (net s)).
Proof.
  intros Ho Hs. unfold readn. rewrite Ho.
  destruct (readn_loop_ok (net s) size size [] Hs) as (net' & -> & ?). by exists net'.
Qed.

Lemma readn_next s l rest size : is_open s = true -> stream (net s) = l ++ rest -> size = Z.of_nat (length l) ->
  exists net', readn s size = Done (size, l, Socket true net' (rooms s) (out s)) /\ stream net' = rest.
Proof.
  intros Ho Hs ->. destruct (readn_ok s (Z.of_nat (length l)) Ho) as (net' & -> & Hn).
  { rewrite Hs, length_app. lia. }
  exists net'. rewrite Hn, Hs, Nat2Z.id, take_app_length, drop_app_length. done.
Qed.

(** How many bytes the kernel takes before sending fails. *)
Fixpoint capacity (rooms : list room) : nat :=
  match rooms with
  | Takes n :: rooms => n + capacity rooms
  | Full :: rooms => capacity rooms
  | _ => 0
  end.

(** [writen] sends the whole message, however the kernel divides it. *)
Lemma writen_loop_ok rooms size count msg sent :
  0 <= count <= size -> count <= Z.of_nat (length msg) -> count <= Z.of_nat (capacity rooms) ->
  exists rooms', writen_loop rooms size count msg sent = Done (size, sent ++ take (Z.to_nat count) msg, rooms')
    /\ Z.of_nat (capacity rooms') = Z.of_nat (capacity rooms) - count.
Proof.
  revert count msg sent. induction rooms as [|a rooms IH]; intros count msg sent Hc Hm Hr; cbn [writen_loop];
    destruct (Z.ltb_spec 0 count) as [Hpos|Hpos].
  2, 4: eexists; replace count with 0 by lia; split;
    [cbn [Z.to_nat]; by rewrite take_0, app_nil_r, Z.sub_0_r|lia].
  - cbn in Hr. lia.
  - destruct a as [n| |]; cbn [capacity send] in *; [|by apply IH|lia].
    destruct (Nat.min n (Z.to_nat count)) as [|len] eqn:El;
      [assert (n = O) as -> by lia; by apply IH|].
    destruct (Nat.ltb_spec (Z.to_nat count) n) as [Hn|Hn].
    + eexists. split; [by replace (Z.to_nat count) with (S len) by lia|]. cbn [app capacity]. lia.
    + destruct (IH (count - Z.of_nat (S len)) (drop (S len) msg) (sent ++ take (S len) msg)) as (rooms' & -> & Hk);
        [lia|rewrite length_drop; lia|lia|].
      exists rooms'. split; [|lia]. rewrite <- (assoc_L (++)). do 4 f_equal.
      rewrite take_take_drop. f_equal. lia.
Qed.

Lemma writen_ok s msg : is_open s = true -> (length msg <= capacity (rooms s))%nat ->
  exists rooms', writen s msg (Z.of_nat (length msg)) =
    Done (Z.of_nat (length msg), Socket true (net s) rooms' (out s ++ msg))
    /\ capacity (rooms s) = (length msg + capacity rooms')%nat.
Proof.
  intros Ho Hr. unfold writen. rewrite Ho.
  destruct (writen_loop_ok (rooms s) (Z.of_nat (length msg)) (Z.of_nat (length msg)) msg [])
    as (rooms' & -> & ?); [lia..|].
  exists rooms'. cbn [mbind io_bind app]. rewrite (proj2 (Z.eqb_neq (Z.of_nat (length msg)) (-1))) by lia.
  rewrite Nat2Z.id, take_ge by done. split; [done|lia].
Qed.

(** ** The format of the messages *)

(** The first [len] bytes of a buffer. *)
Definition content (len : Z) (buf : option (list Z)) : list Z :=
  match buf with Some b => take (Z.to_nat len) b | None => [] end.

Definition request_data (r : Request) : list Z := content (rq_len r) (rq_buf r).
Definition response_data (r : Response) : list Z := content (rs_len r) (rs_buf r).

(** A message with its length in front. *)
Definition frame (l : list Z) : list Z := be32 (Z.of_nat (length l)) ++ l.

Definition request_payload (r : Request) : list Z :=
  be32 (rq_len r) ++ be32 (rq_method r) ++ be32 (Z.of_nat (length (rq_key r))) ++ rq_key r ++ request_data r.

Definition response_payload (r : Response) : list Z :=
  be32 (rs_len r) ++ be32 (rs_status r) ++ response_data r.

Definition holds (len : Z) (buf : option (list Z)) : Prop :=
  match buf with Some b => 0 < len <= Z.of_nat (length b) | None => len = 0 end.

Definition is_int (z : Z) : Prop := - 2 ^ 31 <= z < 2 ^ 31.

Record wf_request (r : Request) : Prop := {
  wrq_method : is_int (rq_method r);
  wrq_key : Forall (fun c => c <> 0) (rq_key r);
  wrq_data : holds (rq_len r) (rq_buf r);
  wrq_size : rq_len r + 16 + Z.of_nat (length (rq_key r)) < 2 ^ 31
}.

Record wf_response (r : Response) : Prop := {
  wrs_status : is_int (rs_status r);
  wrs_data : holds (rs_len r) (rs_buf r);
  wrs_size : rs_len r + 12 < 2 ^ 31
}.

Lemma content_length len buf : holds len buf -> Z.of_nat (length (content len buf)) = len.
Proof. destruct buf as [b|]; cbn; [rewrite length_take|]; lia. Qed.

Lemma holds_nonneg len buf : holds len buf -> 0 <= len.
Proof. destruct buf; cbn; lia. Qed.

Lemma content_positive len buf : holds len buf -> 0 < len -> exists b, buf = Some b /\ len <= Z.of_nat (length b).
Proof. destruct buf as [b|]; cbn; [intros; exists b; split; [done|lia]|lia]. Qed.

Lemma content_front b len post : Z.of_nat (length b) = len -> content len (Some (b ++ post)) = b.
Proof. intros <-. cbn. by rewrite Nat2Z.id, take_app_length. Qed.

Lemma request_payload_length r : wf_request r ->
  Z.of_nat (length (request_payload r)) = rq_len r + 12 + Z.of_nat (length (rq_key r)).
Proof.
  intros []. unfold request_payload, request_data. rewrite !length_app, !be32_length.
  pose proof (content_length _ _ wrq_data0). lia.
Qed.

Lemma response_payload_length r : wf_response r -> Z.of_nat (length (response_payload r)) = 8 + rs_len r.
Proof.
  intros []. unfold response_payload, response_data. rewrite !length_app, !be32_length.
  pose proof (content_length _ _ wrs_data0). lia.
Qed.

(** [poke_next] for a block filled up to [off]. *)
Lemma poke_at pre block off new : off = Z.of_nat (length pre) -> (length new <= length block)%nat ->
  poke (pre ++ block) off new = Ok ((pre ++ new) ++ drop (length new) block).
Proof. intros ->. apply poke_next. Qed.

Lemma poke_cases block off new :
  (exists block', poke block off new = Ok block' /\ length block' = length block) \/ poke block off new = Undefined.
Proof.
  unfold poke. case_bool; simpl; [|by right..]. left. eexists. split; [done|].
  rewrite !length_app, length_take, length_drop. lia.
Qed.

Lemma poke_front block new : (length new <= length block)%nat ->
  poke block 0 new = Ok (new ++ drop (length new) block).
Proof. exact (poke_next [] block new). Qed.

(** Lengths of concatenated fields. *)
Ltac field_length := cbn [length]; rewrite ?length_app, ?length_drop, ?be32_length; (reflexivity || lia).

(** [peek] at a known cut of the memory. *)
Lemma peek_cut pre l post full off n :
  full = pre ++ l ++ post -> off = Z.of_nat (length pre) -> n = Z.of_nat (length l) -> peek full off n = Ok l.
Proof. intros -> ->. apply peek_app. Qed.

(** Reading the first bytes of a buffer. *)
Lemma peek_content len b : 0 <= len <= Z.of_nat (length b) -> peek b 0 len = Ok (content len (Some b)).
Proof. intros. unfold peek. by case_bool; simpl; try lia. Qed.

(** Copying a buffer into a block filled up to [off]. *)
Lemma copy_buf_ok pre block off len buf : holds len buf -> off = Z.of_nat (length pre) ->
  (length (content len buf) <= length block)%nat ->
  match buf with
  | Some b => if 0 <? len then src ← peek b 0 len; poke (pre ++ block) off src else Ok (pre ++ block)
  | None => Ok (pre ++ block)
  end = Ok ((pre ++ content len buf) ++ drop (length (content len buf)) block).
Proof.
  intros Hb Ho Hl. destruct buf as [b|].
  - cbn [holds] in Hb. case_bool; [|lia]. rewrite peek_content by lia. cbn [mbind result_bind].
    by apply poke_at.
  - cbn [content length]. by rewrite drop_0, app_nil_r.
Qed.

Lemma fill_all old got : length got = 4%nat -> fill old got = int_at got.
Proof. intros H. unfold fill. rewrite drop_ge by (rewrite memory_length; lia). by rewrite app_nil_r. Qed.

Section Messages.
Context `{Malloc}.

(** The server reads the request that was written. *)
Lemma Request_read_ok r rest : wf_request r -> (0 < rq_len r -> malloc (rq_len r) <> None) ->
  exists r', Request_read new_Request (request_payload r ++ rest) = Ok r'
    /\ rq_len r' = rq_len r /\ rq_method r' = rq_method r /\ rq_key r' = rq_key r
    /\ request_data r' = request_data r /\ holds (rq_len r') (rq_buf r').
Proof.
  intros [Hm Hk Hd Hs] Ha. pose proof (content_length _ _ Hd) as Hcl. pose proof (holds_nonneg _ _ Hd).
  unfold Request_read, request_payload, request_data. rewrite <- !(assoc_L (++)).
  set (data := content _ _) in *. set (key := rq_key r) in *. set (len := rq_len r) in *.
  set (full := be32 len ++ _).
  rewrite (peek_cut [] (be32 len) _ full 0 4 eq_refl) by field_length. cbn [mbind result_bind]. rewrite ntohl_be32.
  rewrite (peek_cut (be32 len) (be32 _) _ full 4 4 eq_refl) by field_length. cbn [mbind result_bind].
  assert (full = (be32 len ++ be32 (rq_method r)) ++ be32 (Z.of_nat (length key)) ++ key ++ data ++ rest) as E
    by (unfold full; by rewrite <- (assoc_L (++))).
  rewrite (peek_cut _ _ _ full 8 4 E) by field_length. cbn [mbind result_bind]. rewrite !ntohl_be32, !int_small by (unfold is_int in *; lia).
  assert (full = ((be32 len ++ be32 (rq_method r)) ++ be32 (Z.of_nat (length key))) ++ key ++ data ++ rest) as E1
    by (rewrite E; by rewrite <- (assoc_L (++))).
  rewrite (peek_cut _ _ _ full 12 _ E1) by field_length. cbn [mbind result_bind]. rewrite c_str_app by done. cbn [lift mbind result_bind].
  case_bool.
  - destruct (malloc (size_t len)) as [b|] eqn:Eb; rewrite size_t_small in Eb by lia; [|by apply Ha in Eb].
    apply malloc_room in Eb as Hb. cbn [lift mbind result_bind].
    assert (full = (((be32 len ++ be32 (rq_method r)) ++ be32 (Z.of_nat (length key))) ++ key) ++ data ++ rest) as E2
      by (rewrite E1; by rewrite <- (assoc_L (++))).
    rewrite (peek_cut _ _ _ full _ _ E2) by field_length. cbn [mbind result_bind].
    rewrite poke_front by lia. cbn [mbind result_bind].
    eexists. split; [done|]. unfold request_data. cbn [rq_len rq_method rq_key rq_buf].
    split_and!; [done..|by apply content_front|]. cbn [holds]. rewrite length_app. lia.
  - eexists. split; [done|]. unfold request_data. cbn. split_and!; [done..| |lia].
    symmetry. apply length_zero_iff_nil. lia.
Qed.

(** The frame of a request, field by field. *)
Lemma request_frame r : wf_request r ->
  frame (request_payload r) =
    ((((be32 (rq_len r + 12 + Z.of_nat (length (rq_key r))) ++ be32 (rq_len r)) ++ be32 (rq_method r))
      ++ be32 (Z.of_nat (length (rq_key r)))) ++ rq_key r) ++ request_data r.
Proof.
  intros Hr. unfold frame. rewrite request_payload_length by done.
  unfold request_payload. by rewrite !(assoc_L (++)).
Qed.

(** The client sends the frame of the request, if the block for it is large enough
    for the key, which the size asked for does not count. *)
Lemma Request_write_ok r s b : wf_request r -> is_open s = true ->
  malloc (rq_len r + 16) = Some b ->
  rq_len r + 16 + Z.of_nat (length (rq_key r)) <= Z.of_nat (length b) ->
  (length (frame (request_payload r)) <= capacity (rooms s))%nat ->
  exists rooms', Request_write r s = Done (rq_len r + 16 + Z.of_nat (length (rq_key r)),
      Socket true (net s) rooms' (out s ++ frame (request_payload r)))
    /\ capacity (rooms s) = (length (frame (request_payload r)) + capacity rooms')%nat.
Proof.
  intros Hr Ho Hb Hl Hc. pose proof Hr as [_ _ Hd Hs].
  pose proof (content_length _ _ Hd) as Hcl.
  pose proof Hcl as Hcl'. fold (request_data r) in Hcl'. pose proof (holds_nonneg _ _ Hd).
  destruct (writen_ok s _ Ho Hc) as (rooms' & Hw & Hc'). exists rooms'. split; [|done]. clear Hc'.
  assert (Z.of_nat (length (frame (request_payload r))) = rq_len r + 16 + Z.of_nat (length (rq_key r))) as Hf.
  { unfold frame. rewrite length_app, be32_length, Nat2Z.inj_add, request_payload_length by done. lia. }
  rewrite Hf in Hw. rewrite <- Hw. rewrite request_frame in * by done. clear Hw. unfold Request_write. cbv zeta.
  set (key := rq_key r) in *. set (len := rq_len r) in *. set (data := request_data r) in *.
  rewrite size_t_small, Hb by lia. cbn [lift in_io mbind io_bind]. rewrite !memory_htonl.
  rewrite poke_front by field_length. cbn [in_io mbind io_bind].
  do 4 (rewrite poke_at by field_length; cbn [in_io mbind io_bind]).
  rewrite (copy_buf_ok _ (drop _ _)) by (done || field_length). cbn [in_io mbind io_bind].
  rewrite int_small by lia. case_bool; [|lia].
  rewrite (peek_front (_ ++ data)) by done. by cbn [in_io mbind io_bind].
Qed.

(** The block of a request is short by the length of the key: unless [malloc] gives
    that much more than it is asked for, the client writes behind it. *)
Lemma Request_write_overflow r s b : wf_request r -> malloc (rq_len r + 16) = Some b ->
  Z.of_nat (length b) < rq_len r + 16 + Z.of_nat (length (rq_key r)) -> Request_write r s = Wrong.
Proof.
  intros [_ _ Hd Hs] Hb Hl. pose proof (holds_nonneg _ _ Hd). unfold Request_write. cbv zeta.
  rewrite size_t_small, Hb by lia. cbn [lift in_io mbind io_bind].
  do 4 (match goal with |- context [in_io (poke ?d ?o ?n)] =>
    destruct (poke_cases d o n) as [(? & -> & ?)| ->]; [|done]; cbn [in_io mbind io_bind] end).
  destruct (rq_buf r) as [buf|]; cbn [holds] in Hd.
  - match goal with |- context [in_io (poke ?d 16 ?n)] =>
      destruct (poke_cases d 16 n) as [(d' & -> & ?)| ->]; [|done] end.
    cbn [in_io mbind io_bind]. rewrite (proj2 (Z.ltb_lt 0 (rq_len r))), peek_content by lia. cbn [mbind result_bind].
    rewrite poke_too_long; [done|]. rewrite content_length by done. lia.
  - by rewrite poke_too_long by lia.
Qed.

(** The server fills a block with the frame of the response. *)
Lemma Response_write_ok r data : wf_response r -> rs_len r + 12 <= Z.of_nat (length data) ->
  Response_write r data =
    Ok (frame (response_payload r) ++ drop (length (frame (response_payload r))) data).
Proof.
  intros Hr Hl. pose proof Hr as [_ Hd Hs]. pose proof (content_length _ _ Hd) as Hcl.
  pose proof (holds_nonneg _ _ Hd). unfold Response_write, frame. rewrite response_payload_length by done.
  unfold response_payload, response_data. set (len := rs_len r) in *. rewrite !memory_htonl.
  rewrite poke_front by field_length. cbn [mbind result_bind].
  do 2 (rewrite poke_at by field_length; cbn [mbind result_bind]).
  transitivity (Ok (((be32 (8 + len) ++ be32 len) ++ be32 (rs_status r)) ++ content len (rs_buf r)
    ++ drop (12 + length (content len (rs_buf r))) data)).
  - case_bool.
    + destruct (content_positive _ _ Hd) as (b & Eb & ?); [done|]. rewrite Eb in *. cbn [lift mbind result_bind].
      rewrite peek_content by lia. cbn [mbind result_bind].
      rewrite poke_at by field_length. by rewrite !drop_drop, <- !(assoc_L (++)).
    + rewrite !drop_drop. by rewrite (proj1 (length_zero_iff_nil (content _ _))) by lia.
  - rewrite !length_app. by rewrite <- !(assoc_L (++)).
Qed.

(** The client has read the three numbers in front of the data. *)
Lemma Response_read_head r s rest :
  wf_response r -> is_open s = true -> stream (net s) = frame (response_payload r) ++ rest ->
  exists net', stream net' = response_data r ++ rest /\ Response_read new_Response s =
    (let len := rs_len r in
     let r := setRespStatus (setRespLen new_Response len) (rs_status r) in
     let s := Socket true net' (rooms s) (out s) in
     if 0 <? len then
       buf ← in_io (lift (malloc len));
       '(ret, got, s) ← readn s len;
       buf ← in_io (poke buf 0 got);
       if ret =? len then
         buf ← in_io (poke buf len [0]);
         Done (8 + len, setRespBuf r (Some buf), s)
       else Done (-1, setRespBuf r (Some buf), close s)
     else Done (8 + len, r, s)).
Proof.
  intros Hr Ho Hs. pose proof Hr as [Hst Hd Hsz].
  pose proof (holds_nonneg _ _ Hd). unfold frame, response_payload in Hs. rewrite <- !(assoc_L (++)) in Hs.
  unfold Response_read. set (len := rs_len r) in *.
  destruct (readn_next s _ _ 4 Ho Hs eq_refl) as (n1 & -> & H1). cbn [mbind io_bind net rooms out]; change (4 =? -1) with false; cbv iota.
  destruct (readn_next (Socket true n1 (rooms s) (out s)) _ _ 4 eq_refl H1 eq_refl) as (n2 & -> & H2).
  cbn [mbind io_bind net rooms out]; change (4 =? -1) with false; cbv iota.
  destruct (readn_next (Socket true n2 (rooms s) (out s)) _ _ 4 eq_refl H2 eq_refl) as (n3 & -> & H3).
  cbn [mbind io_bind net rooms out]; change (4 =? -1) with false; cbv iota zeta. rewrite !fill_all by done. rewrite !ntohl_be32, !int_small by (unfold is_int in *; lia).
  exists n3. split; [exact H3|]. rewrite size_t_small by lia. done.
Qed.

(** The client reads the response that was written, however it arrives, if the
    block for the data has room for the NUL character behind it. *)
Lemma Response_read_ok r s rest :
  wf_response r -> is_open s = true -> stream (net s) = frame (response_payload r) ++ rest ->
  (0 < rs_len r -> exists b, malloc (rs_len r) = Some b /\ rs_len r < Z.of_nat (length b)) ->
  exists r' net', Response_read new_Response s = Done (8 + rs_len r, r', Socket true net' (rooms s) (out s))
    /\ stream net' = rest /\ rs_len r' = rs_len r /\ rs_status r' = rs_status r
    /\ response_data r' = response_data r.
Proof.
  intros Hr Ho Hs Hm. pose proof Hr as [Hst Hd Hsz]. pose proof (content_length _ _ Hd) as Hcl.
  pose proof (holds_nonneg _ _ Hd). destruct (Response_read_head r s rest Hr Ho Hs) as (n3 & H3 & ->).
  unfold response_data in *. set (len := rs_len r) in *. cbv zeta. case_bool.
  - destruct (Hm ltac:(done)) as (b & Eb & Hb). rewrite Eb. cbn [lift in_io mbind io_bind].
    destruct (readn_next (Socket true n3 (rooms s) (out s)) _ _ len eq_refl H3) as (n4 & -> & Hn4); [done|].
    cbn [mbind io_bind net rooms out]. rewrite poke_front by lia. cbn [in_io mbind io_bind].
    rewrite Z.eqb_refl, poke_at by (done || field_length). cbn [in_io mbind io_bind].
    do 2 eexists. split; [done|]. split_and!; [done..|].
    cbn [setRespBuf setRespStatus setRespLen rs_len rs_buf]. rewrite <- (assoc_L (++)). by apply content_front.
  - do 2 eexists. split; [done|].
    rewrite (proj1 (length_zero_iff_nil (content _ _))) in H3 by lia. cbn. split_and!; [done..|].
    symmetry. apply length_zero_iff_nil. lia.
Qed.

(** Otherwise it writes the NUL character behind its block, or the data where no block is. *)
Lemma Response_read_overflow r s rest :
  wf_response r -> is_open s = true -> stream (net s) = frame (response_payload r) ++ rest -> 0 < rs_len r ->
  (forall b, malloc (rs_len r) = Some b -> Z.of_nat (length b) <= rs_len r) -> Response_read new_Response s = Wrong.
Proof.
  intros Hr Ho Hs Hpos Hm. pose proof Hr as [Hst Hd Hsz]. pose proof (content_length _ _ Hd) as Hcl.
  destruct (Response_read_head r s rest Hr Ho Hs) as (n3 & H3 & ->). unfold response_data in *. cbv zeta.
  rewrite (proj2 (Z.ltb_lt 0 (rs_len r))) by done. destruct (malloc (rs_len r)) as [b|] eqn:Eb; [|done].
  specialize (Hm b eq_refl). apply malloc_room in Eb as [Hb _]. cbn [lift in_io mbind io_bind].
  destruct (readn_next (Socket true n3 (rooms s) (out s)) _ _ (rs_len r) eq_refl H3) as (n4 & -> & Hn4); [done|].
  cbn [mbind io_bind]. rewrite poke_front by lia. cbn [in_io mbind io_bind]. rewrite Z.eqb_refl, poke_too_long; [done|].
  rewrite length_app, length_drop. cbn [length]. lia.
Qed.

End Messages.
