(* ===== verification/ObjConn.v ===== *)
(** One connection of the object storage server (src/cpp-object-storage-demo/server.h
    and server.cpp): the structure [Connection], the handlers [handleRead] and
    [handleWrite] that advance it by one system call, [handle] between them, and what
    the event loop does with a connection that can be read or written.

    The sockets are not blocking: a call that finds nothing returns EAGAIN. The store
    is an interface: [handle] is defined over it, [ObjStore] implements it. *)

From S2P Require Import Prelude Result ChatWire ObjWire.
#[local] Open Scope Z_scope.

Definition STATE_INIT : Z := 0.
Definition STATE_READ_LEN : Z := 1.
Definition STATE_READ_DATA : Z := 2.
Definition STATE_READ_DONE : Z := 3.
Definition STATE_WRITE_DATA : Z := 4.
Definition STATE_WRITE_DONE : Z := 5.

Record Connection := {
  connfd : Z;
  state : Z;
  len : Z;
  lenPrt : Z;
  inBuf : option (list Z);
  inLen : Z;
  inPtr : Z;
  outBuf : option (list Z);
  outLen : Z;
  outPtr : Z
}.

Definition new_Connection (fd : Z) : Connection :=
  {| connfd := fd; state := STATE_INIT; len := 0; lenPrt := 0; inBuf := None; inLen := 0; inPtr := 0;
     outBuf := None; outLen := 0; outPtr := 0 |}.

(** Assignments to the fields of the length, of the input and of the output. *)
Definition set_length (c : Connection) (st l p : Z) : Connection :=
  {| connfd := connfd c; state := st; len := l; lenPrt := p; inBuf := inBuf c; inLen := inLen c;
     inPtr := inPtr c; outBuf := outBuf c; outLen := outLen c; outPtr := outPtr c |}.
Definition set_in (c : Connection) (st : Z) (b : option (list Z)) (l p : Z) : Connection :=
  {| connfd := connfd c; state := st; len := len c; lenPrt := lenPrt c; inBuf := b; inLen := l;
     inPtr := p; outBuf := outBuf c; outLen := outLen c; outPtr := outPtr c |}.
Definition set_out (c : Connection) (st : Z) (b : option (list Z)) (l p : Z) : Connection :=
  {| connfd := connfd c; state := st; len := len c; lenPrt := lenPrt c; inBuf := inBuf c; inLen := inLen c;
     inPtr := inPtr c; outBuf := b; outLen := l; outPtr := p |}.

(** ** System calls on a socket that does not block *)

Definition with_net (s : socket) (n : list arrival) : socket := Socket (is_open s) n (rooms s) (out s).

(** [read(fd, buf, n)]; the kernel refuses a count beyond the address space, which a
    negative [n] is, and a null buffer once there is something to store. *)
Definition sys_read (s : socket) (buf_null : bool) (n : Z) : received * socket :=
  if negb (is_open s) then (Error, s)
  else if n <? 0 then (Error, s)
  else if n =? 0 then (Got [], s)
  else match net s with
  | [] => (Again, s)
  | a :: rest =>
    match recv a (Z.to_nat n) with
    | (Got (_ :: _), kept) as r =>
      if buf_null then (Error, s) else (r.1, with_net s (kept ++ rest))
    | (r, kept) => (r, with_net s (kept ++ rest))
    end
  end.

(** [write(fd, msg, length msg)] *)
Definition sys_write (s : socket) (msg : list Z) : send_result * socket :=
  if negb (is_open s) then (Send_error, s)
  else match rooms s with
  | [] => (Full_now, s)
  | a :: rest =>
    match send a (length msg) with
    | (Sent k, kept) => (Sent k, Socket true (net s) (kept ++ rest) (out s ++ take k msg))
    | (r, kept) => (r, Socket true (net s) (kept ++ rest) (out s))
    end
  end.

(** ** Reading *)

Section Reading.
Context `{Malloc}.

(** The length is complete: turn it around and take the buffer for the payload. *)
Definition got_length (c : Connection) : Connection :=
  let l := ntohl (len c) in
  {| connfd := connfd c; state := STATE_READ_DATA; len := l; lenPrt := lenPrt c;
     inBuf := malloc (size_t l); inLen := l; inPtr := inPtr c;
     outBuf := outBuf c; outLen := outLen c; outPtr := outPtr c |}.

(** The branches [STATE_INIT], with offset 0, and [STATE_READ_LEN], with offset
    [lenPrt]; the second leaves the state, which is [STATE_READ_LEN] already. *)
Definition read_length (c : Connection) (s : socket) (off : Z) : result (Z * Connection * socket) :=
  match sys_read s false (4 - off) with
  | (Again, s) => Ok (0, c, s)
  | (Error, s) | (Got [], s) => Ok (-1, c, close s)
  | (Got l, s) =>
    let size := Z.of_nat (length l) in
    mem ← poke (memory (len c)) off l;
    let lenPrt := lenPrt c + size in
    let c := set_length c (state c) (int_at mem) lenPrt in
    if size_t lenPrt <? 4 then Ok (size, set_length c STATE_READ_LEN (len c) lenPrt, s)
    else if size_t lenPrt =? 4 then Ok (size, got_length c, s)
    else Ok (0, c, s)
  end.

(** The branch [STATE_READ_DATA]. *)
Definition read_data (c : Connection) (s : socket) : result (Z * Connection * socket) :=
  match sys_read s (match inBuf c with None => true | _ => false end) (inLen c - inPtr c) with
  | (Again, s) => Ok (0, c, s)
  | (Error, s) | (Got [], s) => Ok (-1, c, close s)
  | (Got l, s) =>
    let size := Z.of_nat (length l) in
    buf ← lift (inBuf c);
    buf ← poke buf (inPtr c) l;
    let c := set_in c (state c) (Some buf) (inLen c) (inPtr c + size) in
    if inPtr c <? inLen c then Ok (size, c, s)
    else if inPtr c =? inLen c then Ok (size, set_in c STATE_READ_DONE (inBuf c) (inLen c) (inPtr c), s)
    else Ok (0, c, s)
  end.

Definition handleRead (c : Connection) (s : socket) : result (Z * Connection * socket) :=
  if state c =? STATE_INIT then read_length c s 0
  else if state c =? STATE_READ_LEN then read_length c s (lenPrt c)
  else if state c =? STATE_READ_DATA then read_data c s
  else Ok (0, c, s).

End Reading.

(** ** Writing *)

Definition handleWrite (c : Connection) (s : socket) : result (Z * Connection * socket) :=
  if state c =? STATE_WRITE_DATA then
    buf ← lift (outBuf c);
    msg ← peek buf (outPtr c) (outLen c - outPtr c);
    match sys_write s msg with
    | (Full_now, s) => Ok (0, c, s)
    | (Send_error, s) | (Sent O, s) => Ok (-1, c, close s)
    | (Sent n, s) =>
      let size := Z.of_nat n in
      let c := set_out c (state c) (outBuf c) (outLen c) (outPtr c + size) in
      if outPtr c <? outLen c then Ok (size, c, s)
      else if outPtr c =? outLen c then
        Ok (size, set_out c STATE_WRITE_DONE (outBuf c) (outLen c) (outPtr c), s)
      else Ok (0, c, s)
    end
  else Ok (0, c, s).

(** ** Handling a request *)

(** What the server does with the three requests: the response, filled from a fresh
    one, and the new state of the storage. *)
Class Storage (St : Type) := {
  handlePut : Request -> Response -> St -> result (Response * St);
  handleGet : Request -> Response -> St -> result (Response * St);
  handleDelete : Request -> Response -> St -> result (Response * St)
}.

Section Handling.
Context `{Malloc} `{Storage St}.

(** The [switch] of [handle]. *)
Definition respond (r : Request) (st : St) : result (Response * St) :=
  let resp := new_Response in
  if rq_method r =? METHOD_PUT then handlePut r resp st
  else if rq_method r =? METHOD_GET then handleGet r resp st
  else if rq_method r =? METHOD_DELETE then handleDelete r resp st
  else Ok (setRespLen (setRespStatus resp RESP_INVALID) 0, st).

(** [Server::handle]: it always returns 0. *)
Definition handle (c : Connection) (st : St) : result (Connection * St) :=
  data ← lift (inBuf c);
  request ← Request_read new_Request data;
  let c := set_in (set_length c (state c) 0 0) (state c) None 0 0 in
  '(resp, st) ← respond request st;
  let outLen := int (12 + rs_len resp) in
  buf ← lift (malloc (size_t outLen));
  buf ← Response_write resp buf;
  Ok (set_out c STATE_WRITE_DATA (Some buf) outLen (outPtr c), st).

(** ** The event loop, for one connection *)

(** What the loop does at the end of an event: drop the connection, or arm its
    socket for reading or writing. *)
Inductive verdict := Drop | Arm_in | Arm_out | No_arm.

(** The branch for [EPOLLIN]. *)
Definition on_readable (c : Connection) (s : socket) (st : St) :
    result (verdict * Connection * socket * St) :=
  '(ret, c, s) ← handleRead c s;
  if ret <? 0 then Ok (Drop, c, s, st)
  else if state c <? STATE_READ_DONE then Ok (Arm_in, c, s, st)
  else if state c =? STATE_READ_DONE then
    '(c, st) ← handle c st;
    Ok (Arm_out, c, s, st)
  else Ok (No_arm, c, s, st).

(** The reset after the last byte of a response. *)
Definition reset (c : Connection) : Connection := set_out c STATE_INIT None 0 0.

(** The branch for [EPOLLOUT]. *)
Definition on_writable (c : Connection) (s : socket) : result (verdict * Connection * socket) :=
  '(ret, c, s) ← handleWrite c s;
  if ret <? 0 then Ok (Drop, c, s)
  else if state c <? STATE_WRITE_DONE then Ok (Arm_out, c, s)
  else if state c =? STATE_WRITE_DONE then Ok (Arm_in, reset c, s)
  else Ok (No_arm, c, s).

(** The rounds of the loop that serve one connection, from a socket armed for
    reading, until it has nothing to read or the connection is dropped. *)
Fixpoint session (fuel : nat) (c : Connection) (s : socket) (st : St) :
    result (Connection * socket * St) :=
  match fuel with
  | O => Ok (c, s, st)
  | S fuel =>
    if state c <? STATE_WRITE_DATA then
      '(v, c, s, st) ← on_readable c s st;
      match v with Arm_in | Arm_out => session fuel c s st | _ => Ok (c, s, st) end
    else
      '(v, c, s) ← on_writable c s;
      match v with Arm_in | Arm_out => session fuel c s st | _ => Ok (c, s, st) end
  end.

End Handling.
