(* ===== verification/ObjConnProps.v ===== *)
(** One connection of the object storage server: its states are well formed
    whatever arrives, no byte of the stream is lost or doubled, and a stream of
    requests is answered by the stream of their responses, however the network
    cuts the one and takes the other. *)

From S2P Require Import Prelude Result ChatWire ObjWire ObjWireProps ObjConn.
#[local] Open Scope Z_scope.

(** ** Well-formed connections *)

Definition no_in (c : Connection) : Prop := inBuf c = None /\ inLen c = 0 /\ inPtr c = 0.
Definition no_out (c : Connection) : Prop := outBuf c = None /\ outLen c = 0 /\ outPtr c = 0.

Inductive wf_conn (c : Connection) : Prop :=
| Wf_init : state c = STATE_INIT -> lenPrt c = 0 -> no_in c -> no_out c -> wf_conn c
| Wf_len : state c = STATE_READ_LEN -> 0 < lenPrt c < 4 -> no_in c -> no_out c -> wf_conn c
| Wf_data : state c = STATE_READ_DATA -> inLen c = len c -> is_int (inLen c) ->
    match inBuf c with
    | Some b => 0 <= inPtr c /\ (inPtr c < inLen c \/ inPtr c = 0) /\ 0 <= inLen c <= Z.of_nat (length b)
    | None => inPtr c = 0
    end -> no_out c -> wf_conn c
| Wf_done b : state c = STATE_READ_DONE -> inBuf c = Some b -> 0 < inLen c <= Z.of_nat (length b) ->
    is_int (inLen c) -> inPtr c = inLen c -> no_out c -> wf_conn c
| Wf_write b : state c = STATE_WRITE_DATA -> lenPrt c = 0 -> no_in c -> outBuf c = Some b ->
    0 <= outPtr c < outLen c -> outLen c <= Z.of_nat (length b) -> wf_conn c
| Wf_written : state c = STATE_WRITE_DONE -> lenPrt c = 0 -> no_in c -> wf_conn c.

Lemma wf_new fd : wf_conn (new_Connection fd).
Proof. by apply Wf_init. Qed.

Lemma is_int_int z : is_int (int z).
Proof. unfold is_int, int. pose proof (wrap_s_bounds 32 z). change (32 - 1) with 31 in *. lia. Qed.

Lemma be32_ntohl l : length l = 4%nat -> Forall is_byte l -> be32 (ntohl (int_at l)) = l.
Proof.
  intros Hl Hb. unfold be32, ntohl. rewrite memory_htonl. unfold be32.
  by rewrite rev_involutive, memory_int_at.
Qed.

(** What a read stores is not longer than what was asked for, and is in front of the stream. *)
Lemma sys_read_got s null n l s' : sys_read s null n = (Got l, s') ->
  Z.of_nat (length l) <= Z.max n 0 /\ stream (net s) = l ++ stream (net s')
  /\ is_open s' = is_open s /\ rooms s' = rooms s /\ out s' = out s /\ (null = true -> l = []).
Proof.
  unfold sys_read. destruct (is_open s) eqn:Ho; simpl; [|done].
  destruct (Z.ltb_spec n 0); [done|]. destruct (Z.eqb_spec n 0).
  { intros; simplify_eq. simpl. split; [lia|done]. }
  destruct (net s) as [|a rest] eqn:En; [done|].
  destruct a as [c l0| | |]; simpl; [|intros; by simplify_eq| |intros; by simplify_eq].
  - destruct (Z.to_nat n) as [|k] eqn:Ek; [lia|]. cbn [take drop].
    destruct null; intros; simplify_eq. cbn [with_net net is_open rooms out]. rewrite stream_left_over.
    cbn [length]. rewrite length_take. split; [lia|]. split; [|done].
    by rewrite <- app_comm_cons, (assoc_L (++)), take_drop.
  - intros; simplify_eq. cbn. split; [lia|done].
Qed.

Lemma set_length_wf c l p : wf_conn c -> state c < STATE_READ_DATA -> 0 < p < 4 ->
  wf_conn (set_length c STATE_READ_LEN l p).
Proof.
  intros Hc Hs Hp. destruct Hc as [E|E|E|b E|b E|E]; rewrite E in Hs; try done; by apply Wf_len.
Qed.

(** How many calls the arrivals can answer at most. *)
Fixpoint events (net : list arrival) : nat :=
  match net with
  | Bytes _ l :: net => S (length l) + events net
  | Nothing :: net => S (events net)
  | _ => O
  end.

(** A call on an open socket with bytes to come finds nothing yet or some of them. *)
Lemma sys_read_progress s n : is_open s = true -> 0 < n -> stream (net s) <> [] ->
  exists r s', sys_read s false n = (r, s') /\ (events (net s') < events (net s))%nat
    /\ is_open s' = true /\ rooms s' = rooms s /\ out s' = out s
    /\ (r = Again /\ stream (net s') = stream (net s)
        \/ exists x l, r = Got (x :: l) /\ Z.of_nat (length (x :: l)) <= n
           /\ stream (net s) = (x :: l) ++ stream (net s')).
Proof.
  intros Ho Hn Hs. destruct (sys_read s false n) as [r s'] eqn:Er. exists r, s'. split; [done|].
  pose proof Er as Er'. unfold sys_read in Er. rewrite Ho in Er. cbn [negb] in Er.
  case_bool; try lia. destruct (net s) as [|a rest] eqn:En; [done|].
  destruct a as [c l| | |]; cbn [recv] in Er; [| |done..].
  - destruct (Z.to_nat n) as [|k] eqn:Ek; [lia|]. cbn [take drop] in Er. simplify_eq.
    apply sys_read_got in Er' as (Hl & Hst & ? & ? & ? & _). rewrite En in Hst. cbn [with_net net] in *.
    split; [|split; [congruence|split; [done|split; [done|]]]].
    + cbn [events]. rewrite <- (take_drop k l) at 2. rewrite length_app.
      destruct (drop k l) as [|d l'] eqn:Ed; cbn [left_over app events length]; [lia|].
      rewrite length_take. apply (f_equal length) in Ed. rewrite length_drop in Ed. cbn [length] in Ed. lia.
    + right. exists c, (take k l). split; [done|]. split; [lia|done].
  - simplify_eq. cbn. split_and!; [lia|done..|]. by left.
Qed.

(** What [write] takes is the beginning of the message. *)
Lemma sys_write_sent s msg k s' : sys_write s msg = (Sent k, s') ->
  (k <= length msg)%nat /\ out s' = out s ++ take k msg /\ net s' = net s /\ is_open s' = is_open s
  /\ capacity (rooms s) = (k + capacity (rooms s'))%nat.
Proof.
  unfold sys_write. destruct (is_open s) eqn:Ho; simpl; [|done].
  destruct (rooms s) as [|a rest] eqn:En; [done|]. destruct a as [n| |]; simpl; [|done..].
  intros; simplify_eq. cbn [out net is_open rooms]. split_and!; [lia|done..|].
  destruct (Nat.ltb_spec (length msg) n); cbn [app capacity]; lia.
Qed.

(** The kernel never takes zero bytes of a message. *)
Definition taking (rooms : list room) : Prop := Forall (fun a => a <> Takes 0) rooms.

(** A call with room to come finds the socket full or sends some of the message. *)
Lemma sys_write_progress s msg : is_open s = true -> msg <> [] -> (length msg <= capacity (rooms s))%nat ->
  taking (rooms s) ->
  exists r s', sys_write s msg = (r, s') /\ net s' = net s /\ is_open s' = true /\ taking (rooms s')
    /\ (r = Full_now /\ out s' = out s /\ capacity (rooms s') = capacity (rooms s)
           /\ (length (rooms s') < length (rooms s))%nat
        \/ exists k, r = Sent (S k) /\ (S k <= length msg)%nat /\ out s' = out s ++ take (S k) msg
           /\ capacity (rooms s) = (S k + capacity (rooms s'))%nat
           /\ (S k = length msg \/ (length (rooms s') < length (rooms s))%nat)).
Proof.
  intros Ho Hne Hc Ht. destruct (sys_write s msg) as [r s'] eqn:Ew. exists r, s'. split; [done|].
  pose proof Ew as Ew'. unfold sys_write in Ew. rewrite Ho in Ew. cbn [negb] in Ew.
  assert (length msg <> 0)%nat by (by intros ?%length_zero_iff_nil).
  destruct (rooms s) as [|a rest] eqn:Er; [cbn in Hc; lia|].
  apply Forall_cons in Ht as [Ha Ht].
  destruct a as [n| |]; cbn [send capacity] in *; [| |lia].
  - assert (n <> O) by congruence. simplify_eq.
    apply sys_write_sent in Ew' as (Hk & Hou & _ & _ & Hcap). rewrite Er in Hcap. cbn [net is_open rooms out] in *.
    split_and!; [done..| |].
    + destruct (Nat.ltb_spec (length msg) n); [|done]. apply Forall_cons. split; [intros E; injection E; lia|done].
    + right. destruct (Nat.min n (length msg)) as [|k] eqn:Ek; [lia|]. exists k. split_and!; try done.
      destruct (Nat.ltb_spec (length msg) n); [left; lia|right; cbn [app length]; lia].
  - simplify_eq. cbn [net is_open rooms out app length]. split_and!; [done..|]. left. split_and!; [done..|lia].
Qed.

Lemma peek_rest b p n : 0 <= p <= n -> n <= Z.of_nat (length b) ->
  peek b p (n - p) = Ok (take (Z.to_nat (n - p)) (drop (Z.to_nat p) b)).
Proof. intros. unfold peek. by case_bool; simpl; try lia. Qed.

(** Two different states of one connection. *)
Ltac wrong_state :=
  match goal with E : state ?c = _, F : state ?c = _ |- _ => rewrite E in F; discriminate F end.

(** A connection whose frame has no complete length yet. *)
Lemma wf_early c : wf_conn c -> state c < STATE_READ_DATA -> 0 <= lenPrt c < 4 /\ no_in c /\ no_out c.
Proof.
  intros Hc Hs. destruct Hc as [E|E|E|b E|b E|E]; rewrite E in Hs; try done.
  all: split; [lia|done].
Qed.

Section Steps.
Context `{Malloc}.

Lemma malloc_int l b : is_int l -> malloc (size_t l) = Some b -> 0 <= l <= Z.of_nat (length b).
Proof.
  intros Hl Hb%malloc_room. unfold size_t, wrap_u, is_int in *.
  destruct (Z.ltb_spec l 0) as [Hn|Hn].
  - rewrite <- (Z_mod_plus_full l 1), Z.mod_small in Hb by lia. lia.
  - rewrite Z.mod_small in Hb by lia. lia.
Qed.

Lemma got_length_wf c l p : wf_conn c -> state c < STATE_READ_DATA ->
  wf_conn (got_length (set_length c (state c) l p)).
Proof.
  intros Hc Hs.
  destruct (wf_early c Hc Hs) as (_ & (_ & _ & Hp) & Ho).
  assert (is_int (ntohl l)) as Hl by (unfold ntohl, htonl, int_at; apply is_int_int).
  apply Wf_data; try done. cbn [got_length set_length len inBuf inPtr inLen].
  destruct (malloc _) as [b|] eqn:Eb; [|done]. apply malloc_int in Eb; [|done]. lia.
Qed.

(** The branches that read the length: every step is defined and leaves a
    well-formed connection. *)
Lemma read_length_wf c s off : wf_conn c -> state c < STATE_READ_DATA -> off = lenPrt c ->
  exists ret c' s', read_length c s off = Ok (ret, c', s') /\ wf_conn c'.
Proof.
  intros Hc Hs ->. destruct (wf_early c Hc Hs) as [Hp _].
  unfold read_length. destruct (sys_read s false _) as [r s'] eqn:Er.
  destruct r as [[|x l]| |]; [by repeat eexists| |by repeat eexists..].
  apply sys_read_got in Er as (Hn & _). set (size := Z.of_nat (length (x :: l))) in *.
  assert (0 < size) by (unfold size; cbn [length]; lia).
  destruct (poke_cases (memory (len c)) (lenPrt c) (x :: l)) as [(mem & -> & _)|Hbad].
  2: { exfalso. revert Hbad. unfold poke. rewrite memory_length. fold size. case_bool; simpl; (done || lia). }
  cbn [mbind result_bind]. rewrite size_t_small by lia. destruct (Z.ltb_spec (lenPrt c + size) 4).
  - do 3 eexists. split; [done|]. apply (set_length_wf c); (done || lia).
  - rewrite (proj2 (Z.eqb_eq (lenPrt c + size) 4)) by lia. do 3 eexists. split; [done|]. by apply got_length_wf.
Qed.

(** The branch that reads the payload. *)
Lemma read_data_wf c s : wf_conn c -> state c = STATE_READ_DATA ->
  exists ret c' s', read_data c s = Ok (ret, c', s') /\ wf_conn c'.
Proof.
  intros Hc Hs. destruct (Hc) as [E|E|_ Hlen Hint Hbuf Ho|b E|b E|E]; try by rewrite E in Hs.
  unfold read_data. destruct (sys_read s _ _) as [r s'] eqn:Er.
  destruct r as [[|x l]| |]; [by repeat eexists| |by repeat eexists..].
  apply sys_read_got in Er as (Hn & _ & _ & _ & _ & Hnull). destruct (inBuf c) as [b|] eqn:Eb; [|by specialize (Hnull eq_refl)].
  set (size := Z.of_nat (length (x :: l))) in *.
  assert (0 < size) by (unfold size; cbn [length]; lia). cbn [lift mbind result_bind].
  destruct (poke_cases b (inPtr c) (x :: l)) as [(b' & -> & Hb')|Hbad].
  2: { exfalso. revert Hbad. unfold poke. fold size. case_bool; simpl; (done || lia). }
  cbn [mbind result_bind set_in inPtr inLen inBuf]. destruct (Z.ltb_spec (inPtr c + size) (inLen c)).
  - do 3 eexists. split; [done|]. apply Wf_data; try done. cbn. rewrite Hb'. lia.
  - rewrite (proj2 (Z.eqb_eq (inPtr c + size) (inLen c))) by lia. do 3 eexists. split; [done|].
    apply (Wf_done _ b'); try done; cbn; lia.
Qed.

Lemma handleRead_wf c s : wf_conn c -> exists ret c' s', handleRead c s = Ok (ret, c', s') /\ wf_conn c'.
Proof.
  intros Hc. unfold handleRead. case_bool.
  - apply read_length_wf; [done|rewrite e; done|]. destruct Hc; (wrong_state || done).
  - apply read_length_wf; [done|rewrite e; done|done].
  - by apply read_data_wf.
  - by repeat eexists.
Qed.

(** The bytes of the frame that a connection has received. *)
Definition rx (c : Connection) : list Z :=
  if state c =? STATE_READ_LEN then take (Z.to_nat (lenPrt c)) (memory (len c))
  else if state c =? STATE_READ_DATA then be32 (inLen c) ++ content (inPtr c) (inBuf c)
  else if state c =? STATE_READ_DONE then be32 (inLen c) ++ content (inPtr c) (inBuf c)
  else [].

(** The buffer is missing only when there was no memory for it. *)
Definition buffered (c : Connection) : Prop :=
  state c = STATE_READ_DATA -> inBuf c = None -> malloc (size_t (inLen c)) = None.

(** What a successful step of reading does: it moves bytes from the stream into the
    connection. *)
Definition reads (c : Connection) (s : socket) (c' : Connection) (s' : socket) : Prop :=
  rx c ++ stream (net s) = rx c' ++ stream (net s') /\ stream (net s') `suffix_of` stream (net s)
  /\ (events (net s') < events (net s))%nat
  /\ is_open s' = true /\ rooms s' = rooms s /\ out s' = out s
  /\ state c' <= STATE_READ_DONE /\ wf_conn c' /\ buffered c' /\ connfd c' = connfd c.

Lemma take_poke dst off src mem : poke dst off src = Ok mem ->
  take (Z.to_nat off + length src) mem = take (Z.to_nat off) dst ++ src.
Proof.
  unfold poke. case_bool; simpl; intros; simplify_eq. rewrite (assoc_L (++)).
  apply take_app_length'. rewrite length_app, length_take. lia.
Qed.

Lemma poke_bytes dst off src mem : poke dst off src = Ok mem ->
  Forall is_byte dst -> Forall is_byte src -> Forall is_byte mem.
Proof.
  unfold poke. case_bool; simpl; intros; simplify_eq.
  rewrite !Forall_app. split_and!; [by apply Forall_take|done|by apply Forall_drop].
Qed.

Lemma rx_got_length c mem p : wf_conn c -> state c < STATE_READ_DATA ->
  length mem = 4%nat -> Forall is_byte mem ->
  mem = rx (got_length (set_length c (state c) (int_at mem) p)).
Proof.
  intros Hc Hs Hl Hb.
  destruct (wf_early c Hc Hs) as (_ & (_ & _ & Hz) & _).
  unfold rx. cbn [got_length set_length state len inLen inBuf inPtr].
  change (STATE_READ_DATA =? STATE_READ_LEN) with false. change (STATE_READ_DATA =? STATE_READ_DATA) with true.
  cbn iota. rewrite be32_ntohl, Hz by done. unfold content. destruct (malloc _); by rewrite ?take_0, app_nil_r.
Qed.

Lemma read_length_reads c s : wf_conn c -> state c < STATE_READ_DATA ->
  is_open s = true -> stream (net s) <> [] -> Forall is_byte (stream (net s)) ->
  exists ret c' s', read_length c s (lenPrt c) = Ok (ret, c', s') /\ 0 <= ret /\ reads c s c' s'.
Proof.
  intros Hc Hst Ho Hne Hb.
  destruct (read_length_wf c s _ Hc Hst eq_refl) as (ret & c' & s' & Hr & Hc').
  exists ret, c', s'. split; [done|].
  destruct (wf_early c Hc Hst) as [Hp _].
  assert (rx c = take (Z.to_nat (lenPrt c)) (memory (len c))) as Hrx.
  { unfold rx. destruct Hc as [E Hz|E|E|b E|b E|E]; rewrite E in *; try done. by rewrite Hz. }
  unfold read_length in Hr.
  destruct (sys_read_progress s (4 - lenPrt c)) as (r & s1 & Er & He & Ho1 & Hro & Hou & Hcase); [done|lia|done|].
  rewrite Er in Hr. destruct Hcase as [[-> Hs1]|(x & l & -> & Hl & Hs1)].
  - simplify_eq. unfold reads. rewrite Hs1. split_and!; try done; [unfold STATE_READ_DATA, STATE_READ_DONE in *; lia|].
    intros Hd. by rewrite Hd in Hst.
  - destruct (poke (memory (len c)) (lenPrt c) (x :: l)) as [mem| |] eqn:Em; [|done..].
    cbn [mbind result_bind] in Hr. assert (length mem = 4%nat) as Hml.
    { destruct (poke_cases (memory (len c)) (lenPrt c) (x :: l)) as [(? & E & E')|E]; rewrite E in Em; by simplify_eq. }
    pose proof (take_poke _ _ _ _ Em) as Ht. apply poke_bytes in Em as Hmb;
      [|apply memory_bytes|rewrite Hs1 in Hb; by apply Forall_app in Hb as []].
    assert (rx c ++ stream (net s) = take (Z.to_nat (lenPrt c) + length (x :: l)) mem ++ stream (net s1)) as Hcons
      by (rewrite Hrx, Hs1, Ht; by rewrite <- (assoc_L (++))).
    set (size := Z.of_nat (length (x :: l))) in *. clear Ht. rewrite size_t_small in Hr by lia.
    assert (Z.to_nat (lenPrt c) + length (x :: l) = Z.to_nat (lenPrt c + size))%nat as Hn by lia.
    assert (stream (net s1) `suffix_of` stream (net s)) as Hsuf by (eexists; exact Hs1).
    rewrite Hn in Hcons. unfold reads. destruct (Z.ltb_spec (lenPrt c + size) 4) as [Hlt|Hge]; simplify_eq.
    + split; [lia|]. split_and!; try done. rewrite Hcons. unfold rx at 1. cbn [set_length state len lenPrt].
      change (STATE_READ_LEN =? STATE_READ_LEN) with true. cbn iota. by rewrite memory_int_at.
    + rewrite (proj2 (Z.eqb_eq (lenPrt c + size) 4)) in Hr by lia. simplify_eq. split; [lia|].
      split_and!; try done; [|by intros _].
      rewrite Hcons. f_equal. rewrite take_ge by lia. by apply rx_got_length.
Qed.

Lemma read_data_reads c s : wf_conn c -> buffered c -> state c = STATE_READ_DATA ->
  0 < inLen c -> malloc (size_t (inLen c)) <> None -> is_open s = true -> stream (net s) <> [] ->
  exists ret c' s', read_data c s = Ok (ret, c', s') /\ 0 <= ret /\ reads c s c' s'.
Proof.
  intros Hc Hbuf Hst Hpos Hm Ho Hne.
  destruct (read_data_wf c s Hc Hst) as (ret & c' & s' & Hr & Hc'). exists ret, c', s'. split; [done|].
  destruct (inBuf c) as [b|] eqn:Eb; [|by specialize (Hbuf Hst Eb)].
  assert (0 <= inPtr c < inLen c /\ inLen c <= Z.of_nat (length b)) as [Hp Hl].
  { destruct Hc as [E|E|E _ _ Hw|? E|? E|E]; try wrong_state. rewrite Eb in Hw. lia. }
  unfold read_data in Hr. rewrite Eb in Hr.
  destruct (sys_read_progress s (inLen c - inPtr c)) as (r & s1 & Er & He & Ho1 & Hro & Hou & Hcase); [done|lia|done|].
  rewrite Er in Hr. unfold reads. destruct Hcase as [[-> Hs1]|(x & l & -> & Hln & Hs1)].
  - simplify_eq. rewrite Hs1, Hst. by split_and!.
  - cbn [lift mbind result_bind] in Hr. destruct (poke b (inPtr c) (x :: l)) as [b'| |] eqn:Ep; [|done..].
    apply take_poke in Ep as Ht. cbn [mbind result_bind set_in inPtr inLen inBuf] in Hr.
    assert (stream (net s1) `suffix_of` stream (net s)) as Hsuf by (eexists; exact Hs1).
    set (size := Z.of_nat (length (x :: l))) in *. rewrite Hs1 in *.
    assert (forall st, state st = STATE_READ_DATA \/ state st = STATE_READ_DONE -> inLen st = inLen c ->
      inPtr st = inPtr c + size -> inBuf st = Some b' -> rx c ++ (x :: l) ++ stream (net s1) = rx st ++ stream (net s1)) as Hrx.
    { intros st Hs Hil Hip Hib. unfold rx. rewrite Hst, Hil, Hip, Hib, Eb. cbn [content].
      replace (Z.to_nat (inPtr c + size)) with (Z.to_nat (inPtr c) + length (x :: l))%nat by lia.
      rewrite Ht. destruct Hs as [-> | ->]; cbn -[be32]; by rewrite <- !(assoc_L (++)). }
    destruct (Z.ltb_spec (inPtr c + size) (inLen c)).
    + simplify_eq. split; [lia|]. split_and!; try done; [|cbn; by rewrite Hst].
      by apply Hrx; [left|..].
    + rewrite (proj2 (Z.eqb_eq (inPtr c + size) (inLen c))) in Hr by lia. simplify_eq. split; [lia|].
      split_and!; try done. by apply Hrx; [right|..].
Qed.

(** While the stream goes on and there is memory for the payload, a call of
    [handleRead] moves bytes of the stream into the connection. *)
Lemma handleRead_reads c s : wf_conn c -> buffered c -> state c < STATE_READ_DONE ->
  (state c = STATE_READ_DATA -> 0 < inLen c /\ malloc (size_t (inLen c)) <> None) ->
  is_open s = true -> stream (net s) <> [] -> Forall is_byte (stream (net s)) ->
  exists ret c' s', handleRead c s = Ok (ret, c', s') /\ 0 <= ret /\ reads c s c' s'.
Proof.
  intros Hc Hbuf Hst Hd Ho Hne Hb. unfold handleRead. case_bool.
  - assert (lenPrt c = 0) as Hz by (destruct Hc; (wrong_state || done)).
    pose proof (read_length_reads c s) as Hr. rewrite Hz in Hr. apply Hr; try done. by rewrite e.
  - apply read_length_reads; try done. by rewrite e.
  - destruct (Hd e). by apply read_data_reads.
  - destruct Hc as [E|E|E|? E|? E|E]; rewrite E in *; done.
Qed.

Lemma handleWrite_wf c s : wf_conn c -> exists ret c' s', handleWrite c s = Ok (ret, c', s') /\ wf_conn c'.
Proof.
  intros Hc. unfold handleWrite. case_bool; [|by repeat eexists].
  destruct (Hc) as [E|E|E|b E|b E Hl Hi Hb Hp Hlen|E]; try by rewrite E in e.
  rewrite Hb. cbn [lift mbind result_bind]. rewrite peek_rest by lia. cbn [mbind result_bind].
  destruct (sys_write s _) as [r s'] eqn:Er. destruct r as [[|n]| |]; [by repeat eexists| |by repeat eexists..].
  apply sys_write_sent in Er as (Hn & _). rewrite length_take, length_drop in Hn.
  cbn [set_out outPtr outLen outBuf]. destruct (Z.ltb_spec (outPtr c + Z.of_nat (S n)) (outLen c)).
  - do 3 eexists. split; [done|]. apply (Wf_write _ b); try done; cbn; lia.
  - rewrite (proj2 (Z.eqb_eq (outPtr c + Z.of_nat (S n)) (outLen c))) by lia. do 3 eexists. split; [done|].
    by apply Wf_written.
Qed.

End Steps.

(** ** Types and errors *)

Lemma response_frame_length r : wf_response r -> Z.of_nat (length (frame (response_payload r))) = 12 + rs_len r.
Proof.
  intros Hr. unfold frame. rewrite length_app, be32_length, Nat2Z.inj_add, response_payload_length by done. lia.
Qed.

(** The connection that [handle] leaves. *)
Lemma response_wf c resp data : outPtr c = 0 -> wf_response resp ->
  wf_conn (set_out (set_in (set_length c (state c) 0 0) (state c) None 0 0) STATE_WRITE_DATA
    (Some (frame (response_payload resp) ++ drop (length (frame (response_payload resp))) data))
    (12 + rs_len resp) (outPtr c)).
Proof.
  intros Ho Hw. pose proof (response_frame_length resp Hw) as Hf.
  pose proof (holds_nonneg _ _ (wrs_data resp Hw)).
  eapply Wf_write; cbn [set_out set_in set_length state lenPrt outBuf outLen outPtr]; try done;
    rewrite ?Ho, ?length_app; lia.
Qed.

Section Errors.
Context `{Malloc} `{Storage St}.

Lemma Response_write_length r data data' : Response_write r data = Ok data' -> length data' = length data.
Proof.
  unfold Response_write. intros Hw.
  do 3 (match type of Hw with context [poke ?d ?o ?n] =>
    destruct (poke_cases d o n) as [(? & E & ?)|E]; rewrite E in Hw; clear E; cbn [mbind result_bind] in Hw; [|done] end).
  case_bool; [|simplify_eq; congruence].
  destruct (rs_buf r) as [buf|]; [|done]. cbn [lift mbind result_bind] in Hw.
  destruct (peek buf 0 (rs_len r)) as [src| |]; [|done..]. cbn [mbind result_bind] in Hw.
  match type of Hw with poke ?d ?o ?n = _ => destruct (poke_cases d o n) as [(? & E & ?)|E]; rewrite E in Hw end;
    simplify_eq; congruence.
Qed.

(** Handling is undefined for a length that does not fit in an [int] with its header;
    otherwise the block of the response is as long as its length says. *)
Lemma handle_wf c st c' st' : wf_conn c -> state c = STATE_READ_DONE ->
  (forall r resp st', respond r st = Ok (resp, st') -> 0 <= rs_len resp < 2 ^ 31) ->
  handle c st = Ok (c', st') -> wf_conn c'.
Proof.
  intros Hc Hst Hresp Hh. destruct (Hc) as [E|E ?|E|b E Hb Hl Hi Hip (Ho1 & Ho2 & Ho3)|? E|E]; try wrong_state.
  unfold handle in Hh. rewrite Hb in Hh. cbn [lift mbind result_bind] in Hh.
  destruct (Request_read new_Request b) as [r| |]; [|done..]. cbn [mbind result_bind] in Hh.
  destruct (respond r st) as [[resp st1]| |] eqn:Er; [|done..]. apply Hresp in Er as Hlen.
  cbn [mbind result_bind] in Hh.
  destruct (malloc (size_t (int (12 + rs_len resp)))) as [data|] eqn:Em; [|done].
  apply malloc_int in Em; [|apply is_int_int]. cbn [lift mbind result_bind] in Hh.
  destruct (Response_write resp data) as [data'| |] eqn:Ew; [|done..]. apply Response_write_length in Ew.
  cbn [mbind result_bind] in Hh. injection Hh as <- <-.
  assert (0 < int (12 + rs_len resp)).
  { destruct (Z.ltb_spec (12 + rs_len resp) (2 ^ 31)); [rewrite int_small; lia|].
    unfold int, wrap_s in *. change (32 - 1) with 31 in *.
    rewrite <- (Z_mod_plus_full _ (-1)), Z.mod_small in Em by lia. lia. }
  eapply Wf_write; cbn [set_out set_in set_length state lenPrt outBuf outLen outPtr]; try done; rewrite ?Ho3; lia.
Qed.

(** C10: Whatever arrives, however little is taken and whether or not there is memory,
    reading and writing are defined and keep the connection well formed: the state
    says which buffers exist and the positions stay inside them. The reset after a
    response and the handling of a request that is defined keep it well formed too. *)
Theorem connection_typed c s st : wf_conn c ->
  (exists ret c' s', handleRead c s = Ok (ret, c', s') /\ wf_conn c')
  /\ (exists ret c' s', handleWrite c s = Ok (ret, c', s') /\ wf_conn c')
  /\ (state c = STATE_WRITE_DONE -> wf_conn (reset c))
  /\ (state c = STATE_READ_DONE ->
      (forall r resp st', respond r st = Ok (resp, st') -> 0 <= rs_len resp < 2 ^ 31) ->
      forall c' st', handle c st = Ok (c', st') -> wf_conn c').
Proof.
  intros Hc. split_and!; [by apply handleRead_wf|by apply handleWrite_wf| |by intros; eapply handle_wf].
  intros Hst. destruct Hc as [E|E|E|? E|? E|E]; try wrong_state. by apply Wf_init.
Qed.

(** C39: Three malformed frames. An empty payload closes the connection although the
    other end has not closed it. A negative length leaves the connection without a
    buffer, and the next byte closes it. A length of the key beyond the buffer makes
    the server read behind it. *)
Theorem bad_frames c s st :
  (state c = STATE_READ_DATA -> inLen c = inPtr c -> is_open s = true ->
     handleRead c s = Ok (-1, c, close s))
  /\ (wf_conn c -> state c = STATE_READ_DATA -> inLen c < 0 -> is_open s = true -> net s <> [] ->
     inBuf c = None /\ handleRead c s = Ok (-1, c, close s))
  /\ (forall b l m k more, inBuf c = Some b -> b = be32 l ++ be32 m ++ be32 k ++ more -> is_int k ->
     k < 0 \/ Z.of_nat (length more) < k -> handle c st = Undefined).
Proof.
  split_and!.
  - intros Hst He Ho. unfold handleRead, read_data, sys_read. rewrite Hst, Ho, He, Z.sub_diag. done.
  - intros Hc Hst Hneg Ho Hne. destruct (Hc) as [E|E|E Hl Hi Hb Hno|? E|? E|E]; try wrong_state.
    destruct (inBuf c) as [b|] eqn:Eb; [cbn in Hb; lia|]. split; [done|].
    unfold handleRead, read_data, sys_read. rewrite Hst, Ho, Eb, Hb.
    by rewrite (proj2 (Z.ltb_lt (inLen c - 0) 0)) by lia.
  - intros b l m k more Hb -> Hk Hbad. unfold handle, Request_read. rewrite Hb. cbn [lift mbind result_bind].
    set (full := be32 l ++ _).
    rewrite (peek_cut [] (be32 l) _ full 0 4 eq_refl) by field_length. cbn [mbind result_bind].
    rewrite (peek_cut (be32 l) (be32 m) _ full 4 4 eq_refl) by field_length. cbn [mbind result_bind].
    rewrite (peek_cut (be32 l ++ be32 m) (be32 k) more full 8 4)
      by first [by unfold full; rewrite <- (assoc_L (++))|field_length]. cbn [mbind result_bind].
    rewrite !ntohl_be32, (int_small k) by done. unfold peek, full. rewrite !length_app, !be32_length.
    case_bool; simpl; (done || lia).
Qed.

End Errors.

(** ** The contract of a storage

    What the server needs to know of its storage: the values its states stand for,
    which requests are allowed, what they answer and which value they lead to. *)

(** The same request, in another memory. *)
Definition same_request (r r' : Request) : Prop :=
  rq_len r' = rq_len r /\ rq_method r' = rq_method r /\ rq_key r' = rq_key r
  /\ request_data r' = request_data r /\ holds (rq_len r') (rq_buf r').

Class Contract (St A : Type) `{Storage St} := {
  stands_for : St -> A -> Prop;
  allowed : A -> Request -> Prop;
  does : A -> Request -> (Z * list Z) * A;
  contract st a r r' : stands_for st a -> allowed a r -> same_request r r' ->
    exists resp st', respond r' st = Ok (resp, st') /\ wf_response resp
      /\ (rs_status resp, response_data resp) = (does a r).1 /\ stands_for st' (does a r).2
}.

(** The bytes of a response with a status and data. *)
Definition response_bytes (x : Z * list Z) : list Z :=
  frame (be32 (Z.of_nat (length x.2)) ++ be32 x.1 ++ x.2).

Lemma response_bytes_ok resp x : wf_response resp -> (rs_status resp, response_data resp) = x ->
  frame (response_payload resp) = response_bytes x.
Proof.
  intros Hw <-. unfold response_bytes, response_payload. cbn [fst snd].
  assert (Z.of_nat (length (response_data resp)) = rs_len resp) as -> by (apply content_length, Hw). done.
Qed.

(** A sequence of requests: the responses and the value at the end. *)
Fixpoint does_all `{Contract St A} (a : A) (rs : list Request) : list (Z * list Z) * A :=
  match rs with
  | [] => ([], a)
  | r :: rs => ((does a r).1 :: (does_all (does a r).2 rs).1, (does_all (does a r).2 rs).2)
  end.

Fixpoint allowed_all `{Contract St A} (a : A) (rs : list Request) : Prop :=
  match rs with [] => True | r :: rs => allowed a r /\ allowed_all (does a r).2 rs end.

(** ** Sessions *)

Section Sessions.
Context `{Malloc} `{Contract St A}.

(** There is memory for every message. *)
Hypothesis memory_enough : forall n, 0 <= n < 2 ^ 31 -> malloc n <> None.

Definition run_session (fuel : nat) (x : Connection * socket * St) : result (Connection * socket * St) :=
  session fuel x.1.1 x.1.2 x.2.

(** A connection that has not received the whole of its frame. *)
Lemma rx_incomplete c p q rest : wf_conn c -> buffered c -> state c < STATE_READ_DONE ->
  rx c ++ q = frame p ++ rest -> 0 < Z.of_nat (length p) < 2 ^ 31 ->
  (length (rx c) < length (frame p))%nat
  /\ (state c = STATE_READ_DATA -> inLen c = Z.of_nat (length p) /\ malloc (size_t (inLen c)) <> None).
Proof.
  intros Hc Hbuf Hst Hrx Hp. unfold frame in *. rewrite length_app, be32_length.
  destruct (Hc) as [E|E ?|E _ Hi Hw|? E|? E|E]; rewrite E in Hst; try done; unfold rx in *; rewrite E in *;
    cbn -[be32 take memory] in *.
  - split; [lia|done].
  - split; [|done]. rewrite length_take, memory_length. lia.
  - rewrite <- !(assoc_L (++)) in Hrx. apply app_inj_1 in Hrx as [Hl _]; [|by rewrite !be32_length].
    apply (f_equal int_at) in Hl as Hl'.
    assert (inLen c = Z.of_nat (length p)) as Hil.
    { apply (f_equal (fun l => ntohl (int_at l))) in Hl. rewrite !ntohl_be32, !int_small in Hl; [done|lia|done]. }
    rewrite Hil in *. rewrite size_t_small by lia. split; [|intros _; split; [done|apply memory_enough; lia]].
    rewrite length_app, be32_length. destruct (inBuf c) as [b|]; cbn [content length]; [|lia].
    rewrite length_take. lia.
Qed.

Lemma rx_complete c p q rest : wf_conn c -> state c = STATE_READ_DONE ->
  rx c ++ q = frame p ++ rest -> Z.of_nat (length p) < 2 ^ 31 -> rx c = frame p /\ q = rest.
Proof.
  intros Hc Hst Hrx Hp. apply app_inj_1; [|done].
  destruct (Hc) as [E|E ?|E _ Hi Hw|b E Hb Hl Hi Hip|? E|E]; try wrong_state.
  unfold rx, frame in *. rewrite E in *. cbn -[be32] in *. rewrite Hb, Hip in *.
  rewrite <- !(assoc_L (++)) in Hrx. apply app_inj_1 in Hrx as [Hbe _]; [|by rewrite !be32_length].
  apply (f_equal (fun l => ntohl (int_at l))) in Hbe. rewrite !ntohl_be32, !int_small in Hbe; [|lia|done].
  rewrite !length_app, !be32_length. cbn [content]. rewrite length_take. lia.
Qed.

(** The two kinds of rounds that read. *)
Lemma session_more fuel c s c' s' ret st : handleRead c s = Ok (ret, c', s') -> 0 <= ret ->
  state c < STATE_READ_DONE -> state c' < STATE_READ_DONE ->
  run_session (S fuel) (c, s, st) = run_session fuel (c', s', st).
Proof.
  intros Hr Hret Hc Hc'. unfold run_session. cbn [fst snd session].
  rewrite (proj2 (Z.ltb_lt (state c) STATE_WRITE_DATA)) by (unfold STATE_WRITE_DATA, STATE_READ_DONE in *; lia).
  unfold on_readable. rewrite Hr. cbn [mbind result_bind].
  rewrite (proj2 (Z.ltb_ge ret 0)) by lia. by rewrite (proj2 (Z.ltb_lt _ _) Hc').
Qed.

Lemma session_handles fuel c s ret c' s' st c2 st2 : handleRead c s = Ok (ret, c', s') -> 0 <= ret ->
  state c < STATE_READ_DONE -> state c' = STATE_READ_DONE -> handle c' st = Ok (c2, st2) ->
  run_session (S fuel) (c, s, st) = run_session fuel (c2, s', st2).
Proof.
  intros Hr Hret Hc Hc' Hh. unfold run_session. cbn [fst snd session].
  rewrite (proj2 (Z.ltb_lt (state c) STATE_WRITE_DATA)) by (unfold STATE_WRITE_DATA, STATE_READ_DONE in *; lia).
  unfold on_readable. rewrite Hr. cbn [mbind result_bind].
  rewrite (proj2 (Z.ltb_ge ret 0)) by lia. rewrite Hc'. change (_ <? _) with false. cbn iota.
  rewrite Z.eqb_refl, Hh. done.
Qed.

(** The rounds that receive a frame, up to the call of [handle]. *)
Lemma session_reads c s st p rest : wf_conn c -> buffered c -> state c < STATE_READ_DONE ->
  is_open s = true -> rx c ++ stream (net s) = frame p ++ rest -> 0 < Z.of_nat (length p) < 2 ^ 31 ->
  Forall is_byte (stream (net s)) ->
  exists c1 s1, wf_conn c1 /\ state c1 = STATE_READ_DONE /\ rx c1 = frame p /\ stream (net s1) = rest
    /\ is_open s1 = true /\ rooms s1 = rooms s /\ out s1 = out s
    /\ forall c2 st2, handle c1 st = Ok (c2, st2) -> leads_to run_session (c, s, st) (c2, s1, st2).
Proof.
  remember (events (net s)) as n eqn:En. revert c s En.
  induction n as [n IH] using lt_wf_ind; intros c s -> Hc Hbuf Hst Ho Hrx Hp Hb.
  destruct (rx_incomplete c p _ rest Hc Hbuf Hst Hrx Hp) as [Hlt Hd].
  assert (stream (net s) <> []) as Hne.
  { intros E. rewrite E, app_nil_r in Hrx. rewrite Hrx, length_app in Hlt. lia. }
  destruct (handleRead_reads c s Hc Hbuf Hst) as (ret & c' & s' & Hr & Hret & Hs');
    [intros Hs; destruct (Hd Hs); split; [lia|done]|done..|].
  destruct Hs' as (Hcons & Hsuf & He & Ho' & Hro & Hou & Hst' & Hc' & Hbuf' & _).
  assert (Forall is_byte (stream (net s'))) as Hb'
    by (destruct Hsuf as [k Hk]; rewrite Hk in Hb; by apply Forall_app in Hb as []).
  rewrite Hcons in Hrx. destruct (Z.ltb_spec (state c') STATE_READ_DONE) as [Hlt'|Hge'].
  - destruct (IH _ He c' s' eq_refl) as (c1 & s1 & ? & ? & ? & ? & ? & ? & ? & Hgo); try done.
    exists c1, s1. split_and!; try done; [congruence..|]. intros c2 st2 Hh.
    eapply leads_to_step; [|by apply Hgo]. intros fuel. by apply (session_more _ _ _ _ _ ret).
  - assert (state c' = STATE_READ_DONE) as Hdone by lia.
    destruct (rx_complete c' p _ rest Hc' Hdone Hrx) as [? ?]; [lia|].
    exists c', s'. split_and!; try done. intros c2 st2 Hh.
    eapply leads_to_step; [|apply leads_to_refl]. intros fuel. by apply (session_handles _ _ _ ret c' s').
Qed.

(** What is left of a response. *)
Definition unsent (c : Connection) : list Z :=
  match outBuf c with
  | Some b => take (Z.to_nat (outLen c - outPtr c)) (drop (Z.to_nat (outPtr c)) b)
  | None => []
  end.

(** A connection between two requests. *)
Definition idle (c : Connection) : Prop := wf_conn c /\ state c = STATE_INIT.

Lemma session_write_round fuel c s c' s' ret st : handleWrite c s = Ok (ret, c', s') -> 0 <= ret ->
  state c = STATE_WRITE_DATA -> state c' = STATE_WRITE_DATA \/ state c' = STATE_WRITE_DONE ->
  run_session (S fuel) (c, s, st) =
    run_session fuel (if state c' =? STATE_WRITE_DONE then reset c' else c', s', st).
Proof.
  intros Hw Hret Hc Hc'. unfold run_session. cbn [fst snd session]. rewrite Hc. change (_ <? _) with false. cbn iota.
  unfold on_writable. rewrite Hw. cbn [mbind result_bind]. rewrite (proj2 (Z.ltb_ge ret 0)) by lia.
  by destruct Hc' as [-> | ->].
Qed.

(** One call of [handleWrite] sends a part of what is left of the response. *)
Lemma handleWrite_sends c s : wf_conn c -> state c = STATE_WRITE_DATA -> is_open s = true ->
  (length (unsent c) <= capacity (rooms s))%nat -> taking (rooms s) ->
  exists ret c' s' l l', handleWrite c s = Ok (ret, c', s') /\ 0 <= ret /\ wf_conn c'
    /\ net s' = net s /\ is_open s' = true /\ taking (rooms s')
    /\ unsent c = l ++ l' /\ out s' = out s ++ l /\ capacity (rooms s) = (length l + capacity (rooms s'))%nat
    /\ (state c' = STATE_WRITE_DATA /\ unsent c' = l' /\ (length (rooms s') < length (rooms s))%nat
        \/ state c' = STATE_WRITE_DONE /\ l' = []).
Proof.
  intros Hc Hst Ho Hcap Ht. destruct (handleWrite_wf c s Hc) as (ret & c' & s' & Hw & Hc').
  exists ret, c', s'. destruct (Hc) as [E|E|E|? E|b E Hlp Hin Hb Hp Hl|E]; try wrong_state.
  assert (unsent c = take (Z.to_nat (outLen c - outPtr c)) (drop (Z.to_nat (outPtr c)) b)) as Hu
    by (unfold unsent; by rewrite Hb).
  assert (Z.of_nat (length (unsent c)) = outLen c - outPtr c) as Hul by (rewrite Hu, length_take, length_drop; lia).
  pose proof Hw as Hw'. unfold handleWrite in Hw'. rewrite Hst, Hb in Hw'.
  change (STATE_WRITE_DATA =? STATE_WRITE_DATA) with true in Hw'. cbn [lift mbind result_bind] in Hw'.
  rewrite peek_rest, <- Hu in Hw' by lia. cbn [mbind result_bind] in Hw'.
  destruct (sys_write_progress s (unsent c)) as (r & s1 & Ew & Hnet & Ho1 & Ht1 & Hcase);
    [done|intros Hz; rewrite Hz in Hul; cbn in Hul; lia|done|done|].
  rewrite Ew in Hw'. destruct Hcase as [(-> & Hou & Hca & Hlt)|(k & -> & Hk & Hou & Hca & Hlt)].
  - simplify_eq. exists [], (unsent c'). rewrite app_nil_r. split_and!; try done. by left.
  - exists (take (S k) (unsent c)), (drop (S k) (unsent c)). rewrite take_drop, length_take, Nat.min_l by done.
    cbn [set_out outPtr outLen outBuf] in Hw'. destruct (Z.ltb_spec (outPtr c + Z.of_nat (S k)) (outLen c)).
    + injection Hw' as <- <- <-. split_and!; try done. left. split; [done|]. split; [|lia].
      unfold unsent. cbn [set_out outBuf outLen outPtr]. rewrite Hb, skipn_firstn_comm, drop_drop. f_equal; [lia|f_equal; lia].
    + rewrite (proj2 (Z.eqb_eq (outPtr c + Z.of_nat (S k)) (outLen c))) in Hw' by lia.
      injection Hw' as <- <- <-. split_and!; try done. right. split; [done|]. apply drop_ge. lia.
Qed.

(** The rounds that send a response. *)
Lemma session_writes c s st : wf_conn c -> state c = STATE_WRITE_DATA -> is_open s = true ->
  (length (unsent c) <= capacity (rooms s))%nat -> taking (rooms s) ->
  exists c1 s1, idle c1 /\ net s1 = net s /\ is_open s1 = true /\ taking (rooms s1)
    /\ out s1 = out s ++ unsent c /\ capacity (rooms s) = (length (unsent c) + capacity (rooms s1))%nat
    /\ leads_to run_session (c, s, st) (c1, s1, st).
Proof.
  remember (length (rooms s)) as n eqn:En. revert c s En.
  induction n as [n IH] using lt_wf_ind; intros c s -> Hc Hst Ho Hcap Ht.
  destruct (handleWrite_sends c s Hc Hst Ho Hcap Ht) as
    (ret & c' & s' & l & l' & Hw & Hret & Hc' & Hnet & Ho' & Ht' & Hu & Hou & Hca & Hcase).
  assert (forall fuel, run_session (S fuel) (c, s, st)
    = run_session fuel (if state c' =? STATE_WRITE_DONE then reset c' else c', s', st)) as Hrun
    by (intros fuel; apply (session_write_round _ _ _ _ _ ret); try done; destruct Hcase as [[? _]|[? _]]; [by left|by right]).
  rewrite Hu in *. rewrite length_app in *. destruct Hcase as [(Hst' & Hu' & Hlt)|[Hst' ->]]; rewrite Hst' in Hrun.
  - destruct (IH _ Hlt c' s' eq_refl) as (c1 & s1 & ? & ? & ? & ? & Hou1 & ? & Hgo); try done; [rewrite Hu'; lia|].
    rewrite Hu' in *. exists c1, s1. split_and!; try done; [congruence|by rewrite Hou1, Hou, (assoc_L (++))|lia|].
    by eapply leads_to_step.
  - rewrite app_nil_r. exists (reset c'), s'. split_and!; try done; [|cbn; lia|eapply leads_to_step; [exact Hrun|apply leads_to_refl]].
    split; [|done]. destruct Hc' as [E|E|E|? E|? E|E]; try wrong_state. by apply Wf_init.
Qed.

(** A complete frame is handled: the connection holds the response. *)
Lemma handle_ok c st a r : wf_conn c -> state c = STATE_READ_DONE -> wf_request r ->
  rx c = frame (request_payload r) -> stands_for st a -> allowed a r ->
  exists c' st', handle c st = Ok (c', st') /\ wf_conn c' /\ state c' = STATE_WRITE_DATA
    /\ unsent c' = response_bytes (does a r).1 /\ stands_for st' (does a r).2.
Proof.
  intros Hc Hst Hr Hrx Hab Hall.
  destruct (Hc) as [E|E ?|E|b E Hb Hl Hi Hip (Ho1 & Ho2 & Ho3)|? E|E]; try wrong_state.
  unfold rx, frame in Hrx. rewrite Hst, Hip, Hb in Hrx. cbn -[be32] in Hrx.
  apply app_inj_1 in Hrx as [_ Hp]; [|by rewrite !be32_length].
  destruct (Request_read_ok r (drop (Z.to_nat (inLen c)) b) Hr) as (r' & Hread & Hsame).
  { intros ?. apply memory_enough. pose proof (wrq_size r Hr). lia. }
  rewrite <- Hp, take_drop in Hread.
  destruct (contract st a r r' Hab Hall Hsame) as (resp & st' & Hresp & Hw & Hx & Hab').
  pose proof Hw as [_ Hd Hs]. pose proof (holds_nonneg _ _ Hd) as Hnn.
  unfold handle. rewrite Hb. cbn [lift mbind result_bind]. rewrite Hread. cbn [mbind result_bind].
  rewrite Hresp. cbn [mbind result_bind]. rewrite int_small, size_t_small by lia.
  destruct (malloc (12 + rs_len resp)) as [data|] eqn:Em; [|destruct (memory_enough (12 + rs_len resp)); [lia|done]].
  apply malloc_room in Em as [Hroom _]. cbn [lift mbind result_bind].
  rewrite Response_write_ok by (done || lia). cbn [mbind result_bind].
  pose proof (response_frame_length resp Hw) as Hf. rewrite <- (response_bytes_ok resp _ Hw Hx).
  do 2 eexists. split; [done|]. split; [by apply (response_wf c)|split; [done|split; [|done]]].
  unfold unsent. cbn [set_out set_in set_length outBuf outLen outPtr]. rewrite Ho3, drop_0, Z.sub_0_r.
  apply take_app_length'. lia.
Qed.

(** One request of a stream of requests. *)
Lemma request_served c s st a r rest : idle c -> is_open s = true -> wf_request r ->
  stream (net s) = frame (request_payload r) ++ rest -> Forall is_byte (stream (net s)) ->
  stands_for st a -> allowed a r ->
  (length (response_bytes (does a r).1) <= capacity (rooms s))%nat -> taking (rooms s) ->
  exists c1 s1 st1, idle c1 /\ is_open s1 = true /\ stream (net s1) = rest
    /\ out s1 = out s ++ response_bytes (does a r).1 /\ stands_for st1 (does a r).2 /\ taking (rooms s1)
    /\ capacity (rooms s) = (length (response_bytes (does a r).1) + capacity (rooms s1))%nat
    /\ leads_to run_session (c, s, st) (c1, s1, st1).
Proof.
  intros [Hc Hst] Ho Hr Hs Hb Hab Hall Hcap Ht.
  assert (rx c = []) as Hrx by (unfold rx; by rewrite Hst).
  pose proof (request_payload_length r Hr) as Hlen. pose proof Hr as [_ _ Hd Hsz]. apply holds_nonneg in Hd.
  destruct (session_reads c s st (request_payload r) rest) as (c1 & s1 & Hc1 & Hst1 & Hrx1 & Hs1 & Ho1 & Hro & Hou & Hgo);
    [done|by intros E; rewrite E in Hst|by rewrite Hst|done|by rewrite Hrx, Hs|lia|done|].
  destruct (handle_ok c1 st a r Hc1 Hst1 Hr Hrx1 Hab Hall) as (c2 & st2 & Hh & Hc2 & Hst2 & Hu & Hab2).
  rewrite <- Hro, <- Hu in Hcap. rewrite <- Hro in Ht.
  destruct (session_writes c2 s1 st2 Hc2 Hst2 Ho1 Hcap Ht) as (c3 & s3 & ? & Hnet & ? & ? & Hou3 & ? & Hgo').
  rewrite Hu in *. exists c3, s3, st2. split_and!; try done; [congruence|congruence|congruence|].
  eapply leads_to_trans; [by apply Hgo|done].
Qed.

(** A connection that carries a sequence of requests is served completely. *)
Lemma requests_served st a rs c s : stands_for st a -> allowed_all a rs -> Forall wf_request rs ->
  idle c -> is_open s = true -> stream (net s) = concat (map (fun r => frame (request_payload r)) rs) ->
  Forall is_byte (stream (net s)) ->
  (length (concat (map response_bytes (does_all a rs).1)) <= capacity (rooms s))%nat -> taking (rooms s) ->
  exists c' s' st', idle c' /\ stands_for st' (does_all a rs).2
    /\ out s' = out s ++ concat (map response_bytes (does_all a rs).1)
    /\ leads_to run_session (c, s, st) (c', s', st').
Proof.
  revert st a c s. induction rs as [|r rs IH]; intros st a c s Hab Hall Hrs Hc Ho Hs Hb Hcap Ht.
  - exists c, s, st. cbn. rewrite app_nil_r. split_and!; try done; try apply Hc. apply leads_to_refl.
  - destruct Hall as [Hal Hall]. apply Forall_cons in Hrs as [Hr Hrs].
    cbn [map concat does_all fst snd] in *. rewrite length_app in Hcap.
    destruct (request_served c s st a r _ Hc Ho Hr Hs Hb Hab Hal) as
      (c1 & s1 & st1 & Hc1 & Ho1 & Hs1 & Hou & Hab1 & Ht1 & Hca & Hgo); [lia|done|].
    rewrite Hs in Hb. apply Forall_app in Hb as [_ Hb]. rewrite <- Hs1 in Hb.
    destruct (IH st1 _ c1 s1 Hab1 Hall Hrs Hc1 Ho1 Hs1 Hb ltac:(lia) Ht1) as (c' & s' & st' & ? & ? & Hou' & Hgo').
    exists c', s', st'. split_and!; try done.
    + by rewrite Hou', Hou, (assoc_L (++)).
    + by eapply leads_to_trans.
Qed.

End Sessions.
