(* ===== verification/ObjStore.v ===== *)
(** The storage of the object server: the metadata (src/cpp-object-storage-demo/
    meta.cpp), the files (file.h, file.cpp) and the handlers of the three requests
    (server.cpp, [handlePut], [handleDelete], [handleGet]).

    RocksDB is a map from keys to values. The file system is a map from files to
    contents: [resolve] says which file a path names, and different plain names (without
    a slash, not "." or "..") in the directory of the server name different files. Other
    names need not: "k" and "/k" are one file ([posix_resolve]). A [FILE] keeps what is
    written in a buffer until the buffer is full or the file is closed. Every library call
    asks the environment whether it works: the plan of the state lists the outcomes, and a
    call beyond its end works. A handler is one step of the state here: it holds the lock
    of its key from its first to its last call, and [ObjShared] cuts it into its calls. *)

From S2P Require Import Prelude Result ChatWire ObjWire ObjWireProps ObjConn.
#[local] Open Scope Z_scope.

Inductive outcome :=
| Works
| Fails
| Short (n : nat).   (* a transfer of at most [n] characters *)

(** ** Paths *)

(** A name that stands for an entry of its directory. *)
Definition plain (name : list Z) : Prop :=
  name <> [] /\ 0 ∉ name /\ 47 ∉ name /\ name <> [46] /\ name <> [46; 46].

(** The directory of the server in the file system of the machine, which says what file a
    path names, and the number of characters that a [FILE] keeps in its buffer. *)
Record directory := {
  dir_path : list Z;
  resolve : list Z -> list Z;
  buffer_size : nat;
  resolve_plain k k' : plain k -> plain k' ->
    resolve (dir_path ++ [47] ++ k) = resolve (dir_path ++ [47] ++ k') -> k = k'
}.

Record storage := {
  place : directory;
  files : gmap (list Z) (list Z);
  meta : gmap (list Z) (list Z);
  plan : list outcome
}.

(** [conf.file_path] *)
Definition file_path (st : storage) : list Z := dir_path (place st).

Definition with_files (st : storage) (f : gmap (list Z) (list Z)) : storage :=
  {| place := place st; files := f; meta := meta st; plan := plan st |}.
Definition with_meta (st : storage) (m : gmap (list Z) (list Z)) : storage :=
  {| place := place st; files := files st; meta := m; plan := plan st |}.

(** The outcome of the next library call. *)
Definition ask (st : storage) : outcome * storage :=
  match plan st with
  | [] => (Works, st)
  | o :: p => (o, {| place := place st; files := files st; meta := meta st; plan := p |})
  end.

(** ** The metadata *)

Definition meta_get (key : list Z) (st : storage) : Z * storage :=
  let '(o, st) := ask st in
  match o with
  | Fails => (-1, st)
  | _ => (match meta st !! key with Some _ => 0 | None => -1 end, st)
  end.

Definition meta_del (key : list Z) (st : storage) : Z * storage :=
  let '(o, st) := ask st in
  match o with Fails => (-1, st) | _ => (0, with_meta st (delete key (meta st))) end.

(** The value is the text "0". *)
Definition meta_put (key : list Z) (st : storage) : Z * storage :=
  let '(o, st) := ask st in
  match o with Fails => (-1, st) | _ => (0, with_meta st (<[key := [48]]> (meta st))) end.

(** ** Files *)

Definition MAX_CHUNK : Z := 1024.

(** A [FILE]: its file, the position, and what was written before the position and is not
    in the file yet. *)
Record FILE := { name : list Z; pos : nat; pending : list Z }.

Record FileIO := { dir : list Z; fp : option FILE }.

Inductive mode := wb_plus | rb.

Definition new_FILE (n : list Z) : FILE := {| name := n; pos := 0; pending := [] |}.

Definition fopen (dir : list Z) (m : mode) (st : storage) : option FILE * storage :=
  let '(o, st) := ask st in
  let n := resolve (place st) dir in
  match o, m with
  | Fails, _ => (None, st)
  | _, wb_plus => (Some (new_FILE n), with_files st (<[n := []]> (files st)))
  | _, rb => (match files st !! n with Some _ => Some (new_FILE n) | None => None end, st)
  end.

(** The constructor of [FileIO]. *)
Definition open_file (parent path : list Z) (m : mode) (st : storage) : FileIO * storage :=
  let dir := parent ++ [47] ++ path in
  let '(fp, st) := fopen dir m st in ({| dir := dir; fp := fp |}, st).

Definition contents (f : FILE) (st : storage) : list Z := default [] (files st !! name f).

(** The first [n] pending characters go to the file. *)
Definition flush (n : nat) (f : FILE) (st : storage) : storage :=
  match take n (pending f) with
  | [] => st
  | l =>
    let old := contents f st in
    let start := (pos f - length (pending f))%nat in
    with_files st (<[name f := take start old ++ l ++ drop (start + length l) old]> (files st))
  end.

(** [fseek] to a position, which empties the buffer: its result and the file. *)
Definition fseek (f : FILE) (p : nat) (st : storage) : Z * FILE * storage :=
  let '(o, st) := ask st in
  match o with
  | Fails => (-1, f, st)
  | _ => (0, {| name := name f; pos := p; pending := [] |}, flush (length (pending f)) f st)
  end.

(** How many of [c] characters a transfer moves: an error moves none. *)
Definition transferred (o : outcome) (c : nat) : nat :=
  match o with Works => c | Fails => O | Short n => Nat.min n c end.

(** [fwrite]: the characters taken. They are pending until there are more than the buffer
    keeps. *)
Definition fwrite (f : FILE) (l : list Z) (st : storage) : nat * FILE * storage :=
  let '(o, st) := ask st in
  let len := transferred o (length l) in
  let f := {| name := name f; pos := pos f + len; pending := pending f ++ take len l |} in
  if (buffer_size (place st) <? length (pending f))%nat
  then (len, {| name := name f; pos := pos f; pending := [] |}, flush (length (pending f)) f st)
  else (len, f, st).

(** [fclose], whose result is not looked at: an error leaves the end of what is pending out
    of the file. *)
Definition fclose (f : FILE) (st : storage) : storage :=
  let '(o, st) := ask st in flush (transferred o (length (pending f))) f st.

(** The destructor of [FileIO]. *)
Definition close_file (io : FileIO) (st : storage) : storage :=
  match fp io with Some f => fclose f st | None => st end.

(** [fread]: the characters read. *)
Definition fread (f : FILE) (c : nat) (st : storage) : list Z * FILE * storage :=
  let '(o, st) := ask st in
  let l := take (transferred o c) (drop (pos f) (contents f st)) in
  (l, {| name := name f; pos := pos f + length l; pending := pending f |}, st).

(** The loop of [writeData], with fuel for the rounds; the result is what remains. *)
Fixpoint write_loop (fuel : nat) (f : FILE) (buf : list Z) (off count : Z) (st : storage) :
    result (Z * FILE * storage) :=
  match fuel with
  | O => Ok (count, f, st)
  | S fuel =>
    if 0 <? count then
      let c := Z.min MAX_CHUNK count in
      l ← peek buf off c;
      match fwrite f l st with
      | (O, f, st) => Ok (count, f, st)
      | (len, f, st) => write_loop fuel f buf (off + Z.of_nat len) (count - Z.of_nat len) st
      end
    else Ok (count, f, st)
  end.

(** A round writes at least one character. [fsync] does not see what is pending, and its
    result is not looked at. *)
Definition writeData (io : FileIO) (buf : list Z) (size : Z) (st : storage) : result (Z * FileIO * storage) :=
  f ← lift (fp io);
  let '(_, f, st) := fseek f 0 st in
  '(count, f, st) ← write_loop (Z.to_nat size) f buf 0 size st;
  Ok (if 0 <? count then size - count else size, {| dir := dir io; fp := Some f |}, st).

(** The loop of [readData]: what remains, and the buffer. *)
Fixpoint read_loop (fuel : nat) (f : FILE) (buf : list Z) (off count : Z) (st : storage) :
    result (Z * list Z * storage) :=
  match fuel with
  | O => Ok (count, buf, st)
  | S fuel =>
    if 0 <? count then
      let c := Z.min MAX_CHUNK count in
      match fread f (Z.to_nat c) st with
      | ([], f, st) => Ok (count, buf, st)
      | (l, f, st) =>
        buf ← poke buf off l;
        read_loop fuel f buf (off + Z.of_nat (length l)) (count - Z.of_nat (length l)) st
      end
    else Ok (count, buf, st)
  end.

Definition readData (io : FileIO) (buf : list Z) (size : Z) (st : storage) : result (Z * list Z * storage) :=
  f ← lift (fp io);
  let '(_, f, st) := fseek f 0 st in
  '(count, buf, st) ← read_loop (Z.to_nat size) f buf 0 size st;
  Ok (if 0 <? count then size - count else size, buf, st).

(** An open [FILE] stays with its file, whose name is the new one. *)
Definition renameFile (io : FileIO) (newDir : list Z) (st : storage) : Z * FileIO * storage :=
  let '(o, st) := ask st in
  let n := resolve (place st) (dir io) in
  let n' := resolve (place st) newDir in
  match o, files st !! n with
  | Fails, _ | _, None => (-1, io, st)
  | _, Some l =>
    (0, {| dir := dir io; fp := (fun f => {| name := n'; pos := pos f; pending := pending f |}) <$> fp io |},
     with_files st (<[n' := l]> (delete n (files st))))
  end.

Definition fileLength (io : FileIO) (st : storage) : result (Z * storage) :=
  f ← lift (fp io);
  let '(r, f, st) := fseek f (length (contents f st)) st in
  if r <? 0 then Ok (-1, st) else
  let size := int (Z.of_nat (pos f)) in
  if size <? 0 then Ok (-1, st) else
  let '(r, f, st) := fseek f 0 st in
  if r <? 0 then Ok (-1, st) else Ok (size, st).

(** [remove], whose result is not looked at. *)
Definition remove (filename : list Z) (st : storage) : storage :=
  let '(o, st) := ask st in
  match o with Fails => st | _ => with_files st (delete (resolve (place st) filename) (files st)) end.

(** ** The handlers *)

(** ".tmp" *)
Definition tmp : list Z := [46; 116; 109; 112].

Definition answer (r : Response) (status len : Z) : Response := setRespLen (setRespStatus r status) len.

(** The part of [handlePut] for a key that is not in the metadata. *)
Definition put_new (key buf : list Z) (len : Z) (r : Response) (st : storage) : result (Response * storage) :=
  let '(target, st) := open_file (file_path st) key wb_plus st in
  '(w, target, st) ← writeData target buf len st;
  let '(r, st) :=
    if (w <? 0) || negb (w =? len) then (setRespStatus r RESP_EXCEPTION, st)
    else let '(p, st) := meta_put key st in (setRespStatus r (if p <? 0 then RESP_EXCEPTION else RESP_OK), st) in
  Ok (r, close_file target st).

(** The part for a key that is in the metadata. *)
Definition put_existing (key buf : list Z) (len : Z) (r : Response) (st : storage) : result (Response * storage) :=
  let '(target, st) := open_file (file_path st) (key ++ tmp) wb_plus st in
  '(w, target, st) ← writeData target buf len st;
  let '(r, target, st) :=
    if (w <? 0) || negb (w =? len) then (setRespStatus r RESP_EXCEPTION, target, st)
    else
      let '(n, target, st) := renameFile target (file_path st ++ [47] ++ key) st in
      (setRespStatus r (if n <? 0 then RESP_EXCEPTION else RESP_OK), target, st) in
  Ok (r, close_file target st).

Definition put_object (request : Request) (r : Response) (st : storage) : result (Response * storage) :=
  let key := rq_key request in
  let len := rq_len request in
  let r := setRespLen r 0 in
  match rq_buf request with
  | None => Ok (setRespStatus r RESP_EXCEPTION, st)
  | Some buf =>
    let '(g, st) := meta_get key st in
    if g <? 0 then put_new key buf len r st else put_existing key buf len r st
  end.

Definition delete_object (request : Request) (r : Response) (st : storage) : result (Response * storage) :=
  let key := rq_key request in
  let r := setRespLen r 0 in
  let '(g, st) := meta_get key st in
  if 0 <=? g then
    let '(io, st) := open_file (file_path st) key rb st in
    match fp io with
    | None =>
      let '(_, st) := meta_del key st in Ok (setRespStatus r RESP_NOT_FOUND, close_file io st)
    | Some _ =>
      let st := close_file io st in
      let '(d, st) := meta_del key st in
      if d <? 0 then Ok (setRespStatus r RESP_EXCEPTION, st)
      else Ok (setRespStatus r RESP_OK, remove (dir io) st)
    end
  else Ok (setRespStatus r RESP_NOT_FOUND, remove (file_path st ++ [47] ++ key) st).

Section Handlers.
Context `{Malloc}.

(** The length is asked for before the test whether the file could be opened. *)
Definition get_object (request : Request) (r : Response) (st : storage) : result (Response * storage) :=
  let key := rq_key request in
  let '(g, st) := meta_get key st in
  if 0 <=? g then
    let '(io, st) := open_file (file_path st) key rb st in
    '(len, st) ← fileLength io st;
    match fp io with
    | None => Ok (answer r RESP_NOT_FOUND 0, close_file io st)
    | Some _ =>
      if len <? 0 then Ok (answer r RESP_EXCEPTION 0, close_file io st)
      else
        buf ← lift (malloc (size_t len));
        '(n, buf, st) ← readData io buf len st;
        Ok (if len =? n then setRespBuf (answer r RESP_OK len) (Some buf) else answer r RESP_EXCEPTION 0, close_file io st)
    end
  else Ok (answer r RESP_NOT_FOUND 0, st).

#[export] Instance object_storage : Storage storage := {|
  handlePut := put_object;
  handleGet := get_object;
  handleDelete := delete_object
|}.

End Handlers.

(** ** What the storage promises: a map from keys to objects *)

Definition spec (m : gmap (list Z) (list Z)) (r : Request) : Z * list Z * gmap (list Z) (list Z) :=
  if rq_method r =? METHOD_PUT then
    match rq_buf r with
    | None => (RESP_EXCEPTION, [], m)
    | Some buf => (RESP_OK, [], <[rq_key r := content (rq_len r) (rq_buf r)]> m)
    end
  else if rq_method r =? METHOD_GET then
    match m !! rq_key r with
    | Some l => (RESP_OK, l, m)
    | None => (RESP_NOT_FOUND, [], m)
    end
  else if rq_method r =? METHOD_DELETE then
    match m !! rq_key r with
    | Some _ => (RESP_OK, [], delete (rq_key r) m)
    | None => (RESP_NOT_FOUND, [], m)
    end
  else (RESP_INVALID, [], m).

(** A sequence of requests on the map: the responses and the map at the end. *)
Fixpoint spec_run (m : gmap (list Z) (list Z)) (rs : list Request) :
    list (Z * list Z) * gmap (list Z) (list Z) :=
  match rs with
  | [] => ([], m)
  | r :: rs => ((spec m r).1 :: (spec_run (spec m r).2 rs).1, (spec_run (spec m r).2 rs).2)
  end.
