(* ===== verification/ObjStoreProps.v ===== *)
(** The storage of the object server: with working libraries the handlers implement
    a map from keys to objects; when calls fail a PUT happens, with an end that may be
    missing, or leaves every object as it was, and a GET that succeeds returns the object;
    and the cases in which the server breaks these promises. The server and its storage
    together serve a stream of requests as the map does. *)

From S2P Require Import Prelude Result ChatWire ObjWire ObjWireProps ObjConn ObjConnProps ObjStore.
#[local] Open Scope Z_scope.

(** ** Names *)

#[export] Instance plain_dec k : Decision (plain k).
Proof. unfold plain. apply _. Defined.

Lemma plain_tmp k : plain k -> plain (k ++ tmp).
Proof.
  intros (Hk & H0 & H47 & _). assert (length (k ++ tmp) > 4)%nat as Hl
    by (rewrite length_app; destruct k; [done|cbn; lia]).
  split_and!; try (intros E; rewrite E in Hl; cbn in Hl; lia); rewrite elem_of_app; unfold tmp; (intros [H|H]; [done|]);
    rewrite !elem_of_cons in H; destruct H as [H|[H|[H|[H|H]]]]; first [lia|by apply not_elem_of_nil in H].
Qed.

(** ** Relations between states *)

(** The file of a key. *)
Definition path (st : storage) (key : list Z) : list Z := resolve (place st) (file_path st ++ [47] ++ key).

Lemma path_inj st k k' : plain k -> plain k' -> path st k = path st k' -> k = k'.
Proof. apply resolve_plain. Qed.

Lemma path_place st st' k : place st' = place st -> path st' k = path st k.
Proof. unfold path, file_path. by intros ->. Qed.

(** [st'] differs from [st] at most in its plan, of which some outcomes are used. *)
Record asked (st st' : storage) : Prop := {
  asked_place : place st' = place st;
  asked_meta : meta st' = meta st;
  asked_files : files st' = files st;
  asked_suffix : plan st' `suffix_of` plan st
}.

Lemma suffix_plan (p p' : list outcome) : p' `suffix_of` p -> p = [] -> p' = [].
Proof. intros H ->. by apply suffix_nil_inv in H. Qed.

(** No call fails. *)
Definition works (p : list outcome) : Prop := Forall (eq Works) p.

Lemma suffix_works (p p' : list outcome) : p' `suffix_of` p -> works p -> works p'.
Proof. intros [q ->]. unfold works. by rewrite Forall_app; intros []. Qed.

Lemma asked_works st st' : asked st st' -> works (plan st) -> works (plan st').
Proof. intros Ha. apply suffix_works, Ha. Qed.

Lemma works_nil p : p = [] -> works p.
Proof. intros ->. constructor. Qed.

Lemma asked_plan st st' : asked st st' -> plan st = [] -> plan st' = [].
Proof. intros Ha. apply suffix_plan, Ha. Qed.

Lemma asked_path st st' : asked st st' -> file_path st' = file_path st.
Proof. intros Ha. unfold file_path. by rewrite (asked_place _ _ Ha). Qed.

Lemma ask_asked st o st' : ask st = (o, st') -> asked st st' /\ (works (plan st) -> o = Works).
Proof.
  unfold ask. destruct (plan st) as [|o' p] eqn:E; intros [= <- <-].
  - split; [by split|done].
  - split; [split; try done; rewrite E; by exists [o']|]. by intros [<- _]%Forall_cons_1.
Qed.

Lemma ask_head st o st' : ask st = (o, st') -> o = Fails -> head (plan st) = Some Fails.
Proof. unfold ask. destruct (plan st); intros; by simplify_eq. Qed.

(** The last call that was made did not work. *)
Definition last_fails (st st' : storage) : Prop := exists o, o <> Works /\ o :: plan st' `suffix_of` plan st.

Lemma ask_last st o st' : ask st = (o, st') -> o <> Works -> last_fails st st'.
Proof. unfold ask. destruct (plan st) as [|o' p] eqn:E; intros; simplify_eq. exists o. rewrite E. by split. Qed.

Lemma last_fails_before st st1 st2 : plan st1 `suffix_of` plan st -> last_fails st1 st2 -> last_fails st st2.
Proof. intros H (o & Ho & Hs). exists o. split; [done|]. by etrans. Qed.

Lemma last_fails_works st st' : last_fails st st' -> ~ works (plan st).
Proof. intros (o & Ho & Hs) E. apply (suffix_works _ _ Hs), Forall_cons_1 in E as [<- _]. done. Qed.

Lemma head_fails (p : list outcome) : head p = Some Fails -> ~ works p.
Proof. destruct p; [done|]. intros [= ->] [? _]%Forall_cons_1. done. Qed.

(** The objects of the storage are the map [m]. *)
Definition represents (st : storage) (m : gmap (list Z) (list Z)) : Prop :=
  forall k, match m !! k with
            | Some v => plain k /\ is_Some (meta st !! k) /\ files st !! path st k = Some v
            | None => meta st !! k = None
            end.

Lemma represents_asked st st' m : asked st st' -> represents st m -> represents st' m.
Proof. intros [Hp Hm Hf _] H k. specialize (H k). by rewrite (path_place st st' k Hp), Hm, Hf. Qed.

(** Changing a file that belongs to no object. *)
Lemma represents_other st st' m n : represents st m ->
  place st' = place st -> meta st' = meta st ->
  (forall k, path st k <> n -> files st' !! path st k = files st !! path st k) ->
  (forall k, plain k -> path st k = n -> m !! k = None) -> represents st' m.
Proof.
  intros H Hp Hm Hf Hn k. specialize (H k). rewrite (path_place st st' k Hp), Hm.
  destruct (m !! k) as [v|] eqn:E; [|done]. destruct H as (Hk & ? & <-). split_and!; [done..|].
  apply Hf. intros Heq. rewrite (Hn k Hk Heq) in E. discriminate.
Qed.

(** Storing an object. *)
Lemma represents_insert st st' m key v : represents st m -> plain key ->
  place st' = place st -> is_Some (meta st' !! key) -> files st' !! path st key = Some v ->
  (forall k, k <> key -> meta st' !! k = meta st !! k) ->
  (forall k, plain k -> k <> key -> is_Some (m !! k) -> files st' !! path st k = files st !! path st k) ->
  represents st' (<[key := v]> m).
Proof.
  intros H Hpl Hp Hk Hv Hm Hf k. specialize (H k). rewrite (path_place st st' k Hp).
  destruct (decide (k = key)) as [->|Hne].
  - by rewrite lookup_insert_eq.
  - rewrite lookup_insert_ne, Hm by done. destruct (m !! k) as [w|] eqn:E; [|done].
    destruct H as (Hk' & ? & ?). by rewrite Hf by done.
Qed.

(** ** Files *)

Lemma transferred_le o c : (transferred o c <= c)%nat.
Proof. destruct o; simpl; lia. Qed.

(** The first [t] characters of [buf] are written: they are in the file or pending. *)
Record writes (buf : list Z) (t : nat) (f : FILE) (st : storage) : Prop := {
  wr_length : (length (pending f) <= t <= length buf)%nat;
  wr_pos : pos f = t;
  wr_file : files st !! name f = Some (take (t - length (pending f)) buf);
  wr_pending : pending f = drop (t - length (pending f)) (take t buf)
}.

(** A change of the file [n] that uses some of the plan. *)
Record changed (n : list Z) (st st' : storage) : Prop := {
  ch_place : place st' = place st;
  ch_meta : meta st' = meta st;
  ch_files : exists l, files st' = <[n := l]> (files st);
  ch_suffix : plan st' `suffix_of` plan st
}.

Lemma changed_trans n st st1 st2 : changed n st st1 -> changed n st1 st2 -> changed n st st2.
Proof.
  intros [? ? [l Hl] ?] [? ? [l' Hl'] ?]. split; [congruence..| |by etrans]. exists l'. by rewrite Hl', Hl, insert_insert_eq.
Qed.

Lemma asked_changed n l st st' : files st !! n = Some l -> asked st st' -> changed n st st'.
Proof. intros Hn [? ? Hf ?]. split; [done..| |done]. exists l. by rewrite Hf, insert_id. Qed.

Lemma flush_spec buf t f st n : writes buf t f st -> exists a, (t - length (pending f) <= a <= t)%nat
  /\ (length (pending f) <= n -> a = t)%nat
  /\ files (flush n f st) = <[name f := take a buf]> (files st)
  /\ place (flush n f st) = place st /\ meta (flush n f st) = meta st /\ plan (flush n f st) = plan st.
Proof.
  intros [Hl Hp Hf Hpe]. set (a0 := (t - length (pending f))%nat) in *.
  assert (take n (pending f) = take (Nat.min n (length (pending f))) (drop a0 buf)) as Ht.
  { rewrite Hpe at 1. rewrite skipn_firstn_comm, take_take. do 2 f_equal. unfold a0. lia. }
  assert (length (take n (pending f)) = Nat.min n (length (pending f))) as Hlen by apply length_take.
  unfold flush. destruct (take n (pending f)) as [|x l] eqn:E.
  - exists a0. cbn in Hlen. split_and!; try done; [lia..|]. by rewrite insert_id.
  - exists (a0 + Nat.min n (length (pending f)))%nat. split_and!; try done; [lia..|]. cbn. f_equal. f_equal.
    assert (contents f st = take a0 buf) as -> by (unfold contents; by rewrite Hf). change (x :: l ++ ?d) with ((x :: l) ++ d).
    rewrite Hp. fold a0. rewrite take_take, Nat.min_id.
    rewrite (drop_ge (take _ _)), app_nil_r by (rewrite length_take; lia).
    by rewrite Ht, take_take_drop.
Qed.

(** [fwrite] of the next characters of a buffer. *)
Lemma fwrite_spec buf t f st c : writes buf t f st -> (t + c <= length buf)%nat ->
  exists len f' st', fwrite f (take c (drop t buf)) st = (len, f', st') /\ (len <= c)%nat /\ name f' = name f
    /\ writes buf (t + len) f' st' /\ changed (name f) st st' /\ (works (plan st) -> len = c).
Proof.
  intros [Hl Hp Hf Hpe] Hc. unfold fwrite. destruct (ask st) as [o st1] eqn:Ea. apply ask_asked in Ea as [Ha Hw].
  rewrite length_take, length_drop, Nat.min_l by lia. pose proof (transferred_le o c) as Hle. set (len := transferred o c) in *.
  rewrite take_take, Nat.min_l by done. set (f1 := {| name := name f; pos := pos f + len; pending := _ |}).
  assert (Hl1 : length (pending f1) = (length (pending f) + len)%nat)
    by (cbn; rewrite length_app, length_take, length_drop; lia).
  assert (writes buf (t + len) f1 st1) as Hw1.
  { split; [lia|cbn; lia|rewrite Hl1; cbn; rewrite (asked_files _ _ Ha), Hf; do 2 f_equal; lia|]. rewrite Hl1. cbn.
    replace (t + len - (length (pending f) + len))%nat with (t - length (pending f))%nat by lia.
    rewrite Hpe at 1. rewrite <- (take_take_drop buf t len). rewrite drop_app_le by (rewrite length_take; lia). done. }
  assert (works (plan st) -> len = c) as Hz by (intros Hn; unfold len; by rewrite (Hw Hn)).
  destruct (_ <? _)%nat.
  - destruct (flush_spec buf _ f1 st1 (length (pending f1)) Hw1) as (a & _ & Hfull & Hfi & Hpl & Hm & Hpn). rewrite (Hfull ltac:(done)) in Hfi.
    set (st2 := flush (length (pending f1)) f1 st1) in *. clearbody st2. do 3 eexists. split; [done|]. split_and!; try done.
    + split; cbn; [lia|lia|rewrite Hfi; cbn; rewrite lookup_insert_eq; do 2 f_equal; lia|]. rewrite drop_ge; [done|rewrite length_take; lia].
    + destruct Ha as [H1 H2 H3 H4]. split; [congruence..| |by rewrite Hpn]. rewrite Hfi, H3. by eexists.
  - do 3 eexists. split; [done|]. split_and!; try done. by eapply asked_changed.
Qed.

(** The loop of [writeData]: the beginning of the buffer is written, all of it when the
    calls work. *)
Lemma write_loop_spec fuel f buf off count st : 0 <= off -> 0 <= count <= Z.of_nat fuel ->
  off + count <= Z.of_nat (length buf) -> writes buf (Z.to_nat off) f st ->
  exists count' f' st', write_loop fuel f buf off count st = Ok (count', f', st')
    /\ 0 <= count' <= count /\ name f' = name f /\ writes buf (Z.to_nat (off + count - count')) f' st'
    /\ changed (name f) st st' /\ (works (plan st) -> count' = 0).
Proof.
  revert f off count st. induction fuel as [|fuel IH]; intros f off count st Ho Hc Hl Hwr; cbn [write_loop].
  all: assert (count <= 0 -> exists count' f' st', Ok (count, f, st) = Ok (count', f', st')
    /\ 0 <= count' <= count /\ name f' = name f /\ writes buf (Z.to_nat (off + count - count')) f' st'
    /\ changed (name f) st st' /\ (works (plan st) -> count' = 0)) as Hend
    by (intros; exists count, f, st; replace (off + count - count) with off by lia;
        split_and!; try done; try lia; eapply asked_changed; [apply Hwr|done]).
  - apply Hend. lia.
  - destruct (Z.ltb_spec 0 count) as [Hpos|Hz]; [|by apply Hend]. clear Hend.
    set (c := Z.min MAX_CHUNK count). assert (0 < c <= count) by (unfold c, MAX_CHUNK; lia).
    unfold peek. case_bool; simpl; try lia.
    destruct (fwrite_spec buf (Z.to_nat off) f st (Z.to_nat c)) as (len & f1 & st1 & -> & Hlen & Hn1 & Hw1 & Hch & Hpl); [done|lia|].
    destruct len as [|len].
    + do 3 eexists. split; [done|]. rewrite Nat.add_0_r in Hw1. replace (off + count - count) with off by lia.
      split_and!; try done; lia || (intros Hn; specialize (Hpl Hn); lia).
    + destruct (IH f1 (off + Z.of_nat (S len)) (count - Z.of_nat (S len)) st1) as (count' & f' & st' & -> & Hc' & Hn' & Hw' & Hch' & Hpl');
        [lia..|by replace (Z.to_nat (off + Z.of_nat (S len))) with (Z.to_nat off + S len)%nat by lia|].
      exists count', f', st'. rewrite Hn1 in Hch'. split_and!; [done|lia|lia|congruence| |by eapply changed_trans|].
      * by replace (off + count - count') with (off + Z.of_nat (S len) + (count - Z.of_nat (S len)) - count') by lia.
      * intros Hn. apply Hpl'. by apply (suffix_works _ _ (ch_suffix _ _ _ Hch)).
Qed.

(** [writeData] into a file that was opened for writing. *)
Lemma writeData_spec d n buf size st : files st !! n = Some [] -> 0 <= size <= Z.of_nat (length buf) ->
  exists w f st', writeData {| dir := d; fp := Some (new_FILE n) |} buf size st = Ok (w, {| dir := d; fp := Some f |}, st')
    /\ 0 <= w <= size /\ name f = n /\ writes buf (Z.to_nat w) f st' /\ changed n st st' /\ (works (plan st) -> w = size).
Proof.
  intros Hf Hs. unfold writeData. cbn [fp lift mbind result_bind]. unfold fseek.
  destruct (ask st) as [o st1] eqn:Ea. apply ask_asked in Ea as [Ha Hw].
  assert (exists r, (match o with Fails => (-1, new_FILE n, st1)
    | _ => (0, {| name := name (new_FILE n); pos := 0; pending := [] |}, flush (length (pending (new_FILE n))) (new_FILE n) st1) end)
    = (r, new_FILE n, st1)) as [r ->] by (destruct o; by eexists).
  destruct (write_loop_spec (Z.to_nat size) (new_FILE n) buf 0 size st1) as (count' & f' & st' & -> & Hc & Hn & Hwr & Hch & Hpl); [lia..| |].
  { split; cbn; [lia|done|by rewrite (asked_files _ _ Ha), Hf|done]. }
  cbn [mbind result_bind dir]. do 3 eexists. split; [done|].
  assert ((if 0 <? count' then size - count' else size) = size - count') as -> by (case_bool; lia).
  split_and!; [lia|lia|done|done|eapply changed_trans; [by eapply asked_changed|exact Hch]|].
  intros Hz. rewrite Hpl by (by apply (asked_works _ _ Ha)). lia.
Qed.

(** Closing a file that was written: its end may be missing, when [fclose] fails. *)
Lemma close_spec d buf t f st : writes buf t f st -> exists a st', close_file {| dir := d; fp := Some f |} st = st'
  /\ (a <= t)%nat /\ place st' = place st /\ meta st' = meta st /\ files st' = <[name f := take a buf]> (files st)
  /\ plan st' `suffix_of` plan st /\ (a = t \/ last_fails st st').
Proof.
  intros Hw. unfold close_file, fclose. cbn [fp]. destruct (ask st) as [o st1] eqn:Ea. pose proof (ask_last _ _ _ Ea) as Hlast.
  apply ask_asked in Ea as [Ha _].
  assert (writes buf t f st1) as Hw1 by (destruct Hw; split; try done; by rewrite (asked_files _ _ Ha)).
  destruct (flush_spec buf t f st1 (transferred o (length (pending f))) Hw1) as (a & Hat & Hfull & Hfi & Hpl & Hm & Hpn).
  destruct Ha as [H1 H2 H3 H4]. exists a. eexists. split; [done|]. split_and!; [lia|congruence|congruence|by rewrite Hfi, H3|by rewrite Hpn|].
  destruct (decide (a = t)) as [->|Hne]; [by left|right]. destruct (Hlast) as (o' & Ho' & Hs).
  - intros ->. by apply Hne, Hfull.
  - exists o'. split; [done|]. by rewrite Hpn.
Qed.

(** Closing a file that was read uses an outcome. *)
Lemma close_asked d n p st : asked st (close_file {| dir := d; fp := Some {| name := n; pos := p; pending := [] |} |} st).
Proof.
  unfold close_file, fclose, flush. cbn [fp pending length]. destruct (ask st) as [o st1] eqn:Ea. apply ask_asked in Ea as [Ha _].
  rewrite take_nil. done.
Qed.

(** Opening for writing gives an empty file, or nothing and no change. *)
Lemma open_wb_spec st key : exists fp0 st1,
  open_file (file_path st) key wb_plus st = ({| dir := file_path st ++ [47] ++ key; fp := fp0 |}, st1)
  /\ place st1 = place st /\ meta st1 = meta st /\ plan st1 `suffix_of` plan st
  /\ match fp0 with
     | Some f => f = new_FILE (path st key) /\ files st1 = <[path st key := []]> (files st)
     | None => head (plan st) = Some Fails
     end.
Proof.
  unfold open_file, fopen. destruct (ask st) as [o st0] eqn:Ea. pose proof (ask_head _ _ _ Ea) as Hh.
  apply ask_asked in Ea as [[Hpl Hm Hfi Hs] _]. rewrite Hpl. fold (path st key).
  destruct o; do 2 eexists; (split; [done|]); cbn; rewrite ?Hfi; split_and!; try done. by apply Hh.
Qed.

(** ** PUT *)

(** A character string of which [n] characters are taken is whole, or the last call failed. *)
Definition whole_or_fails (n : nat) (len : Z) (st st' : storage) : Prop := n = Z.to_nat len \/ last_fails st st'.

(** What writing a file of a key does to the files, and what the caller may rely on. *)
Lemma put_new_spec key buf len r st : 0 < len <= Z.of_nat (length buf) ->
  (put_new key buf len r st = Undefined /\ head (plan st) = Some Fails)
  \/ exists resp st' n, put_new key buf len r st = Ok (resp, st')
    /\ rs_len resp = rs_len r /\ rs_buf resp = rs_buf r /\ place st' = place st /\ plan st' `suffix_of` plan st
    /\ (n <= Z.to_nat len)%nat /\ files st' = <[path st key := take n buf]> (files st)
    /\ (rs_status resp = RESP_OK /\ meta st' = <[key := [48]]> (meta st) /\ whole_or_fails n len st st'
        \/ rs_status resp = RESP_EXCEPTION /\ meta st' = meta st /\ ~ works (plan st)).
Proof.
  intros Hl. unfold put_new.
  destruct (open_wb_spec st key) as (fp0 & st1 & -> & Hpl & Hm & Hs & Hf). destruct fp0 as [f|]; [|by left].
  destruct Hf as [-> Hfi]. right.
  destruct (writeData_spec (file_path st ++ [47] ++ key) (path st key) buf len st1) as (w & f & st2 & -> & Hw & Hn & Hwr & Hch & Hz);
    [by rewrite Hfi, lookup_insert_eq|lia|]. cbn [mbind result_bind].
  destruct Hch as [Hpl2 Hm2 [l Hfi2] Hs2]. rewrite Hfi, insert_insert_eq in Hfi2.
  rewrite (proj2 (Z.ltb_ge w 0)) by lia. cbn [orb].
  assert (forall st3, asked st2 st3 -> writes buf (Z.to_nat w) f st3) as Hwr3
    by (intros st3 Ha; destruct Hwr; split; try done; by rewrite (asked_files _ _ Ha)).
  (* closing after [st3], which has the files of [st2] *)
  assert (forall st3, place st3 = place st2 -> files st3 = files st2 -> writes buf (Z.to_nat w) f st3 -> plan st3 `suffix_of` plan st2 ->
    exists n, let st' := close_file {| dir := file_path st ++ [47] ++ key; fp := Some f |} st3 in
      place st' = place st /\ plan st' `suffix_of` plan st /\ (n <= Z.to_nat w)%nat /\ meta st' = meta st3
      /\ files st' = <[path st key := take n buf]> (files st) /\ (n = Z.to_nat w \/ last_fails st st')) as Hclose.
  { intros st3 Hpl3 Hfi3 Hw3 Hs3. assert (plan st3 `suffix_of` plan st) as Hs' by (etrans; [done|]; by etrans).
    destruct (close_spec (file_path st ++ [47] ++ key) buf _ f st3 Hw3) as (a & st' & -> & Ha & Hpl' & Hm' & Hfi' & Hsu & Hor).
    exists a. cbn zeta. split_and!; try congruence; [by etrans|by rewrite Hfi', Hfi3, Hfi2, Hn, insert_insert_eq|].
    destruct Hor as [->|Hor]; [by left|right; by eapply last_fails_before]. }
  destruct (Z.eqb_spec w len) as [->|Hne]; cbn [negb].
  - unfold meta_put. destruct (ask st2) as [o st3] eqn:Ea. apply ask_asked in Ea as [Ha Hw3].
    specialize (Hwr3 _ Ha). destruct o.
    2: { destruct (Hclose st3) as (n & Hc1 & Hc2 & Hc3 & Hc4 & Hc5 & _); try apply Ha; [done|].
         eexists _, _, n. split; [done|]. split_and!; try done. right. split_and!; [done|rewrite Hc4, (asked_meta _ _ Ha); congruence|].
         intros E. discriminate Hw3. by apply (suffix_works _ _ Hs2), (suffix_works _ _ Hs). }
    all: destruct (Hclose (with_meta st3 (<[key := [48]]> (meta st3)))) as (n1 & Hc1 & Hc2 & Hc3 & Hc4 & Hc5 & Hc6); try apply Ha;
      [destruct Hwr3; by split|].
    all: eexists _, _, n1; split; [done|]; split_and!; try done; left; split_and!; [done|rewrite Hc4; cbn; rewrite (asked_meta _ _ Ha); congruence|done].
  - destruct (Hclose st2) as (n & Hc1 & Hc2 & Hc3 & Hc4 & Hc5 & _); try done. eexists _, _, n. split; [done|].
    split_and!; try done; [lia|]. right. split_and!; [done|congruence|]. intros E. apply Hne, Hz. by apply (suffix_works _ _ Hs).
Qed.

Lemma put_existing_spec key buf len r st : 0 < len <= Z.of_nat (length buf) -> path st key <> path st (key ++ tmp) ->
  (put_existing key buf len r st = Undefined /\ head (plan st) = Some Fails)
  \/ exists resp st' n, put_existing key buf len r st = Ok (resp, st')
    /\ rs_len resp = rs_len r /\ rs_buf resp = rs_buf r /\ place st' = place st /\ plan st' `suffix_of` plan st
    /\ meta st' = meta st
    /\ (rs_status resp = RESP_OK /\ (n <= Z.to_nat len)%nat /\ whole_or_fails n len st st'
          /\ files st' = <[path st key := take n buf]> (delete (path st (key ++ tmp)) (files st))
        \/ rs_status resp = RESP_EXCEPTION /\ ~ works (plan st) /\ files st' = <[path st (key ++ tmp) := take n buf]> (files st)).
Proof.
  intros Hl Hpath. unfold put_existing.
  destruct (open_wb_spec st (key ++ tmp)) as (fp0 & st1 & -> & Hpl & Hm & Hs & Hf). destruct fp0 as [f|]; [|by left].
  destruct Hf as [-> Hfi]. right. set (d := file_path st ++ [47] ++ key ++ tmp).
  destruct (writeData_spec d (path st (key ++ tmp)) buf len st1) as (w & f & st2 & -> & Hw & Hn & Hwr & Hch & Hz);
    [by rewrite Hfi, lookup_insert_eq|lia|]. cbn [mbind result_bind].
  destruct Hch as [Hpl2 Hm2 [l Hfi2] Hs2]. rewrite Hfi, insert_insert_eq in Hfi2.
  rewrite (proj2 (Z.ltb_ge w 0)) by lia. cbn [orb].
  assert (forall st3, asked st2 st3 -> writes buf (Z.to_nat w) f st3) as Hwr3
    by (intros st3 Ha; destruct Hwr; split; try done; by rewrite (asked_files _ _ Ha)).
  assert (plan st2 `suffix_of` plan st) as Hs02 by by etrans.
  (* closing where nothing was renamed *)
  assert (forall st3, asked st2 st3 -> exists n, let st' := close_file {| dir := d; fp := Some f |} st3 in
      place st' = place st /\ plan st' `suffix_of` plan st /\ meta st' = meta st
      /\ files st' = <[path st (key ++ tmp) := take n buf]> (files st)) as Hclose.
  { intros st3 Ha. destruct (close_spec d buf _ f st3 (Hwr3 _ Ha)) as (a & st' & -> & Hle & Hpl' & Hm' & Hfi' & Hsu & _).
    exists a. cbn zeta. destruct Ha as [H1 H2 H3 H4]. split_and!; try congruence; [etrans; [done|]; by etrans|].
    by rewrite Hfi', H3, Hfi2, Hn, insert_insert_eq. }
  destruct (Z.eqb_spec w len) as [->|Hne]; cbn [negb].
  - unfold renameFile. cbn [dir]. destruct (ask st2) as [o st3] eqn:Ea. apply ask_asked in Ea as [Ha Hw3].
    assert (place st3 = place st) as Hp3 by (rewrite (asked_place _ _ Ha); congruence).
    assert (file_path st2 = file_path st) as -> by (unfold file_path; congruence).
    rewrite Hp3. change (resolve (place st) d) with (path st (key ++ tmp)). fold (path st key). specialize (Hwr3 _ Ha).
    pose proof (wr_file _ _ _ _ Hwr3) as Hfile. rewrite Hn in Hfile. rewrite Hfile. destruct o.
    2: { destruct (Hclose st3 Ha) as (n & Hc1 & Hc2 & Hc3 & Hc4).
         eexists _, _, n. split; [done|]. split_and!; try done. right. split_and!; [done| |done].
         intros E. discriminate Hw3. by apply (suffix_works _ _ Hs02). }
    all: match goal with |- context [close_file {| dir := _; fp := _ |} ?st] => set (st4 := st) end.
    all: assert (writes buf (Z.to_nat len) {| name := path st key; pos := pos f; pending := pending f |} st4) as Hw4
      by (destruct Hwr3; split; cbn; try done; by rewrite lookup_insert_eq).
    all: destruct (close_spec d buf _ _ st4 Hw4) as (n1 & st' & Hst' & Hle & Hpl' & Hm' & Hfi' & Hsu & Hor); cbn [fp fmap option_fmap option_map] in *;
      rewrite Hst'; exists (setRespStatus r RESP_OK), st', n1; split; [done|].
    all: assert (plan st4 `suffix_of` plan st) as Hs4 by (cbn; etrans; [apply Ha|done]).
    all: split_and!; try done; [by rewrite Hpl'|by etrans|rewrite Hm'; cbn; rewrite (asked_meta _ _ Ha); congruence|left].
    all: split_and!; try done; [destruct Hor as [->|Hor]; [by left|right; by eapply last_fails_before]|].
    all: rewrite Hfi'; cbn; rewrite insert_insert_eq, (asked_files _ _ Ha), Hfi2; by rewrite delete_insert_eq.
  - destruct (Hclose st2) as (n & Hc1 & Hc2 & Hc3 & Hc4); [by split|]. eexists _, _, n. split; [done|]. split_and!; try done.
    right. split_and!; [done| |done]. intros E. apply Hne, Hz. by apply (suffix_works _ _ Hs).
Qed.

Lemma tmp_longer key : key ++ tmp <> key.
Proof. intros H. apply (f_equal length) in H. rewrite length_app in H. cbn in H. lia. Qed.

Lemma meta_get_spec m key st : represents st m -> exists g st', meta_get key st = (g, st') /\ asked st st'
  /\ (forall x, head (plan st') = Some x -> plan st !! 1%nat = Some x)
  /\ (g = 0 /\ m !! key <> None \/ g = -1 /\ (m !! key = None \/ head (plan st) = Some Fails)).
Proof.
  intros Hr. unfold meta_get. destruct (ask st) as [o st1] eqn:Ea. pose proof (ask_head _ _ _ Ea) as Hh.
  assert (forall x, head (plan st1) = Some x -> plan st !! 1%nat = Some x) as Hx.
  { intros x. revert Ea. unfold ask. destruct (plan st) as [|o' p] eqn:E; intros [= <- <-]; cbn; [by rewrite E|by destruct p]. }
  apply ask_asked in Ea as [Ha Hw].
  specialize (Hr key). rewrite <- (asked_meta _ _ Ha) in Hr.
  destruct o; do 2 eexists; (split; [done|]); (split; [done|]); (split; [done|]).
  2: { right. split; [done|]. right. by apply Hh. }
  all: destruct (m !! key); [left|right; rewrite Hr; auto].
  all: destruct Hr as (_ & [? ->] & _); done.
Qed.

(** What [handlePut] did when it returned: the object is stored, or nothing has changed; when
    the last call failed the end of the object may be missing, and when the lookup failed the
    file of a stored object was overwritten. *)
Lemma put_cases m r st : represents st m -> plain (rq_key r) -> holds (rq_len r) (rq_buf r) -> rq_buf r <> None ->
  m !! (rq_key r ++ tmp) = None ->
  (put_object r new_Response st = Undefined /\ plan st !! 1%nat = Some Fails)
  \/ exists resp st' n, put_object r new_Response st = Ok (resp, st')
    /\ rs_len resp = 0 /\ rs_buf resp = None /\ place st' = place st /\ plan st' `suffix_of` plan st
    /\ (rs_status resp = RESP_OK /\ represents st' (<[rq_key r := take n (request_data r)]> m) /\ whole_or_fails n (rq_len r) st st'
        \/ rs_status resp = RESP_EXCEPTION /\ ~ works (plan st)
           /\ (represents st' m \/ head (plan st) = Some Fails /\ represents st' (<[rq_key r := take n (request_data r)]> m))).
Proof.
  intros Hr Hkey Hh Hb Htmp. unfold put_object, request_data. destruct (rq_buf r) as [buf|]; [|done].
  cbn [holds content] in *. set (key := rq_key r) in *. pose proof (plain_tmp key Hkey) as Hkt.
  destruct (meta_get_spec m key st Hr) as (g & st1 & -> & Ha & H2 & Hg).
  apply (represents_asked _ _ _ Ha) in Hr. destruct Ha as [Hpl Hm Hfi Hs].
  assert (forall n, (n <= Z.to_nat (rq_len r))%nat -> take n (take (Z.to_nat (rq_len r)) buf) = take n buf) as Htake
    by (intros; by rewrite take_take, Nat.min_l).
  assert (forall n st', whole_or_fails n (rq_len r) st1 st' -> whole_or_fails n (rq_len r) st st') as Hwh
    by (intros n st' [?|?]; [by left|right; by eapply last_fails_before]).
  assert (~ works (plan st1) -> ~ works (plan st)) as Hne by (intros Hx E; by apply Hx, (suffix_works _ _ Hs)).
  destruct Hg as [[-> Hin]|[-> Hout]]; cbn [Z.ltb Z.compare].
  - destruct (put_existing_spec key buf (rq_len r) (setRespLen new_Response 0) st1)
      as [[-> Hz]|(resp & st' & n & -> & Hlen & Hbuf & Hp' & Hs' & Hm' & Hc)]; [lia| |left; by auto|].
    { intros E. apply path_inj in E; [|done..]. by apply (tmp_longer key). }
    right. exists resp, st', n. split_and!; try done; [congruence|by etrans|].
    assert (is_Some (meta st1 !! key)) as Hms by (specialize (Hr key); destruct (m !! key); [apply Hr|done]).
    destruct Hc as [(Hst & Hn & Hwf & Hf)|(Hst & Hpn & Hf)]; [left|right]; (split; [done|]).
    + split; [|by apply Hwh]. rewrite Htake by done.
      apply (represents_insert st1); [done|done|done|by rewrite Hm'|by rewrite Hf, lookup_insert_eq|by rewrite Hm'|].
      intros k Hk Hkne [v Hv]. rewrite Hf, lookup_insert_ne by (intros E; apply path_inj in E; congruence).
      apply lookup_delete_ne. intros E. apply path_inj in E; [|done..]. congruence.
    + split; [auto|]. left. apply (represents_other st1 _ _ (path st1 (key ++ tmp))); [done..| |].
      * intros k Hk. rewrite Hf. apply lookup_insert_ne. congruence.
      * intros k Hk E. by apply path_inj in E as ->.
  - destruct (put_new_spec key buf (rq_len r) (setRespLen new_Response 0) st1)
      as [[-> Hz]|(resp & st' & n & -> & Hlen & Hbuf & Hp' & Hs' & Hn & Hf & Hc)]; [lia|left; by auto|].
    right. exists resp, st', n. split_and!; try done; [congruence|by etrans|]. rewrite Htake by done.
    assert (forall k, k <> key -> meta st' !! k = meta st1 !! k) as Hmk
      by (intros k Hk; destruct Hc as [(_ & -> & _)|(_ & -> & _)]; [by apply lookup_insert_ne|done]).
    assert (is_Some (meta st' !! key) -> represents st' (<[key := take n buf]> m)) as Hins.
    { intros Hmk'. apply (represents_insert st1); [done|done|done|done|by rewrite Hf, lookup_insert_eq|done|].
      intros k Hk Hkne _. rewrite Hf. apply lookup_insert_ne. intros E. apply path_inj in E; congruence. }
    destruct Hc as [(Hst & Hmi & Hwf)|(Hst & Hmi & Hpn)]; [left|right]; (split; [done|]).
    + split; [|by apply Hwh]. apply Hins. by rewrite Hmi, lookup_insert_eq.
    + split; [auto|]. destruct (m !! key) as [v|] eqn:Em.
      * right. split; [by destruct Hout|]. apply Hins. rewrite Hmi. specialize (Hr key). rewrite Em in Hr. apply Hr.
      * left. apply (represents_other st1 _ _ (path st1 key)); [done..| |].
        -- intros k Hk. rewrite Hf. apply lookup_insert_ne. congruence.
        -- intros k Hk E. by apply path_inj in E as ->.
Qed.

(** ** GET *)

Lemma asked_trans st st1 st2 : asked st st1 -> asked st1 st2 -> asked st st2.
Proof. intros [????] [????]. split; [congruence..|by etrans]. Qed.

Lemma asked_refl st : asked st st.
Proof. by split. Qed.

Lemma poke_prefix buf v off l : take (Z.to_nat off) buf = take (Z.to_nat off) v -> 0 <= off ->
  take (length l) (drop (Z.to_nat off) v) = l -> off + Z.of_nat (length l) <= Z.of_nat (length buf) ->
  exists buf', poke buf off l = Ok buf' /\ length buf' = length buf
    /\ take (Z.to_nat (off + Z.of_nat (length l))) buf' = take (Z.to_nat (off + Z.of_nat (length l))) v.
Proof.
  intros Ht Ho Hl Hb. unfold poke. case_bool; simpl; try lia. eexists. split; [done|]. split.
  - rewrite !length_app, length_take, length_drop. lia.
  - rewrite (assoc_L (++)), Ht. replace (Z.to_nat (off + Z.of_nat (length l))) with (Z.to_nat off + length l)%nat by lia.
    rewrite <- (take_take_drop v), Hl. apply take_app_length'.
    rewrite length_app, <- Ht, length_take. lia.
Qed.

(** The loop of [readData]: the buffer begins as the file does. *)
Lemma read_loop_spec fuel f buf off count st v : 0 <= off -> 0 <= count <= Z.of_nat fuel ->
  off + count <= Z.of_nat (length buf) -> off + count <= Z.of_nat (length v) -> pos f = Z.to_nat off ->
  files st !! name f = Some v -> take (Z.to_nat off) buf = take (Z.to_nat off) v ->
  exists count' buf' st', read_loop fuel f buf off count st = Ok (count', buf', st')
    /\ 0 <= count' <= count /\ asked st st' /\ length buf' = length buf
    /\ take (Z.to_nat (off + count - count')) buf' = take (Z.to_nat (off + count - count')) v
    /\ (works (plan st) -> count' = 0).
Proof.
  revert f buf off count st. induction fuel as [|fuel IH]; intros f buf off count st Ho Hc Hl Hv Hp Hf Ht; cbn [read_loop].
  - exists count, buf, st. replace (off + count - count) with off by lia.
    split_and!; (done || lia || apply asked_refl || (intros; lia)).
  - destruct (Z.ltb_spec 0 count) as [Hpos|Hz].
    2: { exists count, buf, st. replace (off + count - count) with off by lia.
         split_and!; (done || lia || apply asked_refl || (intros; lia)). }
    set (c := Z.min MAX_CHUNK count). assert (0 < c <= count) by (unfold c, MAX_CHUNK; lia).
    unfold fread. destruct (ask st) as [o st1] eqn:Ea. apply ask_asked in Ea as [Ha Hw].
    assert (contents f st1 = v) as -> by (unfold contents; by rewrite (asked_files _ _ Ha), Hf).
    pose proof (transferred_le o (Z.to_nat c)). set (len := transferred o (Z.to_nat c)) in *. rewrite Hp.
    assert (length (take len (drop (Z.to_nat off) v)) = len) as Hlen by (rewrite length_take, length_drop; lia).
    destruct (take len (drop (Z.to_nat off) v)) as [|x l] eqn:El.
    + exists count, buf, st1. replace (off + count - count) with off by lia. split_and!; try (done || lia).
      intros Hn. unfold len in Hlen. rewrite (Hw Hn) in Hlen. cbn in Hlen. lia.
    + assert (0 < length (x :: l))%nat by (cbn [length]; lia).
      destruct (poke_prefix buf v off (x :: l)) as (buf1 & -> & Hl1 & Ht1);
        [done|done|by rewrite Hlen|lia|]. cbn [mbind result_bind].
      destruct (IH {| name := name f; pos := Z.to_nat off + length (x :: l); pending := pending f |} buf1 (off + Z.of_nat (length (x :: l)))
        (count - Z.of_nat (length (x :: l))) st1) as (count' & buf' & st' & -> & Hc' & Ha' & Hl' & Ht' & Hpl');
        cbn [name pos]; [lia..|by rewrite (asked_files _ _ Ha)|done|].
      exists count', buf', st'. split_and!; [done|lia|lia|by eapply asked_trans|congruence| |].
      * replace (off + count - count') with (off + Z.of_nat (length (x :: l)) + (count - Z.of_nat (length (x :: l))) - count') by lia.
        done.
      * intros Hn. apply Hpl'. by apply (asked_works _ _ Ha).
Qed.

(** Seeking moves the position or fails. *)
Lemma fseek_spec f p st : pending f = [] -> exists r f1 st1, fseek f p st = (r, f1, st1) /\ asked st st1 /\ name f1 = name f
  /\ pending f1 = [] /\ (r = 0 /\ pos f1 = p \/ r = -1 /\ f1 = f /\ ~ works (plan st)).
Proof.
  intros Hpe. unfold fseek, flush. rewrite Hpe. cbn [length take]. destruct (ask st) as [o st1] eqn:Ea. apply ask_asked in Ea as [Ha Hw].
  destruct o; do 3 eexists; (split; [done|]); split_and!; try done; [by left|right|by left].
  split_and!; try done. intros Hn. by specialize (Hw Hn).
Qed.

Lemma readData_spec io f buf size st v : fp io = Some f -> pos f = O -> pending f = [] -> files st !! name f = Some v ->
  0 <= size <= Z.of_nat (length buf) -> size <= Z.of_nat (length v) ->
  exists w buf' st', readData io buf size st = Ok (w, buf', st') /\ 0 <= w <= size /\ asked st st'
    /\ take (Z.to_nat w) buf' = take (Z.to_nat w) v /\ length buf' = length buf /\ (works (plan st) -> w = size).
Proof.
  intros Hio Hp Hpe Hf Hs Hv. unfold readData. rewrite Hio. cbn [lift mbind result_bind].
  destruct (fseek_spec f 0 st Hpe) as (r & f1 & st1 & -> & Ha & Hn & _ & Hr).
  assert (pos f1 = O) as Hp1 by (destruct Hr as [[_ ?]|(_ & -> & _)]; done).
  destruct (read_loop_spec (Z.to_nat size) f1 buf 0 size st1 v) as (count' & buf' & st' & -> & Hc & Ha' & Hl' & Ht & Hpl);
    [lia..|done|by rewrite Hn, (asked_files _ _ Ha)|done|].
  cbn [mbind result_bind]. do 3 eexists. split; [done|]. rewrite Z.add_0_l in Ht.
  split_and!; [case_bool; lia|case_bool; lia|by eapply asked_trans| |done|].
  - case_bool; [done|]. by replace size with (size - count') by lia.
  - intros Hz. rewrite Hpl by (by apply (asked_works _ _ Ha)). done.
Qed.

Lemma fileLength_spec io f st v : fp io = Some f -> pending f = [] -> files st !! name f = Some v -> Z.of_nat (length v) < 2 ^ 31 ->
  exists n st', fileLength io st = Ok (n, st') /\ asked st st'
    /\ (n = Z.of_nat (length v) \/ n = -1 /\ ~ works (plan st)).
Proof.
  intros Hio Hpe Hf Hv. unfold fileLength. rewrite Hio. cbn [lift mbind result_bind].
  assert (contents f st = v) as -> by (unfold contents; by rewrite Hf).
  destruct (fseek_spec f (length v) st Hpe) as (r & f1 & st1 & -> & Ha & Hn & Hpe1 & Hr).
  destruct Hr as [[-> Hp]|(-> & _ & Hne)]; cbn [Z.ltb Z.compare]; [|do 2 eexists; split_and!; try done; by right].
  rewrite Hp, int_small by lia. rewrite (proj2 (Z.ltb_ge (Z.of_nat (length v)) 0)) by lia.
  destruct (fseek_spec f1 0 st1 Hpe1) as (r2 & f2 & st2 & -> & Ha2 & Hn2 & _ & Hr2).
  destruct Hr2 as [[-> _]|(-> & _ & Hne)]; cbn [Z.ltb Z.compare]; do 2 eexists;
    (split; [done|]); (split; [by eapply asked_trans|]); [by left|right]. split; [done|].
  intros Hz. by apply Hne, (asked_works _ _ Ha).
Qed.

(** Objects have a length. *)
Definition measured (m : gmap (list Z) (list Z)) : Prop :=
  forall k v, m !! k = Some v -> Z.of_nat (length v) < 2 ^ 31 - 12.

(** Objects are not empty and fit in a response. *)
Definition small (m : gmap (list Z) (list Z)) : Prop :=
  forall k v, m !! k = Some v -> 0 < Z.of_nat (length v) < 2 ^ 31 - 12.

Lemma open_rb_spec st key v : files st !! path st key = Some v -> exists fp0 st1,
  open_file (file_path st) key rb st = ({| dir := file_path st ++ [47] ++ key; fp := fp0 |}, st1) /\ asked st st1
  /\ (fp0 = Some (new_FILE (path st key)) \/ fp0 = None /\ head (plan st) = Some Fails).
Proof.
  intros Hf. unfold open_file, fopen. destruct (ask st) as [o st1] eqn:Ea. pose proof (ask_head _ _ _ Ea) as Hh.
  apply ask_asked in Ea as [Ha Hw]. rewrite (asked_place _ _ Ha), (asked_files _ _ Ha). fold (path st key). rewrite Hf.
  destruct o; do 2 eexists; (split; [done|]); (split; [done|]); [by left|right|by left]. auto.
Qed.

(** ** DELETE *)

Lemma represents_delete st st' m key : represents st m -> place st' = place st ->
  meta st' = delete key (meta st) ->
  (forall k, plain k -> k <> key -> files st' !! path st k = files st !! path st k) -> represents st' (delete key m).
Proof.
  intros H Hp Hm Hf k. specialize (H k). rewrite (path_place st st' k Hp), Hm.
  destruct (decide (k = key)) as [->|Hne]; [by rewrite !lookup_delete_eq|].
  rewrite !lookup_delete_ne by done. destruct (m !! k); [|done]. destruct H as (? & ? & ?). by rewrite Hf.
Qed.

Lemma remove_spec key st : exists st1, remove (file_path st ++ [47] ++ key) st = st1 /\ place st1 = place st
  /\ meta st1 = meta st /\ plan st1 `suffix_of` plan st
  /\ forall k, path st k <> path st key -> files st1 !! path st k = files st !! path st k.
Proof.
  eexists. split; [done|]. unfold remove. destruct (ask st) as [o st0] eqn:Ea. apply ask_asked in Ea as [[Hp Hm Hf Hs] _].
  rewrite Hp. fold (path st key).
  destruct o; cbn; rewrite ?Hf; split_and!; try done; intros k Hk; by apply lookup_delete_ne.
Qed.

(** Deleting from the metadata takes the object out of the map, whatever is left of the file. *)
Lemma meta_del_spec key st m : represents st m -> exists d st1, meta_del key st = (d, st1)
  /\ place st1 = place st /\ files st1 = files st /\ plan st1 `suffix_of` plan st /\ (works (plan st) -> d = 0)
  /\ (d = 0 /\ represents st1 (delete key m) \/ d = -1 /\ represents st1 m).
Proof.
  intros Hr. unfold meta_del. destruct (ask st) as [o st0] eqn:Ea. apply ask_asked in Ea as [Ha Hw].
  apply (represents_asked _ _ _ Ha) in Hr. destruct Ha as [Hp Hm Hf Hs].
  destruct o; do 2 eexists; (split; [done|]); cbn.
  2: { split_and!; try done; [|by right]. intros Hn. by specialize (Hw Hn). }
  all: split_and!; try done; left; split; [done|]; by apply (represents_delete st0).
Qed.

Lemma delete_cases m r st : represents st m -> plain (rq_key r) ->
  exists resp st', delete_object r new_Response st = Ok (resp, st')
    /\ rs_len resp = 0 /\ rs_buf resp = None /\ place st' = place st /\ plan st' `suffix_of` plan st
    /\ (head (plan st) <> Some Fails ->
          rs_status resp = RESP_OK /\ represents st' (delete (rq_key r) m) /\ m !! rq_key r <> None
          \/ rs_status resp = RESP_EXCEPTION /\ represents st' m /\ ~ works (plan st)
          \/ rs_status resp = RESP_NOT_FOUND /\ (represents st' m /\ (m !! rq_key r = None \/ ~ works (plan st))
              \/ represents st' (delete (rq_key r) m) /\ ~ works (plan st)))
    /\ (works (plan st) -> represents st' (delete (rq_key r) m)
         /\ rs_status resp = match m !! rq_key r with Some _ => RESP_OK | None => RESP_NOT_FOUND end).
Proof.
  intros Hr Hkey. unfold delete_object. set (key := rq_key r) in *.
  destruct (meta_get_spec m key st Hr) as (g & st1 & -> & Ha & _ & Hg).
  apply (represents_asked _ _ _ Ha) in Hr. destruct Ha as [Hp1 _ _ Hs1].
  destruct Hg as [[-> Hin]|[-> Hout]]; cbn [Z.leb Z.compare].
  - destruct (m !! key) as [v|] eqn:Em; [|done]. pose proof (Hr key) as Hk. rewrite Em in Hk. destruct Hk as (_ & _ & Hf).
    destruct (open_rb_spec st1 key v Hf) as (fp0 & st2 & -> & Ha2 & Hfp). cbn [fp dir].
    apply (represents_asked _ _ _ Ha2) in Hr. pose proof (asked_suffix _ _ Ha2) as Hs2. pose proof (asked_place _ _ Ha2) as Hp2.
    destruct Hfp as [-> |[-> Hne]].
    2: { destruct (meta_del_spec key st2 m Hr) as (d & st3 & -> & Hp3 & Hf3 & Hs3 & Hpl3 & Hd).
         assert (~ works (plan st)) as Hne' by (intros Hz; by destruct (head_fails _ Hne (suffix_works _ _ Hs1 Hz))).
         do 2 eexists. split; [done|]. unfold close_file. cbn. split_and!; try congruence; [etrans; [done|]; by etrans|]. intros _. right. right.
         split; [done|]. destruct Hd as [[-> Hd]|[-> Hd]]; [by right|left]. by auto. }
    set (st3 := close_file _ st2). assert (asked st2 st3) as Ha3 by apply close_asked. clearbody st3.
    apply (represents_asked _ _ _ Ha3) in Hr. destruct Ha3 as [Hp3 _ _ Hs3].
    assert (plan st3 `suffix_of` plan st) as Hs03 by (etrans; [done|]; by etrans).
    destruct (meta_del_spec key st3 m Hr) as (d & st4 & -> & Hp4 & Hf4 & Hs4 & Hpl4 & Hd).
    destruct Hd as [[-> Hd]|[-> Hd]]; cbn [Z.ltb Z.compare].
    2: { assert (~ works (plan st)) as Hne by (intros Hz; by specialize (Hpl4 (suffix_works _ _ Hs03 Hz))).
         do 2 eexists. split; [done|]. cbn. split_and!; try congruence; [by etrans|]. intros _; by right; left. }
    assert (file_path st1 = file_path st4) as -> by (unfold file_path; congruence).
    destruct (remove_spec key st4) as (st5 & -> & Hp5 & Hm5 & Hs5 & Hf5).
    assert (represents st5 (delete key m)) as Hr5.
    { apply (represents_other st4 _ _ (path st4 key)); try done. intros k Hk E. apply path_inj in E as ->; [|done..].
      apply lookup_delete_eq. }
    do 2 eexists. split; [done|]. cbn. split_and!; try congruence; [etrans; [done|]; by etrans|intros _; by left|]. by intros _.
  - destruct (remove_spec key st1) as (st4 & -> & Hp4 & Hm4 & Hs4 & Hf4).
    assert (m !! key = None -> represents st4 m) as Hr4.
    { intros Hno. apply (represents_other st1 _ _ (path st1 key)); try done. intros k Hk E. by apply path_inj in E as ->. }
    do 2 eexists. split; [done|]. cbn. split_and!; try congruence; [by etrans| |].
    + intros Hh. right. right. split; [done|]. left. destruct Hout as [Hno|Hf]; [by auto|done].
    + intros Hz. destruct Hout as [Hno|Hh]; [|by destruct (head_fails _ Hh)]. rewrite delete_id, Hno by done. by auto.
Qed.

Section Properties.
Context `{Malloc}.

Lemma small_measured m : small m -> measured m.
Proof. intros Hsm k v Hv. by destruct (Hsm k v Hv). Qed.

Lemma get_cases m r st : represents st m -> measured m ->
  (get_object r new_Response st = Undefined
     /\ exists v, m !! rq_key r = Some v /\ (plan st !! 1%nat = Some Fails \/ malloc (Z.of_nat (length v)) = None))
  \/ exists resp st', get_object r new_Response st = Ok (resp, st') /\ asked st st'
    /\ (rs_status resp = RESP_OK
          /\ (exists v, m !! rq_key r = Some v /\ rs_len resp = Z.of_nat (length v)
                /\ response_data resp = v /\ (v <> [] -> holds (rs_len resp) (rs_buf resp)))
        \/ rs_len resp = 0 /\ rs_buf resp = None
          /\ (rs_status resp = RESP_NOT_FOUND /\ (m !! rq_key r = None \/ ~ works (plan st))
              \/ rs_status resp = RESP_EXCEPTION /\ ~ works (plan st))).
Proof.
  intros Hr Hsm. unfold get_object. set (key := rq_key r).
  destruct (meta_get_spec m key st Hr) as (g & st1 & -> & Ha & H2 & Hg).
  destruct Hg as [[-> Hin]|[-> Hout]]; cbn [Z.leb Z.compare].
  2: { right. do 2 eexists. split; [done|]. split; [done|]. right. cbn. split_and!; try done.
       left. split; [done|]. destruct Hout as [? | ?%head_fails]; auto. }
  destruct (m !! key) as [v|] eqn:Em; [|done]. pose proof (Hsm _ _ Em) as Hv.
  apply (represents_asked _ _ _ Ha) in Hr. pose proof (Hr key) as Hk. rewrite Em in Hk. destruct Hk as (_ & _ & Hf).
  destruct (open_rb_spec st1 key v Hf) as (fp0 & st2 & -> & Ha2 & Hfp).
  destruct Hfp as [-> |[-> Hne]].
  2: { left. split; [done|]. exists v. split; [done|]. left. by apply H2. }
  set (io := {| dir := _; fp := Some (new_FILE (path st1 key)) |}).
  assert (forall st', asked st' (close_file io st')) as Hclose by (intros st'; apply close_asked).
  pose proof (asked_trans _ _ _ Ha Ha2) as Ha3.
  destruct (fileLength_spec io (new_FILE (path st1 key)) st2 v) as (n & st3 & -> & Ha4 & Hn);
    [done|done|by rewrite (asked_files _ _ Ha2)|lia|].
  cbn [mbind result_bind]. change (fp io) with (Some (new_FILE (path st1 key))). pose proof (asked_trans _ _ _ Ha3 Ha4) as Ha5.
  destruct Hn as [-> |[-> Hne]].
  2: { right. do 2 eexists. split; [done|]. split; [by eapply asked_trans|]. right. cbn. split_and!; try done. right. split; [done|].
       intros Hz. by apply Hne, (asked_works _ _ Ha3). }
  rewrite (proj2 (Z.ltb_ge (Z.of_nat (length v)) 0)), size_t_small by lia.
  destruct (malloc (Z.of_nat (length v))) as [b|] eqn:Eb.
  2: { left. split; [done|]. exists v. split; [done|]. by right. }
  apply malloc_room in Eb as [Hb _]. cbn [lift mbind result_bind].
  destruct (readData_spec io (new_FILE (path st1 key)) b (Z.of_nat (length v)) st3 v) as (w & b' & st4 & -> & Hw & Ha6 & Ht & Hl & Hpl);
    [done|done|done|by rewrite (asked_files _ _ Ha4), (asked_files _ _ Ha2)|lia|lia|].
  cbn [mbind result_bind]. pose proof (asked_trans _ _ _ Ha5 (asked_trans _ _ _ Ha6 (Hclose st4))) as Ha7. right.
  eexists _, _. split; [done|]. split; [exact Ha7|]. case_bool.
  - left. split; [done|]. exists v. subst w.
    unfold response_data. cbn [setRespBuf answer setRespLen rs_len rs_buf content holds].
    split_and!; try done; [|intros Hne; destruct v; [done|cbn [length] in *; lia]]. by rewrite Ht, Nat2Z.id, firstn_all.
  - right. cbn. split_and!; try done. right. split; [done|].
    intros Hz. assert (w = Z.of_nat (length v)) by (apply Hpl; by apply (asked_works _ _ Ha5)). congruence.
Qed.

(** With working libraries the storage is a map from keys to objects: a PUT stores
    the object, a GET returns it, a DELETE takes it out, an unknown method changes
    nothing, and the response has the status and the data of the map. The key of a
    PUT must not have a stored sibling with ".tmp" behind it. *)
Lemma store_refines m r st : (forall n, 0 <= n < 2 ^ 31 -> malloc n <> None) ->
  represents st m -> small m -> plan st = [] -> plain (rq_key r) -> holds (rq_len r) (rq_buf r) ->
  (rq_method r = METHOD_PUT -> m !! (rq_key r ++ tmp) = None) ->
  exists resp st', respond r st = Ok (resp, st') /\ wf_response resp /\ plan st' = []
    /\ (rs_status resp, response_data resp) = (spec m r).1 /\ represents st' (spec m r).2.
Proof.
  intros Hmem Hr Hsm Hpl Hkey Hh Htmp. pose proof (works_nil _ Hpl) as Hwk. unfold respond, spec.
  assert (forall resp, rs_len resp = 0 -> rs_buf resp = None -> is_int (rs_status resp) ->
    wf_response resp /\ response_data resp = []) as Hempty.
  { intros resp Hl Hb Hi. split; [split; rewrite ?Hl, ?Hb; done|]. unfold response_data. by rewrite Hl, Hb. }
  case_bool; cbn [handlePut handleGet handleDelete object_storage].
  - specialize (Htmp e). destruct (rq_buf r) as [buf|] eqn:Eb.
    + destruct (put_cases m r st) as [[_ Hn]|(resp & st' & n & -> & Hl & Hb & _ & Hs & Hc)]; try done;
        [by rewrite Eb|by rewrite Eb|by rewrite Hpl in Hn|].
      destruct Hc as [(Hst & Hc & Hw)|(_ & Hn & _)]; [|done]. exists resp, st'.
      destruct (Hempty resp Hl Hb) as [Hwf Hd]; [by rewrite Hst|]. split_and!; try done; [by apply (suffix_plan _ _ Hs)|by rewrite Hst, Hd|].
      destruct Hw as [->|Hf]; [|by destruct (last_fails_works _ _ Hf)]. unfold request_data in Hc. rewrite Eb in Hc. cbn [content] in Hc.
      by rewrite take_take, Nat.min_id in Hc.
    + unfold put_object. rewrite Eb. do 2 eexists. split; [done|]. by destruct (Hempty (setRespStatus (setRespLen new_Response 0) RESP_EXCEPTION)).
  - destruct (get_cases m r st Hr (small_measured _ Hsm)) as [(_ & v & Hv & [Hn|Hn])|(resp & st' & -> & Ha & Hc)]; try done; [by rewrite Hpl in Hn|..].
    { destruct (Hmem (Z.of_nat (length v))); [|done]. specialize (Hsm _ _ Hv). lia. }
    pose proof (represents_asked _ _ _ Ha Hr) as Hr'. pose proof (asked_plan _ _ Ha Hpl) as Hpl'. exists resp, st'.
    destruct Hc as [(Hs & v & Hv & Hl & Hd & Hh')|(Hl & Hb & [[Hs [Hno|Hn]]|[_ Hn]])]; try done.
    + rewrite Hv, Hs, Hd. split_and!; try done. specialize (Hsm _ _ Hv). split; [by rewrite Hs|apply Hh'; intros ->; cbn in Hsm; lia|lia].
    + destruct (Hempty resp Hl Hb) as [Hw Hd]; [by rewrite Hs|]. by rewrite Hno, Hs, Hd.
  - destruct (delete_cases m r st Hr Hkey) as (resp & st' & -> & Hl & Hb & _ & Hsu & _ & Hz). destruct (Hz Hwk) as (Hr' & Hs).
    exists resp, st'. destruct (Hempty resp Hl Hb) as [Hw Hd]; [rewrite Hs; by destruct (m !! rq_key r)|].
    pose proof (suffix_plan _ _ Hsu Hpl) as Hpl'.
    rewrite Hs, Hd. destruct (m !! rq_key r) eqn:Em; [done|]. by rewrite delete_id in Hr' by done.
  - do 2 eexists. split; [done|]. by destruct (Hempty (setRespLen (setRespStatus new_Response RESP_INVALID) 0)).
Qed.

(** A request changes the map at its key. *)
Lemma spec_frame m r k : k <> rq_key r -> (spec m r).2 !! k = m !! k.
Proof.
  intros Hk. unfold spec. repeat case_bool; try (destruct (rq_buf r)); try destruct (m !! rq_key r); cbn;
    first [done|by apply lookup_insert_ne|by apply lookup_delete_ne].
Qed.

(** C15: Whichever calls fail: a PUT either stores its object or leaves every object as it
    was, and says which of the two, with three exceptions. When the file cannot be opened the
    handler is undefined. When the last call, [fclose], fails, a PUT that was answered OK has
    stored the beginning of the object only. When the first call, the lookup in the
    metadata, fails for a stored object, its file is overwritten in place, so that a PUT
    that was answered EXCEPTION can leave a beginning of the new object. *)
Theorem put_atomic m r st : represents st m -> plain (rq_key r) -> holds (rq_len r) (rq_buf r) ->
  m !! (rq_key r ++ tmp) = None ->
  match handlePut r new_Response st with
  | Ok (resp, st') =>
    (rs_status resp = RESP_OK /\ exists n, represents st' (<[rq_key r := take n (request_data r)]> m)
       /\ whole_or_fails n (rq_len r) st st')
    \/ (rs_status resp = RESP_EXCEPTION /\ represents st' m)
    \/ (rs_status resp = RESP_EXCEPTION /\ head (plan st) = Some Fails
        /\ exists n, represents st' (<[rq_key r := take n (request_data r)]> m))
  | _ => plan st !! 1%nat = Some Fails
  end.
Proof.
  intros Hr Hkey Hh Htmp. cbn [handlePut object_storage].
  destruct (rq_buf r) as [buf|] eqn:Eb.
  - destruct (put_cases m r st) as [[-> Hn]|(resp & st' & n & -> & _ & _ & _ & _ & Hc)]; try done; [by rewrite Eb|by rewrite Eb|].
    destruct Hc as [(Hs & Hc & Hw)|(Hs & _ & [Hc|[Hf Hc]])]; [left|by right; left|right; right]; by eauto.
  - unfold put_object. rewrite Eb. by right; left.
Qed.

(** Whichever calls fail, a GET that answers changes nothing, and when it answers
    OK the data is the object. *)
Theorem get_truthful m r st resp st' : represents st m -> measured m ->
  handleGet r new_Response st = Ok (resp, st') ->
  represents st' m /\ (rs_status resp = RESP_OK -> m !! rq_key r = Some (response_data resp)).
Proof.
  intros Hr Hsm Hget. cbn [handleGet object_storage] in Hget.
  destruct (get_cases m r st Hr Hsm) as [[Hn _]|(resp' & st1 & Hok & Ha & Hc)]; [by rewrite Hget in Hn|].
  rewrite Hok in Hget. simplify_eq. split; [by eapply represents_asked|].
  destruct Hc as [(_ & v & Hv & _ & Hd & _)|(_ & _ & [[Hs _]|[Hs _]])]; [by rewrite Hv, Hd|by rewrite Hs..].
Qed.

(** A key in the metadata whose file is missing: GET asks for the length of a file
    that is not open. *)
Lemma get_missing r st : meta st !! rq_key r <> None -> files st !! path st (rq_key r) = None ->
  plan st = [] -> handleGet r new_Response st = Undefined.
Proof.
  intros Hm Hf Hp. cbn [handleGet object_storage]. unfold get_object, meta_get, open_file, fopen, ask.
  rewrite Hp. destruct (meta st !! rq_key r); [|done]. cbn [Z.leb Z.compare].
  rewrite Hp. fold (path st (rq_key r)). by rewrite Hf.
Qed.

(** Storing an object again destroys the object whose key is the same with ".tmp"
    behind it: the PUT answers OK, and a GET of the other key then makes the server use
    a file that is not open. *)
Theorem tmp_key_lost m r st : represents st m -> plan st = [] -> holds (rq_len r) (rq_buf r) ->
  rq_buf r <> None -> m !! rq_key r <> None -> m !! (rq_key r ++ tmp) <> None ->
  exists resp st', handlePut r new_Response st = Ok (resp, st') /\ rs_status resp = RESP_OK
    /\ forall r', rq_key r' = rq_key r ++ tmp -> handleGet r' new_Response st' = Undefined.
Proof.
  intros Hr Hpl Hh Hb Hk Ht. cbn [handlePut object_storage]. unfold put_object.
  destruct (rq_buf r) as [buf|]; [|done]. cbn [holds] in Hh.
  unfold meta_get, ask. rewrite Hpl. pose proof (Hr (rq_key r)) as Hrk. pose proof (Hr (rq_key r ++ tmp)) as Hrt.
  destruct (m !! rq_key r) as [v|]; [|done]. destruct (m !! (rq_key r ++ tmp)) as [w|]; [|done].
  destruct Hrk as (Hk1 & [u Hu] & _), Hrt as (Hk2 & [u' Hu'] & _). rewrite Hu. cbn [Z.ltb Z.compare].
  assert (path st (rq_key r) <> path st (rq_key r ++ tmp)) as Hpath
    by (intros E; apply path_inj in E; [|done..]; by apply (tmp_longer (rq_key r))).
  destruct (put_existing_spec (rq_key r) buf (rq_len r) (setRespLen new_Response 0) st)
    as [[_ Hn]|(resp & st' & n & -> & _ & _ & Hp & Hs & Hm & Hc)]; [done|done|by rewrite Hpl in Hn|].
  exists resp, st'. destruct Hc as [(Hst & _ & _ & Hf)|(_ & Hn & _)]; [|by destruct Hn; apply works_nil].
  split_and!; try done. intros r' Hr'. apply get_missing; [by rewrite Hr', Hm, Hu'| |by apply (suffix_plan _ _ Hs)].
  rewrite Hr', (path_place st st' _ Hp), Hf, lookup_insert_ne by done. apply lookup_delete_eq.
Qed.

(** C40: Keys with slashes or dots can name the file of another key, such as "/k" and "k". A
    DELETE of such a key, which is not stored, answers NOT_FOUND and removes the file of the
    stored object, so that every GET of that object uses a file that is not open. *)
Theorem alias_key_lost m r st : represents st m -> plan st = [] -> rq_method r = METHOD_DELETE -> m !! rq_key r = None ->
  exists resp st', respond r st = Ok (resp, st') /\ rs_status resp = RESP_NOT_FOUND /\ meta st' = meta st
    /\ forall r', m !! rq_key r' <> None -> path st (rq_key r') = path st (rq_key r) -> handleGet r' new_Response st' = Undefined.
Proof.
  intros Hr Hpl Hm Hno. unfold respond. rewrite Hm. cbn [handleDelete object_storage]. unfold delete_object, meta_get, ask. rewrite Hpl.
  pose proof (Hr (rq_key r)) as Hk. rewrite Hno in Hk. rewrite Hk. cbn.
  do 2 eexists. split; [reflexivity|]. unfold remove, ask. rewrite Hpl. split_and!; [done..|].
  intros r' Hin Hpath. specialize (Hr (rq_key r')). destruct (m !! rq_key r') as [v|]; [|done]. destruct Hr as (_ & [u Hu] & _).
  apply get_missing; [cbn; by rewrite Hu| |done]. rewrite (path_place st) by done. rewrite Hpath. apply lookup_delete_eq.
Qed.

(** Four failures the server does not survive or hides. A PUT or a GET whose file
    cannot be opened uses a file that is not open. When the lookup in the metadata
    fails for a stored key, a PUT that then fails has emptied the object, and a DELETE
    that answers NOT_FOUND has removed the file of the object but not its key, so that
    the next GET uses a file that is not open. *)
Theorem faults_hurt m r st : represents st m -> m !! rq_key r <> None ->
  (forall p, plan st = Works :: Fails :: p -> rq_buf r <> None -> handlePut r new_Response st = Undefined)
  /\ (forall p, plan st = Works :: Fails :: p -> handleGet r new_Response st = Undefined)
  /\ (plan st = [Fails; Works; Works; Fails] -> holds (rq_len r) (rq_buf r) -> rq_buf r <> None ->
      exists resp st', handlePut r new_Response st = Ok (resp, st') /\ rs_status resp = RESP_EXCEPTION
        /\ meta st' = meta st /\ files st' !! path st (rq_key r) = Some [])
  /\ (plan st = [Fails] -> exists resp st', handleDelete r new_Response st = Ok (resp, st')
        /\ rs_status resp = RESP_NOT_FOUND /\ handleGet r new_Response st' = Undefined).
Proof.
  intros Hr Hk. specialize (Hr (rq_key r)). destruct (m !! rq_key r) as [v|]; [|done]. destruct Hr as (_ & [u Hu] & Hf).
  cbn [handlePut handleDelete object_storage]. split_and!.
  - intros p Hp Hb. unfold put_object. destruct (rq_buf r); [|done]. unfold meta_get, ask. rewrite Hp. cbn [meta].
    rewrite Hu. done.
  - intros p Hp. cbn [handleGet object_storage]. unfold get_object, meta_get, ask. rewrite Hp. cbn [meta]. by rewrite Hu.
  - intros Hp Hh Hb. unfold put_object. destruct (rq_buf r) as [buf|]; [|done]. cbn [holds] in Hh.
    unfold meta_get, ask. rewrite Hp. cbn [Z.ltb Z.compare]. unfold put_new, open_file, fopen, ask.
    cbn [plan place files with_files]. unfold writeData, fseek, ask.
    cbn [plan fp lift mbind result_bind with_files place files meta new_FILE pending length flush take].
    destruct (Z.to_nat (rq_len r)) as [|n] eqn:En; [lia|]. cbn [write_loop].
    rewrite (proj2 (Z.ltb_lt 0 (rq_len r))) by lia. unfold peek, MAX_CHUNK. case_bool; cbn [andb]; try lia.
    cbn [mbind result_bind]. unfold fwrite, ask.
    cbn [plan name files place meta pos transferred with_files take pending app].
    rewrite !take_0. cbn [length Nat.ltb Nat.leb mbind result_bind]. rewrite (proj2 (Z.ltb_lt 0 (rq_len r))), Z.sub_diag by lia.
    cbn [Z.ltb Z.compare orb]. rewrite (proj2 (Z.eqb_neq 0 (rq_len r))) by lia. cbn [negb].
    do 2 eexists. split; [reflexivity|]. unfold close_file, fclose, flush, ask. cbn. split_and!; try done. unfold path, file_path. by rewrite lookup_insert_eq.
  - intros Hp. unfold delete_object, meta_get, ask. rewrite Hp. cbn [Z.leb Z.compare].
    do 2 eexists. split; [done|]. split; [done|]. apply get_missing; unfold remove, ask; cbn [plan place with_files meta files];
      [by rewrite Hu|by apply lookup_delete_eq|done].
Qed.

End Properties.

(** ** Instances *)

Lemma glibc_enough n : 0 <= n < 2 ^ 31 -> malloc n <> None.
Proof. intros Hn. cbn [malloc glibc_malloc]. by case_bool; cbn [andb]; try lia. Qed.

(** The parts of a path, without "." and empty parts, and the path that they make. *)
Fixpoint parts (cur p : list Z) : list (list Z) :=
  let keep := if bool_decide (cur = [] \/ cur = [46]) then [] else [cur] in
  match p with
  | [] => keep
  | c :: p => if c =? 47 then keep ++ parts [] p else parts (cur ++ [c]) p
  end.

Definition posix_resolve (p : list Z) : list Z := concat (cons 47 <$> parts [] p).

Lemma parts_app p q : forall cur, parts cur (p ++ 47 :: q) = parts cur p ++ parts [] q.
Proof.
  induction p as [|c p IH]; intros cur; cbn [app parts]; [done|]. destruct (c =? 47); [|apply IH]. by rewrite IH, (assoc_L (++)).
Qed.

Lemma parts_name k : forall cur, 47 ∉ k -> parts cur k = if bool_decide (cur ++ k = [] \/ cur ++ k = [46]) then [] else [cur ++ k].
Proof.
  induction k as [|c k IH]; intros cur Hk; cbn [parts]; [by rewrite app_nil_r|]. apply not_elem_of_cons in Hk as [Hc Hk].
  rewrite (proj2 (Z.eqb_neq c 47)), IH by done. by rewrite <- (assoc_L (++)).
Qed.

Lemma posix_resolve_plain d k : plain k -> posix_resolve (d ++ [47] ++ k) = posix_resolve d ++ 47 :: k.
Proof.
  intros (Hk & _ & H47 & Hd & _). unfold posix_resolve. cbn [app]. rewrite parts_app, fmap_app, concat_app, (parts_name k) by done. cbn [app].
  rewrite bool_decide_eq_false_2 by tauto. cbn. by rewrite app_nil_r.
Qed.

(** The directory "/s", and a buffer of 4096 characters. *)
Program Definition posix_directory : directory :=
  {| dir_path := [47; 115]; resolve := posix_resolve; buffer_size := 4096 |}.
Next Obligation.
  intros k k' Hk Hk' E. rewrite !posix_resolve_plain in E by done. apply app_inv_head in E. by injection E.
Qed.

(** The storage with the objects of a map. *)
Definition store_of (m : gmap (list Z) (list Z)) (p : list outcome) : storage :=
  {| place := posix_directory; files := kmap (app [47; 115; 47]) m; meta := (fun _ => [48]) <$> m; plan := p |}.

Definition all_plain (m : gmap (list Z) (list Z)) : Prop := forall k, is_Some (m !! k) -> plain k.

Lemma store_of_represents m p : all_plain m -> represents (store_of m p) m.
Proof.
  intros Hm k. cbn [store_of files meta]. rewrite lookup_fmap.
  destruct (m !! k) as [v|] eqn:E; [|done]. assert (plain k) as Hk by (apply Hm; by rewrite E). split_and!; [done|by eexists|].
  unfold path, file_path. cbn [store_of place posix_directory dir_path resolve]. rewrite posix_resolve_plain by done.
  change (posix_resolve [47; 115] ++ 47 :: k) with ([47; 115; 47] ++ k). by rewrite (lookup_kmap (app [47; 115; 47])).
Qed.

Definition key_k : list Z := [107].

Lemma plain_k : plain key_k.
Proof. by apply (bool_decide_eq_true_1 (plain key_k)). Qed.

(** "k" and "k.tmp" *)
Definition two_objects : gmap (list Z) (list Z) := {[ key_k := [1; 2]; key_k ++ tmp := [3] ]}.
Definition one_object : gmap (list Z) (list Z) := {[ key_k := [1; 2] ]}.

Lemma one_object_plain : all_plain one_object.
Proof. unfold one_object. intros k [v [<- _]%lookup_singleton_Some]. apply plain_k. Qed.

Lemma two_objects_plain : all_plain two_objects.
Proof.
  unfold two_objects. intros k [v [[<- _]|[_ [<- _]%lookup_singleton_Some]]%lookup_insert_Some]; [apply plain_k|apply plain_tmp, plain_k].
Qed.

Definition put_k : Request := {| rq_len := 2; rq_method := METHOD_PUT; rq_key := key_k; rq_buf := Some [5; 6] |}.
Definition get_k : Request := {| rq_len := 0; rq_method := METHOD_GET; rq_key := key_k; rq_buf := None |}.

(** DELETE "/k" *)
Definition delete_slash_k : Request := {| rq_len := 0; rq_method := METHOD_DELETE; rq_key := 47 :: key_k; rq_buf := None |}.

Lemma one_object_small : small one_object.
Proof. unfold one_object. intros k v [<- <-]%lookup_singleton_Some. cbn. lia. Qed.

(** The writing of a new value stops after one character: nothing has changed. *)
Definition half_written : storage := store_of one_object [Works; Works; Works; Short 1; Fails].

Lemma put_atomic_witness : exists resp st', handlePut put_k new_Response half_written = Ok (resp, st')
  /\ rs_status resp = RESP_EXCEPTION /\ represents st' one_object.
Proof.
  pose proof (put_atomic one_object put_k half_written (store_of_represents one_object _ one_object_plain) plain_k
    ltac:(cbn; lia) ltac:(vm_compute; reflexivity)) as Hp.
  destruct (handlePut put_k new_Response half_written) as [[resp st']| |] eqn:E; [|vm_compute in E; discriminate E..].
  exists resp, st'. split; [done|]. assert (rs_status resp = RESP_EXCEPTION) as Hs by (vm_compute in E; by injection E as <- _).
  split; [done|]. destruct Hp as [(Hok & _)|[(_ & Hr)|(_ & Hf & _)]]; [by rewrite Hs in Hok|done|done].
Defined.

(** The buffer cannot be written when the file is closed: the PUT is answered OK, and the
    object, the old one too, is lost. *)
Example put_ok_loses : exists resp st',
  handlePut put_k new_Response (store_of one_object (replicate 5 Works ++ [Fails])) = Ok (resp, st')
  /\ rs_status resp = RESP_OK /\ files st' !! path st' key_k = Some [].
Proof. do 2 eexists. split; [vm_compute; reflexivity|]. split; vm_compute; reflexivity. Qed.

Lemma get_truthful_witness : exists resp st', handleGet get_k new_Response (store_of one_object []) = Ok (resp, st')
  /\ represents st' one_object /\ (rs_status resp = RESP_OK -> one_object !! key_k = Some (response_data resp)).
Proof.
  do 2 eexists. split; [vm_compute; reflexivity|].
  apply (get_truthful one_object get_k (store_of one_object [])); [apply store_of_represents, one_object_plain|apply small_measured, one_object_small|].
  vm_compute. reflexivity.
Defined.

Lemma tmp_key_lost_witness : exists resp st', handlePut put_k new_Response (store_of two_objects []) = Ok (resp, st')
  /\ rs_status resp = RESP_OK
  /\ forall r', rq_key r' = key_k ++ tmp -> handleGet r' new_Response st' = Undefined.
Proof.
  apply (tmp_key_lost two_objects put_k (store_of two_objects []));
    [apply store_of_represents, two_objects_plain|reflexivity|cbn; lia|discriminate|vm_compute; discriminate..].
Defined.

(** "/k" and "k" in a POSIX directory *)
Lemma alias_key_lost_witness : exists resp st', respond delete_slash_k (store_of one_object []) = Ok (resp, st')
  /\ rs_status resp = RESP_NOT_FOUND /\ handleGet get_k new_Response st' = Undefined.
Proof.
  destruct (alias_key_lost one_object delete_slash_k (store_of one_object [])) as (resp & st' & E & Hs & _ & Hg);
    [apply store_of_represents, one_object_plain|reflexivity..|]. exists resp, st'. split; [done|]. split; [done|].
  apply Hg; vm_compute; [discriminate|reflexivity].
Defined.

Lemma faults_hurt_witness : handleGet get_k new_Response (store_of one_object [Works; Fails]) = Undefined.
Proof.
  apply (faults_hurt one_object get_k (store_of one_object [Works; Fails])) with (p := []);
    [apply store_of_represents, one_object_plain|vm_compute; discriminate|reflexivity].
Defined.
