(* ===== verification/ObjShared.v ===== *)
(** Requests that the workers of the object server handle at the same time
    (src/cpp-object-storage-demo/server.cpp and server.h): the handlers as programs of
    library calls, the mutexes of the keys, and the steps of the threads, which
    interleave between any two calls. A [FILE] has the name of its file: only the handler
    that has the lock of a key renames the files of the key, and its [FILE] follows.

    A program run alone is the handler of [ObjStore] ([run_handle] below), so a handler
    is here the same code cut into its library calls. *)

From S2P Require Import Prelude Result ChatWire ObjWire ObjConn ObjStore.
#[local] Open Scope Z_scope.

(** ** Programs *)

(** A program ends, or calls the library and goes on with the result. *)
Inductive program (A : Type) : Type :=
| Done (r : result A)
| Call (X : Type) (f : storage -> X * storage) (k : X -> program A).
Arguments Done {A} r.
Arguments Call {A X} f k.

Fixpoint run {A} (p : program A) (st : storage) : result (A * storage) :=
  match p with
  | Done r => a ← r; Ok (a, st)
  | Call f k => let '(x, st) := f st in run (k x) st
  end.

#[export] Instance program_ret : MRet program := fun A a => Done (Ok a).
#[export] Instance program_bind : MBind program := fun A B f =>
  fix bind p :=
    match p with
    | Done (Ok a) => f a
    | Done (Fatal m) => Done (Fatal m)
    | Done Undefined => Done Undefined
    | Call g k => Call g (fun x => bind (k x))
    end.

Definition call {X} (f : storage -> X * storage) : program X := Call f mret.

Lemma run_bind {A B} (p : program A) (f : A -> program B) st :
  run (p ≫= f) st = ('(a, st) ← run p st; run (f a) st).
Proof.
  revert st. induction p as [[a| |]|X g k IH]; intros st; try done. cbn. destruct (g st) as [x st']. apply IH.
Qed.

(** ** The calls of file.cpp *)

Fixpoint write_calls (fuel : nat) (f : FILE) (buf : list Z) (off count : Z) : program (Z * FILE) :=
  match fuel with
  | O => mret (count, f)
  | S fuel =>
    if 0 <? count then
      let c := Z.min MAX_CHUNK count in
      l ← Done (peek buf off c);
      '(len, f) ← call (fwrite f l);
      if (len =? 0)%nat then mret (count, f)
      else write_calls fuel f buf (off + Z.of_nat len) (count - Z.of_nat len)
    else mret (count, f)
  end.

Definition writeData_calls (io : FileIO) (buf : list Z) (size : Z) : program (Z * FileIO) :=
  f ← Done (lift (fp io));
  '(_, f) ← call (fseek f 0);
  '(count, f) ← write_calls (Z.to_nat size) f buf 0 size;
  mret (if 0 <? count then size - count else size, {| dir := dir io; fp := Some f |}).

Fixpoint read_calls (fuel : nat) (f : FILE) (buf : list Z) (off count : Z) : program (Z * list Z) :=
  match fuel with
  | O => mret (count, buf)
  | S fuel =>
    if 0 <? count then
      let c := Z.min MAX_CHUNK count in
      '(l, f) ← call (fread f (Z.to_nat c));
      if (length l =? 0)%nat then mret (count, buf)
      else
        buf ← Done (poke buf off l);
        read_calls fuel f buf (off + Z.of_nat (length l)) (count - Z.of_nat (length l))
    else mret (count, buf)
  end.

Definition readData_calls (io : FileIO) (buf : list Z) (size : Z) : program (Z * list Z) :=
  f ← Done (lift (fp io));
  '(_, f) ← call (fseek f 0);
  '(count, buf) ← read_calls (Z.to_nat size) f buf 0 size;
  mret (if 0 <? count then size - count else size, buf).

Definition fileLength_calls (io : FileIO) : program Z :=
  f ← Done (lift (fp io));
  '(r, f) ← call (fun st => fseek f (length (contents f st)) st);
  if r <? 0 then mret (-1) else
  let size := int (Z.of_nat (pos f)) in
  if size <? 0 then mret (-1) else
  '(r, _) ← call (fseek f 0);
  mret (if r <? 0 then -1 else size).

(** ** The calls of the handlers *)

Definition open_call (key : list Z) (m : mode) : program FileIO :=
  call (fun st => open_file (file_path st) key m st).

(** The destructor of [FileIO], which every handler comes to before its [unlock]. *)
Definition close_call (io : FileIO) : program () :=
  match fp io with Some f => call (fun st => (tt, fclose f st)) | None => mret tt end.

Definition put_new_calls (key buf : list Z) (len : Z) (r : Response) : program Response :=
  target ← open_call key wb_plus;
  '(w, target) ← writeData_calls target buf len;
  r ← (if (w <? 0) || negb (w =? len) then mret (setRespStatus r RESP_EXCEPTION)
       else p ← call (meta_put key); mret (setRespStatus r (if p <? 0 then RESP_EXCEPTION else RESP_OK)));
  _ ← close_call target;
  mret r.

Definition put_existing_calls (key buf : list Z) (len : Z) (r : Response) : program Response :=
  target ← open_call (key ++ tmp) wb_plus;
  '(w, target) ← writeData_calls target buf len;
  '(r, target) ← (if (w <? 0) || negb (w =? len) then mret (setRespStatus r RESP_EXCEPTION, target)
       else
         '(n, target) ← call (fun st => renameFile target (file_path st ++ [47] ++ key) st);
         mret (setRespStatus r (if n <? 0 then RESP_EXCEPTION else RESP_OK), target));
  _ ← close_call target;
  mret r.

Definition put_calls (request : Request) (r : Response) : program Response :=
  let key := rq_key request in
  let len := rq_len request in
  let r := setRespLen r 0 in
  match rq_buf request with
  | None => mret (setRespStatus r RESP_EXCEPTION)
  | Some buf =>
    g ← call (meta_get key);
    if g <? 0 then put_new_calls key buf len r else put_existing_calls key buf len r
  end.

Definition delete_calls (request : Request) (r : Response) : program Response :=
  let key := rq_key request in
  let r := setRespLen r 0 in
  g ← call (meta_get key);
  if 0 <=? g then
    io ← open_call key rb;
    match fp io with
    | None => _ ← call (meta_del key); _ ← close_call io; mret (setRespStatus r RESP_NOT_FOUND)
    | Some _ =>
      _ ← close_call io;
      d ← call (meta_del key);
      if d <? 0 then mret (setRespStatus r RESP_EXCEPTION)
      else _ ← call (fun st => (tt, remove (dir io) st)); mret (setRespStatus r RESP_OK)
    end
  else
    _ ← call (fun st => (tt, remove (file_path st ++ [47] ++ key) st));
    mret (setRespStatus r RESP_NOT_FOUND).

Section Calls.
Context `{Malloc}.

Definition get_calls (request : Request) (r : Response) : program Response :=
  let key := rq_key request in
  g ← call (meta_get key);
  if 0 <=? g then
    io ← open_call key rb;
    len ← fileLength_calls io;
    match fp io with
    | None => _ ← close_call io; mret (answer r RESP_NOT_FOUND 0)
    | Some _ =>
      if len <? 0 then _ ← close_call io; mret (answer r RESP_EXCEPTION 0)
      else
        buf ← Done (lift (malloc (size_t len)));
        '(n, buf) ← readData_calls io buf len;
        _ ← close_call io;
        mret (if len =? n then setRespBuf (answer r RESP_OK len) (Some buf) else answer r RESP_EXCEPTION 0)
    end
  else mret (answer r RESP_NOT_FOUND 0).

(** The switch of [Server::handle]. *)
Definition respond_calls (r : Request) : program Response :=
  let resp := new_Response in
  if rq_method r =? METHOD_PUT then put_calls r resp
  else if rq_method r =? METHOD_GET then get_calls r resp
  else if rq_method r =? METHOD_DELETE then delete_calls r resp
  else mret (setRespLen (setRespStatus resp RESP_INVALID) 0).

End Calls.

(** ** The mutexes of the keys *)

(** The owners of a [std::shared_mutex]. *)
Record mutex := { writer : option nat; readers : gset nat }.

Definition new_mutex : mutex := {| writer := None; readers := ∅ |}.

Inductive lock_mode := Exclusive | Shared.

(** [lock] and [lock_shared]; [None] while the caller has to wait. *)
Definition acquire (l : lock_mode) (i : nat) (m : mutex) : option mutex :=
  match writer m, l with
  | Some _, _ => None
  | None, Exclusive => if decide (readers m = ∅) then Some {| writer := Some i; readers := ∅ |} else None
  | None, Shared => Some {| writer := None; readers := {[ i ]} ∪ readers m |}
  end.

Section Locks.
(** Whether [unlock] releases a lock that the caller holds shared: the C++ standard
    leaves this undefined, [pthread_rwlock_unlock] below it does. *)
Context (unlock_shared : bool).

Definition unlock (i : nat) (m : mutex) : result mutex :=
  if decide (writer m = Some i) then Ok {| writer := None; readers := readers m |}
  else if decide (i ∈ readers m) then
    if unlock_shared then Ok {| writer := writer m; readers := readers m ∖ {[ i ]} |} else Undefined
  else Undefined.

Definition MUTEX_COUNT : Z := 16.

(** [std::hash<std::string>] *)
Context (hasher : list Z -> Z).

Definition hash (key : list Z) : Z := Z.land (hasher key) (Z.ones 31).
Definition bucket (key : list Z) : nat := Z.to_nat (hash key mod MUTEX_COUNT).

(** The lock that the handler of a request takes. *)
Definition locking (r : Request) : option lock_mode :=
  if rq_method r =? METHOD_PUT then Some Exclusive
  else if rq_method r =? METHOD_GET then Some Shared
  else if rq_method r =? METHOD_DELETE then Some Exclusive
  else None.

(** ** The threads *)

Inductive control :=
| Waiting                          (* at [m.lock()] or [m.lock_shared()] *)
| Running (p : program Response)   (* with the lock; [Done] at [m.unlock()] *)
| Answered (resp : Response).

(** [log] records the requests in the order in which they were answered. *)
Record shared_server := {
  store : storage;
  mutexes : list mutex;
  threads : list (Request * control);
  log : list nat
}.

Definition start (st : storage) (rs : list Request) : shared_server :=
  {| store := st; mutexes := replicate (Z.to_nat MUTEX_COUNT) new_mutex;
     threads := (fun r => (r, Waiting)) <$> rs; log := [] |}.

Definition with_thread (s : shared_server) (i : nat) (t : Request * control) : shared_server :=
  {| store := store s; mutexes := mutexes s; threads := <[i := t]> (threads s); log := log s |}.
Definition with_store (s : shared_server) (st : storage) : shared_server :=
  {| store := st; mutexes := mutexes s; threads := threads s; log := log s |}.
Definition with_mutex (s : shared_server) (b : nat) (m : mutex) : shared_server :=
  {| store := store s; mutexes := <[b := m]> (mutexes s); threads := threads s; log := log s |}.
Definition with_log (s : shared_server) (l : list nat) : shared_server :=
  {| store := store s; mutexes := mutexes s; threads := threads s; log := l |}.

Context `{Malloc}.

(** Thread [i] goes to its first call, if it needs no lock or gets it. *)
Definition enter (s : shared_server) (i : nat) (r : Request) : result shared_server :=
  match locking r with
  | None => Ok (with_thread s i (r, Running (respond_calls r)))
  | Some l =>
    m ← lift (mutexes s !! bucket (rq_key r));
    Ok match acquire l i m with
       | None => s
       | Some m => with_thread (with_mutex s (bucket (rq_key r)) m) i (r, Running (respond_calls r))
       end
  end.

Definition leave (s : shared_server) (i : nat) (r : Request) (resp : Response) : result shared_server :=
  s ← match locking r with
      | None => Ok s
      | Some _ =>
        m ← lift (mutexes s !! bucket (rq_key r));
        m ← unlock i m;
        Ok (with_mutex s (bucket (rq_key r)) m)
      end;
  Ok (with_log (with_thread s i (r, Answered resp)) (log s ++ [i])).

Definition thread_step (s : shared_server) (i : nat) : result shared_server :=
  match threads s !! i with
  | Some (r, Waiting) => enter s i r
  | Some (r, Running (Call f k)) =>
    let '(x, st) := f (store s) in Ok (with_thread (with_store s st) i (r, Running (k x)))
  | Some (r, Running (Done res)) => resp ← res; leave s i r resp
  | Some (_, Answered _) | None => Ok s
  end.

(** The scheduler names the thread of each step. *)
Fixpoint thread_steps (s : shared_server) (l : list nat) : result shared_server :=
  match l with [] => Ok s | i :: l => s ← thread_step s i; thread_steps s l end.

(** ** Library calls that fail

    Each thread has the outcomes of its own calls; the plan of the storage is that of the
    thread that runs. *)
Definition with_plan (st : storage) (p : list outcome) : storage :=
  {| place := place st; files := files st; meta := meta st; plan := p |}.

Definition fault_step (s : shared_server * list (list outcome)) (i : nat) : result (shared_server * list (list outcome)) :=
  s' ← thread_step (with_store s.1 (with_plan (store s.1) (default [] (s.2 !! i)))) i;
  Ok (s', <[i := plan (store s')]> s.2).

Fixpoint fault_steps (s : shared_server * list (list outcome)) (l : list nat) : result (shared_server * list (list outcome)) :=
  match l with [] => Ok s | i :: l => s ← fault_step s i; fault_steps s l end.

(** The handlers one after the other, each with the outcomes of its calls. *)
Fixpoint serial (st : storage) (l : list (Request * list outcome)) : result (list Response * storage) :=
  match l with
  | [] => Ok ([], st)
  | (r, p) :: l => '(resp, st) ← respond r (with_plan st p); '(resps, st) ← serial st l; Ok (resp :: resps, st)
  end.

End Locks.
