(* ===== verification/ObjLocal.v ===== *)
(** What the program of a request reads and changes: run alone it is the handler of
    [ObjStore], and whatever fails, it sees and touches only what belongs to its key. *)

From S2P Require Import Prelude Result ChatWire ObjWire ObjWireProps ObjConn ObjStore ObjStoreProps ObjShared.
#[local] Open Scope Z_scope.

(** ** A program run alone is the handler *)

Ltac run_call := rewrite run_bind; cbn [run call mret program_ret mbind result_bind].

Lemma run_if {A} (b : bool) (p q : program A) st : run (if b then p else q) st = if b then run p st else run q st.
Proof. by destruct b. Qed.

Lemma run_pure {A} (r : result A) st : run (Done r) st = (a ← r; Ok (a, st)).
Proof. done. Qed.

Lemma run_write_calls fuel f buf off count st :
  run (write_calls fuel f buf off count) st = write_loop fuel f buf off count st.
Proof.
  revert f off count st. induction fuel as [|fuel IH]; intros f off count st; cbn [write_calls write_loop]; [done|].
  rewrite run_if. destruct (0 <? count); [|done]. run_call. destruct (peek _ _ _) as [l| |]; [|done..].
  cbn [mbind result_bind]. run_call. destruct (fwrite f l st) as [[len f'] st']. cbn [mbind result_bind].
  rewrite run_if, IH. by destruct len.
Qed.

Lemma run_writeData io buf size st : run (writeData_calls io buf size) st = writeData io buf size st.
Proof.
  unfold writeData_calls, writeData. run_call. destruct (lift (fp io)) as [f| |]; [|done..]. cbn [mbind result_bind].
  run_call. destruct (fseek f 0 st) as [[r f'] st']. cbn [mbind result_bind]. rewrite run_bind, run_write_calls.
  by destruct (write_loop _ _ _ _ _ _) as [[[count f''] st'']| |].
Qed.

Lemma run_read_calls fuel f buf off count st :
  run (read_calls fuel f buf off count) st = read_loop fuel f buf off count st.
Proof.
  revert f buf off count st. induction fuel as [|fuel IH]; intros f buf off count st; cbn [read_calls read_loop]; [done|].
  rewrite run_if. destruct (0 <? count); [|done]. run_call. destruct (fread f _ st) as [[l f'] st'].
  cbn [mbind result_bind]. rewrite run_if. destruct l as [|x l]; [done|]. cbn [length Nat.eqb]. run_call.
  destruct (poke _ _ _) as [b| |]; [|done..]. apply IH.
Qed.

Lemma run_readData io buf size st : run (readData_calls io buf size) st = readData io buf size st.
Proof.
  unfold readData_calls, readData. run_call. destruct (lift (fp io)) as [f| |]; [|done..]. cbn [mbind result_bind].
  run_call. destruct (fseek f 0 st) as [[r f'] st']. cbn [mbind result_bind]. rewrite run_bind, run_read_calls.
  by destruct (read_loop _ _ _ _ _ _) as [[[count b] st'']| |].
Qed.

Lemma run_fileLength io st : run (fileLength_calls io) st = fileLength io st.
Proof.
  unfold fileLength_calls, fileLength. run_call. destruct (lift (fp io)) as [f| |]; [|done..]. cbn [mbind result_bind].
  run_call. destruct (fseek f _ st) as [[r f'] st']. cbn [mbind result_bind]. rewrite !run_if.
  destruct (r <? 0); [done|]. destruct (int _ <? 0); [done|]. run_call.
  destruct (fseek f' 0 st') as [[r2 f2] st2]. cbn. by destruct (r2 <? 0).
Qed.

Lemma run_open key m st : run (open_call key m) st = Ok (open_file (file_path st) key m st).
Proof. unfold open_call. cbn. by destruct (open_file _ _ _ _). Qed.

Lemma run_close io st : run (close_call io) st = Ok (tt, close_file io st).
Proof. unfold close_call, close_file. by destruct (fp io). Qed.

Lemma run_put r resp st : run (put_calls r resp) st = put_object r resp st.
Proof.
  unfold put_calls, put_object. destruct (rq_buf r) as [buf|]; [|done]. run_call.
  destruct (meta_get _ st) as [g st1]. cbn [mbind result_bind]. rewrite run_if. destruct (g <? 0).
  - unfold put_new_calls, put_new. rewrite run_bind, run_open. destruct (open_file _ _ _ _) as [io st2].
    cbn [mbind result_bind]. rewrite run_bind, run_writeData. destruct (writeData _ _ _ _) as [[[w io'] st3]| |]; [|done..].
    cbn [mbind result_bind]. rewrite run_bind, run_if. destruct (_ || _).
    + cbn [run mret program_ret mbind result_bind]. by rewrite run_bind, run_close.
    + run_call. destruct (meta_put _ _) as [p st4]. cbn [run mret program_ret mbind result_bind]. by rewrite run_bind, run_close.
  - unfold put_existing_calls, put_existing. rewrite run_bind, run_open. destruct (open_file _ _ _ _) as [io st2].
    cbn [mbind result_bind]. rewrite run_bind, run_writeData. destruct (writeData _ _ _ _) as [[[w io'] st3]| |]; [|done..].
    cbn [mbind result_bind]. rewrite run_bind, run_if. destruct (_ || _).
    + cbn [run mret program_ret mbind result_bind]. by rewrite run_bind, run_close.
    + run_call. destruct (renameFile _ _ _) as [[n io2] st4]. cbn [run mret program_ret mbind result_bind]. by rewrite run_bind, run_close.
Qed.

Lemma run_delete r resp st : run (delete_calls r resp) st = delete_object r resp st.
Proof.
  unfold delete_calls, delete_object. run_call. destruct (meta_get _ st) as [g st1]. cbn [mbind result_bind].
  rewrite run_if. destruct (0 <=? g); [|done]. rewrite run_bind, run_open. destruct (open_file _ _ _ _) as [io st2].
  cbn [mbind result_bind]. destruct (fp io) as [f|].
  - rewrite run_bind, run_close. cbn [mbind result_bind]. run_call. destruct (meta_del _ _) as [d st3].
    cbn [mbind result_bind]. rewrite run_if. by destruct (d <? 0).
  - run_call. destruct (meta_del _ _) as [d st3]. cbn [mbind result_bind]. by rewrite run_bind, run_close.
Qed.

(** ** What a program reads and changes *)

Section Local.
Context (pl0 : directory) (key : list Z).

Definition at_dir (st : storage) : Prop := place st = pl0.

(** The file of a key in the directory. *)
Definition key_file (k : list Z) : list Z := resolve pl0 (dir_path pl0 ++ [47] ++ k).

(** The files of the key: its own and the temporary one. *)
Definition owned (n : list Z) : Prop := n = key_file key \/ n = key_file (key ++ tmp).

(** The same object, and the same failures to come. *)
Record same_view (st st' : storage) : Prop := {
  same_plan : plan st = plan st';
  same_meta : meta st !! key = meta st' !! key;
  same_files n : owned n -> files st !! n = files st' !! n
}.

Record untouched (st st' : storage) : Prop := {
  untouched_meta k : k <> key -> meta st' !! k = meta st !! k;
  untouched_files n : ~ owned n -> files st' !! n = files st !! n
}.

(** A call that reads and changes what belongs to the key, or ([w] is [false]) reads it;
    whether it works is the next outcome of the plan. *)
Definition local_call (w : bool) {X} (f : storage -> X * storage) : Prop :=
  forall st, at_dir st -> at_dir (f st).2 /\ (plan st = [] -> plan (f st).2 = []) /\ untouched st (f st).2
    /\ (w = false -> asked st (f st).2)
    /\ forall st2, at_dir st2 -> same_view st st2 -> (f st2).1 = (f st).1 /\ same_view (f st).2 (f st2).2.

Fixpoint local (w : bool) {A} (P : A -> Prop) (p : program A) : Prop :=
  match p with
  | Done r => match r with Ok a => P a | _ => True end
  | Call f k => local_call w f /\ forall st, at_dir st -> local w P (k (f st).1)
  end.

Lemma local_bind {A B} w (P : A -> Prop) (Q : B -> Prop) p (f : A -> program B) :
  local w P p -> (forall a, P a -> local w Q (f a)) -> local w Q (p ≫= f).
Proof.
  induction p as [[a| |]|X g k IH]; cbn; [naive_solver..|]. intros [Hg Hk] Hf. split; [done|].
  intros st Hst. by apply IH; [apply Hk|].
Qed.

Lemma local_Call {X} w (P : X -> Prop) f : local_call w f -> (forall st, at_dir st -> P (f st).1) -> local w P (call f).
Proof. done. Qed.

Lemma local_lift {A} w (P : A -> Prop) (o : option A) : (forall a, o = Some a -> P a) -> local w P (Done (lift o)).
Proof. destruct o as [a|]; cbn; [|done]. intros HP. by apply HP. Qed.

Lemma local_True {A} w (r : result A) : local w (fun _ => True) (Done r).
Proof. by destruct r. Qed.

Lemma same_view_refl st : same_view st st.
Proof. done. Qed.

Lemma untouched_refl st : untouched st st.
Proof. done. Qed.

(** *** What a call does when its outcome is known *)

Definition local_effect (w : bool) {X} (g : storage -> X * storage) : Prop :=
  forall st, at_dir st -> at_dir (g st).2 /\ plan (g st).2 = plan st /\ untouched st (g st).2
    /\ (w = false -> (g st).2 = st)
    /\ forall st2, at_dir st2 -> same_view st st2 -> (g st2).1 = (g st).1 /\ same_view (g st).2 (g st2).2.

Lemma local_asked {X} w (f : storage -> X * storage) (g : outcome -> storage -> X * storage) :
  (forall st, at_dir st -> f st = let '(o, st') := ask st in g o st') -> (forall o, local_effect w (g o)) -> local_call w f.
Proof.
  intros Hf Hg st Hst. rewrite (Hf st Hst). destruct (ask st) as [o st1] eqn:Ea.
  pose proof (ask_asked _ _ _ Ea) as [[Hp Hm Hi Hpl] _]. assert (at_dir st1) as Hst1 by (unfold at_dir in *; congruence).
  destruct (Hg o st1 Hst1) as (Hd & Hpl1 & [Hum Huf] & Hw & Hv). split_and!; [done| | |..].
  - intros Hn. rewrite Hpl1. by apply (suffix_plan _ _ Hpl).
  - split; [intros k Hk; by rewrite Hum, Hm|intros n Hn; by rewrite Huf, Hi].
  - intros E. rewrite (Hw E). done.
  - intros st2 Hst2 [Hp2 Hm2 Hi2]. rewrite (Hf st2 Hst2). unfold ask in *. rewrite <- Hp2.
    destruct (plan st) as [|o' p] eqn:E; injection Ea as <- <-; (apply Hv; [done|]); split; try done; by rewrite E.
Qed.

(** An effect that depends on what belongs to the key and changes nothing. *)
Lemma effect_read {X} w (h : storage -> X) :
  (forall st st', at_dir st -> at_dir st' -> same_view st st' -> h st' = h st) -> local_effect w (fun st => (h st, st)).
Proof. intros Hh st Hst. split_and!; try done. intros st2 Hst2 Hv. split; [by apply Hh|done]. Qed.

(** Changing a file of the key to what depends on the files of the key. *)
Lemma effect_insert {X} (x : storage -> X) n (v : storage -> list Z) : owned n ->
  (forall st st', at_dir st -> at_dir st' -> same_view st st' -> x st' = x st /\ v st' = v st) ->
  local_effect true (fun st => (x st, with_files st (<[n := v st]> (files st)))).
Proof.
  intros Ho Hx st Hst. split_and!; try done.
  - split; [done|]. intros n' Hn. cbn. apply lookup_insert_ne. by intros ->.
  - intros st2 Hst2 Hv. destruct (Hx st st2 Hst Hst2 Hv) as [Ex Ev]. split; [done|]. destruct Hv as [Hp Hm Hf]. split; [done..|].
    intros n' Hn. cbn. rewrite Ev. destruct (decide (n' = n)) as [->|Hne]; [by rewrite !lookup_insert_eq|].
    rewrite !lookup_insert_ne by done. by apply Hf.
Qed.

Lemma effect_delete n : owned n -> local_effect true (fun st => (tt, with_files st (delete n (files st)))).
Proof.
  intros Ho st Hst. split_and!; try done.
  - split; [done|]. intros n' Hn. cbn. apply lookup_delete_ne. by intros ->.
  - intros st2 Hst2 [Hp Hm Hf]. split; [done|]. split; [done..|]. intros n' Hn. cbn.
    destruct (decide (n' = n)) as [->|Hne]; [by rewrite !lookup_delete_eq|].
    rewrite !lookup_delete_ne by done. by apply Hf.
Qed.

Lemma effect_move {X} (x : X) n n' l : owned n -> owned n' ->
  local_effect true (fun st => (x, with_files st (<[n' := l]> (delete n (files st))))).
Proof.
  intros Ho Ho' st Hst. destruct (effect_delete n Ho st Hst) as (_ & _ & [_ Hu] & _ & Hv). split_and!; try done.
  - split; [done|]. intros m Hm. cbn. rewrite lookup_insert_ne by (by intros ->). by apply Hu.
  - intros st2 Hst2 Hv0. destruct (Hv st2 Hst2 Hv0) as [_ Hv']. split; [done|].
    destruct (effect_insert (fun _ => 0) n' (fun _ => l) Ho' (fun _ _ _ _ _ => conj eq_refl eq_refl)
      (with_files st (delete n (files st))) Hst) as (_ & _ & _ & _ & Hi). exact (proj2 (Hi (with_files st2 (delete n (files st2))) Hst2 Hv')).
Qed.

Lemma same_contents f st st' : owned (name f) -> same_view st st' -> contents f st' = contents f st.
Proof. intros Ho Hv. unfold contents. by rewrite (same_files _ _ Hv). Qed.

(** An open file of the key, where a reader has written nothing. *)
Definition own_file (w : bool) (f : FILE) : Prop := owned (name f) /\ (w = false -> pending f = []).
Definition own_io (w : bool) (io : FileIO) : Prop := owned (resolve pl0 (dir io)) /\ forall f, fp io = Some f -> own_file w f.

Lemma effect_flush {X} w (x : storage -> X) n f : own_file w f ->
  (forall st st', at_dir st -> at_dir st' -> same_view st st' -> x st' = x st) -> local_effect w (fun st => (x st, flush n f st)).
Proof.
  intros [Ho Hw] Hx. unfold flush. destruct (take n (pending f)) as [|c l] eqn:E; [by apply effect_read|].
  destruct w; [|rewrite Hw, take_nil in E by done; discriminate].
  apply (effect_insert x (name f) (fun st => take (pos f - length (pending f)) (contents f st) ++ (c :: l) ++
    drop (pos f - length (pending f) + length (c :: l)) (contents f st))); [done|].
  intros st st' Hd Hd' Hv. split; [by apply Hx|]. by rewrite (same_contents f st st').
Qed.

(** *** The calls *)

Lemma local_meta_get w : local_call w (meta_get key).
Proof.
  eapply local_asked; [intros st _; unfold meta_get; done|].
  intros []; (apply effect_read; intros st st' _ _ [_ Hm _]; by rewrite ?Hm).
Qed.

(** Changing the metadata of the key. *)
Lemma effect_meta (x : Z) (m : gmap (list Z) (list Z) -> gmap (list Z) (list Z)) :
  (forall l k, k <> key -> m l !! k = l !! k) -> (forall l l', m l !! key = m l' !! key) ->
  local_effect true (fun st => (x, with_meta st (m (meta st)))).
Proof.
  intros Hk Hm st Hst. split_and!; try done; [by split; [intros k; apply Hk|]|].
  intros st2 Hst2 [Hp _ Hf]. split; [done|]. split; [done|apply Hm|done].
Qed.

Lemma local_meta_put : local_call true (meta_put key).
Proof.
  eapply local_asked; [intros st _; unfold meta_put; done|].
  intros []; first [by apply effect_read|apply (effect_meta 0 (<[key := [48]]>))]; intros l k.
  all: first [apply lookup_insert_ne; done|by rewrite !lookup_insert_eq|intros Hk; by apply lookup_insert_ne].
Qed.

Lemma local_meta_del : local_call true (meta_del key).
Proof.
  eapply local_asked; [intros st _; unfold meta_del; done|].
  intros []; first [by apply effect_read|apply (effect_meta 0 (delete key))]; intros l k.
  all: first [by rewrite !lookup_delete_eq|intros Hk; by apply lookup_delete_ne].
Qed.

Lemma local_fseek w f (p : storage -> nat) : own_file w f ->
  (forall st st', same_view st st' -> p st' = p st) -> (forall st st', files st' = files st -> p st' = p st) ->
  local_call w (fun st => fseek f (p st) st).
Proof.
  intros Ho Hp Hfi. eapply (local_asked _ _ (fun o st => match o with
    | Fails => (-1, f, st)
    | _ => (0, {| name := name f; pos := p st; pending := [] |}, flush (length (pending f)) f st) end)).
  - intros st _. unfold fseek. destruct (ask st) as [o st'] eqn:Ea. apply ask_asked in Ea as [[_ _ Hi _] _]. by rewrite (Hfi st st').
  - intros []; [|apply (effect_read w (fun _ => (-1, f))); done|]; apply (effect_flush w (fun st => (0, {| name := name f; pos := p st; pending := [] |})));
      try done; intros st st' _ _ Hv; by rewrite (Hp st st' Hv).
Qed.

Lemma local_fread w f c : owned (name f) -> local_call w (fread f c).
Proof.
  intros Ho. eapply local_asked; [intros st _; unfold fread; done|].
  intros o. apply effect_read. intros st st' _ _ Hv. cbv zeta. by rewrite (same_contents f st st').
Qed.

Lemma local_fwrite f l : own_file true f -> local_call true (fwrite f l).
Proof.
  intros [Ho _]. set (f1 o := {| name := name f; pos := pos f + transferred o (length l); pending := pending f ++ take (transferred o (length l)) l |}).
  eapply (local_asked _ _ (fun o st => if (buffer_size pl0 <? length (pending (f1 o)))%nat
    then (transferred o (length l), {| name := name f; pos := pos (f1 o); pending := [] |}, flush (length (pending (f1 o))) (f1 o) st)
    else (transferred o (length l), f1 o, st))).
  - intros st Hst. unfold fwrite. destruct (ask st) as [o st'] eqn:Ea. apply ask_asked in Ea as [[Hp _ _ _] _].
    cbn zeta. by rewrite Hp, Hst.
  - intros o. destruct (_ <? _)%nat; [|by apply effect_read]. by apply (effect_flush true (fun _ => _)).
Qed.

Lemma local_fclose w f : own_file w f -> local_call w (fun st => (tt, fclose f st)).
Proof.
  intros Ho. apply (local_asked _ _ (fun o st => (tt, flush (transferred o (length (pending f))) f st))).
  - intros st _. unfold fclose. by destruct (ask st).
  - intros o. by apply (effect_flush w (fun _ => tt)).
Qed.

Lemma own_fwrite f l st : own_file true f -> own_file true (fwrite f l st).1.2.
Proof. intros [Ho _]. unfold fwrite. destruct (ask st). by case_match. Qed.

Lemma open_own w k m st : owned (key_file k) -> at_dir st -> own_io w (open_file (file_path st) k m st).1.
Proof.
  intros Ho Hst. unfold open_file, fopen. destruct (ask st) as [o st'] eqn:Ea. apply ask_asked in Ea as [[Hp _ _ _] _].
  unfold file_path. rewrite Hp, Hst. fold (key_file k).
  destruct o, m; try destruct (files st' !! _); (split; [done|]); cbn; intros f Hf; simplify_eq; by split.
Qed.

Lemma local_open_rb w : local w (own_io w) (open_call key rb).
Proof.
  assert (Ho : owned (key_file key)) by by left. apply local_Call; [|intros st Hst; by apply open_own].
  set (d := dir_path pl0 ++ [47] ++ key). apply (local_asked _ _ (fun o st => ({| dir := d; fp := match o with
    | Fails => None
    | _ => match files st !! key_file key with Some _ => Some (new_FILE (key_file key)) | None => None end end |}, st))).
  - intros st Hst. unfold open_file, fopen. destruct (ask st) as [o st'] eqn:Ea. apply ask_asked in Ea as [[Hp _ _ _] _].
    unfold file_path. rewrite Hp, Hst. fold d. change (resolve pl0 d) with (key_file key). by destruct o.
  - intros o. apply effect_read. intros st st' _ _ [_ _ Hf]. by rewrite (Hf _ Ho).
Qed.

Lemma local_open_wb k : owned (key_file k) -> local true (own_io true) (open_call k wb_plus).
Proof.
  intros Ho. apply local_Call; [|intros st Hst; by apply open_own]. set (d := dir_path pl0 ++ [47] ++ k).
  apply (local_asked _ _ (fun o st => match o with
    | Fails => ({| dir := d; fp := None |}, st)
    | _ => ({| dir := d; fp := Some (new_FILE (key_file k)) |}, with_files st (<[key_file k := []]> (files st))) end)).
  - intros st Hst. unfold open_file, fopen. destruct (ask st) as [o st'] eqn:Ea. apply ask_asked in Ea as [[Hp _ _ _] _].
    unfold file_path. rewrite Hp, Hst. fold d. change (resolve pl0 d) with (key_file k). by destruct o.
  - intros []; first [by apply effect_read|by apply (effect_insert (fun _ => _) (key_file k) (fun _ => []))].
Qed.

Lemma own_rename io d st : own_io true io -> owned (resolve pl0 d) -> at_dir st -> own_io true (renameFile io d st).1.2.
Proof.
  intros [Ho Hf] Hn Hst. unfold renameFile. destruct (ask st) as [o st'] eqn:Ea. apply ask_asked in Ea as [[Hp _ _ _] _].
  rewrite Hp, Hst. destruct o, (files st' !! resolve pl0 (dir io)); (split; [done|]); cbn; try exact Hf.
  all: intros f' (f & Ef & ->)%fmap_Some; by split.
Qed.

Lemma local_rename io : own_io true io ->
  local true (fun x => own_io true x.2) (call (fun st => renameFile io (file_path st ++ [47] ++ key) st)).
Proof.
  intros [Ho Hf]. assert (Hn : owned (key_file key)) by by left.
  apply local_Call.
  2: { intros st Hst. apply own_rename; [done| |done]. unfold file_path. by rewrite Hst. }
  set (n := resolve pl0 (dir io)) in *.
  apply (local_asked _ _ (fun o st => match o, files st !! n with
    | Fails, _ | _, None => (-1, io, st)
    | _, Some l => (0, {| dir := dir io; fp := (fun f => {| name := key_file key; pos := pos f; pending := pending f |}) <$> fp io |},
        with_files st (<[key_file key := l]> (delete n (files st)))) end)).
  - intros st Hst. unfold renameFile. destruct (ask st) as [o st'] eqn:Ea. apply ask_asked in Ea as [[Hp _ _ _] _].
    unfold file_path. rewrite Hp, Hst. fold (key_file key). fold n. by destruct o.
  - intros o st Hst. assert (forall st2, same_view st st2 -> files st2 !! n = files st !! n) as Hd
      by (intros st2 Hv; by rewrite (same_files _ _ Hv)).
    assert (H1 : local_effect true (fun st => (-1, io, st))) by by apply (effect_read true (fun _ => (-1, io))).
    destruct (files st !! n) as [l|] eqn:El.
    + destruct (effect_move (0, {| dir := dir io; fp := (fun f => {| name := key_file key; pos := pos f; pending := pending f |}) <$> fp io |})
        n (key_file key) l Ho Hn st Hst) as (? & ? & ? & ? & Hv2), (H1 st Hst) as (? & ? & ? & ? & Hv1).
      destruct o; (split_and!; try done); intros st2 Hst2 Hv; try (by apply Hv1); rewrite (Hd st2 Hv); by apply Hv2.
    + destruct (H1 st Hst) as (? & ? & ? & ? & Hv1).
      destruct o; (split_and!; try done); intros st2 Hst2 Hv; try (by apply Hv1); rewrite (Hd st2 Hv); by apply Hv1.
Qed.

Lemma local_remove (d : storage -> list Z) : (forall st, at_dir st -> owned (resolve pl0 (d st))) ->
  (forall st st', place st = place st' -> d st = d st') -> local_call true (fun st => (tt, remove (d st) st)).
Proof.
  intros Ho Hd. set (sta := {| place := pl0; files := ∅; meta := ∅; plan := [] |}).
  set (n0 := resolve pl0 (d sta)). assert (Hn : owned n0) by by apply Ho.
  apply (local_asked _ _ (fun o st => match o with Fails => (tt, st) | _ => (tt, with_files st (delete n0 (files st))) end)).
  - intros st Hst. unfold remove. destruct (ask st) as [o st'] eqn:Ea. apply ask_asked in Ea as [[Hp _ _ _] _].
    rewrite Hp, (Hd st sta) by done. rewrite Hst. fold n0. by destruct o.
  - intros []; first [by apply effect_read|by apply effect_delete].
Qed.

(** *** The programs *)

Notation any := (fun _ => True).

Lemma local_write_calls fuel f buf off count : own_file true f ->
  local true (fun x => own_file true x.2) (write_calls fuel f buf off count).
Proof.
  revert f off count. induction fuel as [|fuel IH]; intros f off count Ho; cbn [write_calls]; [done|].
  destruct (0 <? count); [|done]. apply (local_bind _ any); [apply local_True|]. intros l _.
  apply (local_bind _ (fun p => own_file true p.2)).
  - apply local_Call; [by apply local_fwrite|]. intros st Hst. by apply own_fwrite.
  - intros [len f'] Ho'. destruct (len =? 0)%nat; [done|]. by apply IH.
Qed.

Lemma own_fseek w f p st : own_file w f -> own_file w (fseek f p st).1.2.
Proof. intros [Ho Hp]. unfold fseek. by destruct (ask st) as [[] ?]. Qed.

Lemma local_seek0 w f : own_file w f -> local w (fun p => own_file w p.2) (call (fseek f 0)).
Proof. intros Hf. apply local_Call; [by apply (local_fseek _ f (fun _ => O))|]. intros st Hst. by apply own_fseek. Qed.

Lemma local_writeData io buf size : own_io true io -> local true (fun x => own_io true x.2) (writeData_calls io buf size).
Proof.
  intros [Hd Ho]. apply (local_bind _ (own_file true)); [by apply local_lift|]. intros f Hf.
  apply (local_bind _ (fun p => own_file true p.2)); [by apply local_seek0|]. intros [r f'] Hf'.
  apply (local_bind _ (fun x => own_file true x.2)); [by apply local_write_calls|]. intros [count f2] Hf2.
  split; [done|]. by intros f3 [= <-].
Qed.

Lemma local_read_calls w fuel f buf off count : own_file w f -> local w any (read_calls fuel f buf off count).
Proof.
  revert f buf off count. induction fuel as [|fuel IH]; intros f buf off count Ho; cbn [read_calls]; [done|].
  destruct (0 <? count); [|done]. apply (local_bind _ (fun p => own_file w p.2)).
  - apply local_Call; [by apply local_fread, Ho|]. intros st Hst. unfold fread. by destruct (ask st).
  - intros [l f'] Ho'. destruct (length l =? 0)%nat; [done|]. apply (local_bind _ any); [apply local_True|].
    intros b _. by apply IH.
Qed.

Lemma local_readData w io buf size : own_io w io -> local w any (readData_calls io buf size).
Proof.
  intros [_ Ho]. apply (local_bind _ (own_file w)); [by apply local_lift|]. intros f Hf.
  apply (local_bind _ (fun p => own_file w p.2)); [by apply local_seek0|]. intros [r f'] Hf'.
  apply (local_bind _ any); [by apply local_read_calls|]. by intros [].
Qed.

Lemma local_fileLength w io : own_io w io -> local w any (fileLength_calls io).
Proof.
  intros [_ Ho]. apply (local_bind _ (own_file w)); [by apply local_lift|]. intros f Hf.
  apply (local_bind _ (fun p => own_file w p.2)).
  - apply local_Call; [|intros st Hst; by apply own_fseek].
    apply (local_fseek _ f (fun st => length (contents f st))); [done|..]; intros st st'.
    + intros Hv. by rewrite (same_contents _ _ _ (proj1 Hf) Hv).
    + intros Hv. unfold contents. by rewrite Hv.
  - intros [r f'] Hf'. destruct (r <? 0); [done|]. cbv zeta. destruct (int _ <? 0); [done|].
    apply (local_bind _ (fun p => own_file w p.2)); [by apply local_seek0|]. by intros [].
Qed.

Lemma local_close w io : own_io w io -> local w any (close_call io).
Proof.
  intros [_ Ho]. unfold close_call. destruct (fp io) as [f|]; [|done]. apply local_Call; [|done]. by apply local_fclose, Ho.
Qed.

Lemma local_meta_call f : local_call true f -> local true any (call (X := Z) f).
Proof. intros Hf. by apply local_Call. Qed.

(** Closing and answering. *)
Lemma local_close_ret w io (r : Response) : own_io w io -> local w any (_ ← close_call io; mret r).
Proof. intros Ho. by apply (local_bind _ any); [apply local_close|]. Qed.

Lemma local_put r resp : rq_key r = key -> local true any (put_calls r resp).
Proof.
  intros Hk. unfold put_calls. rewrite Hk. destruct (rq_buf r) as [buf|]; [|done].
  apply (local_bind _ any); [apply local_meta_call, local_meta_get|]. intros g _. destruct (g <? 0).
  - apply (local_bind _ (own_io true)); [apply local_open_wb; by left|]. intros io Hio.
    apply (local_bind _ (fun x => own_io true x.2)); [by apply local_writeData|]. intros [w io2] Hio2.
    apply (local_bind _ any); [|intros r2 _; by apply local_close_ret]. destruct (_ || _); [done|].
    by apply (local_bind _ any); [apply local_meta_call, local_meta_put|].
  - apply (local_bind _ (own_io true)); [apply local_open_wb; by right|]. intros io Hio.
    apply (local_bind _ (fun x => own_io true x.2)); [by apply local_writeData|]. intros [w io2] Hio2.
    apply (local_bind _ (fun x => own_io true x.2)); [|intros [r2 io3] Hio3; by apply local_close_ret]. destruct (_ || _); [done|].
    by apply (local_bind _ (fun x => own_io true x.2)); [apply local_rename|intros [n io3]].
Qed.

Lemma local_delete r resp : rq_key r = key -> local true any (delete_calls r resp).
Proof.
  intros Hk. unfold delete_calls. rewrite Hk.
  apply (local_bind _ any); [apply local_meta_call, local_meta_get|]. intros g _. destruct (0 <=? g).
  - apply (local_bind _ (own_io true)); [apply local_open_rb|]. intros io Hio. destruct (fp io).
    + apply (local_bind _ any); [by apply local_close|]. intros _ _.
      apply (local_bind _ any); [apply local_meta_call, local_meta_del|]. intros d _. destruct (d <? 0); [done|].
      apply (local_bind _ any); [|done]. apply local_Call; [|done]. by apply (local_remove (fun _ => dir io)); [intros _ _; apply Hio|].
    + apply (local_bind _ any); [apply local_meta_call, local_meta_del|]. intros _ _. by apply local_close_ret.
  - apply (local_bind _ any); [|done]. apply local_Call; [|done]. apply local_remove.
    + intros st Hst. left. unfold file_path. by rewrite Hst.
    + intros st st' E. unfold file_path. by rewrite E.
Qed.

Lemma local_get `{Malloc} r resp : rq_key r = key -> local false any (get_calls r resp).
Proof.
  intros Hk. unfold get_calls. rewrite Hk.
  apply (local_bind _ any); [by apply local_Call; [apply local_meta_get|]|]. intros g _. destruct (0 <=? g); [|done].
  apply (local_bind _ (own_io false)); [apply local_open_rb|]. intros io Hio.
  apply (local_bind _ any); [by apply local_fileLength|]. intros len _. destruct (fp io); [|by apply local_close_ret].
  destruct (len <? 0); [by apply local_close_ret|]. apply (local_bind _ any); [by apply local_lift|]. intros b _.
  apply (local_bind _ any); [by apply local_readData|]. intros [n b2] _. by apply local_close_ret.
Qed.

(** Two outcomes that the rest of the server cannot tell apart. *)
Definition agree {A} (o o' : result (A * storage)) : Prop :=
  match o, o' with
  | Ok (a, st), Ok (a', st') => a' = a /\ at_dir st /\ at_dir st' /\ same_view st st'
  | Fatal m, Fatal m' => m' = m
  | Undefined, Undefined => True
  | _, _ => False
  end.

(** A program that reads and changes what belongs to the key does not see the rest. *)
Lemma local_run {A} w (P : A -> Prop) p st st2 : local w P p -> at_dir st -> at_dir st2 -> same_view st st2 ->
  agree (run p st) (run p st2).
Proof.
  revert st st2. induction p as [[a| |]|X g k IH]; intros st st2 Hl Hst Hst2 Hv; cbn [run mbind result_bind]; try done.
  destruct Hl as [Hg Hk]. destruct (Hg st Hst) as (Hst' & _ & _ & _ & Hsame). destruct (Hsame st2 Hst2 Hv) as [Hx Hv'].
  destruct (Hg st2 Hst2) as (Hst2' & _). specialize (Hk st Hst).
  destruct (g st) as [x st'], (g st2) as [x2 st2']. cbn [fst snd] in *. subst x2.
  by apply (IH x st' st2').
Qed.

(** What it leaves, and what it leaves alone. *)
Lemma local_frame {A} w (P : A -> Prop) p st a st' : local w P p -> at_dir st -> run p st = Ok (a, st') ->
  at_dir st' /\ untouched st st' /\ (w = false -> asked st st') /\ (plan st = [] -> plan st' = []).
Proof.
  revert st. induction p as [[x| |]|X g k IH]; intros st Hl Hst Hrun; cbn [run mbind result_bind] in Hrun; try done.
  - injection Hrun as <- <-. done.
  - destruct Hl as [Hg Hk]. destruct (Hg st Hst) as (Hst' & Hp & [Hm Hf] & Hr & _). specialize (Hk st Hst).
    destruct (g st) as [x st1]. cbn [fst snd] in *. destruct (IH x st1 Hk Hst' Hrun) as (Hd & [Hm' Hf'] & Hr' & Hp').
    split_and!; [done|..|by auto].
    + split; [intros k' Hk'; by rewrite Hm', Hm|intros n Hn; by rewrite Hf', Hf].
    + intros ->. eapply asked_trans; [by apply Hr|by apply Hr'].
Qed.

End Local.

Section Properties.
Context `{Malloc}.

Lemma run_get r resp st : run (get_calls r resp) st = get_object r resp st.
Proof.
  unfold get_calls, get_object. run_call. destruct (meta_get _ st) as [g st1]. cbn [mbind result_bind].
  rewrite run_if. destruct (0 <=? g); [|done]. rewrite run_bind, run_open. destruct (open_file _ _ _ _) as [io st2].
  cbn [mbind result_bind]. rewrite run_bind, run_fileLength. destruct (fileLength io st2) as [[l st3]| |]; [|done..].
  cbn [mbind result_bind]. destruct (fp io) eqn:Ef; [|by rewrite run_bind, run_close]. rewrite run_if.
  destruct (l <? 0); [by rewrite run_bind, run_close|]. run_call.
  destruct (lift _) as [b| |]; [|done..]. cbn [mbind result_bind]. rewrite run_bind, run_readData.
  destruct (readData _ _ _ _) as [[[n b'] st4]| |]; [|done..]. cbn [mbind result_bind]. by rewrite run_bind, run_close.
Qed.

(** The program of a request, run alone, is the handling of the request. *)
Lemma run_respond r st : run (respond_calls r) st = respond r st.
Proof.
  unfold respond_calls, respond. rewrite !run_if. cbn [handlePut handleGet handleDelete object_storage].
  by rewrite run_put, run_get, run_delete.
Qed.

End Properties.

(** The program of a request, as far as it touches its key. *)
Definition exclusive (r : Request) : bool := match locking r with Some Exclusive => true | _ => false end.

Lemma local_respond `{Malloc} pl0 r : local pl0 (rq_key r) (exclusive r) (fun _ => True) (respond_calls r).
Proof.
  unfold respond_calls, exclusive, locking. repeat case_bool; [by apply local_put|by apply local_get|by apply local_delete|done].
Qed.

