(* ===== verification/ObjSerial.v ===== *)
(** Handlers whose library calls interleave, and fail, do what they do one after the other:
    the locks, and the invariant that relates the threads to the serial execution of the
    requests in the order of their answers. *)

From S2P Require Import Prelude Result ChatWire ObjWire ObjConn ObjStore ObjStoreProps ObjShared ObjLocal.
#[local] Open Scope Z_scope.

(** ** Threads *)

(** The answered request of a thread. *)
Definition answer_of (s : shared_server) (i : nat) : option (Request * Response) :=
  match threads s !! i with Some (r, Answered resp) => Some (r, resp) | _ => None end.

(** The answered requests with their responses, in the order of their answers. *)
Definition history (s : shared_server) : list (Request * Response) := omap (answer_of s) (log s).

Lemma thread_at s s' i t0 t : threads s !! i = Some t0 -> threads s' = <[i := t]> (threads s) ->
  threads s' !! i = Some t /\ forall j, j <> i -> threads s' !! j = threads s !! j.
Proof.
  intros Hi Hs. rewrite Hs. apply lookup_lt_Some in Hi. split; [by apply list_lookup_insert_eq|].
  intros j Hj. by apply list_lookup_insert_ne.
Qed.

Lemma history_same s s' : log s' = log s -> (forall j, j ∈ log s -> answer_of s' j = answer_of s j) ->
  history s' = history s.
Proof.
  intros Hl. unfold history. rewrite Hl. generalize (log s). intros l Ha. induction l as [|j l IH]; [done|]. cbn.
  rewrite Ha, IH by set_solver. done.
Qed.

(** The thread is not answered, before and after. *)
Lemma unanswered_history s s' i r c c' : threads s !! i = Some (r, c) -> threads s' = <[i := (r, c')]> (threads s) ->
  log s' = log s -> (forall resp, c <> Answered resp) -> (forall resp, c' <> Answered resp) ->
  history s' = history s /\ forall j, answer_of s' j = answer_of s j.
Proof.
  intros Hi Hs Hl Hc Hc'. destruct (thread_at _ _ _ _ _ Hi Hs) as [Hi' Hj].
  assert (forall j, answer_of s' j = answer_of s j) as Ha.
  { intros j. unfold answer_of. destruct (decide (j = i)) as [->|Hne]; [|by rewrite Hj].
    rewrite Hi, Hi'. destruct c, c'; first [done|by edestruct Hc|by edestruct Hc']. }
  split; [|done]. by apply history_same.
Qed.

Lemma insert_fst (l : list (Request * control)) i r c c' : l !! i = Some (r, c) -> (<[i := (r, c')]> l).*1 = l.*1.
Proof. intros Hi. rewrite list_fmap_insert. apply list_insert_id. by rewrite list_lookup_fmap, Hi. Qed.

Lemma exclusive_locking r : exclusive r = true -> locking r = Some Exclusive.
Proof. unfold exclusive. by destruct (locking r) as [[]|]. Qed.

(** ** Locks *)

Section Locked.
Context `{Malloc} (hasher : list Z -> Z).

(** Thread [i] holds the mutex [b]. *)
Definition owns (s : shared_server) (i b : nat) (l : lock_mode) : Prop :=
  exists r p, threads s !! i = Some (r, Running p) /\ locking r = Some l /\ bucket hasher (rq_key r) = b.

Record lock_ok (s : shared_server) (b : nat) (m : mutex) : Prop := {
  lock_writer i : writer m = Some i <-> owns s i b Exclusive;
  lock_readers i : i ∈ readers m <-> owns s i b Shared;
  lock_excl : writer m = None \/ readers m = ∅
}.

Definition locks_ok (s : shared_server) : Prop :=
  forall b, (b < 16)%nat -> exists m, mutexes s !! b = Some m /\ lock_ok s b m.

(** A writer of the key is running. *)
Definition written (s : shared_server) (k : list Z) : Prop :=
  exists i r p, threads s !! i = Some (r, Running p) /\ exclusive r = true /\ rq_key r = k.

Lemma bucket_bound k : (bucket hasher k < 16)%nat.
Proof. unfold bucket, MUTEX_COUNT. pose proof (Z.mod_pos_bound (hash hasher k) 16). lia. Qed.

(** Two running requests of which one writes have different keys. *)
Lemma apart s i j r r' p p' : locks_ok s -> i <> j -> threads s !! i = Some (r, Running p) ->
  threads s !! j = Some (r', Running p') -> locking r' <> None -> rq_key r' <> rq_key r \/ exclusive r = false.
Proof.
  intros Hg Hne Hi Hj Hl. destruct (exclusive r) eqn:Hx; [left|by right]. intros Hk.
  destruct (Hg (bucket hasher (rq_key r)) (bucket_bound _)) as (m & _ & [Hw Hr He]).
  assert (writer m = Some i) as Hwi by (apply Hw; exists r, p; by rewrite exclusive_locking).
  destruct (locking r') as [[]|] eqn:El; [|..|done].
  - assert (writer m = Some j) by (apply Hw; exists r', p'; by rewrite Hk). congruence.
  - assert (j ∈ readers m) by (apply Hr; exists r', p'; by rewrite Hk).
    destruct He as [He|He]; [congruence|set_solver].
Qed.

Lemma locks_same s s' : mutexes s' = mutexes s -> (forall j b l, owns s' j b l <-> owns s j b l) -> locks_ok s -> locks_ok s'.
Proof.
  intros Hm Ho Hg b Hb. destruct (Hg b Hb) as (m & Hmb & [H1 H2 H3]). exists m. rewrite Hm. split; [done|].
  split; [intros j; by rewrite Ho|intros j; by rewrite Ho|done].
Qed.

(** A thread that goes on running holds what it held. *)
Lemma running_owns s s' i r p p' : threads s !! i = Some (r, Running p) -> threads s' = <[i := (r, Running p')]> (threads s) ->
  (forall j b l, owns s' j b l <-> owns s j b l) /\ (forall k, written s' k <-> written s k).
Proof.
  intros Hi Ht. destruct (thread_at _ _ _ _ _ Hi Ht) as [Hi' Hj]. split.
  - intros j b l. unfold owns. destruct (decide (j = i)) as [->|Hne]; [|by rewrite Hj].
    rewrite Hi, Hi'. split; intros (r' & q & [= <- <-] & ? & ?); eauto.
  - intros k. unfold written. split; intros (j & r' & q & Hq & ? & ?); exists j, r';
      (destruct (decide (j = i)) as [->|Hne]; [|rewrite Hj in * by done; eauto]);
      [rewrite Hi' in Hq; simplify_eq; eauto|rewrite Hi in Hq; simplify_eq; eauto].
Qed.

Lemma acquire_ok s s' i b l m m' : lock_ok s b m -> acquire l i m = Some m' ->
  (forall j l', owns s' j b l' <-> owns s j b l' \/ j = i /\ l' = l) -> lock_ok s' b m'.
Proof.
  intros [Hw Hr He] Ha Ho. unfold acquire in Ha. destruct (writer m) as [w|] eqn:Ew; [done|].
  assert (forall j, ~ owns s j b Exclusive) as Hno by (intros j Hj; by apply Hw in Hj).
  destruct l; [case_decide as Hem; [|done]|]; simplify_eq; split; cbn.
  - intros j. rewrite Ho. split; [intros [= ->]; by right|]. intros [Hj|[-> _]]; [by destruct (Hno j)|done].
  - intros j. rewrite Ho, <- Hr, Hem. set_solver.
  - by right.
  - intros j. rewrite Ho. split; [done|]. intros [Hj|[_ ?]]; [by destruct (Hno j)|done].
  - intros j. rewrite Ho, <- Hr. set_solver.
  - by left.
Qed.

(** A thread at its lock waits, or has it and nobody writes its key. *)
Lemma enter_ok s i r : locks_ok s -> threads s !! i = Some (r, Waiting) ->
  exists s', enter hasher s i r = Ok s' /\ (s' = s \/
    threads s' = <[i := (r, Running (respond_calls r))]> (threads s) /\ store s' = store s /\ log s' = log s
    /\ locks_ok s' /\ (locking r <> None -> ~ written s (rq_key r))).
Proof.
  intros Hg Hi. unfold enter.
  assert (forall s', threads s' = <[i := (r, Running (respond_calls r))]> (threads s) -> forall j b l,
    owns s' j b l <-> owns s j b l \/ j = i /\ locking r = Some l /\ bucket hasher (rq_key r) = b) as Hown.
  { intros s' Ht j b l. destruct (thread_at _ _ _ _ _ Hi Ht) as [Hi' Hj]. unfold owns. destruct (decide (j = i)) as [->|Hne].
    - rewrite Hi, Hi'. split; [|intros [(r' & p' & ? & _)|(_ & ? & ?)]; [done|by eauto]].
      intros (r' & p' & [= <- <-] & ? & ?). by right.
    - rewrite Hj by done. split; [by left|]. by intros [?|[? _]]. }
  destruct (locking r) as [l|] eqn:El.
  2: { eexists. split; [done|]. right. split_and!; try done. apply (locks_same s); [done|..|done].
       intros j b l. rewrite Hown by done. naive_solver. }
  destruct (Hg _ (bucket_bound (rq_key r))) as (m & Hm & Hok). rewrite Hm. cbn [lift mbind result_bind].
  destruct (acquire l i m) as [m'|] eqn:Ea; [|by eauto]. eexists. split; [done|]. right. split_and!; try done.
  - intros b Hb. cbn [mutexes with_thread with_mutex]. destruct (decide (b = bucket hasher (rq_key r))) as [->|Hne].
    + exists m'. split; [apply list_lookup_insert_eq; by apply lookup_lt_Some in Hm|].
      eapply acquire_ok; [exact Hok|exact Ea|]. intros j l'. rewrite Hown by done. naive_solver.
    + rewrite list_lookup_insert_ne by done. destruct (Hg b Hb) as (m2 & Hm2 & [H1 H2 H3]). exists m2.
      split; [done|]. split; [intros j|intros j|done]; rewrite Hown by done; naive_solver.
  - intros _ (j & r' & p' & Hj & Hx & Hk). destruct Hok as [Hw _ _].
    assert (writer m = Some j) as Hwj by (apply Hw; exists r', p'; by rewrite exclusive_locking, Hk).
    unfold acquire in Ea. by rewrite Hwj in Ea.
Qed.

(** The mutex of a thread that answers is released, on the machine's [unlock] or if it is
    not held shared. *)
Lemma unlock_ok u s s' i r p b m : u = true \/ locking r <> Some Shared ->
  lock_ok s b m -> threads s !! i = Some (r, Running p) -> locking r <> None ->
  bucket hasher (rq_key r) = b -> (forall j l, owns s' j b l <-> j <> i /\ owns s j b l) ->
  exists m', unlock u i m = Ok m' /\ lock_ok s' b m'.
Proof.
  intros Hu [Hw Hr He] Hi Hl Hb Ho. unfold unlock.
  assert (forall l, owns s i b l <-> locking r = Some l) as Hown.
  { intros l. unfold owns. rewrite Hi. split; [by intros (? & ? & [= <- <-] & ? & _)|eauto]. }
  destruct (locking r) as [[]|] eqn:El; [..|done].
  - assert (writer m = Some i) as Hwi by (by apply Hw, Hown). rewrite decide_True by done.
    assert (readers m = ∅) as Hem by (destruct He; [congruence|done]).
    eexists. split; [done|]. split; cbn; [..|by left]; intros j; rewrite Ho.
    + split; [done|]. intros [Hj Hx%Hw]. congruence.
    + rewrite <- Hr, Hem. set_solver.
  - assert (i ∈ readers m) as Hri by (by apply Hr, Hown).
    assert (writer m = None) as Hwn by (destruct He as [?|He]; [done|set_solver]).
    rewrite decide_False, decide_True by congruence. destruct Hu as [->|?]; [|done]. eexists. split; [done|].
    split; cbn; [..|by left]; intros j; rewrite Ho.
    + rewrite Hwn, <- Hw, Hwn. split; [done|]. by intros [_ ?].
    + rewrite <- Hr. set_solver.
Qed.

Lemma leave_ok u s i r p resp : u = true \/ locking r <> Some Shared -> locks_ok s -> threads s !! i = Some (r, Running p) ->
  exists s', leave u hasher s i r resp = Ok s' /\ threads s' = <[i := (r, Answered resp)]> (threads s)
    /\ store s' = store s /\ log s' = log s ++ [i] /\ locks_ok s'.
Proof.
  intros Hun Hg Hi. unfold leave.
  assert (forall s' j b l, threads s' = <[i := (r, Answered resp)]> (threads s) ->
    (owns s' j b l <-> j <> i /\ owns s j b l)) as Ho.
  { intros s' j b l Ht. destruct (thread_at _ _ _ _ _ Hi Ht) as [Hi' Hj]. unfold owns. destruct (decide (j = i)) as [->|Hne].
    - rewrite Hi'. split; [by intros (? & ? & ? & _)|by intros [? _]].
    - rewrite Hj by done. naive_solver. }
  assert (forall j b l, owns s j b l -> j = i -> locking r = Some l /\ bucket hasher (rq_key r) = b) as Hi2.
  { intros j b l (r' & p' & Hx & Hx' & Hb) ->. rewrite Hi in Hx. by simplify_eq. }
  destruct (locking r) as [l|] eqn:El.
  2: { eexists. split; [done|]. split_and!; try done. apply (locks_same s); [done|..|done]. intros j b l. rewrite Ho by done.
       split; [by intros []|]. intros Hx. split; [|done]. intros Hj. by destruct (Hi2 _ _ _ Hx Hj). }
  destruct (Hg _ (bucket_bound (rq_key r))) as (m & Hm & Hok). rewrite Hm. cbn [lift mbind result_bind].
  set (b0 := bucket hasher (rq_key r)) in *.
  destruct (unlock_ok u s (with_log (with_thread s i (r, Answered resp)) (log s ++ [i])) i r p b0 m) as (m' & Hu & Hok');
    [by rewrite El|done|exact Hi|congruence|done|intros j l'; by apply Ho|].
  rewrite Hu. cbn [mbind result_bind]. eexists. split; [done|]. split_and!; try done.
  intros b Hb. cbn [mutexes with_log with_thread with_mutex]. destruct (decide (b = b0)) as [->|Hne].
  - exists m'. split; [apply list_lookup_insert_eq; by apply lookup_lt_Some in Hm|].
    destruct Hok' as [H1 H2 H3]. split; [intros j|intros j|done]; [apply H1|apply H2].
  - rewrite list_lookup_insert_ne by done. destruct (Hg b Hb) as (m2 & Hm2 & [H1 H2 H3]). exists m2.
    split; [done|]. assert (forall j l', owns s j b l' -> j <> i) as Hni.
    { intros j l' Hx Hj. by destruct (Hi2 _ _ _ Hx Hj) as [_ ?]. }
    split; [intros j|intros j|done]; rewrite Ho by done; [rewrite H1|rewrite H2]; naive_solver.
Qed.

Lemma start_locks st rs : locks_ok (start st rs).
Proof.
  intros b Hb. exists new_mutex. split; [by apply lookup_replicate_2|].
  assert (forall j l, ~ owns (start st rs) j b l) as Hno.
  { intros j l (r & p & Hj & _). cbn in Hj. rewrite list_lookup_fmap in Hj. by destruct (rs !! j). }
  split; [intros j|intros j|by left]; split; cbn; try done; try set_solver; intros Ho; by destruct (Hno _ _ Ho).
Qed.

End Locked.

(** ** The serial execution *)

Lemma with_plan_id st : with_plan st (plan st) = st.
Proof. by destruct st. Qed.

(** Keys that name files of the directory, none of which is the temporary file of another. *)
Definition safe_keys (keys : gset (list Z)) : Prop := forall k, k ∈ keys -> plain k /\ k ++ tmp ∉ keys.

(** The [unlock] of a lock that is held shared releases it, or is not needed. *)
Definition can_unlock (u : bool) (rs : list Request) : Prop := u = true \/ Forall (fun r => locking r <> Some Shared) rs.

Section Serial.
Context `{Malloc} (hasher : list Z -> Z) (keys : gset (list Z)) (pl0 : directory).

Context (Hsafe : safe_keys keys).

(** The requests with the outcomes of their calls, and the storage at the start. *)
Context (reqs : list (Request * list outcome)) (st0 : storage).

Notation any := (fun _ => True).

(** The same object of a key. *)
Definition same_object (k : list Z) (st st' : storage) : Prop :=
  same_view pl0 k (with_plan st []) (with_plan st' []).

Lemma same_object_view k st st' p : same_object k st st' -> same_view pl0 k (with_plan st p) (with_plan st' p).
Proof. by intros [_ Hm Hf]. Qed.

Lemma same_object_trans k st st1 st2 : same_object k st st1 -> same_object k st1 st2 -> same_object k st st2.
Proof.
  intros [_ Hm Hf] [_ Hm' Hf']. split; [done|by rewrite Hm|]. intros n Hn. rewrite Hf by done. by apply Hf'.
Qed.

(** A change for one key leaves the objects of the others. *)
Lemma untouched_object k k' st st' p : k ∈ keys -> k' ∈ keys -> k' <> k -> untouched pl0 k (with_plan st p) st' -> same_object k' st st'.
Proof.
  intros Hk Hk' Hne [Hm Hf]. split; [done|by rewrite <- Hm|]. intros n Hn. symmetry. apply Hf. intros Ho.
  destruct (Hsafe k Hk) as [Hp Ht], (Hsafe k' Hk') as [Hp' Ht']. pose proof (plain_tmp _ Hp). pose proof (plain_tmp _ Hp').
  unfold owned, key_file in *. destruct Hn as [-> | ->], Ho as [Ho|Ho]; apply (resolve_plain pl0) in Ho; try done; subst.
  - done.
  - done.
  - by apply app_inv_tail in Ho.
Qed.

Lemma asked_object k st st' p : asked (with_plan st p) st' -> same_object k st st'.
Proof. intros [_ Hm Hf _]. split; [done|by cbn; rewrite Hm|]. intros n _. cbn. by rewrite Hf. Qed.

Definition order (s : shared_server) : list (Request * list outcome) := omap (fun i => reqs !! i) (log s).

(** What is left of a handler, against the whole handler in the serial execution. *)
Definition follows (r : Request) (o o' : result (Response * storage)) : Prop :=
  match o, o' with
  | Ok (a, st), Ok (a', st') => a' = a /\ (exclusive r = true -> same_object (rq_key r) st st')
  | Fatal m, Fatal m' => m' = m
  | Undefined, Undefined => True
  | _, _ => False
  end.

Lemma agree_follows r o o' : agree pl0 (rq_key r) o o' -> follows r o o'.
Proof. destruct o as [[]| |], o' as [[]| |]; try done. by intros (? & _ & _ & [_ ? ?]). Qed.

Lemma follows_trans r o1 o2 o3 : follows r o1 o2 -> follows r o2 o3 -> follows r o1 o3.
Proof.
  destruct o1 as [[]| |], o2 as [[]| |], o3 as [[]| |]; try done; cbn.
  - intros [-> Hv] [-> Hv']. split; [done|]. intros Hx. eapply same_object_trans; eauto.
  - by intros -> ->.
Qed.

Record running_ok (s : shared_server) (S : storage) (r : Request) (p : program Response) (q q0 : list outcome) : Prop := {
  ru_local : local pl0 (rq_key r) (exclusive r) any p;
  ru_free : locking r = None -> exists a, p = Done (Ok a) /\ respond_calls r = Done (Ok a);
  ru_follows : follows r (run p (with_plan (store s) q)) (run (respond_calls r) (with_plan S q0))
}.

(** The threads [s] with the outcomes [ps] left, and the serial storage [S]. *)
Record serializes (s : shared_server) (ps : list (list outcome)) (S : storage) : Prop := {
  se_dir : at_dir pl0 (store s);
  se_dir' : at_dir pl0 S;
  se_requests : (threads s).*1 = reqs.*1;
  se_plans : length ps = length reqs;
  se_keys i r c : threads s !! i = Some (r, c) -> rq_key r ∈ keys;
  se_serial : serial st0 (order s) = Ok ((history s).*2, S);
  se_history : (history s).*1 = (order s).*1;
  se_object k : k ∈ keys -> ~ written s k -> same_object k (store s) S;
  se_meta k : k ∉ keys -> meta (store s) !! k = meta S !! k;
  se_waiting i r : threads s !! i = Some (r, Waiting) -> reqs !! i = (fun q => (r, q)) <$> ps !! i;
  se_running i r p : threads s !! i = Some (r, Running p) ->
    exists q q0, ps !! i = Some q /\ reqs !! i = Some (r, q0) /\ running_ok s S r p q q0;
  se_locks : locks_ok hasher s;
  se_log : NoDup (log s) /\ forall i, i ∈ log s <-> is_Some (answer_of s i)
}.

(** A handler of another thread does not see what changes in the storages. *)
Lemma running_frame s s' S S' r p q q0 : running_ok s S r p q q0 ->
  at_dir pl0 (store s) -> at_dir pl0 (store s') -> at_dir pl0 S -> at_dir pl0 S' ->
  (locking r <> None -> same_object (rq_key r) (store s') (store s) /\ same_object (rq_key r) S S') ->
  running_ok s' S' r p q q0.
Proof.
  intros [Hl Hn Hf] H1 H2 H3 H4 Hv. split; [done..|]. destruct (locking r) eqn:El.
  - destruct Hv as [Hv Hv']; [done|]. eapply follows_trans; [|eapply follows_trans; [exact Hf|]]; apply agree_follows.
    + by apply (local_run _ _ _ _ _ _ _ Hl), same_object_view.
    + by apply (local_run _ _ _ _ _ _ _ (local_respond pl0 r)), same_object_view.
  - destruct (Hn eq_refl) as (a & -> & ->). cbn. split; [done|]. intros Hx. by rewrite (exclusive_locking _ Hx) in El.
Qed.

Lemma same_object_refl k st : same_object k st st.
Proof. done. Qed.

(** *** A library call *)

Lemma call_serializes s ps S i r X (f : storage -> X * storage) k q st1 : serializes s ps S ->
  threads s !! i = Some (r, Running (Call f k)) -> ps !! i = Some q -> st1 = with_plan (store s) q ->
  serializes (with_thread (with_store s (f st1).2) i (r, Running (k (f st1).1))) (<[i := plan (f st1).2]> ps) S.
Proof.
  intros Hs Hi Hq ->. set (st1 := with_plan (store s) q). set (s' := with_thread _ _ _).
  destruct (unanswered_history s s' i r (Running (Call f k)) (Running (k (f st1).1))) as [Hh Ha]; try done.
  destruct (thread_at s s' i (r, Running (Call f k)) (r, Running (k (f st1).1)) Hi eq_refl) as [Hi' Hj].
  destruct (running_owns hasher s s' i r (Call f k) (k (f st1).1) Hi eq_refl) as [Ho Hw].
  destruct (se_running _ _ _ Hs _ _ _ Hi) as (q1 & q0 & Hq1 & Hr0 & [[Hcall Hlocal] Hfree Hfol]).
  rewrite Hq in Hq1. injection Hq1 as <-.
  assert (at_dir pl0 st1) as Hd1 by exact (se_dir _ _ _ Hs). destruct (Hcall st1 Hd1) as (Hd' & _ & Hun & Hread & _).
  specialize (Hlocal st1 Hd1). cbn [run] in Hfol. fold st1 in Hfol. pose proof (se_keys _ _ _ Hs _ _ _ Hi) as Hk.
  assert (forall k', k' ∈ keys -> k' <> rq_key r \/ exclusive r = false -> same_object k' (store s) (f st1).2) as Hv.
  { intros k' Hk' [Hne|Hx]; [by apply (untouched_object (rq_key r) _ _ _ q)|by apply (asked_object _ _ _ q), Hread]. }
  assert (forall k', k' ∉ keys -> meta (f st1).2 !! k' = meta (store s) !! k') as Hm.
  { intros k' Hk'. apply (untouched_meta _ _ _ _ Hun). by intros ->. }
  destruct (f st1) as [x st'] eqn:Ef. cbn [fst snd] in *. destruct Hs; split; try done.
  - rewrite <- se_requests0. cbn. by eapply insert_fst.
  - by rewrite length_insert.
  - intros j r' c. destruct (decide (j = i)) as [->|Hne]; [rewrite Hi'; by intros [= <- _]|]. rewrite Hj by done. apply se_keys0.
  - by rewrite Hh.
  - by rewrite Hh.
  - intros k' Hk' Hnw. rewrite Hw in Hnw. eapply same_object_trans; [|by apply se_object0]. 
    destruct (Hv k' Hk') as [? H2 H3]; [|by split; symmetry; auto].
    destruct (exclusive r) eqn:Ex; [left|by right]. intros ->. apply Hnw. by exists i, r, (Call f k).
  - intros k' Hk'. cbn. rewrite Hm by done. by apply se_meta0.
  - intros j r' Hj'. destruct (decide (j = i)) as [->|Hne]; [by rewrite Hi' in Hj'|].
    rewrite Hj in Hj' by done. rewrite list_lookup_insert_ne by done. by apply se_waiting0.
  - intros j r' p' Hj'. destruct (decide (j = i)) as [->|Hne].
    + rewrite Hi' in Hj'. injection Hj' as <- <-. exists (plan st'), q0. split; [apply list_lookup_insert_eq; by apply lookup_lt_Some in Hq|].
      split; [done|]. split; [done| |].
      * intros Hn. by destruct (Hfree Hn) as (? & ? & _).
      * cbn. by rewrite with_plan_id.
    + rewrite Hj in Hj' by done. destruct (se_running0 j r' p' Hj') as (q' & q0' & Hq' & Hr0' & Hru).
      exists q', q0'. rewrite list_lookup_insert_ne by done. split; [done|]. split; [done|].
      apply (running_frame s s' S S); try done. intros Hl. split; [|done].
      destruct (Hv (rq_key r')) as [? H2 H3]; [by eapply se_keys0| |by split; symmetry; auto].
      by eapply (apart hasher s i j).
  - by apply (locks_same hasher s).
  - destruct se_log0 as [Hn Hl]. split; [done|]. intros j. rewrite Ha. apply Hl.
Qed.

(** *** Taking a lock *)

Lemma enter_serializes s s' ps S i r : serializes s ps S -> threads s !! i = Some (r, Waiting) ->
  threads s' = <[i := (r, Running (respond_calls r))]> (threads s) -> store s' = store s -> log s' = log s ->
  locks_ok hasher s' -> (locking r <> None -> ~ written s (rq_key r)) -> serializes s' ps S.
Proof.
  intros Hs Hi Ht Hst Hlog Hlk Hfree.
  destruct (unanswered_history s s' i r Waiting (Running (respond_calls r))) as [Hh Ha]; try done.
  destruct (thread_at s s' i (r, Waiting) (r, Running (respond_calls r)) Hi Ht) as [Hi' Hj].
  assert (order s' = order s) as Ho by (unfold order; by rewrite Hlog).
  assert (forall k, written s k -> written s' k) as Hw.
  { intros k (j & r' & p' & Hj' & ? & ?). exists j, r', p'. rewrite Hj; [done|]. intros ->. by rewrite Hi in Hj'. }
  pose proof (se_waiting _ _ _ Hs _ _ Hi) as Hwait. pose proof (se_keys _ _ _ Hs _ _ _ Hi) as Hk.
  destruct Hs; split; rewrite ?Hst, ?Hh, ?Ho; try done.
  - rewrite <- se_requests0, Ht. by eapply insert_fst.
  - intros j r' c. destruct (decide (j = i)) as [->|Hne]; [rewrite Hi'; by intros [= <- _]|]. rewrite Hj by done. apply se_keys0.
  - auto.
  - intros j r' Hj'. destruct (decide (j = i)) as [->|Hne]; [by rewrite Hi' in Hj'|]. rewrite Hj in Hj' by done. by apply se_waiting0.
  - intros j r' p' Hj'. destruct (decide (j = i)) as [->|Hne].
    + rewrite Hi' in Hj'. injection Hj' as <- <-. destruct (ps !! i) as [q|] eqn:Eq.
      2: { exfalso. apply lookup_ge_None in Eq. apply lookup_lt_Some in Hi.
           apply (f_equal length) in se_requests0. rewrite !length_fmap in se_requests0. lia. }
      exists q, q. split; [done|]. split; [done|]. split.
      * apply local_respond.
      * unfold locking, respond_calls. repeat case_bool; intros; by eauto.
      * rewrite Hst. destruct (locking r) eqn:El.
        -- apply agree_follows. apply (local_run _ _ _ _ _ _ _ (local_respond pl0 r)); [done..|].
           apply same_object_view, se_object0; [done|by apply Hfree].
        -- assert (exists a, respond_calls r = Done (Ok a)) as [a ->]
             by (revert El; unfold locking, respond_calls; repeat case_bool; intros; by eauto).
           cbn. split; [done|]. intros Hx. by rewrite (exclusive_locking _ Hx) in El.
    + rewrite Hj in Hj' by done. destruct (se_running0 j r' p' Hj') as (q' & q0' & Hq' & Hr0' & [H1 H2 H3]).
      exists q', q0'. split; [done|]. split; [done|]. split; [done..|]. by rewrite Hst.
  - destruct se_log0 as [Hn Hl]. rewrite Hlog. split; [done|]. intros j. rewrite Ha. apply Hl.
Qed.

(** *** Answering *)

Lemma serial_snoc st l r p : serial st (l ++ [(r, p)]) =
  ('(resps, st1) ← serial st l; '(resp, st2) ← respond r (with_plan st1 p); Ok (resps ++ [resp], st2)).
Proof.
  revert st. induction l as [|[r' p'] l IH]; intros st; cbn [serial app].
  - cbn. by destruct (respond r (with_plan st p)) as [[]| |].
  - destruct (respond r' (with_plan st p')) as [[resp' st1]| |]; [|done..]. cbn [mbind result_bind]. rewrite IH.
    destruct (serial st1 l) as [[resps st2]| |]; [|done..]. cbn [mbind result_bind].
    by destruct (respond r (with_plan st2 p)) as [[]| |].
Qed.

(** What the whole handler does in the serial execution. *)
Lemma respond_frame r S p resp S1 : at_dir pl0 S -> rq_key r ∈ keys -> respond r (with_plan S p) = Ok (resp, S1) ->
  at_dir pl0 S1 /\ (forall k, k ∈ keys -> k <> rq_key r \/ exclusive r = false -> same_object k S S1)
  /\ (forall k, k ∉ keys -> meta S1 !! k = meta S !! k).
Proof.
  intros Hd Hk Hrun. rewrite <- run_respond in Hrun.
  destruct (local_frame _ _ _ _ _ (with_plan S p) _ _ (local_respond pl0 r) Hd Hrun) as (Hd1 & Hun & Hread & _). split_and!; [done|..].
  - intros k Hk' [Hne|Hx]; [by apply (untouched_object (rq_key r) _ _ _ p)|by apply (asked_object _ _ _ p), Hread].
  - intros k Hk'. apply (untouched_meta _ _ _ _ Hun). by intros ->.
Qed.

Lemma leave_serializes s s' ps S i r resp : serializes s ps S -> threads s !! i = Some (r, Running (Done (Ok resp))) ->
  threads s' = <[i := (r, Answered resp)]> (threads s) -> store s' = store s -> log s' = log s ++ [i] ->
  locks_ok hasher s' -> exists S', serializes s' ps S'.
Proof.
  intros Hs Hi Ht Hst Hlog Hlk. destruct (thread_at _ _ _ _ _ Hi Ht) as [Hi' Hj].
  destruct (se_log _ _ _ Hs) as [Hnd Hl].
  assert (i ∉ log s) as Hnin by (rewrite Hl; unfold answer_of; rewrite Hi; by intros [? ?]).
  assert (forall j, j <> i -> answer_of s' j = answer_of s j) as Ha by (intros j Hne; unfold answer_of; by rewrite Hj).
  assert (answer_of s' i = Some (r, resp)) as Hai by (unfold answer_of; by rewrite Hi').
  assert (history s' = history s ++ [(r, resp)]) as Hh.
  { unfold history. rewrite Hlog, omap_app. cbn. rewrite Hai. f_equal.
    assert (history {| store := store s; mutexes := mutexes s; threads := threads s'; log := log s |} = history s) as Hh
      by (apply history_same; [done|]; intros j Hin; apply (Ha j); by intros ->). exact Hh. }
  destruct (se_running _ _ _ Hs _ _ _ Hi) as (q & q0 & Hq & Hr0 & [_ _ Hf]).
  assert (order s' = order s ++ [(r, q0)]) as Ho by (unfold order; rewrite Hlog, omap_app; cbn; by rewrite Hr0).
  rewrite run_respond in Hf. cbn in Hf. destruct (respond r (with_plan S q0)) as [[a S1]| |] eqn:Er; try done.
  destruct Hf as [-> Hobj]. pose proof (se_keys _ _ _ Hs _ _ _ Hi) as Hk.
  destruct (respond_frame r S q0 _ S1 (se_dir' _ _ _ Hs) Hk Er) as (Hd1 & Hv & Hm). exists S1.
  assert (forall j r' p', threads s' !! j = Some (r', Running p') -> j <> i /\ threads s !! j = Some (r', Running p')) as Hrun.
  { intros j r' p' Hj'. destruct (decide (j = i)) as [->|Hne]; [by rewrite Hi' in Hj'|]. by rewrite Hj in Hj' by done. }
  destruct Hs; split; rewrite ?Hst; try done.
  - rewrite <- se_requests0, Ht. by eapply insert_fst.
  - intros j r' c. destruct (decide (j = i)) as [->|Hne]; [rewrite Hi'; by intros [= <- _]|]. rewrite Hj by done. apply se_keys0.
  - by rewrite Ho, serial_snoc, se_serial0, Hh, fmap_app; cbn; rewrite Er.
  - by rewrite Ho, Hh, !fmap_app, se_history0.
  - intros k Hk' Hnw. destruct (decide (exclusive r = true /\ k = rq_key r)) as [[Hx ->]|Hno]; [by apply Hobj|].
    assert (k <> rq_key r \/ exclusive r = false) as Hor
      by (destruct (exclusive r) eqn:Ex; [left; intros ->; by apply Hno|by right]).
    eapply same_object_trans; [apply se_object0; [done|]|by apply Hv]. intros (j & r' & p' & Hj' & Hx & Hk'').
    apply Hnw. exists j, r', p'. rewrite Hj; [done|]. intros ->. rewrite Hi in Hj'. simplify_eq. destruct Hor; congruence.
  - intros k Hk'. rewrite Hm by done. by apply se_meta0.
  - intros j r' Hj'. destruct (decide (j = i)) as [->|Hne]; [by rewrite Hi' in Hj'|]. rewrite Hj in Hj' by done. by apply se_waiting0.
  - intros j r' p' Hj'. destruct (Hrun _ _ _ Hj') as [Hne Hjs].
    destruct (se_running0 j r' p' Hjs) as (q' & q0' & Hq' & Hr0' & Hru). exists q', q0'. split; [done|]. split; [done|].
    apply (running_frame s s' S S1); rewrite ?Hst; try done. intros Hlk'. split; [done|]. apply Hv; [by eapply se_keys0|].
    by eapply (apart hasher s i j).
  - rewrite Hlog. split.
    + apply NoDup_app. split_and!; [done| |apply NoDup_singleton]. intros j Hin ->%list_elem_of_singleton. done.
    + intros j. rewrite elem_of_app, list_elem_of_singleton. destruct (decide (j = i)) as [->|Hne].
      * rewrite Hai. split; [by eauto|by right].
      * rewrite Ha, <- Hl by done. naive_solver.
Qed.

(** *** Every step *)

Lemma plan_serializes s ps S q : serializes s ps S -> serializes (with_store s (with_plan (store s) q)) ps S.
Proof.
  intros []. split; try done; [|by apply (locks_same hasher s)]. intros i r p Hi.
  destruct (se_running0 i r p Hi) as (q' & q0 & ? & ? & [? ? Hf]). exists q', q0. split; [done|]. split; [done|]. split; [done..|exact Hf].
Qed.

Context (u : bool) (Hunlock : can_unlock u reqs.*1).

(** A step is undefined only if the handler is, with the same outcomes, in the serial execution. *)
Lemma step_serializes s ps S i : serializes s ps S ->
  match fault_step u hasher (s, ps) i with
  | Ok (s', ps') => exists S', serializes s' ps' S'
  | _ => exists r q0, reqs !! i = Some (r, q0) /\ i ∉ log s /\ forall a, respond r (with_plan S q0) <> Ok a
  end.
Proof.
  intros Hs. unfold fault_step. cbn [fst snd]. destruct (threads s !! i) as [[r c]|] eqn:Hi.
  2: { unfold thread_step. cbn [threads with_store]. rewrite Hi. cbn [mbind result_bind]. exists S.
       assert (<[i := plan (store (with_store s (with_plan (store s) (default [] (ps !! i)))))]> ps = ps) as ->;
         [|by apply plan_serializes]. apply list_insert_ge. apply lookup_ge_None in Hi.
       pose proof (f_equal length (se_requests _ _ _ Hs)) as Hlen. rewrite !length_fmap in Hlen. rewrite (se_plans _ _ _ Hs). lia. }
  assert (is_Some (ps !! i)) as [q Hq].
  { apply lookup_lt_is_Some. apply lookup_lt_Some in Hi. pose proof (f_equal length (se_requests _ _ _ Hs)) as Hlen.
    rewrite !length_fmap in Hlen. rewrite (se_plans _ _ _ Hs). lia. }
  rewrite Hq. set (s1 := with_store s (with_plan (store s) q)). change (with_store s _) with s1.
  assert (serializes s1 ps S) as Hs1 by by apply plan_serializes.
  assert (threads s1 !! i = Some (r, c)) as Hi1 by done.
  assert (<[i := plan (store s1)]> ps = ps) as Hps by by apply list_insert_id.
  unfold thread_step. rewrite Hi1. destruct c as [|[res|X f k]|resp].
  - destruct (enter_ok hasher s1 i r (se_locks _ _ _ Hs1) Hi1) as (s' & -> & [->|(Ht & Hst & Hlog & Hlk & Hfree)]); cbn [mbind result_bind].
    + exists S. by rewrite Hps.
    + exists S. rewrite Hst, Hps. by apply (enter_serializes s1 s' ps S i r).
  - destruct (se_running _ _ _ Hs1 _ _ _ Hi1) as (q' & q0 & _ & Hr0 & [_ _ Hf]). rewrite run_respond in Hf.
    assert (i ∉ log s) as Hnin by (rewrite (proj2 (se_log _ _ _ Hs) i); unfold answer_of; rewrite Hi; by intros [? ?]).
    destruct res as [resp| |]; cbn [mbind result_bind].
    + destruct (leave_ok hasher u s1 i r (Done (Ok resp)) resp) as (s' & -> & Ht & Hst & Hlog & Hlk); [|exact (se_locks _ _ _ Hs1)|done|].
      { destruct Hunlock as [?|Hno]; [by left|right]. apply (Forall_lookup_1 _ _ i _ Hno). by rewrite list_lookup_fmap, Hr0. }
      cbn [mbind result_bind].
      rewrite Hst, Hps. by apply (leave_serializes s1 s' ps S i r resp).
    + exists r, q0. split; [done|]. split; [done|]. intros a Ea. by rewrite Ea in Hf.
    + exists r, q0. split; [done|]. split; [done|]. intros a Ea. by rewrite Ea in Hf.
  - destruct (f (store s1)) as [x st'] eqn:Ef. cbn [mbind result_bind]. exists S.
    pose proof (call_serializes s1 ps S i r X f k q (store s1) Hs1 Hi1 Hq eq_refl) as Hc. by rewrite Ef in Hc.
  - cbn [mbind result_bind]. exists S. by rewrite Hps.
Qed.

Lemma steps_serialize s ps S l : serializes s ps S ->
  match fault_steps u hasher (s, ps) l with
  | Ok (s', ps') => exists S', serializes s' ps' S'
  | _ => exists done i, NoDup (done ++ [i]) /\ forall a, serial st0 (omap (fun i => reqs !! i) (done ++ [i])) <> Ok a
  end.
Proof.
  revert s ps S. induction l as [|i l IH]; intros s ps S Hs; cbn [fault_steps]; [by exists S|].
  pose proof (step_serializes s ps S i Hs) as Hstep.
  assert ((exists r q0, reqs !! i = Some (r, q0) /\ i ∉ log s /\ forall a, respond r (with_plan S q0) <> Ok a) ->
    exists done i, NoDup (done ++ [i]) /\ forall a, serial st0 (omap (fun i => reqs !! i) (done ++ [i])) <> Ok a) as Hbad.
  { intros (r & q0 & Hr & Hn & Hno). exists (log s), i. split.
    - apply NoDup_app. split_and!; [apply (se_log _ _ _ Hs)| |apply NoDup_singleton]. by intros j Hj ->%list_elem_of_singleton.
    - intros a. rewrite omap_app. cbn. rewrite Hr, serial_snoc. fold (order s). rewrite (se_serial _ _ _ Hs). cbn.
      destruct (respond r (with_plan S q0)) as [[]| |]; try done. by destruct (Hno (r0, s0)). }
  destruct (fault_step u hasher (s, ps) i) as [[s1 ps1]| |]; cbn [mbind result_bind]; [|by apply Hbad..].
  destruct Hstep as [S1 Hs1]. by apply (IH s1 ps1 S1).
Qed.

Lemma start_serializes : place st0 = pl0 -> Forall (fun x => rq_key x.1 ∈ keys) reqs ->
  serializes (start st0 reqs.*1) reqs.*2 st0.
Proof.
  intros Hd Hk.
  assert (forall i t, threads (start st0 reqs.*1) !! i = Some t -> exists r q, t = (r, Waiting) /\ reqs !! i = Some (r, q)) as Ht.
  { intros i t. cbn. rewrite !list_lookup_fmap. destruct (reqs !! i) as [[r q]|] eqn:E; [|done]. intros [= <-]. by exists r, q. }
  split; try done.
  - cbn. rewrite <- !list_fmap_compose. by apply list_fmap_ext.
  - by rewrite length_fmap.
  - intros i r c Hi. destruct (Ht _ _ Hi) as (r' & q & [= -> ->] & Hr). by apply (Forall_lookup_1 _ _ _ _ Hk Hr).
  - intros i r Hi. destruct (Ht _ _ Hi) as (r' & q & [= ->] & Hr). by rewrite list_lookup_fmap, Hr.
  - intros i r p Hi. by destruct (Ht _ _ Hi) as (? & ? & ? & _).
  - apply start_locks.
  - split; [constructor|]. intros i. split; [intros Hin; by apply not_elem_of_nil in Hin|]. unfold answer_of.
    destruct (threads (start st0 reqs.*1) !! i) as [[r c]|] eqn:E; [|by intros []]. destruct (Ht _ _ E) as (? & ? & [= _ ->] & _). by intros [].
Qed.

(** The storage is the map of the serial one, when no handler is running. *)
Lemma serializes_quiet s ps S m : serializes s ps S ->
  represents S m -> (forall k, is_Some (m !! k) -> k ∈ keys) ->
  (forall i r p, threads s !! i <> Some (r, Running p)) -> represents (store s) m.
Proof.
  intros Hs Hr Hk Hno k. specialize (Hr k). destruct (decide (k ∈ keys)) as [Hin|Hout].
  - assert (~ written s k) as Hw by (intros (i & r & p & Hi & _); by destruct (Hno i r p)).
    destruct (se_object _ _ _ Hs k Hin Hw) as [_ Hm Hf]. cbn in Hm, Hf. rewrite Hm.
    destruct (m !! k) as [v|]; [|done]. destruct Hr as (Hpl & Hmk & Hfk). unfold path, file_path in *. split; [done|]. split; [done|].
    rewrite (se_dir _ _ _ Hs), Hf by (by left). by rewrite (se_dir' _ _ _ Hs) in Hfk.
  - destruct (m !! k) eqn:E; [destruct Hout; apply Hk; by rewrite E|]. by rewrite (se_meta _ _ _ Hs k Hout).
Qed.

End Serial.
