(* ===== verification/ObjSharedProps.v ===== *)
(** Requests handled at the same time are answered as if they had been handled one
    after the other, and all of them are answered; and what the standard says about the
    [unlock] of a GET. *)

From S2P Require Import Prelude Result ChatWire ObjWire ObjWireProps ObjConn ObjStore ObjStoreProps ObjShared ObjLocal ObjSerial.
#[local] Open Scope Z_scope.

(** ** The map *)

Lemma spec_small m r : small m -> holds (rq_len r) (rq_buf r) -> rq_len r < 2 ^ 31 - 12 -> small (spec m r).2.
Proof.
  intros Hsm Hh Hl k v Hv. destruct (decide (k = rq_key r)) as [->|Hne]; [|rewrite spec_frame in Hv by done; by eapply Hsm].
  revert Hv. unfold spec. repeat case_bool; try (destruct (rq_buf r) as [b|]); try destruct (m !! rq_key r) eqn:E; cbn;
    rewrite ?lookup_insert_eq, ?lookup_delete_eq, ?E; intros Hv; simplify_eq; try (by eapply Hsm).
  all: cbn in Hh; rewrite length_take; lia.
Qed.

Lemma spec_run_app m rs r : spec_run m (rs ++ [r]) =
  ((spec_run m rs).1 ++ [(spec (spec_run m rs).2 r).1], (spec (spec_run m rs).2 r).2).
Proof. revert m. induction rs as [|r' rs IH]; intros m; [done|]. cbn. by rewrite IH. Qed.

(** What the map answers to the requests, and the map after them. *)
Definition answers (h : list (Request * Response)) : list (Z * list Z) :=
  (fun x => (rs_status x.2, response_data x.2)) <$> h.

Definition object_map (m0 : gmap (list Z) (list Z)) (s : shared_server) : gmap (list Z) (list Z) :=
  (spec_run m0 (history s).*1).2.

(** ** Libraries that work *)

Lemma steps_app `{Malloc} u hasher s l l' : thread_steps u hasher s (l ++ l') = (s ← thread_steps u hasher s l; thread_steps u hasher s l').
Proof.
  revert s. induction l as [|i l IH]; intros s; cbn [thread_steps app]; [done|].
  destruct (thread_step u hasher s i); [apply IH|done..].
Qed.

Section Interleaved.
Context `{Malloc} (hasher : list Z -> Z) (keys : gset (list Z)) (m0 : gmap (list Z) (list Z)) (pl0 : directory).

(** Memory suffices. *)
Context (Hmem : forall n, 0 <= n < 2 ^ 31 -> malloc n <> None).
Context (Hsafe : safe_keys keys).

Record ok_request (r : Request) : Prop := {
  okr_key : rq_key r ∈ keys;
  okr_data : holds (rq_len r) (rq_buf r);
  okr_size : rq_len r < 2 ^ 31 - 12
}.

(** Requests whose calls all work. *)
Definition working (rs : list Request) : list (Request * list outcome) := (fun r => (r, [])) <$> rs.

Lemma represents_plan st m p : represents st m -> represents (with_plan st p) m.
Proof. done. Qed.

(** A handler with working libraries, from a storage that is a map. *)
Lemma respond_spec m r st : (forall k, is_Some (m !! k) -> k ∈ keys) -> represents st m -> small m -> ok_request r ->
  exists resp st', respond r (with_plan st []) = Ok (resp, st') /\ (rs_status resp, response_data resp) = (spec m r).1
    /\ represents st' (spec m r).2 /\ small (spec m r).2 /\ forall k, is_Some ((spec m r).2 !! k) -> k ∈ keys.
Proof.
  intros Hk Hr Hsm [Hrk Hd Hs]. destruct (Hsafe _ Hrk) as [Hplain Htmp].
  destruct (store_refines m r (with_plan st [])) as (resp & st' & Hrun & _ & _ & Hresp & Hr'); try done.
  { intros _. destruct (m !! (rq_key r ++ tmp)) eqn:E; [|done]. destruct Htmp. apply Hk. by rewrite E. }
  exists resp, st'. split_and!; [done..|by apply spec_small|]. intros k.
  destruct (decide (k = rq_key r)) as [->|Hne]; [done|]. rewrite spec_frame by done. apply Hk.
Qed.

Lemma serial_spec m rs st : (forall k, is_Some (m !! k) -> k ∈ keys) -> represents st m -> small m -> Forall ok_request rs ->
  exists resps st', serial st (working rs) = Ok (resps, st') /\ represents st' (spec_run m rs).2 /\ small (spec_run m rs).2
    /\ (forall k, is_Some ((spec_run m rs).2 !! k) -> k ∈ keys)
    /\ (fun resp => (rs_status resp, response_data resp)) <$> resps = (spec_run m rs).1.
Proof.
  revert m st. induction rs as [|r rs IH]; intros m st Hk Hr Hsm Hok; cbn.
  { by exists [], st. }
  apply Forall_cons_1 in Hok as [Hok1 Hok]. destruct (respond_spec m r st Hk Hr Hsm Hok1) as (resp & st1 & -> & Hresp & Hr1 & Hsm1 & Hk1).
  cbn [mbind result_bind]. destruct (IH _ st1 Hk1 Hr1 Hsm1 Hok) as (resps & st2 & E & Hr2 & Hsm2 & Hk2 & Ha). unfold working in E. rewrite E.
  exists (resp :: resps), st2. split_and!; try done. cbn. by rewrite Ha, Hresp.
Qed.

Context (st0 : storage) (rs : list Request) (u : bool) (Hunlock : can_unlock u rs).
Context (Hdir : place st0 = pl0) (Hrep : represents st0 m0) (Hsmall : small m0).
Context (Hkeys : forall k, is_Some (m0 !! k) -> k ∈ keys) (Hrs : Forall ok_request rs).

Definition no_plans : list (list outcome) := replicate (length rs) [].

(** The threads serialize, and no call fails. *)
Definition good (s : shared_server) : Prop :=
  plan (store s) = [] /\ exists S, serializes hasher keys pl0 (working rs) st0 s no_plans S.

(** The serial storage is the map. *)
Lemma good_serial s S : serializes hasher keys pl0 (working rs) st0 s no_plans S ->
  represents S (object_map m0 s) /\ small (object_map m0 s) /\ (forall k, is_Some (object_map m0 s !! k) -> k ∈ keys)
  /\ answers (history s) = (spec_run m0 (history s).*1).1.
Proof.
  intros Hs. assert (order (working rs) s = working (history s).*1) as Ho.
  { rewrite (se_history _ _ _ _ _ _ _ _ Hs). unfold order, working. generalize (log s). intros l.
    induction l as [|i l IH]; [done|]. cbn. rewrite list_lookup_fmap. destruct (rs !! i); cbn; [by rewrite IH at 1|done]. }
  assert (Forall ok_request (history s).*1) as Hok.
  { rewrite (se_history _ _ _ _ _ _ _ _ Hs). apply Forall_forall. intros r ([r' q] & -> & Hin)%list_elem_of_fmap.
    unfold order in Hin. apply list_elem_of_omap in Hin as (i & _ & Hi). unfold working in Hi. rewrite list_lookup_fmap in Hi.
    destruct (rs !! i) as [r|] eqn:E; [|done]. injection Hi as <- _. by apply (Forall_lookup_1 _ _ _ _ Hrs E). }
  destruct (serial_spec m0 _ st0 Hkeys Hrep Hsmall Hok) as (resps & st' & E & Hr & Hsm & Hk & Ha).
  pose proof (se_serial _ _ _ _ _ _ _ _ Hs) as E'. rewrite Ho, E in E'. injection E' as -> ->.
  split_and!; [done..|]. rewrite <- Ha. unfold answers. by rewrite <- list_fmap_compose.
Qed.

Lemma good_respond s S r : serializes hasher keys pl0 (working rs) st0 s no_plans S -> ok_request r ->
  exists a, respond r (with_plan S []) = Ok a.
Proof.
  intros Hs Hr. destruct (good_serial s S Hs) as (H1 & H2 & H3 & _).
  destruct (respond_spec _ r S H3 H1 H2 Hr) as (resp & st' & -> & _). by eexists.
Qed.

Lemma working_lookup i r q : working rs !! i = Some (r, q) -> q = [] /\ ok_request r.
Proof.
  unfold working. rewrite list_lookup_fmap. destruct (rs !! i) as [r'|] eqn:E; [|done]. intros [= <- <-].
  split; [done|]. by apply (Forall_lookup_1 _ _ _ _ Hrs E).
Qed.

(** *** Every step *)

Lemma step_store s i s' : thread_step u hasher s i = Ok s' -> store s' = store s \/
  exists r X (f : storage -> X * storage) k, threads s !! i = Some (r, Running (Call f k)) /\ store s' = (f (store s)).2.
Proof.
  unfold thread_step. destruct (threads s !! i) as [[r [|[res|X f k]|resp]]|] eqn:Hi; try (intros [= <-]; by left).
  - unfold enter. destruct (locking r); [|intros [= <-]; by left]. destruct (mutexes s !! _) as [m|]; [|done].
    cbn [lift mbind result_bind]. destruct (acquire _ i m); intros [= <-]; by left.
  - destruct res as [resp| |]; [|done..]. cbn [mbind result_bind]. unfold leave. destruct (locking r); [|intros [= <-]; by left].
    destruct (mutexes s !! _) as [m|]; [|done]. cbn [lift mbind result_bind]. destruct (unlock u i m); [|done..]. intros [= <-]. by left.
  - destruct (f (store s)) as [x st'] eqn:Ef. intros [= <-]. right. exists r, X, f, k. by rewrite Ef.
Qed.

Lemma working_unlock : can_unlock u (working rs).*1.
Proof. unfold working. by rewrite <- list_fmap_compose, list_fmap_id. Qed.

Lemma thread_unlock s S i r c : serializes hasher keys pl0 (working rs) st0 s no_plans S -> threads s !! i = Some (r, c) ->
  u = true \/ locking r <> Some Shared.
Proof.
  intros Hs Hi. destruct working_unlock as [?|Hno]; [by left|right]. rewrite <- (se_requests _ _ _ _ _ _ _ _ Hs) in Hno.
  apply (Forall_lookup_1 _ _ i _ Hno). by rewrite list_lookup_fmap, Hi.
Qed.

Lemma step_good s i : good s -> exists s', thread_step u hasher s i = Ok s' /\ good s'.
Proof.
  intros [Hp [S Hs]]. pose proof (step_serializes hasher keys pl0 Hsafe (working rs) st0 u working_unlock s no_plans S i Hs) as Hstep.
  unfold fault_step in Hstep. cbn [fst snd] in Hstep.
  assert (default [] (no_plans !! i) = []) as E by (unfold no_plans; destruct (replicate _ _ !! i) eqn:E; [by apply lookup_replicate in E as [-> _]|done]).
  rewrite E in Hstep. clear E.
  assert (with_store s (with_plan (store s) []) = s) as E by (destruct s as [[] ? ? ?]; cbn in *; by rewrite <- Hp).
  rewrite E in Hstep. clear E. destruct (thread_step u hasher s i) as [s'| |] eqn:Est; cbn [mbind result_bind] in Hstep.
  - exists s'. split; [done|]. assert (plan (store s') = []) as Hp'.
    { destruct (step_store _ _ _ Est) as [-> |(r & X & f & k & Hi & ->)]; [done|].
      destruct (se_running _ _ _ _ _ _ _ _ Hs _ _ _ Hi) as (_ & _ & _ & _ & [[Hcall _] _ _]).
      by destruct (Hcall (store s) (se_dir _ _ _ _ _ _ _ _ Hs)) as (_ & Hpl & _); apply Hpl. }
    split; [done|]. destruct Hstep as [S' Hs']. rewrite Hp' in Hs'. exists S'.
    replace no_plans with (<[i := []]> no_plans); [done|]. apply insert_replicate.
  - destruct Hstep as (r & q0 & [-> Hok]%working_lookup & _ & Hno). destruct (good_respond s S r Hs Hok) as [a Ea]. by destruct (Hno a).
  - destruct Hstep as (r & q0 & [-> Hok]%working_lookup & _ & Hno). destruct (good_respond s S r Hs Hok) as [a Ea]. by destruct (Hno a).
Qed.

Lemma steps_good s l : good s -> exists s', thread_steps u hasher s l = Ok s' /\ good s'.
Proof.
  revert s. induction l as [|i l IH]; intros s Hg; cbn; [by eauto|].
  destruct (step_good s i Hg) as (s1 & -> & Hg1). by apply IH.
Qed.

Lemma start_good : plan st0 = [] -> good (start st0 rs).
Proof.
  intros Hp. split; [done|]. exists st0. pose proof (start_serializes hasher keys pl0 (working rs) st0 Hdir) as Hs.
  replace ((working rs).*1) with rs in Hs by (unfold working; by rewrite <- list_fmap_compose, list_fmap_id).
  replace ((working rs).*2) with no_plans in Hs.
  - apply Hs. apply Forall_fmap. eapply Forall_impl; [exact Hrs|]. by intros r [Hk _ _].
  - unfold working, no_plans. rewrite <- list_fmap_compose. clear. induction rs as [|r l IH]; [done|]. cbn. by rewrite IH.
Qed.

(** A running handler comes to its answer. *)
Lemma good_running s i r p : good s -> threads s !! i = Some (r, Running p) -> exists resp st', run p (store s) = Ok (resp, st').
Proof.
  intros [Hp [S Hs]] Hi. destruct (se_running _ _ _ _ _ _ _ _ Hs _ _ _ Hi) as (q & q0 & Hq & [-> Hok]%working_lookup & [_ _ Hf]).
  apply lookup_replicate in Hq as [-> _]. destruct (good_respond s S r Hs Hok) as [a Ea]. rewrite run_respond, Ea in Hf.
  rewrite <- Hp, with_plan_id in Hf. destruct a. destruct (run p (store s)) as [[]| |]; try done. by do 2 eexists.
Qed.

(** When no handler is running, the storage is the map. *)
Lemma good_quiet s : good s -> (forall i r p, threads s !! i <> Some (r, Running p)) -> represents (store s) (object_map m0 s).
Proof.
  intros [_ [S Hs]] Hno. destruct (good_serial s S Hs) as (Hr & _ & Hk & _). by eapply serializes_quiet.
Qed.

(** *** Running to the end *)

(** A thread with the lock comes to its [unlock]. *)
Lemma running_ends s i r p resp st' : threads s !! i = Some (r, Running p) -> run p (store s) = Ok (resp, st') ->
  exists n s', thread_steps u hasher s (replicate n i) = Ok s' /\ threads s' !! i = Some (r, Running (Done (Ok resp)))
    /\ (forall j, j <> i -> threads s' !! j = threads s !! j) /\ mutexes s' = mutexes s.
Proof.
  revert s. induction p as [res|X f k IH]; intros s Hi Hrun.
  - destruct res as [resp'| |]; [|done..]. cbn in Hrun. injection Hrun as -> _. by exists O, s.
  - cbn in Hrun. destruct (f (store s)) as [x st1] eqn:Ef.
    destruct (thread_at s (with_thread (with_store s st1) i (r, Running (k x))) i _ _ Hi eq_refl) as [Hi' Hj].
    destruct (IH x _ Hi' Hrun) as (n & s' & Hn & Hend & Hj' & Hm). exists (S n), s'. cbn [replicate thread_steps].
    unfold thread_step at 1. rewrite Hi, Ef. split_and!; [done|done| |done]. intros j Hne. by rewrite Hj', Hj.
Qed.

Definition all_answered (s : shared_server) : Prop :=
  forall i r c, threads s !! i = Some (r, c) -> exists resp, c = Answered resp.

Definition waiting (t : Request * control) : bool := match t.2 with Waiting => true | _ => false end.
Definition running (t : Request * control) : bool := match t.2 with Running _ => true | _ => false end.
Definition unanswered (t : Request * control) : bool := match t.2 with Answered _ => false | _ => true end.

(** The threads that have not answered. *)
Definition open_threads (l : list (Request * control)) : list (Request * control) :=
  filter unanswered l.

Lemma open_less l i t t' : l !! i = Some t -> unanswered t -> ~ unanswered t' ->
  (length (open_threads (<[i := t']> l)) < length (open_threads l))%nat.
Proof.
  intros Hi Ht Ht'. revert i Hi. unfold open_threads. induction l as [|x l IH]; intros [|i] Hi; try done.
  - injection Hi as ->. change (<[0%nat := t']> (t :: l)) with (t' :: l).
    rewrite (filter_cons_True _ t), filter_cons_False by done. cbn [length]. lia.
  - change (<[S i := t']> (x :: l)) with (x :: <[i := t']> l). specialize (IH i Hi).
    rewrite !filter_cons. case_decide; cbn [length]; lia.
Qed.

Lemma open_same l i t t' : l !! i = Some t -> unanswered t -> unanswered t' ->
  length (open_threads (<[i := t']> l)) = length (open_threads l).
Proof.
  intros Hi Ht Ht'. revert i Hi. unfold open_threads. induction l as [|x l IH]; intros [|i] Hi; try done.
  - injection Hi as ->. change (<[0%nat := t']> (t :: l)) with (t' :: l). by rewrite !filter_cons_True by done.
  - change (<[S i := t']> (x :: l)) with (x :: <[i := t']> l). specialize (IH i Hi).
    rewrite !filter_cons. case_decide; cbn [length]; by rewrite IH.
Qed.

(** A thread with the lock answers. *)
Lemma running_answers s i r p : good s -> threads s !! i = Some (r, Running p) ->
  exists l s', thread_steps u hasher s l = Ok s' /\ good s'
    /\ (length (open_threads (threads s')) < length (open_threads (threads s)))%nat.
Proof.
  intros Hg Hi. destruct (good_running s i r p Hg Hi) as (resp & st' & Hrun).
  destruct (running_ends s i r p resp st' Hi Hrun) as (n & s1 & Hn & Hi1 & Hj1 & _).
  destruct (steps_good s (replicate n i) Hg) as (s1' & Hn' & Hg1). rewrite Hn in Hn'. injection Hn' as <-.
  destruct Hg1 as [Hp1 [S1 Hs1]]. destruct (leave_ok hasher u s1 i r _ resp (thread_unlock _ _ _ _ _ Hs1 Hi1) (se_locks _ _ _ _ _ _ _ _ Hs1) Hi1) as (s2 & Hleave & Ht2 & _).
  destruct (step_good s1 i (conj Hp1 (ex_intro _ S1 Hs1))) as (s2' & Hstep & Hg2).
  assert (thread_step u hasher s1 i = Ok s2) as Hst by (unfold thread_step; by rewrite Hi1; cbn [mbind result_bind]).
  rewrite Hst in Hstep. injection Hstep as <-.
  exists (replicate n i ++ [i]), s2. rewrite steps_app, Hn. cbn [mbind result_bind thread_steps]. rewrite Hst. split_and!; [done|done|]. rewrite Ht2.
  replace (<[i := (r, Answered resp)]> (threads s1)) with (<[i := (r, Answered resp)]> (threads s)).
  - by apply (open_less _ i (r, Running p)); [|exact I|intros []].
  - apply list_eq. intros j. pose proof (lookup_lt_Some _ _ _ Hi). pose proof (lookup_lt_Some _ _ _ Hi1).
    destruct (decide (j = i)) as [->|Hne]; [by rewrite !list_lookup_insert_eq|].
    by rewrite !list_lookup_insert_ne, Hj1 by done.
Qed.

(** When nobody runs, a thread that waits gets its lock. *)
Lemma waiting_runs s i r : good s -> threads s !! i = Some (r, Waiting) ->
  (forall j r' p, threads s !! j <> Some (r', Running p)) ->
  exists s' p, thread_step u hasher s i = Ok s' /\ threads s' = <[i := (r, Running p)]> (threads s).
Proof.
  intros [_ [S Hs]] Hi Hno. unfold thread_step. rewrite Hi. unfold enter. destruct (locking r) as [l|]; [|by eauto].
  destruct (se_locks _ _ _ _ _ _ _ _ Hs _ (bucket_bound hasher (rq_key r))) as (m & Hm & [Hw Hr _]). rewrite Hm. cbn [lift mbind result_bind].
  assert (writer m = None) as Hwn.
  { destruct (writer m) as [j|] eqn:E; [|done]. destruct (proj1 (Hw j) eq_refl) as (r' & p & Hj & _). by destruct (Hno j r' p). }
  assert (readers m = ∅) as Hrn.
  { apply set_eq. intros j. rewrite Hr. split; [|set_solver]. intros (r' & p & Hj & _). by destruct (Hno j r' p). }
  unfold acquire. rewrite Hwn. destruct l; [rewrite decide_True by done|]; by do 2 eexists.
Qed.

Lemma all_finish s : good s -> exists l s', thread_steps u hasher s l = Ok s' /\ good s' /\ all_answered s'.
Proof.
  remember (length (open_threads (threads s))) as n eqn:En. revert s En.
  induction (lt_wf n) as [n _ IH]; intros s -> Hg.
  assert (forall s1 l1, thread_steps u hasher s l1 = Ok s1 -> good s1 ->
    (length (open_threads (threads s1)) < length (open_threads (threads s)))%nat ->
    exists l s', thread_steps u hasher s l = Ok s' /\ good s' /\ all_answered s') as Hgo.
  { intros s1 l1 Hl1 Hg1 Hlt. destruct (IH _ Hlt s1 eq_refl Hg1) as (l2 & s2 & Hl2 & Hg2 & Ha).
    exists (l1 ++ l2), s2. by rewrite steps_app, Hl1. }
  destruct (decide (Exists running (threads s))) as [Hex|Hno].
  - apply Exists_exists in Hex as ([r [|p|]] & Hin & Hc); try done. apply list_elem_of_lookup_1 in Hin as [i Hi].
    destruct (running_answers s i r p Hg Hi) as (l1 & s1 & Hl1 & Hg1 & Hlt). apply (Hgo s1 l1); [done..|lia].
  - assert (forall j r' p, threads s !! j <> Some (r', Running p)) as Hnr.
    { intros j r' p Hj. apply Hno, Exists_exists. exists (r', Running p). split; [by eapply list_elem_of_lookup_2|done]. }
    destruct (decide (Exists waiting (threads s))) as [Hex|Hnw].
    + apply Exists_exists in Hex as ([r [|p|]] & Hin & Hc); try done. apply list_elem_of_lookup_1 in Hin as [i Hi].
      destruct (waiting_runs s i r Hg Hi Hnr) as (s1 & p & Hs1 & Ht1).
      destruct (step_good s i Hg) as (s1' & Hs1' & Hg1). rewrite Hs1 in Hs1'. injection Hs1' as <-.
      destruct (thread_at _ _ _ _ _ Hi Ht1) as [Hi1 _].
      destruct (running_answers s1 i r p Hg1 Hi1) as (l2 & s2 & Hl2 & Hg2 & Hlt).
      apply (Hgo s2 (i :: l2)); [cbn; by rewrite Hs1|done|].
      assert (length (open_threads (threads s1)) = length (open_threads (threads s))) as Heq; [|lia].
      rewrite Ht1. by apply (open_same _ i (r, Waiting)).
    + exists [], s. split_and!; [done..|]. intros i r c Hi. destruct c as [|p|resp]; [|by destruct (Hnr i r p)|by eauto].
      destruct Hnw. apply Exists_exists. exists (r, Waiting). split; [by eapply list_elem_of_lookup_2|done].
Qed.

End Interleaved.

(** ** What never changes *)

Lemma step_frame `{Malloc} u hasher s i s' : thread_step u hasher s i = Ok s' ->
  (threads s').*1 = (threads s).*1 /\ log s `prefix_of` log s'.
Proof.
  unfold thread_step. destruct (threads s !! i) as [[r [|[res|X f k]|resp]]|] eqn:Hi; try (intros [= <-]; done).
  - unfold enter. destruct (locking r); [|intros [= <-]; split; [by eapply insert_fst|done]].
    destruct (mutexes s !! _) as [m|]; [|done]. cbn [lift mbind result_bind].
    destruct (acquire _ i m); intros [= <-]; [split; [by eapply insert_fst|done]|done].
  - destruct res as [resp| |]; [|done..]. cbn [mbind result_bind]. unfold leave. destruct (locking r).
    + destruct (mutexes s !! _) as [m|]; [|done]. cbn [lift mbind result_bind].
      destruct (unlock u i m); [|done..]. intros [= <-]. split; [by eapply insert_fst|by eexists].
    + intros [= <-]. split; [by eapply insert_fst|by eexists].
  - destruct (f (store s)) as [x st']. intros [= <-]. split; [by eapply insert_fst|done].
Qed.

Lemma steps_frame `{Malloc} u hasher s l s' : thread_steps u hasher s l = Ok s' ->
  (threads s').*1 = (threads s).*1 /\ log s `prefix_of` log s'.
Proof.
  revert s. induction l as [|i l IH]; intros s; cbn [thread_steps]; [by intros [= <-]|].
  destruct (thread_step u hasher s i) as [s1| |] eqn:E; [|done..]. cbn [mbind result_bind]. intros Hs.
  destruct (step_frame _ _ _ _ _ E) as [H1 H2], (IH s1 Hs) as [H3 H4]. split; [congruence|by etrans].
Qed.

Lemma history_spec s : (forall i, i ∈ log s <-> is_Some (answer_of s i)) ->
  Forall2 (fun i x => threads s !! i = Some (x.1, Answered x.2)) (log s) (history s).
Proof.
  intros Hl. unfold history. assert (forall i, i ∈ log s -> is_Some (answer_of s i)) as Ha by (intros i; apply Hl).
  revert Ha. clear Hl. generalize (log s). intros l Ha. induction l as [|i l IH]; [constructor|]. cbn.
  destruct (Ha i) as [[r resp] Hi]; [by left|]. rewrite Hi. constructor; [|apply IH; intros j Hj; apply Ha; by right].
  unfold answer_of in Hi. destruct (threads s !! i) as [[r' []]|]; by simplify_eq.
Qed.

(** ** Unlocking *)

(** One of the steps is the [unlock] of a GET, which is undefined. *)
Definition get_unlocks `{Malloc} (u : bool) hasher (s0 : shared_server) (steps : list nat) : Prop :=
  u = false /\ exists l i l' s r resp, steps = l ++ i :: l' /\ thread_steps u hasher s0 l = Ok s
    /\ threads s !! i = Some (r, Running (Done (Ok resp))) /\ rq_method r = METHOD_GET.

Lemma get_unlocks_app `{Malloc} u hasher s s1 l l' : thread_steps u hasher s l = Ok s1 -> get_unlocks u hasher s1 l' -> get_unlocks u hasher s (l ++ l').
Proof.
  intros Hl (Hu & l1 & i & l2 & s2 & r & resp & -> & H1 & Hi & Hm). split; [done|]. exists (l ++ l1), i, l2, s2, r, resp.
  rewrite (assoc_L (++)), steps_app, Hl. by split_and!.
Qed.

Lemma step_unlock `{Malloc} u hasher s i s' : locks_ok hasher s -> thread_step true hasher s i = Ok s' ->
  thread_step u hasher s i = Ok s' \/ get_unlocks u hasher s [i].
Proof.
  intros Hlk. destruct u; [by left|]. intros Hs.
  destruct (threads s !! i) as [[r c]|] eqn:Hi; [|by left; unfold thread_step in *; rewrite Hi in *].
  unfold thread_step in *. rewrite Hi in *. destruct c as [|[res|X f k]|resp]; [by left| |by left..].
  destruct res as [resp| |]; [|done..]. cbn [mbind result_bind] in *.
  destruct (decide (rq_method r = METHOD_GET)) as [Hm|Hm]; [right; split; [done|]; by exists [], i, [], s, r, resp|left].
  unfold leave in *. destruct (locking r) as [l|] eqn:El; [|done].
  destruct (Hlk _ (bucket_bound hasher (rq_key r))) as (mu & Hmu & [Hw _ _]). rewrite Hmu in *. cbn [lift mbind result_bind] in *.
  assert (l = Exclusive) as -> by (revert El; unfold locking; repeat case_bool; congruence).
  assert (writer mu = Some i) as Hwi by (apply Hw; by exists r, (Done (Ok resp))). unfold unlock in *. by rewrite decide_True in * by done.
Qed.

(** Executions that an invariant allows, on both kinds of machine. *)
Lemma steps_unlock `{Malloc} u hasher (I : shared_server -> Prop) s l : (forall s, I s -> locks_ok hasher s) ->
  (forall s i, I s -> exists s', thread_step true hasher s i = Ok s' /\ I s') -> I s ->
  (exists s', thread_steps u hasher s l = Ok s' /\ I s') \/ get_unlocks u hasher s l.
Proof.
  intros Hlk Hstep. revert s. induction l as [|i l IH]; intros s Hs; cbn [thread_steps]; [by eauto|].
  destruct (Hstep s i Hs) as (s1 & E & Hs1).
  destruct (step_unlock u hasher s i s1 (Hlk s Hs) E) as [E'|(Hu & l1 & i' & l2 & s2 & r & resp & El & H1 & Hi & Hm)].
  - rewrite E'. destruct (IH s1 Hs1) as [Hl|Hl]; [by left|right]. apply (get_unlocks_app u hasher s s1 [i]); [|done].
    cbn [thread_steps]. by rewrite E'.
  - right. split; [done|]. exists l1, i', (l2 ++ l), s2, r, resp. split; [|done]. change (i :: l) with ([i] ++ l). rewrite El.
    by rewrite <- (assoc_L (++)).
Qed.

(** ** The theorems *)

(** C2: However the calls of the handlers interleave, the requests that the workers handle
    at the same time are answered as if they came one after the other, in the order in
    which they are answered: the responses are those of the map, and when no handler is
    running the storage is that map. Later answers only add to this order, so that a
    request answered before another is begun comes before it. The keys name files of the
    directory ([plain]) and none is another with ".tmp" behind it, and the calls of the
    libraries work. The only undefined step can be the [unlock] with which a GET gives back
    its shared lock, which the C++ standard leaves undefined; on a machine where it releases
    the lock ([u] is [true]) there is none. *)
Theorem requests_linear `{Malloc} hasher keys u m st rs l1 l2 : (forall n, 0 <= n < 2 ^ 31 -> malloc n <> None) ->
  safe_keys keys -> (forall k, is_Some (m !! k) -> k ∈ keys) ->
  represents st m -> small m -> plan st = [] -> Forall (ok_request keys) rs ->
  (exists s1 s, thread_steps u hasher (start st rs) l1 = Ok s1 /\ thread_steps u hasher s1 l2 = Ok s
    /\ log s1 `prefix_of` log s /\ NoDup (log s)
    /\ Forall2 (fun i x => rs !! i = Some x.1 /\ threads s !! i = Some (x.1, Answered x.2)) (log s) (history s)
    /\ (forall i r resp, threads s !! i = Some (r, Answered resp) -> i ∈ log s)
    /\ answers (history s) = (spec_run m (history s).*1).1
    /\ ((forall i r p, threads s !! i <> Some (r, Running p)) -> represents (store s) (object_map m s)))
  \/ get_unlocks u hasher (start st rs) (l1 ++ l2).
Proof.
  intros Hmem Hsafe Hkeys Hr Hsm Hpl Hrs. assert (can_unlock true rs) as Hu by by left.
  pose proof (start_good hasher keys (place st) st rs eq_refl Hrs Hpl) as Hg0.
  set (I := good hasher keys (place st) st rs) in *.
  assert (forall s, I s -> locks_ok hasher s) as Hlk by (intros s0 (_ & S & HS); apply (se_locks _ _ _ _ _ _ _ _ HS)).
  assert (forall s i, I s -> exists s', thread_step true hasher s i = Ok s' /\ I s') as Hstep
    by (intros; by apply (step_good hasher keys m (place st) Hmem Hsafe st rs true Hu Hr Hsm Hkeys Hrs)).
  destruct (steps_unlock u hasher I (start st rs) l1 Hlk Hstep Hg0) as [(s1 & H1 & Hg1)|Hbad]; [|right].
  2: { destruct Hbad as (Hu' & l & i & l' & s0 & r & resp & -> & ?). split; [done|]. exists l, i, (l' ++ l2), s0, r, resp. by rewrite <- (assoc_L (++)). }
  destruct (steps_unlock u hasher I s1 l2 Hlk Hstep Hg1) as [(s & H2 & Hg)|Hbad]; [left|right; by eapply get_unlocks_app].
  exists s1, s. destruct (steps_frame _ _ _ _ _ H1) as [Hf1 _], (steps_frame _ _ _ _ _ H2) as [Hf2 Hpre].
  pose proof Hg as [_ [S HS]]. destruct (se_log _ _ _ _ _ _ _ _ HS) as [Hnd Hl].
  destruct (good_serial hasher keys m (place st) Hmem Hsafe st rs Hr Hsm Hkeys Hrs s S HS) as (_ & _ & _ & Ha). split_and!; try done.
  - eapply Forall2_impl; [by apply history_spec|]. intros i [r resp] Hi. split; [|done].
    assert ((threads s).*1 !! i = Some r) as Hri by (by rewrite list_lookup_fmap, Hi).
    rewrite Hf2, Hf1 in Hri. cbn in Hri. by rewrite <- list_fmap_compose, list_fmap_id in Hri.
  - intros i r resp Hi. apply Hl. unfold answer_of. rewrite Hi. by eexists.
  - by apply (good_quiet hasher keys m (place st) Hmem Hsafe st rs Hr Hsm Hkeys Hrs).
Qed.

(** C16: Whatever has been done, the handlers can go on until every request is answered: no
    mutex is kept and no thread waits for ever. The keys and the calls are as above, and
    either [unlock] releases a shared lock ([u] is [true]) or no request is a GET. *)
Theorem requests_finish `{Malloc} hasher keys u m st rs l1 : (forall n, 0 <= n < 2 ^ 31 -> malloc n <> None) ->
  safe_keys keys -> (forall k, is_Some (m !! k) -> k ∈ keys) ->
  represents st m -> small m -> plan st = [] -> Forall (ok_request keys) rs -> can_unlock u rs ->
  exists s1 l2 s, thread_steps u hasher (start st rs) l1 = Ok s1 /\ thread_steps u hasher s1 l2 = Ok s
    /\ (threads s).*1 = rs /\ forall i r c, threads s !! i = Some (r, c) -> exists resp, c = Answered resp.
Proof.
  intros Hmem Hsafe Hkeys Hr Hsm Hpl Hrs Hu.
  pose proof (start_good hasher keys (place st) st rs eq_refl Hrs Hpl) as Hg0.
  destruct (steps_good hasher keys m (place st) Hmem Hsafe st rs u Hu Hr Hsm Hkeys Hrs _ l1 Hg0) as (s1 & H1 & Hg1).
  destruct (all_finish hasher keys m (place st) Hmem Hsafe st rs u Hu eq_refl Hr Hsm Hkeys Hrs s1 Hg1) as (l2 & s & H2 & _ & Ha).
  exists s1, l2, s. split_and!; [done..| |exact Ha].
  destruct (steps_frame _ _ _ _ _ H1) as [Hf1 _], (steps_frame _ _ _ _ _ H2) as [Hf2 _]. rewrite Hf2, Hf1. cbn.
  by rewrite <- list_fmap_compose, list_fmap_id.
Qed.

(** [handleGet] takes its mutex with [lock_shared] and gives it back with [unlock]. By
    the C++ standard this is undefined, so every GET that has its answer is. *)
Theorem get_unlock_undefined `{Malloc} hasher st r resp st' : rq_method r = METHOD_GET ->
  handleGet r new_Response st = Ok (resp, st') ->
  exists n, thread_steps false hasher (start st [r]) (replicate n O) = Undefined.
Proof.
  intros Hm Hget.
  assert (locking r = Some Shared) as Hl by (unfold locking; by rewrite Hm).
  set (b := bucket hasher (rq_key r)). assert (b < 16)%nat as Hb by apply bucket_bound.
  set (mu := {| writer := None; readers := {[ O ]} ∪ ∅ |}).
  set (s1 := with_thread (with_mutex (start st [r]) b mu) O (r, Running (respond_calls r))).
  assert (thread_step false hasher (start st [r]) O = Ok s1) as H1.
  { unfold thread_step. cbn [start threads fmap list_fmap lookup list_lookup]. unfold enter. rewrite Hl. fold b.
    assert (mutexes (start st [r]) !! b = Some new_mutex) as -> by (by apply lookup_replicate_2). done. }
  assert (run (respond_calls r) (store s1) = Ok (resp, st')) as Hrun.
  { rewrite run_respond. unfold respond. by rewrite Hm. }
  destruct (running_ends hasher false s1 O r (respond_calls r) resp st' eq_refl Hrun) as (n & s2 & Hn & Hi2 & _ & Hmu2).
  exists (S n + 1)%nat. rewrite replicate_add, steps_app. cbn [replicate thread_steps]. rewrite H1. cbn [mbind result_bind].
  rewrite Hn. cbn [mbind result_bind]. unfold thread_step. rewrite Hi2. cbn [mbind result_bind]. unfold leave. rewrite Hl, Hmu2.
  fold b. unfold s1 at 1. cbn [mutexes with_thread with_mutex start].
  rewrite list_lookup_insert_eq by (rewrite length_replicate; exact Hb). cbn [lift mbind result_bind].
  unfold unlock, mu. cbn [writer readers]. rewrite decide_False, decide_True by (done || set_solver). done.
Qed.

(** ** Instances *)

(** A hash that tells "k" and "k.tmp" apart. *)
Definition length_hash (l : list Z) : Z := Z.of_nat (length l).

Definition demo_keys : gset (list Z) := {[ key_k ]}.

Lemma demo_keys_safe : safe_keys demo_keys.
Proof.
  unfold demo_keys. intros k ->%elem_of_singleton. split; [apply plain_k|]. rewrite elem_of_singleton. apply tmp_longer.
Qed.

Lemma demo_keys_map k : is_Some (one_object !! k) -> k ∈ demo_keys.
Proof. unfold one_object, demo_keys. intros [v Hv%lookup_singleton_Some]. set_solver. Qed.

(** Writing and reading the same key. *)
Definition demo_requests : list Request := [put_k; get_k; get_k].

Lemma demo_requests_ok : Forall (ok_request demo_keys) demo_requests.
Proof. repeat constructor; try (unfold demo_keys; set_solver); cbn; try lia; try done. Qed.

(** One GET has the lock while the PUT and the other GET come; then the PUT waits. *)
Definition demo_start : list nat := [1; 1; 0; 2; 1; 0; 2; 2]%nat.
Definition demo_end : list nat := replicate 20 1%nat ++ replicate 20 2%nat ++ replicate 20 0%nat.

Lemma requests_linear_witness : exists s1 s,
  thread_steps true length_hash (start (store_of one_object []) demo_requests) demo_start = Ok s1
  /\ thread_steps true length_hash s1 demo_end = Ok s
  /\ answers (history s) = (spec_run one_object (history s).*1).1.
Proof.
  destruct (requests_linear length_hash demo_keys true one_object (store_of one_object []) demo_requests demo_start demo_end)
    as [(s1 & s & H1 & H2 & _ & _ & _ & _ & Ha & _)|[Hu _]];
    [exact glibc_enough|exact demo_keys_safe|exact demo_keys_map|apply store_of_represents, one_object_plain|exact one_object_small|reflexivity
    |exact demo_requests_ok| |discriminate]. by exists s1, s.
Defined.

(** In this execution all three are answered, the readers first. *)
Example demo_history : exists s,
  thread_steps true length_hash (start (store_of one_object []) demo_requests) (demo_start ++ demo_end) = Ok s
  /\ log s = [1; 2; 0]%nat /\ answers (history s) = [(RESP_OK, [1; 2]); (RESP_OK, [1; 2]); (RESP_OK, [])].
Proof. eexists. split; [vm_compute; reflexivity|]. split; vm_compute; reflexivity. Qed.

Lemma requests_finish_witness : exists s1 l2 s,
  thread_steps true length_hash (start (store_of one_object []) demo_requests) demo_start = Ok s1
  /\ thread_steps true length_hash s1 l2 = Ok s /\ (threads s).*1 = demo_requests
  /\ forall i r c, threads s !! i = Some (r, c) -> exists resp, c = Answered resp.
Proof.
  apply (requests_finish length_hash demo_keys true one_object (store_of one_object []) demo_requests demo_start);
    [exact glibc_enough|exact demo_keys_safe|exact demo_keys_map|apply store_of_represents, one_object_plain|exact one_object_small|reflexivity
    |exact demo_requests_ok|by left].
Defined.

Lemma get_unlock_undefined_witness : exists n,
  thread_steps false length_hash (start (store_of one_object []) [get_k]) (replicate n O) = Undefined.
Proof. eapply (get_unlock_undefined length_hash (store_of one_object []) get_k); [reflexivity|vm_compute; reflexivity]. Defined.
