(* ===== verification/ObjFaults.v ===== *)
(** Handlers whose library calls interleave and fail: they do what they do one after the
    other, and implement a map whose operations may fail, in the ways that the calls which
    fail allow. *)

From S2P Require Import Prelude Result ChatWire ObjWire ObjWireProps ObjConn ObjStore ObjStoreProps ObjShared ObjLocal ObjSerial ObjSharedProps.
#[local] Open Scope Z_scope.

(** ** A map whose operations may fail *)

(** What is answered to a request whose calls have the outcomes [p], and the map after it.
    If no call fails ([works]) these are the rules of the map [spec]. *)
Inductive allowed (m : gmap (list Z) (list Z)) (r : Request) (p : list outcome) : Z * list Z -> gmap (list Z) (list Z) -> Prop :=
| put_stores : rq_method r = METHOD_PUT -> rq_buf r <> None ->
    allowed m r p (RESP_OK, []) (<[rq_key r := request_data r]> m)
| put_loses n : rq_method r = METHOD_PUT -> rq_buf r <> None -> ~ works p ->
    allowed m r p (RESP_OK, []) (<[rq_key r := take n (request_data r)]> m)
| put_fails : rq_method r = METHOD_PUT -> rq_buf r = None \/ ~ works p -> allowed m r p (RESP_EXCEPTION, []) m
| put_damages n : rq_method r = METHOD_PUT -> rq_buf r <> None -> head p = Some Fails ->
    allowed m r p (RESP_EXCEPTION, []) (<[rq_key r := take n (request_data r)]> m)
| get_delivers v : rq_method r = METHOD_GET -> m !! rq_key r = Some v -> allowed m r p (RESP_OK, v) m
| get_misses : rq_method r = METHOD_GET -> m !! rq_key r = None -> allowed m r p (RESP_NOT_FOUND, []) m
| get_fails status : rq_method r = METHOD_GET -> status = RESP_NOT_FOUND \/ status = RESP_EXCEPTION -> ~ works p ->
    allowed m r p (status, []) m
| delete_removes : rq_method r = METHOD_DELETE -> m !! rq_key r <> None -> allowed m r p (RESP_OK, []) (delete (rq_key r) m)
| delete_misses : rq_method r = METHOD_DELETE -> m !! rq_key r = None -> allowed m r p (RESP_NOT_FOUND, []) m
| delete_fails status : rq_method r = METHOD_DELETE -> status = RESP_NOT_FOUND \/ status = RESP_EXCEPTION -> ~ works p ->
    allowed m r p (status, []) m
| delete_hides : rq_method r = METHOD_DELETE -> ~ works p -> allowed m r p (RESP_NOT_FOUND, []) (delete (rq_key r) m)
| invalid : locking r = None -> allowed m r p (RESP_INVALID, []) m.

(** Requests with their answers, from a map to a map. *)
Inductive allowed_run : gmap (list Z) (list Z) -> list (Request * list outcome * (Z * list Z)) -> gmap (list Z) (list Z) -> Prop :=
| run_nil m : allowed_run m [] m
| run_cons m r p a m1 l m2 : allowed m r p a m1 -> allowed_run m1 l m2 -> allowed_run m ((r, p, a) :: l) m2.

Section Faults.
Context `{Malloc} (hasher : list Z -> Z) (keys : gset (list Z)).
Context (Hsafe : safe_keys keys).

Definition within (m : gmap (list Z) (list Z)) : Prop := measured m /\ forall k, is_Some (m !! k) -> k ∈ keys.

Lemma within_insert m r n : within m -> ok_request keys r -> within (<[rq_key r := take n (request_data r)]> m).
Proof.
  intros [Hsm Hk] [Hrk Hd Hl]. split; intros k.
  - intros v [[<- <-]|[_ Hv]]%lookup_insert_Some; [|by eapply Hsm]. unfold request_data. revert Hd. destruct (rq_buf r) as [b|]; cbn; intros Hd.
    + rewrite !length_take. lia.
    + rewrite length_take. cbn. lia.
  - intros [v [[<- _]|[_ Hv]]%lookup_insert_Some]; [done|]. apply Hk. by rewrite Hv.
Qed.

Lemma within_delete m k : within m -> within (delete k m).
Proof.
  intros [Hsm Hk]. split; intros k'.
  - intros v [_ Hv]%lookup_delete_Some. by eapply Hsm.
  - intros [v [_ Hv]%lookup_delete_Some]. apply Hk. by rewrite Hv.
Qed.

(** What keeps a map within the keys. *)
Lemma allowed_within m r p a m' : within m -> ok_request keys r -> allowed m r p a m' -> within m'.
Proof.
  intros Hw Hok. destruct 1; try done; try by apply within_delete. 2,3: by apply within_insert.
  rewrite <- (firstn_all (request_data r)). by apply within_insert.
Qed.

(** A DELETE whose lookup fails removes the file and keeps the key ([faults_hurt]). *)
Definition attempt (x : Request * list outcome) : Prop :=
  ok_request keys x.1 /\ (rq_method x.1 = METHOD_DELETE -> head x.2 <> Some Fails).

(** Why a handler can be undefined: the file of a PUT or a GET could not be opened, or there
    is no memory for the object. *)
Definition hopeless (x : Request * list outcome) : Prop :=
  (rq_method x.1 = METHOD_PUT \/ rq_method x.1 = METHOD_GET) /\ x.2 !! 1%nat = Some Fails
  \/ rq_method x.1 = METHOD_GET /\ exists n, 0 <= n < 2 ^ 31 /\ malloc n = None.

Lemma respond_allowed m r st p : within m -> represents st m -> attempt (r, p) ->
  match respond r (with_plan st p) with
  | Ok (resp, st') => exists m', allowed m r p (rs_status resp, response_data resp) m' /\ represents st' m'
  | _ => hopeless (r, p)
  end.
Proof.
  intros [Hsm Hk] Hr [[Hrk Hd _] Hp]. cbn [fst snd] in *. destruct (Hsafe _ Hrk) as [Hkey Ht].
  unfold respond, hopeless. cbn [handlePut handleGet handleDelete object_storage fst snd].
  assert (forall a, rs_len a = 0 -> rs_buf a = None -> response_data a = []) as Hempty
    by (intros a Hl Hb; unfold response_data; by rewrite Hl, Hb).
  assert (m !! (rq_key r ++ tmp) = None) as Hnone
    by (destruct (m !! (rq_key r ++ tmp)) eqn:E; [|done]; destruct Ht; apply Hk; by rewrite E).
  case_bool.
  - destruct (rq_buf r) as [b|] eqn:Eb.
    + destruct (put_cases m r (with_plan st p)) as [[-> Hn]|(a & st1 & n & -> & Hl & Hbuf & _ & _ & Hc)]; rewrite ?Eb; try done; [by auto|].
      assert (rq_buf r <> None) as Hb by (by rewrite Eb). rewrite Hempty by done.
      destruct Hc as [(-> & Hc & [->|Hw%last_fails_works])|(-> & Hw & [Hc|[Hf Hc]])]; eexists; (split; [|exact Hc]).
      * rewrite firstn_all2; [by apply put_stores|]. unfold request_data. rewrite Eb. cbn. rewrite length_take. lia.
      * by apply put_loses.
      * apply put_fails; auto.
      * by apply put_damages.
    + unfold put_object. rewrite Eb. exists m. split; [|done]. rewrite Hempty by done. apply put_fails; auto.
  - destruct (get_cases m r (with_plan st p) Hr Hsm) as [(-> & v & Hv & Hn)|(a & st1 & -> & Hask & Hc)].
    { destruct Hn as [Hn|Hn]; [by auto|]. right. split; [done|]. exists (Z.of_nat (length v)). split; [|done]. specialize (Hsm _ _ Hv). lia. }
    exists m. split; [|by eapply represents_asked].
    destruct Hc as [(-> & v & Hv & _ & -> & _)|(Hl & Hb & Hs)]; [by apply get_delivers|]. rewrite Hempty by done.
    destruct Hs as [[-> [Hno|Hw]]|[-> Hw]]; [by apply get_misses|apply get_fails; auto..].
  - destruct (delete_cases m r (with_plan st p) Hr Hkey) as (a & st1 & -> & Hl & Hb & _ & _ & Hc & _). rewrite Hempty by done.
    destruct (Hc (Hp e)) as [(-> & H1 & Hin)|[(-> & H1 & Hw)|(-> & [[H1 [Hno|Hw]]|[H1 Hw]])]]; eexists; (split; [|exact H1]).
    + by apply delete_removes.
    + apply delete_fails; auto.
    + by apply delete_misses.
    + apply delete_fails; auto.
    + by apply delete_hides.
  - exists m. split; [|done]. apply invalid. unfold locking. by repeat case_bool.
Qed.

Lemma serial_allowed m st l : within m -> represents st m -> Forall attempt l ->
  match serial st l with
  | Ok (resps, st') => exists m', allowed_run m (zip l ((fun a => (rs_status a, response_data a)) <$> resps)) m' /\ represents st' m' /\ within m'
  | _ => Exists hopeless l
  end.
Proof.
  revert m st. induction l as [|[r p] l IH]; intros m st Hw Hr Hl; cbn [serial].
  { exists m. split; [constructor|by split]. }
  apply Forall_cons_1 in Hl as [Hat Hl]. pose proof (respond_allowed m r st p Hw Hr Hat) as Hresp.
  destruct (respond r (with_plan st p)) as [[resp st1]| |]; cbn [mbind result_bind]; [|by left..].
  destruct Hresp as (m1 & Ha & Hr1). specialize (IH m1 st1 (allowed_within _ _ _ _ _ Hw (proj1 Hat) Ha) Hr1 Hl).
  destruct (serial st1 l) as [[resps st2]| |]; cbn [mbind result_bind]; [|by right..].
  destruct IH as (m2 & Hrun & Hr2 & Hw2). exists m2. split; [|by split]. cbn. by eapply run_cons.
Qed.

End Faults.

(** The answered requests, with the outcomes of their calls and with what was answered, in
    the order of the answers. *)
Definition answered (reqs : list (Request * list outcome)) (s : shared_server) : list (Request * list outcome * (Z * list Z)) :=
  zip (omap (fun i => reqs !! i) (log s)) (answers (history s)).

(** Whatever calls fail and however the calls interleave, as long as no handler is undefined
    the responses, and the storage of every key that nobody writes, are those of the handlers
    run one after the other in the order of the answers, each with the same outcomes of its
    calls; and a handler is undefined only if one is in such an order. *)
Theorem faults_serialize `{Malloc} (hasher : list Z -> Z) (keys : gset (list Z)) u (st : storage) (reqs : list (Request * list outcome)) (l : list nat) :
  safe_keys keys -> can_unlock u reqs.*1 -> Forall (fun x => rq_key x.1 ∈ keys) reqs ->
  match fault_steps u hasher (start st reqs.*1, reqs.*2) l with
  | Ok (s, _) => exists S, serial st (omap (fun i => reqs !! i) (log s)) = Ok ((history s).*2, S)
      /\ forall k, k ∈ keys -> ~ written s k ->
         meta (store s) !! k = meta S !! k /\ files (store s) !! path (store s) k = files S !! path S k
  | _ => exists done i, NoDup (done ++ [i]) /\ forall a, serial st (omap (fun i => reqs !! i) (done ++ [i])) <> Ok a
  end.
Proof.
  intros Hsafe Hu Hk. pose proof (start_serializes hasher keys (place st) reqs st eq_refl Hk) as Hs0.
  pose proof (steps_serialize hasher keys (place st) Hsafe reqs st u Hu _ _ _ l Hs0) as Hs.
  destruct (fault_steps _ _ _ _) as [[s ps]| |]; [|done..]. destruct Hs as [S Hs]. exists S.
  split; [apply (se_serial _ _ _ _ _ _ _ _ Hs)|]. intros k Hin Hw.
  destruct (se_object _ _ _ _ _ _ _ _ Hs k Hin Hw) as [_ Hm Hf]. cbn in Hm, Hf. split; [done|]. unfold path, file_path.
  rewrite (se_dir _ _ _ _ _ _ _ _ Hs), (se_dir' _ _ _ _ _ _ _ _ Hs). apply Hf. by left.
Qed.

(** C3: Whichever library calls fail, and however the calls of the handlers interleave: the
    requests are answered as by a map whose operations may fail, one after the other in the
    order of the answers. A PUT that is answered OK has stored its whole object, or, when a
    call of it failed ([fclose], the last one), a beginning of it. A PUT that is answered
    EXCEPTION has left every object as it was, or, when its lookup in the metadata failed, a
    beginning of its object. A GET has delivered the object, and none only if there is none or
    a call of it failed. A DELETE whose calls work removes the object. When no handler is
    running the storage is that map. A step is undefined only if one of the handlers is
    hopeless: the file of a PUT or a GET cannot be opened, or there is no memory for the object
    of a GET. The keys name files of the directory ([plain]) and none is another with ".tmp"
    behind it, the lookup of a DELETE works, and [unlock] releases a shared lock or no request
    is a GET. *)
Theorem faults_linear `{Malloc} (hasher : list Z -> Z) (keys : gset (list Z)) u m (st : storage) (reqs : list (Request * list outcome)) (l : list nat) :
  safe_keys keys -> (forall k, is_Some (m !! k) -> k ∈ keys) -> represents st m -> measured m ->
  Forall (attempt keys) reqs -> can_unlock u reqs.*1 ->
  match fault_steps u hasher (start st reqs.*1, reqs.*2) l with
  | Ok (s, _) => (threads s).*1 = reqs.*1 /\ NoDup (log s) /\ (forall i, i ∈ log s <-> is_Some (answer_of s i))
      /\ exists m', allowed_run m (answered reqs s) m'
         /\ ((forall i r p, threads s !! i <> Some (r, Running p)) -> represents (store s) m')
  | _ => Exists hopeless reqs
  end.
Proof.
  intros Hsafe Hk Hr Hsm Hreqs Hu. assert (Forall (fun x => rq_key x.1 ∈ keys) reqs) as Hkeys
    by (eapply Forall_impl; [exact Hreqs|]; by intros x [[? _ _] _]).
  pose proof (start_serializes hasher keys (place st) reqs st eq_refl Hkeys) as Hs0.
  pose proof (steps_serialize hasher keys (place st) Hsafe reqs st u Hu _ _ _ l Hs0) as Hs.
  assert (forall ids, Forall (attempt keys) (omap (fun i => reqs !! i) ids)) as Hat.
  { intros ids. apply Forall_forall. intros x Hx. apply list_elem_of_omap in Hx as (i & _ & Hi). by apply (Forall_lookup_1 _ _ _ _ Hreqs Hi). }
  assert ((exists done i, NoDup (done ++ [i]) /\ forall a, serial st (omap (fun i => reqs !! i) (done ++ [i])) <> Ok a) -> Exists hopeless reqs) as Hbad.
  { intros (done & i & _ & Hno). pose proof (serial_allowed keys Hsafe m st _ (conj Hsm Hk) Hr (Hat (done ++ [i]))) as Hser.
    assert (Exists hopeless (omap (fun i => reqs !! i) (done ++ [i]))) as Hex by (destruct (serial _ _) as [a| |]; [by destruct (Hno a)|exact Hser..]).
    apply Exists_exists in Hex as (x & Hx & Hp). apply Exists_exists. exists x. split; [|done].
    apply list_elem_of_omap in Hx as (j & _ & Hj). by eapply list_elem_of_lookup_2. }
  destruct (fault_steps _ _ _ _) as [[s ps]| |]; [|by apply Hbad..]. destruct Hs as [S Hs].
  destruct (se_log _ _ _ _ _ _ _ _ Hs) as [Hnd Hl]. split; [apply (se_requests _ _ _ _ _ _ _ _ Hs)|]. split; [done|]. split; [done|].
  pose proof (serial_allowed keys Hsafe m st _ (conj Hsm Hk) Hr (Hat (log s))) as Hser.
  pose proof (se_serial _ _ _ _ _ _ _ _ Hs) as E. unfold order in E. rewrite E in Hser.
  destruct Hser as (m' & Hrun & Hr' & _ & Hk'). exists m'. split; [|intros Hno; by eapply serializes_quiet].
  unfold answered, answers. by rewrite <- list_fmap_compose in Hrun.
Qed.

(** ** An instance *)

(** The PUT stops after one character; the GETs come before and after. *)
Definition faulty_requests : list (Request * list outcome) :=
  [(put_k, [Works; Works; Works; Short 1; Fails]); (get_k, []); (get_k, [Works; Works; Fails])].

Lemma faulty_requests_attempt : Forall (attempt demo_keys) faulty_requests.
Proof. repeat constructor; try (unfold demo_keys; set_solver); cbn; try lia; try done. Qed.

Definition faulty_schedule : list nat := [1; 1; 0; 2; 1; 0; 2; 2]%nat ++ demo_end.

Lemma faults_linear_witness : exists s ps,
  fault_steps true length_hash (start (store_of one_object []) faulty_requests.*1, faulty_requests.*2) faulty_schedule = Ok (s, ps)
  /\ (answered faulty_requests s).*2 = [(RESP_OK, [1; 2]); (RESP_EXCEPTION, []); (RESP_EXCEPTION, [])]
  /\ exists m', allowed_run one_object (answered faulty_requests s) m'.
Proof.
  pose proof (faults_linear length_hash demo_keys true one_object (store_of one_object []) faulty_requests faulty_schedule
    demo_keys_safe demo_keys_map (store_of_represents one_object [] one_object_plain) (small_measured _ one_object_small)
    faulty_requests_attempt (or_introl eq_refl)) as Hf.
  destruct (fault_steps true length_hash (start (store_of one_object []) faulty_requests.*1, faulty_requests.*2) faulty_schedule)
    as [[s ps]| |] eqn:E; [|vm_compute in E; discriminate E..].
  exists s, ps. split; [done|]. split; [|by destruct Hf as (_ & _ & _ & m' & Ha & _); exists m'].
  vm_compute in E. injection E as <- <-. vm_compute. reflexivity.
Defined.
