(* ===== verification/ObjClient.v ===== *)
(** The client of the object storage (src/cpp-object-storage-demo/client.cpp) and the
    two programs together: what a client sees of a server is the map from keys to
    objects, whatever the network does to the bytes in between. *)

From S2P Require Import Prelude Result ChatWire ObjWire ObjWireProps ObjConn ObjConnProps ObjStore ObjStoreProps.
#[local] Open Scope Z_scope.

(** ** The client *)

Section Client.
Context `{Malloc}.

(** The part the three operations share: send the request, receive the response. *)
Definition request_response (req : Request) (resp : Response) (s : socket) : io (Response * socket) :=
  '(w, s) ← Request_write req s;
  if w <? 0 then Done (setRespStatus resp RESP_EXCEPTION, s) else
  '(ret, resp, s) ← Response_read resp s;
  if ret <? 0 then Done (setRespStatus resp RESP_EXCEPTION, s) else Done (resp, s).

Definition Client_get (key : list Z) (resp : Response) (s : socket) : io (Response * socket) :=
  request_response (setLen (setMethod (setKey new_Request key) METHOD_GET) 0) resp s.

Definition Client_put (key : list Z) (buf : option (list Z)) (len : Z) (resp : Response) (s : socket) :
    io (Response * socket) :=
  request_response (setBuf (setLen (setMethod (setKey new_Request key) METHOD_PUT) len) buf) resp s.

Definition Client_del (key : list Z) (resp : Response) (s : socket) : io (Response * socket) :=
  request_response (setLen (setMethod (setKey new_Request key) METHOD_DELETE) 0) resp s.

(** [Client::save], on the files of the client. *)
Definition save (path key : list Z) (resp : Response) (st : storage) : result (Z * storage) :=
  match rs_buf resp with
  | None => Ok (-1, st)
  | Some buf =>
    let '(io, st) := open_file path key wb_plus st in
    '(w, io, st) ← writeData io buf (rs_len resp) st;
    if w <? rs_len resp then Ok (-1, close_file io st) else Ok (0, close_file io st)
  end.

End Client.

(** ** Client and server *)

Inductive op := Get (key : list Z) | Put (key buf : list Z) | Del (key : list Z).

(** The request of an operation. *)
Definition op_request (o : op) : Request :=
  match o with
  | Get key => {| rq_len := 0; rq_method := METHOD_GET; rq_key := key; rq_buf := None |}
  | Put key buf => {| rq_len := Z.of_nat (length buf); rq_method := METHOD_PUT; rq_key := key; rq_buf := Some buf |}
  | Del key => {| rq_len := 0; rq_method := METHOD_DELETE; rq_key := key; rq_buf := None |}
  end.

Definition op_key (o : op) : list Z := match o with Get k | Put k _ | Del k => k end.

(** A key that is a C string, and data that fits in a message. *)
Record op_ok (o : op) : Prop := {
  op_chars : Forall (fun c => is_byte c /\ c <> 0) (op_key o);
  op_data : match o with Put _ buf => 0 < Z.of_nat (length buf) /\ Forall is_byte buf | _ => True end;
  op_size : rq_len (op_request o) + 16 + Z.of_nat (length (op_key o)) < 2 ^ 31
}.

Lemma op_key_request o : rq_key (op_request o) = op_key o.
Proof. by destruct o. Qed.

Lemma op_wf o : op_ok o -> wf_request (op_request o).
Proof.
  intros [Hk Hd Hs]. split; rewrite ?op_key_request; [by destruct o| |destruct o; cbn in *; lia|done].
  by eapply Forall_impl; [exact Hk|intros ? []].
Qed.


(** A key that names a file of the directory, and not the temporary file of another. *)
Definition good_key (key : list Z) : Prop := plain key /\ forall k, key <> k ++ tmp.



(** The same request in another memory has the same meaning. *)
Lemma spec_same m r r' : holds (rq_len r) (rq_buf r) -> same_request r r' -> spec m r' = spec m r.
Proof.
  intros Hh (Hl & Hm & Hk & Hd & Hh'). unfold spec. rewrite Hm, Hk. unfold request_data in Hd. rewrite Hd.
  rewrite Hl in Hh'. destruct (rq_buf r), (rq_buf r'); cbn in *; (done || lia).
Qed.

Section Together.
Context `{Malloc}.
Hypothesis memory_enough : forall n, 0 <= n < 2 ^ 31 -> malloc n <> None.

(** The storage of the server with working libraries, as the map from keys to objects. *)
#[export] Program Instance storage_contract : Contract storage (gmap (list Z) (list Z)) := {|
  stands_for st m := represents st m /\ plan st = [];
  allowed m r := small m /\ plain (rq_key r) /\ holds (rq_len r) (rq_buf r)
    /\ (rq_method r = METHOD_PUT -> m !! (rq_key r ++ tmp) = None);
  does := spec
|}.
Next Obligation.
  intros st m r r' [Hr Hpl] (Hsm & Hkey & Hh & Htmp) Hsame. pose proof Hsame as (Hl & Hm & Hk & Hd & Hh').
  rewrite <- (spec_same m r r' Hh Hsame).
  destruct (store_refines m r' st memory_enough Hr Hsm Hpl) as (resp & st' & ? & ? & ? & ? & ?);
    [by rewrite Hk|done|by rewrite Hm, Hk|by exists resp, st'].
Qed.




End Together.

(** ** The client's side *)

(** The operation of the client. *)
Definition call `{Malloc} (o : op) (resp : Response) (s : socket) : io (Response * socket) :=
  match o with
  | Get key => Client_get key resp s
  | Put key buf => Client_put key (Some buf) (Z.of_nat (length buf)) resp s
  | Del key => Client_del key resp s
  end.

Lemma call_request `{Malloc} o resp s : call o resp s = request_response (op_request o) resp s.
Proof. by destruct o. Qed.

(** The response with a status and data. *)
Definition response_of (x : Z * list Z) : Response :=
  {| rs_len := Z.of_nat (length x.2); rs_status := x.1;
     rs_buf := match x.2 with [] => None | l => Some l end |}.

Lemma response_of_data x : response_data (response_of x) = x.2.
Proof.
  destruct x as [s [|c l]]; [done|]. unfold response_data, response_of. cbn [rs_len rs_buf snd content].
  rewrite Nat2Z.id. apply firstn_all.
Qed.

Lemma response_of_wf x : is_int x.1 -> Z.of_nat (length x.2) + 12 < 2 ^ 31 -> wf_response (response_of x).
Proof. intros Hs Hl. split; [done| |done]. destruct x as [s [|c l]]; cbn in *; lia. Qed.

Section Calls.
Context `{Malloc}.

(** A request and its response, with what they leave for the next call. *)
Lemma request_spec r s x rest b : wf_request r -> is_open s = true ->
  malloc (rq_len r + 16) = Some b -> rq_len r + 16 + Z.of_nat (length (rq_key r)) <= Z.of_nat (length b) ->
  (length (frame (request_payload r)) <= capacity (rooms s))%nat ->
  is_int x.1 -> Z.of_nat (length x.2) + 12 < 2 ^ 31 -> stream (net s) = response_bytes x ++ rest ->
  (0 < Z.of_nat (length x.2) -> exists b', malloc (Z.of_nat (length x.2)) = Some b'
     /\ Z.of_nat (length x.2) < Z.of_nat (length b')) ->
  exists resp s', request_response r new_Response s = Done (resp, s') /\ (rs_status resp, response_data resp) = x
    /\ rs_len resp = Z.of_nat (length x.2) /\ out s' = out s ++ frame (request_payload r)
    /\ stream (net s') = rest /\ is_open s' = true
    /\ capacity (rooms s) = (length (frame (request_payload r)) + capacity (rooms s'))%nat.
Proof.
  intros Hw Hopen Hb Hroom Hcap Hi Hl Hs Hmem. unfold request_response.
  destruct (Request_write_ok _ _ _ Hw Hopen Hb Hroom Hcap) as (rooms' & -> & Hcap').
  cbn [mbind io_bind]. pose proof (holds_nonneg _ _ (wrq_data _ Hw)).
  rewrite (proj2 (Z.ltb_ge _ 0)) by lia.
  pose proof (response_of_wf x Hi Hl) as Hwr.
  rewrite <- (response_bytes_ok (response_of x) x Hwr) in Hs
    by (rewrite response_of_data; by destruct x).
  destruct (Response_read_ok (response_of x) (Socket true (net s) rooms' (out s ++ frame (request_payload r)))
    rest Hwr eq_refl Hs Hmem) as (resp & net' & -> & Hn & Hlen & Hst & Hd).
  cbn [mbind io_bind]. rewrite (proj2 (Z.ltb_ge _ 0)) by (cbn [response_of rs_len]; lia).
  do 2 eexists. split; [done|]. rewrite Hst, Hd, response_of_data. cbn [net out rooms]. split_and!; try done. by destruct x.
Qed.

(** The block for the data of the response is too small. *)
Lemma request_wrong r s x rest b : wf_request r -> is_open s = true ->
  malloc (rq_len r + 16) = Some b -> rq_len r + 16 + Z.of_nat (length (rq_key r)) <= Z.of_nat (length b) ->
  (length (frame (request_payload r)) <= capacity (rooms s))%nat ->
  is_int x.1 -> Z.of_nat (length x.2) + 12 < 2 ^ 31 -> stream (net s) = response_bytes x ++ rest ->
  0 < Z.of_nat (length x.2) -> (forall b', malloc (Z.of_nat (length x.2)) = Some b' -> Z.of_nat (length b') <= Z.of_nat (length x.2)) ->
  request_response r new_Response s = Wrong.
Proof.
  intros Hw Hopen Hb Hroom Hcap Hi Hl Hs Hpos Hmem. unfold request_response.
  destruct (Request_write_ok _ _ _ Hw Hopen Hb Hroom Hcap) as (rooms' & -> & Hcap').
  cbn [mbind io_bind]. pose proof (holds_nonneg _ _ (wrq_data _ Hw)). rewrite (proj2 (Z.ltb_ge _ 0)) by lia.
  pose proof (response_of_wf x Hi Hl) as Hwr.
  rewrite <- (response_bytes_ok (response_of x) x Hwr) in Hs by (rewrite response_of_data; by destruct x).
  by rewrite (Response_read_overflow (response_of x) (Socket true (net s) rooms' (out s ++ frame (request_payload r))) rest Hwr eq_refl Hs Hpos Hmem).
Qed.

(** The blocks that [malloc] returns to a call: the one for the request, of which only
    [len + 16] characters are asked for, has room for the key too, and the one for the data of
    the response, of which only its length is asked for, has room for a NUL character. *)
Definition blocks_suffice (o : op) (x : Z * list Z) : bool :=
  match malloc (rq_len (op_request o) + 16) with
  | Some b => rq_len (op_request o) + 16 + Z.of_nat (length (op_key o)) <=? Z.of_nat (length b)
  | None => false
  end &&
  match x.2 with
  | [] => true
  | l => match malloc (Z.of_nat (length l)) with Some b => Z.of_nat (length l) <? Z.of_nat (length b) | None => false end
  end.

(** C14: Where the blocks that [malloc] returns are large enough, a call of the client sends
    exactly the frame of its request and returns the status and the data that the server
    answered, however the bytes arrive and the kernel divides the sending; the bytes behind
    the response stay for the next call. Otherwise the call writes outside of its blocks: the
    code asks for no room for the key and for the NUL character that it stores. *)
Theorem call_ok o s x rest : op_ok o -> is_open s = true ->
  (length (frame (request_payload (op_request o))) <= capacity (rooms s))%nat ->
  is_int x.1 -> Z.of_nat (length x.2) + 12 < 2 ^ 31 -> stream (net s) = response_bytes x ++ rest ->
  if blocks_suffice o x then
    exists resp s', call o new_Response s = Done (resp, s') /\ (rs_status resp, response_data resp) = x
      /\ out s' = out s ++ frame (request_payload (op_request o)) /\ stream (net s') = rest
  else call o new_Response s = Wrong.
Proof.
  intros Ho Hopen Hcap Hi Hl Hs. pose proof (op_wf o Ho) as Hw. rewrite call_request. unfold blocks_suffice.
  destruct (malloc (rq_len (op_request o) + 16)) as [b|] eqn:Eb.
  2: { unfold request_response, Request_write. pose proof (holds_nonneg _ _ (wrq_data _ Hw)).
       rewrite size_t_small, Eb; [done|]. destruct Ho as [_ _ ?]. lia. }
  destruct (Z.leb_spec (rq_len (op_request o) + 16 + Z.of_nat (length (op_key o))) (Z.of_nat (length b))) as [Hroom|Hsmall]; cbn [andb].
  2: { unfold request_response. rewrite (Request_write_overflow _ s b); [done|done|done|by rewrite op_key_request]. }
  rewrite <- op_key_request in Hroom.
  assert ((0 < Z.of_nat (length x.2) -> exists b', malloc (Z.of_nat (length x.2)) = Some b' /\ Z.of_nat (length x.2) < Z.of_nat (length b')) ->
    exists resp s', request_response (op_request o) new_Response s = Done (resp, s') /\ (rs_status resp, response_data resp) = x
      /\ out s' = out s ++ frame (request_payload (op_request o)) /\ stream (net s') = rest) as Hgood.
  { intros Hm. destruct (request_spec (op_request o) s x rest b) as (resp & s' & ? & ? & _ & ? & ? & _); try done. by exists resp, s'. }
  destruct x as [st [|c l]]; cbn [snd] in *; [apply Hgood; cbn; lia|].
  assert ((forall b', malloc (Z.of_nat (length (c :: l))) = Some b' -> Z.of_nat (length b') <= Z.of_nat (length (c :: l))) ->
    request_response (op_request o) new_Response s = Wrong) as Hbad.
  { intros Hm. apply (request_wrong (op_request o) s (st, c :: l) rest b); try done. }
  destruct (malloc (Z.of_nat (length (c :: l)))) as [b'|] eqn:Eb'; [|by apply Hbad].
  destruct (Z.ltb_spec (Z.of_nat (length (c :: l))) (Z.of_nat (length b'))); [apply Hgood; eauto|]. apply Hbad. by intros b2 [= <-].
Qed.

(** The client asks for a block that does not count the key: when [malloc] gives
    less than that much more than it is asked for, the call writes behind its block. *)
Theorem call_overflows o resp s b : op_ok o -> malloc (rq_len (op_request o) + 16) = Some b ->
  Z.of_nat (length b) < rq_len (op_request o) + 16 + Z.of_nat (length (op_key o)) -> call o resp s = Wrong.
Proof.
  intros Ho Hb Hl. rewrite call_request. unfold request_response.
  rewrite (Request_write_overflow _ s b); [done|by apply op_wf|done|by rewrite op_key_request].
Qed.

End Calls.

(** ** Saving an object *)

(** With working libraries [save] writes the whole object into a file of the client and
    answers 0; without an object it answers -1 and changes nothing. *)
Theorem save_writes key resp st : holds (rs_len resp) (rs_buf resp) -> plan st = [] ->
  exists ret st', save (file_path st) key resp st = Ok (ret, st')
    /\ match rs_buf resp with
       | None => ret = -1 /\ st' = st
       | Some _ => ret = 0 /\ files st' = <[path st key := response_data resp]> (files st) /\ meta st' = meta st
       end.
Proof.
  intros Hh Hpl. unfold save, response_data. destruct (rs_buf resp) as [buf|]; [|by do 2 eexists].
  cbn [holds content] in *.
  destruct (open_wb_spec st key) as (fp0 & st1 & -> & Hp & Hm & Hsu & Hf).
  pose proof (suffix_plan _ _ Hsu Hpl) as Hpl1. destruct fp0 as [f|]; [|by rewrite Hpl in Hf]. destruct Hf as [-> Hfi].
  destruct (writeData_spec (file_path st ++ [47] ++ key) (path st key) buf (rs_len resp) st1)
    as (w & f & st2 & -> & Hw & Hn & Hwr & [_ Hm2 [l Hfi2] Hs2] & Hall); [by rewrite Hfi, lookup_insert_eq|lia|].
  rewrite (Hall (works_nil _ Hpl1)) in *. cbn [mbind result_bind]. rewrite Z.ltb_irrefl.
  destruct (close_spec (file_path st ++ [47] ++ key) buf _ f st2 Hwr) as (a & st' & -> & _ & _ & Hm' & Hfi' & _ & Ha).
  do 2 eexists. split; [done|]. split_and!; [done| |congruence].
  destruct Ha as [->|Ha%last_fails_works]; [|destruct Ha; by apply works_nil, (suffix_plan _ _ Hs2)].
  by rewrite Hfi', Hfi2, Hfi, Hn, !insert_insert_eq.
Qed.

(** ** Instances *)

(** Storing and reading an object, the bytes in three parts. *)
Definition demo_ops : list op := [Put key_k [7; 8; 9]; Get key_k].

Lemma good_key_k : good_key key_k.
Proof. split; [apply plain_k|]. intros k E. apply (f_equal length) in E. rewrite length_app in E. cbn in E. lia. Qed.

Lemma demo_ok : Forall (fun o => op_ok o /\ good_key (op_key o)) demo_ops.
Proof.
  repeat constructor; try apply good_key_k; cbn; unfold is_byte; try lia.
  all: repeat constructor; lia.
Qed.


(** The client's GET of that object. *)
Definition demo_client : socket :=
  Socket true (left_over (response_bytes (RESP_OK, [7; 8; 9]))) [Takes 100] [].

Lemma call_ok_witness : exists resp s', call (Get key_k) new_Response demo_client = Done (resp, s')
  /\ (rs_status resp, response_data resp) = (RESP_OK, [7; 8; 9])
  /\ out s' = frame (request_payload (op_request (Get key_k))) /\ stream (net s') = [].
Proof.
  assert (E : blocks_suffice (Get key_k) (RESP_OK, [7; 8; 9]) = true) by (vm_compute; reflexivity).
  pose proof (call_ok (Get key_k) demo_client (RESP_OK, [7; 8; 9]) []) as Hc. rewrite E in Hc. apply Hc; clear Hc E.
  - exact (proj1 (proj1 (List.Forall_forall _ _) demo_ok (Get key_k) ltac:(right; left; reflexivity))).
  - reflexivity.
  - vm_compute. lia.
  - vm_compute. split; [discriminate|reflexivity].
  - vm_compute. reflexivity.
  - vm_compute. reflexivity.
Defined.

(** A [malloc] that gives exactly what it is asked for. *)
Program Definition exact_malloc : Malloc := {|
  malloc n := if (0 <=? n) && (n <? 2 ^ 47) then Some (repeat 0 (Z.to_nat n)) else None
|}.
Next Obligation. intros n b. cbv beta. case_bool; simpl; intros; simplify_eq. rewrite repeat_length. lia. Qed.

(** The blocks of a [malloc] that gives exactly what it is asked for do not suffice. *)
Example blocks_exact : @blocks_suffice exact_malloc (Get key_k) (RESP_OK, [7; 8; 9]) = false.
Proof. vm_compute. reflexivity. Qed.

(** A key of nine characters. *)
Definition long_key : list Z := repeat 107 9.

Lemma call_overflows_witness : call (Get long_key) new_Response demo_client = Wrong.
Proof.
  apply (call_overflows (Get long_key) new_Response demo_client (repeat 0 24)).
  - split; [cbn; repeat constructor; unfold is_byte; lia|exact I|vm_compute; reflexivity].
  - vm_compute. reflexivity.
  - vm_compute. reflexivity.
Defined.

Lemma save_writes_witness : exists ret st', save (file_path (store_of ∅ [])) key_k (response_of (RESP_OK, [7; 8; 9])) (store_of ∅ []) = Ok (ret, st')
  /\ ret = 0 /\ files st' = <[path (store_of ∅ []) key_k := [7; 8; 9]]> (files (store_of ∅ []))
     /\ meta st' = meta (store_of ∅ []).
Proof.
  apply (save_writes key_k (response_of (RESP_OK, [7; 8; 9])) (store_of ∅ [])); [vm_compute; split; [reflexivity|discriminate]|reflexivity].
Defined.
