(* ===== verification/ObjBench.v ===== *)
(** The test client of the object storage (src/cpp-object-storage-demo/client_main.cpp):
    the tests of the three operations, the functional test, and the task of one thread
    of the performance test over a connection of its own; with the counts of errors it
    prints, the keys its threads use and the two accesses behind its buffers. *)

From S2P Require Import Prelude Result ChatWire ObjWire ObjWireProps ObjConn ObjConnProps ObjStore ObjStoreProps ObjClient.
From stdpp Require Import pretty strings.
#[local] Open Scope Z_scope.

(** ** The program *)

Definition chars (s : string) : list Z := (fun c => Z.of_N (Ascii.N_of_ascii c)) <$> String.list_ascii_of_string s.

(** [std::to_string] of a counter. *)
Definition to_string (n : nat) : list Z := chars (pretty n).

(** The key of request [i] of a thread. *)
Definition test_key (i threadId : nat) : list Z := to_string i ++ [45] ++ to_string threadId.

Definition getPayload (payload : string) : Z :=
  if decide (payload = "1k"%string) then Z.shiftl 1 10
  else if decide (payload = "10k"%string) then Z.shiftl 1 10 * 10
  else if decide (payload = "100k"%string) then Z.shiftl 1 10 * 100
  else if decide (payload = "1m"%string) then Z.shiftl 1 20
  else if decide (payload = "10m"%string) then Z.shiftl 1 20 * 10
  else if decide (payload = "100m"%string) then Z.shiftl 1 20 * 100
  else 10.

(** What is printed, without the times. *)
Inductive message :=
| Put_status (status : string)
| Get_status (status : string) (len : Z)
| Same
| Not_same
| Delete_status (status : string)
| Finished (count : nat) (errorCount : Z).

Section Program.
Context `{Malloc}.

(** The buffer of [main]: 'a's with a NUL character behind the block that was asked for. *)
Definition request_buffer (len : Z) : result (list Z) :=
  b ← lift (malloc len);
  b ← poke b 0 (repeat 97 (Z.to_nat len));
  poke b len [0].

(** The globals of the program. *)
Context (requestBuf : option (list Z)) (len : Z).

Definition testPut (key : list Z) (functional : bool) (s : socket) : io (bool * list message * socket) :=
  '(resp, s) ← Client_put key requestBuf len new_Response s;
  Done (rs_status resp =? RESP_OK,
        if functional then [Put_status (statusToString (rs_status resp))] else [], s).

(** [memcmp] reads [n] characters of both blocks. *)
Definition memcmp_same (a : option (list Z)) (b : list Z) (n : Z) : result bool :=
  a ← lift a;
  x ← peek a 0 n;
  y ← peek b 0 n;
  Ok (bool_decide (x = y)).

Definition testGet (key : list Z) (functional : bool) (s : socket) : io (bool * list message * socket) :=
  '(resp, s) ← Client_get key new_Response s;
  out ← (if functional then
           let first := Get_status (statusToString (rs_status resp)) (rs_len resp) in
           match rs_buf resp with
           | Some buf =>
             same ← in_io (memcmp_same requestBuf buf len);
             Done [first; if same : bool then Same else Not_same]
           | None => Done [first]
           end
         else Done []);
  Done (rs_status resp =? RESP_OK, out, s).

Definition testDelete (key : list Z) (functional : bool) (s : socket) : io (bool * list message * socket) :=
  '(resp, s) ← Client_del key new_Response s;
  Done (rs_status resp =? RESP_OK,
        if functional then [Delete_status (statusToString (rs_status resp))] else [], s).

(** The operation that the argument names: every other word means DELETE. *)
Definition test_of (method : string) : list Z -> bool -> socket -> io (bool * list message * socket) :=
  if decide (method = "GET"%string) then testGet
  else if decide (method = "PUT"%string) then testPut
  else testDelete.

(** The loop of [testPerformanceTask], with [count - i] rounds to go. *)
Fixpoint task_loop (method : string) (rounds i threadId : nat) (errorCount : Z) (s : socket) : io (Z * socket) :=
  match rounds with
  | O => Done (errorCount, s)
  | S rounds =>
    '(ok, _, s) ← test_of method (test_key i threadId) false s;
    task_loop method rounds (S i) threadId (if ok : bool then errorCount else errorCount + 1) s
  end.

Definition testPerformanceTask (method : string) (count threadId : nat) (s : socket) : io (list message * socket) :=
  '(errorCount, s) ← task_loop method count 0 threadId 0 s;
  Done ([Finished count errorCount], s).

End Program.

(** [main] allocates a buffer for PUT and GET. *)
Definition main_buffer `{Malloc} (method payload : string) : result (option (list Z)) :=
  if bool_decide (method = "PUT"%string) || bool_decide (method = "GET"%string)
  then b ← request_buffer (getPayload payload); Ok (Some b)
  else Ok None.

(** The functional test: one operation on the key "test". *)
Definition functional_test `{Malloc} (method payload : string) (s : socket) : io (list message) :=
  buf ← in_io (main_buffer method payload);
  '(_, out, _) ←
    (if decide (method = "PUT"%string) then testPut buf (getPayload payload) (chars "test") true s
     else if decide (method = "GET"%string) then testGet buf (getPayload payload) (chars "test") true s
     else testDelete (chars "test") true s);
  Done out.

(** Thread [threadId] of the performance test. *)
Definition performance_test `{Malloc} (method payload : string) (count threadId : nat) (s : socket) : io (list message) :=
  buf ← in_io (main_buffer method payload);
  '(out, _) ← testPerformanceTask buf (getPayload payload) method count threadId s;
  Done out.

(** ** The keys of the threads *)

Definition digit (c : Z) : Prop := 48 <= c <= 57.

Lemma chars_cons a s : chars (String a s) = Z.of_N (Ascii.N_of_ascii a) :: chars s.
Proof. done. Qed.

Lemma digit_char n : digit (Z.of_N (Ascii.N_of_ascii (pretty_N_char n))).
Proof. unfold pretty_N_char, digit. by repeat case_match. Qed.

Lemma pretty_digits n s : Forall digit (chars s) -> Forall digit (chars (pretty_N_go n s)).
Proof.
  revert s. induction (N.lt_wf_0 n) as [n _ IH]. intros s Hs. assert (n = 0 \/ 0 < n)%N as [->|Hn] by lia.
  - by rewrite pretty_N_go_0.
  - rewrite pretty_N_go_step by done. apply IH; [by apply N.div_lt|]. rewrite chars_cons. constructor; [|done].
    apply digit_char.
Qed.

Lemma pretty_last n s : (0 < n)%N -> exists l c, chars (pretty_N_go n s) = l ++ c :: chars s /\ digit c.
Proof.
  revert s. induction (N.lt_wf_0 n) as [n _ IH]. intros s Hn. rewrite pretty_N_go_step by done.
  destruct (N.eq_0_gt_0_cases (n / 10)) as [E|E].
  - rewrite E, pretty_N_go_0, chars_cons. exists []. eexists. split; [done|]. apply digit_char.
  - destruct (IH (n / 10)%N (N.div_lt n 10 Hn eq_refl) (String (pretty_N_char (n mod 10)) s) E) as (l & c & -> & _).
    rewrite chars_cons. exists (l ++ [c]). eexists. rewrite <- (assoc_L (++)). split; [done|]. apply digit_char.
Qed.

Lemma to_string_digits n : Forall digit (to_string n).
Proof.
  unfold to_string, pretty, pretty_nat, pretty, pretty_N. case_decide; [by repeat constructor|].
  apply pretty_digits. constructor.
Qed.

Lemma to_string_last n : exists l c, to_string n = l ++ [c] /\ digit c.
Proof.
  unfold to_string, pretty, pretty_nat, pretty, pretty_N. case_decide; [by exists [], 48|].
  destruct (pretty_last (N.of_nat n) "" ltac:(lia)) as (l & c & Hl & Hc). by exists l, c.
Qed.

Lemma chars_inj s s' : chars s = chars s' -> s = s'.
Proof.
  revert s'. induction s as [|a s IH]; intros [|a' s']; try done. rewrite !chars_cons. intros [= Ha Hs].
  f_equal; [|by apply IH]. apply N2Z.inj in Ha. rewrite <- (Ascii.ascii_N_embedding a), <- (Ascii.ascii_N_embedding a'). by f_equal.
Qed.

Lemma to_string_inj n n' : to_string n = to_string n' -> n = n'.
Proof. intros Hn%chars_inj. by apply (inj pretty) in Hn. Qed.

Lemma split_dash a a' b b' : Forall digit a -> Forall digit a' -> a ++ [45] ++ b = a' ++ [45] ++ b' -> a = a' /\ b = b'.
Proof.
  intros Ha. revert a'. induction Ha as [|c a Hc Ha IH]; intros a' Ha'; destruct Ha' as [|c' l Hc' Hl]; cbn; intros E;
    injection E; intros; subst; try (unfold digit in *; lia); [done|]. by destruct (IH l Hl) as [-> ->].
Qed.

(** Different requests of the test have different keys. *)
Lemma test_key_inj i t i' t' : test_key i t = test_key i' t' -> i = i' /\ t = t'.
Proof. intros [H1%to_string_inj H2%to_string_inj]%split_dash; [done|apply to_string_digits..]. Qed.

Lemma test_key_plain i t : plain (test_key i t).
Proof.
  assert (Forall (fun c => 48 <= c < 58 \/ c = 45) (test_key i t)) as Hc.
  { unfold test_key. rewrite !Forall_app. split_and!; [..|repeat constructor; lia|].
    all: eapply Forall_impl; [apply to_string_digits|]; unfold digit; lia. }
  assert (45 ∈ test_key i t) as H45 by (unfold test_key; set_solver). rewrite Forall_forall in Hc.
  split_and!; try (intros E; rewrite E in H45; set_solver); intros Hin; specialize (Hc _ Hin); lia.
Qed.

(** They are keys of the server, and not temporary files of others. *)
Lemma test_key_good i t : good_key (test_key i t).
Proof.
  split; [apply test_key_plain|]. intros k Hk. unfold test_key in Hk. destruct (to_string_last t) as (l & c & Hl & Hc). rewrite Hl in Hk.
  apply (f_equal last) in Hk. rewrite !(assoc_L (++)), last_snoc in Hk. unfold tmp in Hk.
  change [46; 116; 109; 112] with ([46; 116; 109] ++ [112]) in Hk. rewrite (assoc_L (++)), last_snoc in Hk.
  injection Hk as ->. unfold digit in Hc. lia.
Qed.

Lemma test_key_chars i t : Forall (fun c => c <> 0) (test_key i t).
Proof.
  unfold test_key. rewrite !Forall_app. split_and!; [..|by repeat constructor|].
  all: eapply Forall_impl; [apply to_string_digits|]; unfold digit; lia.
Qed.

(** ** The counts *)

Section Counts.
Context `{Malloc} (requestBuf : option (list Z)) (len : Z).

(** The request of a test. *)
Definition test_request (method : string) (key : list Z) : Request :=
  if decide (method = "GET"%string) then {| rq_len := 0; rq_method := METHOD_GET; rq_key := key; rq_buf := None |}
  else if decide (method = "PUT"%string) then
    {| rq_len := len; rq_method := METHOD_PUT; rq_key := key; rq_buf := requestBuf |}
  else {| rq_len := 0; rq_method := METHOD_DELETE; rq_key := key; rq_buf := None |}.

Lemma test_request_key method key : rq_key (test_request method key) = key.
Proof. unfold test_request. by repeat case_decide. Qed.

Lemma test_silent method key s : test_of requestBuf len method key false s =
  ('(resp, s) ← request_response (test_request method key) new_Response s; Done (rs_status resp =? RESP_OK, [], s)).
Proof. unfold test_of, test_request. repeat case_decide; [|done..]. unfold testGet, Client_get. by destruct (request_response _ _ _) as [[]| |]. Qed.

(** The requests of a thread from number [i] on. *)
Definition test_requests (method : string) (i n threadId : nat) : list Request :=
  (fun i => test_request method (test_key i threadId)) <$> seq i n.

Lemma test_requests_S method i n t :
  test_requests method i (S n) t = test_request method (test_key i t) :: test_requests method (S i) n t.
Proof. done. Qed.

(** The message fits in an [int] and in the block of the client, which asks for a block
    without the key. *)
Record fits (r : Request) : Prop := {
  fits_data : holds (rq_len r) (rq_buf r);
  fits_int : rq_len r + 16 + Z.of_nat (length (rq_key r)) < 2 ^ 31;
  fits_block : exists b, malloc (rq_len r + 16) = Some b
    /\ rq_len r + 16 + Z.of_nat (length (rq_key r)) <= Z.of_nat (length b)
}.

(** An answer that the client can receive. *)
Record receivable (x : Z * list Z) : Prop := {
  rcv_status : is_int x.1;
  rcv_int : Z.of_nat (length x.2) + 12 < 2 ^ 31;
  rcv_block : 0 < Z.of_nat (length x.2) -> exists b, malloc (Z.of_nat (length x.2)) = Some b
    /\ Z.of_nat (length x.2) < Z.of_nat (length b)
}.

Definition errors (xs : list (Z * list Z)) : Z := Z.of_nat (length (filter (fun x => x.1 <> RESP_OK) xs)).

Lemma test_request_wf method i t : fits (test_request method (test_key i t)) -> wf_request (test_request method (test_key i t)).
Proof.
  intros [Hd Hi _]. split; [|rewrite test_request_key; apply test_key_chars|done|done].
  unfold test_request. by repeat case_decide.
Qed.

Lemma errors_cons x xs : errors (x :: xs) = (if x.1 =? RESP_OK then 0 else 1) + errors xs.
Proof.
  unfold errors. rewrite filter_cons. case_decide as Hx; case_bool; cbn [length]; done || lia.
Qed.

Lemma errors_replicate n x : x.1 = RESP_OK -> errors (replicate n x) = 0.
Proof. intros Hx. induction n as [|n IH]; [done|]. cbn [replicate]. by rewrite errors_cons, IH, Hx. Qed.

Lemma task_loop_spec method xs i t errorCount s rest :
  Forall fits (test_requests method i (length xs) t) -> Forall receivable xs -> is_open s = true ->
  stream (net s) = concat (map response_bytes xs) ++ rest ->
  (length (concat (map (fun r => frame (request_payload r)) (test_requests method i (length xs) t))) <= capacity (rooms s))%nat ->
  exists s', task_loop requestBuf len method (length xs) i t errorCount s = Done (errorCount + errors xs, s')
    /\ out s' = out s ++ concat (map (fun r => frame (request_payload r)) (test_requests method i (length xs) t))
    /\ stream (net s') = rest.
Proof.
  revert i errorCount s. induction xs as [|x xs IH]; intros i errorCount s Hf Hx Ho Hs Hc; cbn [length task_loop].
  - exists s. rewrite Z.add_0_r. split_and!; [done|by rewrite app_nil_r|done].
  - unfold test_requests in *. cbn [length seq fmap list_fmap map concat] in *.
    apply Forall_cons in Hf as [Hfi Hf]. apply Forall_cons in Hx as [Hxi Hx].
    rewrite length_app in Hc. rewrite <- (assoc_L (++)) in Hs. pose proof Hfi as [_ _ (b & Hb & Hroom)]. destruct Hxi as [Hi Hl Hm].
    destruct (request_spec _ s x _ b (test_request_wf method i t Hfi) Ho Hb Hroom ltac:(lia) Hi Hl Hs Hm)
      as (resp & s1 & Hr & Hresp & _ & Hout & Hnet & Hopen & Hcap).
    rewrite test_silent, Hr. cbn [mbind io_bind].
    destruct (IH (S i) (if rs_status resp =? RESP_OK then errorCount else errorCount + 1) s1) as (s' & Hs' & Hout' & Hnet');
      try done; [lia|]. exists s'. rewrite Hs', Hout', Hout, <- (assoc_L (++)). split_and!; try done.
    rewrite errors_cons. replace x.1 with (rs_status resp) by (by rewrite <- Hresp). do 2 f_equal. case_bool; lia.
Qed.

(** A thread of the performance test sends exactly the requests of its keys in their
    order and prints the number of the answers that are not OK, however the bytes of the
    answers arrive. The block of a request must have room for the key: the client does
    not ask for it. *)
Theorem task_counts method xs t s rest : Forall fits (test_requests method 0 (length xs) t) -> Forall receivable xs ->
  is_open s = true -> stream (net s) = concat (map response_bytes xs) ++ rest ->
  (length (concat (map (fun r => frame (request_payload r)) (test_requests method 0 (length xs) t))) <= capacity (rooms s))%nat ->
  exists s', testPerformanceTask requestBuf len method (length xs) t s = Done ([Finished (length xs) (errors xs)], s')
    /\ out s' = out s ++ concat (map (fun r => frame (request_payload r)) (test_requests method 0 (length xs) t))
    /\ stream (net s') = rest.
Proof.
  intros Hf Hx Ho Hs Hc. destruct (task_loop_spec method xs 0 t 0 s rest Hf Hx Ho Hs Hc) as (s' & Hrun & Hout & Hnet).
  exists s'. unfold testPerformanceTask. by rewrite Hrun.
Qed.

(** *** What the server answers *)

Lemma spec_run_puts m i n t : holds len requestBuf -> requestBuf <> None ->
  (spec_run m (test_requests "PUT" i n t)).1 = replicate n (RESP_OK, [])
  /\ forall j, (i <= j < i + n)%nat ->
       (spec_run m (test_requests "PUT" i n t)).2 !! test_key j t = Some (content len requestBuf).
Proof.
  intros Hh Hb.
  assert (forall m i, spec m (test_request "PUT" (test_key i t)) = (RESP_OK, [], <[test_key i t := content len requestBuf]> m)) as Hput
    by (intros; unfold spec, test_request; cbn; by destruct requestBuf).
  assert (forall n m i j, (j < i)%nat -> (spec_run m (test_requests "PUT" i n t)).2 !! test_key j t = m !! test_key j t) as Hlater.
  { clear m i n. induction n as [|n IH]; intros m i j Hj; [done|]. rewrite test_requests_S. cbn [spec_run snd].
    rewrite Hput, IH by lia. cbn. apply lookup_insert_ne. intros E%test_key_inj. lia. }
  revert m i. induction n as [|n IH]; intros m i; [split; [done|lia]|]. destruct (IH (<[test_key i t := content len requestBuf]> m) (S i)) as [H1 H2].
  rewrite test_requests_S. cbn [spec_run fst snd replicate]. rewrite Hput. cbn [fst snd]. split; [by rewrite H1|].
  intros j Hj. destruct (decide (j = i)) as [->|Hne]; [|apply H2; lia].
  rewrite Hlater by lia. apply lookup_insert_eq.
Qed.

Lemma spec_run_gets m i n t v : (forall j, (i <= j < i + n)%nat -> m !! test_key j t = Some v) ->
  (spec_run m (test_requests "GET" i n t)).1 = replicate n (RESP_OK, v).
Proof.
  revert i. induction n as [|n IH]; intros i Hm; [done|]. rewrite test_requests_S. cbn [spec_run fst snd replicate].
  assert (spec m (test_request "GET" (test_key i t)) = (RESP_OK, v, m)) as ->
    by (unfold spec, test_request; rewrite decide_True by done; cbn [rq_method rq_key]; rewrite Hm by lia; done). cbn [fst snd]. f_equal. apply IH. intros j Hj. apply Hm. lia.
Qed.

Lemma spec_run_other m rs k : Forall (fun r => rq_key r <> k) rs -> (spec_run m rs).2 !! k = m !! k.
Proof.
  intros Hrs. revert m. induction Hrs as [|r rs Hr _ IH]; intros m; [done|]. cbn. rewrite IH. by apply spec_frame, not_eq_sym.
Qed.

(** The keys of the threads are their own: after a thread of the PUT test the server has
    answered OK to every request, and a thread of the GET test with the same number is
    answered OK with the data of the test every time, whatever the threads with other
    numbers have asked for in between. *)
Theorem own_objects m t n others : holds len requestBuf -> requestBuf <> None ->
  Forall (fun r => exists i t', rq_key r = test_key i t' /\ t' <> t) others ->
  let puts := test_requests "PUT" 0 n t in
  let gets := test_requests "GET" 0 n t in
  (spec_run m puts).1 = replicate n (RESP_OK, [])
  /\ (spec_run (spec_run (spec_run m puts).2 others).2 gets).1 = replicate n (RESP_OK, content len requestBuf)
  /\ errors (spec_run m puts).1 = 0
  /\ errors (spec_run (spec_run (spec_run m puts).2 others).2 gets).1 = 0.
Proof.
  intros Hh Hb Ho puts gets. destruct (spec_run_puts m 0 n t Hh Hb) as [H1 H2]. fold puts in H1, H2.
  assert ((spec_run (spec_run (spec_run m puts).2 others).2 gets).1 = replicate n (RESP_OK, content len requestBuf)) as H3.
  { apply spec_run_gets. intros j Hj. rewrite spec_run_other; [by apply H2|]. eapply Forall_impl; [exact Ho|].
    intros r (i & t' & -> & Ht). intros [_ E]%test_key_inj. done. }
  rewrite H1, H3. split_and!; [done..|by apply errors_replicate|by apply errors_replicate].
Qed.

End Counts.

(** ** The functional test *)

Section Functional.
Context `{Malloc}.

(** The buffer of the test, when the block has room for the NUL character behind it. *)
Lemma request_buffer_ok len b : 0 <= len -> malloc len = Some b -> len < Z.of_nat (length b) ->
  exists buf, request_buffer len = Ok buf /\ content len (Some buf) = repeat 97 (Z.to_nat len) /\ length buf = length b.
Proof.
  intros Hl Hb Hlen. unfold request_buffer. rewrite Hb. cbn [lift mbind result_bind]. unfold poke.
  rewrite repeat_length, !Z2Nat.id by lia. rewrite (proj2 (Z.leb_le (0 + len) _)) by lia. cbn [Z.leb Z.compare andb mbind result_bind].
  rewrite (proj2 (Z.leb_le 0 len)) by lia. cbn [andb length].
  set (b1 := _ ++ _). assert (length b1 = length b) as Hl1.
  { unfold b1. rewrite !length_app, length_drop, repeat_length, length_take. lia. }
  rewrite (proj2 (Z.leb_le (len + Z.of_nat 1) _)) by lia. eexists. split; [done|]. split.
  - cbn [content]. rewrite take_app_le by (rewrite length_take; lia). rewrite take_take, Nat.min_id.
    unfold b1. change (Z.to_nat 0) with O. rewrite take_0, app_nil_l. apply take_app_length'. by rewrite repeat_length.
  - rewrite !length_app, length_drop, length_take. cbn [length]. lia.
Qed.

(** Otherwise the NUL character is written behind the block. *)
Lemma request_buffer_overrun len b : 0 <= len -> malloc len = Some b -> Z.of_nat (length b) = len ->
  request_buffer len = Undefined.
Proof.
  intros Hl Hb Hlen. unfold request_buffer. rewrite Hb. cbn [lift mbind result_bind]. unfold poke.
  rewrite repeat_length, !Z2Nat.id by lia. rewrite (proj2 (Z.leb_le (0 + len) _)) by lia. cbn [Z.leb Z.compare andb mbind result_bind].
  set (b1 := _ ++ _). assert (length b1 = length b) as Hl1.
  { unfold b1. rewrite !length_app, length_drop, repeat_length, length_take. lia. }
  rewrite Hl1. rewrite (proj2 (Z.leb_gt (len + Z.of_nat (length [0])) _)) by (cbn [length]; lia). by rewrite andb_false_r.
Qed.

Definition test_name : list Z := chars "test".

Lemma test_name_ok buf len method : fits (test_request buf len method test_name) -> wf_request (test_request buf len method test_name).
Proof.
  intros [Hd Hi _]. split; [|rewrite test_request_key; by repeat constructor|done|done].
  unfold test_request. by repeat case_decide.
Qed.

(** [memcmp] of the buffer with a block that holds the same characters. *)
Lemma memcmp_equal buf b len : 0 <= len <= Z.of_nat (length buf) -> len <= Z.of_nat (length b) ->
  take (Z.to_nat len) buf = take (Z.to_nat len) b -> memcmp_same (Some buf) b len = Ok true.
Proof.
  intros Hl Hb Ht. unfold memcmp_same, peek. cbn [lift mbind result_bind Z.leb Z.compare andb].
  rewrite !(proj2 (Z.leb_le _ _)) by lia. cbn [andb mbind result_bind]. change (Z.to_nat 0) with O.
  rewrite !drop_0, Ht. cbn [mbind result_bind]. by rewrite bool_decide_true.
Qed.

Lemma getPayload_pos payload : 0 < getPayload payload < 2 ^ 27.
Proof. unfold getPayload. by repeat case_decide. Qed.

(** The functional test, PUT and then GET with the same payload, against a server that
    answers as the map of the objects does: PUT prints OK, GET prints OK, the length of
    the payload and that the data is the same. *)
Theorem functional_same payload m s1 s2 b rest1 rest2 buf : let len := getPayload payload in
  malloc len = Some b -> len < Z.of_nat (length b) -> request_buffer len = Ok buf ->
  let put := test_request (Some buf) len "PUT" test_name in
  let get := test_request (Some buf) len "GET" test_name in
  fits put -> fits get ->
  is_open s1 = true -> is_open s2 = true ->
  stream (net s1) = response_bytes (spec m put).1 ++ rest1 ->
  stream (net s2) = response_bytes (spec (spec m put).2 get).1 ++ rest2 ->
  (length (frame (request_payload put)) <= capacity (rooms s1))%nat ->
  (length (frame (request_payload get)) <= capacity (rooms s2))%nat ->
  functional_test "PUT" payload s1 = Done [Put_status "OK"]
  /\ functional_test "GET" payload s2 = Done [Get_status "OK" len; Same].
Proof.
  intros len Hb Hlen Hbuf put get Hfp Hfg Ho1 Ho2 Hs1 Hs2 Hc1 Hc2.
  pose proof (getPayload_pos payload) as Hpos. fold len in Hpos.
  destruct (request_buffer_ok len b ltac:(lia) Hb Hlen) as (buf' & Hbuf' & Hcont & Hlb).
  rewrite Hbuf in Hbuf'. injection Hbuf' as <-.
  assert (spec m put = (RESP_OK, [], <[test_name := repeat 97 (Z.to_nat len)]> m)) as Hsp
    by (unfold spec, put, test_request; cbn; by rewrite <- Hcont).
  assert ((spec (spec m put).2 get).1 = (RESP_OK, repeat 97 (Z.to_nat len))) as Hsg.
  { rewrite Hsp. unfold spec, get, test_request. rewrite decide_True by done. cbn [rq_method rq_key snd].
    by rewrite lookup_insert_eq. }
  rewrite Hsg in Hs2. rewrite Hsp in Hs1. cbn [fst] in Hs1.
  pose proof Hfp as [_ _ (c1 & Hc1b & Hc1l)]. pose proof Hfg as [_ _ (c2 & Hc2b & Hc2l)].
  destruct (request_spec put s1 (RESP_OK, []) rest1 c1 (test_name_ok _ _ _ Hfp) Ho1 Hc1b Hc1l Hc1 ltac:(done) ltac:(done) Hs1)
    as (r1 & s1' & Hr1 & Hx1 & _); [done|].
  destruct (request_spec get s2 (RESP_OK, repeat 97 (Z.to_nat len)) rest2 c2 (test_name_ok _ _ _ Hfg) Ho2 Hc2b Hc2l Hc2) as (r2 & s2' & Hr2 & Hx2 & Hl2 & _);
    [done| |exact Hs2| |].
  { cbn. rewrite repeat_length. lia. }
  { cbn. rewrite repeat_length, Z2Nat.id by lia. by exists b. }
  cbn [snd] in Hl2. rewrite repeat_length, Z2Nat.id in Hl2 by lia. injection Hx1 as Hst1 _. injection Hx2 as Hst2 Hd2.
  assert (main_buffer "PUT" payload = Ok (Some buf)) as Hmp by (unfold main_buffer; fold len; by rewrite Hbuf).
  assert (main_buffer "GET" payload = Ok (Some buf)) as Hmg by (unfold main_buffer; fold len; by rewrite Hbuf).
  unfold functional_test. rewrite Hmp, Hmg. cbn [in_io mbind io_bind]. fold len test_name. split.
  - rewrite decide_True by done. unfold testPut, Client_put.
    change (setBuf (setLen (setMethod (setKey new_Request test_name) METHOD_PUT) len) (Some buf)) with put.
    rewrite Hr1. cbn [mbind io_bind]. by rewrite Hst1.
  - rewrite decide_False, decide_True by done. unfold testGet, Client_get.
    change (setLen (setMethod (setKey new_Request test_name) METHOD_GET) 0) with get.
    rewrite Hr2. cbn [mbind io_bind]. rewrite Hst2, Hl2. unfold response_data in Hd2. rewrite Hl2 in Hd2.
    assert (length (repeat 97 (Z.to_nat len)) = Z.to_nat len) as Hrl by apply repeat_length.
    destruct (rs_buf r2) as [b2|] eqn:Eb; cbn [content] in Hd2.
    + rewrite (memcmp_equal buf b2 len); [done| | |by rewrite Hd2].
      * split; [lia|]. rewrite Hlb. lia.
      * rewrite <- Hd2, length_take in Hrl. lia.
    + rewrite <- Hd2 in Hrl. cbn in Hrl. lia.
Qed.

End Functional.

(** ** Instances *)

Definition incoming (l : list Z) : socket := Socket true (left_over l) [Takes 20; Full; Takes 200] [].

(** With glibc and the payloads of the program the blocks have room for keys of 8
    characters, the smallest of them for no more. *)
Lemma glibc_fits buf payload method key : let len := getPayload payload in
  holds len buf -> Z.of_nat (length key) <= 8 -> fits (test_request buf len method key).
Proof.
  intros len Hh Hk. assert (len mod 16 = 0 \/ len = 10) as Hmod
    by (unfold len, getPayload; repeat case_decide; by (left; reflexivity) || by right).
  pose proof (getPayload_pos payload) as Hl. fold len in Hl.
  assert (exists n, rq_len (test_request buf len method key) = n /\ 0 <= n < 2 ^ 27 /\ (n mod 16 = 0 \/ n = 10)) as (n & Hn & Hr & Hm)
    by (eexists; split; [reflexivity|]; unfold test_request; repeat case_decide; cbn [rq_len]; (split; [lia|]); tauto).
  split.
  - unfold test_request. by repeat case_decide.
  - rewrite test_request_key, Hn. lia.
  - rewrite test_request_key, Hn. cbn [malloc glibc_malloc].
    rewrite (proj2 (Z.leb_le 0 _)), (proj2 (Z.ltb_lt _ (2 ^ 47))) by lia. cbn [andb].
    eexists. split; [done|]. rewrite repeat_length. unfold glibc_usable.
    pose proof (Z.div_mod (n + 16 + 8 + 15) 16). pose proof (Z.mod_pos_bound (n + 16 + 8 + 15) 16).
    pose proof (Z.div_mod n 16). lia.
Qed.

Definition bench_answers : list (Z * list Z) := [(RESP_OK, [97]); (RESP_NOT_FOUND, [])].
Definition bench_socket : socket := incoming (concat (map response_bytes bench_answers)).

Lemma task_counts_witness : exists s',
  testPerformanceTask None 100 "GET" 2 3 bench_socket = Done ([Finished 2 1], s')
  /\ out s' = concat (map (fun r => frame (request_payload r)) (test_requests None 100 "GET" 0 2 3)) /\ stream (net s') = [].
Proof.
  apply (task_counts None 100 "GET" bench_answers 3 bench_socket []).
  - repeat constructor; try (vm_compute; reflexivity); (eexists; split; [vm_compute; reflexivity|vm_compute; discriminate]).
  - repeat constructor; try (vm_compute; (reflexivity || discriminate)); cbn; intros; try lia.
    eexists. split; [vm_compute; reflexivity|vm_compute; reflexivity].
  - reflexivity.
  - vm_compute. reflexivity.
  - vm_compute. lia.
Defined.

Definition small_buffer : list Z := repeat 97 10 ++ [0].

Lemma own_objects_witness :
  let others := test_requests (Some small_buffer) 10 "DELETE" 0 2 1 in
  let puts := test_requests (Some small_buffer) 10 "PUT" 0 2 0 in
  let gets := test_requests (Some small_buffer) 10 "GET" 0 2 0 in
  (spec_run ∅ puts).1 = replicate 2 (RESP_OK, [])
  /\ (spec_run (spec_run (spec_run ∅ puts).2 others).2 gets).1 = replicate 2 (RESP_OK, repeat 97 10)
  /\ errors (spec_run ∅ puts).1 = 0
  /\ errors (spec_run (spec_run (spec_run ∅ puts).2 others).2 gets).1 = 0.
Proof.
  apply (own_objects (Some small_buffer) 10 ∅ 0 2); [cbn; lia|discriminate|].
  repeat constructor; [exists 0%nat, 1%nat|exists 1%nat, 1%nat]; (split; [reflexivity|discriminate]).
Defined.

(** The other word for the payload is 10 characters. *)
Definition ten_buffer : list Z := repeat 97 10 ++ repeat 0 14.

Lemma functional_same_witness :
  functional_test "PUT" "10" (incoming (response_bytes (RESP_OK, []))) = Done [Put_status "OK"]
  /\ functional_test "GET" "10" (incoming (response_bytes (RESP_OK, repeat 97 10))) = Done [Get_status "OK" 10; Same].
Proof.
  assert (holds (getPayload "10") (Some ten_buffer)) as Hh by (vm_compute; split; [reflexivity|discriminate]).
  assert (Z.of_nat (length test_name) <= 8) as Hk by (vm_compute; discriminate).
  apply (functional_same "10" ∅ (incoming (response_bytes (RESP_OK, []))) (incoming (response_bytes (RESP_OK, repeat 97 10)))
    (repeat 0 24) [] [] ten_buffer).
  - vm_compute. reflexivity.
  - vm_compute. reflexivity.
  - vm_compute. reflexivity.
  - exact (glibc_fits (Some ten_buffer) "10" "PUT" test_name Hh Hk).
  - exact (glibc_fits (Some ten_buffer) "10" "GET" test_name Hh Hk).
  - reflexivity.
  - reflexivity.
  - vm_compute. reflexivity.
  - vm_compute. reflexivity.
  - vm_compute. lia.
  - vm_compute. lia.
Defined.

(** [memcmp] is given the length of the client's payload, not that of the object: when the
    object is shorter it reads behind the block of the response. *)
Lemma compares_behind : functional_test "GET" "1k" (incoming (response_bytes (RESP_OK, repeat 97 10))) = Wrong.
Proof. vm_compute. reflexivity. Qed.
