(* ===== verification/ObjLoop.v ===== *)
(** The event loop of the object storage server (src/cpp-object-storage-demo/
    server.cpp, [Server::loop]), run by several workers over one epoll instance.

    A step is one system call of one worker, with the private code around it, or a
    change of a socket by the network. The connections live on a heap; the epoll
    instance maps a descriptor to the pointer registered for it and says whether it
    is armed. All registrations but that of the listening socket are one-shot: an
    event that is delivered disarms them. *)

From S2P Require Import Prelude Result ChatWire ObjWire ObjConn.
#[local] Open Scope Z_scope.

Definition MAX_EPOLL_SIZE : Z := 10000.

(** The events of a registration or of a delivery: [EPOLLIN], [EPOLLOUT], or one of
    [EPOLLERR], [EPOLLHUP] and [EPOLLRDHUP]. *)
Inductive mask := In | Out | Err.

(** A registration: the pointer and what it is armed for. *)
Record registration := { data : Z; armed : option mask }.

(** Where a worker is: waiting, at the next event of its batch, or inside the branch
    of an event. *)
Inductive loop_pc :=
| LWait
| LNext
| LClosed (p fd : Z)          (* error branch: the socket is closed *)
| LAccepted (fd : Z)          (* a new socket, not registered yet *)
| LRead_failed (p fd : Z)     (* [handleRead] failed; next the removal from epoll *)
| LRead_removed (p fd : Z)    (* removed from epoll; next [close] and [delete] *)
| LRequest (p fd : Z)         (* the request is complete; next [handle] *)
| LArm (p fd : Z) (m : mask)  (* next [EPOLL_CTL_MOD] *)
| LWrite_failed (p fd : Z)    (* [handleWrite] failed; next [close] and [delete] *)
| LWrite_closed (fd : Z)      (* next the removal from epoll *)
| LEnded.                     (* [epoll_wait] failed *)

Record worker := { curfds : Z; batch : list (mask * Z); pc : loop_pc }.

Record world (St : Type) := {
  listenfd : Z;
  socks : gmap Z socket;          (* the open descriptors of connections *)
  epoll : gmap Z registration;
  heap : gmap Z Connection;
  store : St;
  workers : list worker
}.
Arguments listenfd {St} w.
Arguments socks {St} w.
Arguments epoll {St} w.
Arguments heap {St} w.
Arguments store {St} w.
Arguments workers {St} w.

(** What the kernel, the network and the scheduler decide. *)
Inductive event :=
| Deliver (i : nat) (evs : list (Z * mask))  (* [epoll_wait] of worker [i] returns these descriptors *)
| Wait_fails (i : nat)
| Run (i : nat)                              (* worker [i] goes on *)
| Accept (i : nat) (fd : option Z)           (* it goes on with [accept] *)
| Create (i : nat) (p : Z) (added : bool)    (* it goes on with [new] and [EPOLL_CTL_ADD] *)
| Network (fd : Z) (s : socket).             (* what arrives and what is taken *)

Section Loop.
Context `{Malloc} `{Storage St}.
Implicit Types w : world St.

Definition with_socks w x : world St :=
  {| listenfd := listenfd w; socks := x; epoll := epoll w; heap := heap w; store := store w; workers := workers w |}.
Definition with_epoll w x : world St :=
  {| listenfd := listenfd w; socks := socks w; epoll := x; heap := heap w; store := store w; workers := workers w |}.
Definition with_heap w x : world St :=
  {| listenfd := listenfd w; socks := socks w; epoll := epoll w; heap := x; store := store w; workers := workers w |}.
Definition with_store w x : world St :=
  {| listenfd := listenfd w; socks := socks w; epoll := epoll w; heap := heap w; store := x; workers := workers w |}.
Definition with_worker w i x : world St :=
  {| listenfd := listenfd w; socks := socks w; epoll := epoll w; heap := heap w; store := store w;
     workers := <[i := x]> (workers w) |}.

Definition at_pc (x : worker) (p : loop_pc) : worker := {| curfds := curfds x; batch := batch x; pc := p |}.
Definition count (x : worker) (d : Z) : worker := {| curfds := curfds x + d; batch := batch x; pc := pc x |}.

(** [close(fd)], which also removes the registration; nothing happens to a
    descriptor that is not open. *)
Definition close_fd (fd : Z) w : world St :=
  with_epoll (with_socks w (delete fd (socks w))) (delete fd (epoll w)).

(** [EPOLL_CTL_DEL] and [EPOLL_CTL_MOD] fail for a descriptor without registration. *)
Definition epoll_del (fd : Z) w : world St := with_epoll w (delete fd (epoll w)).
Definition epoll_mod (fd p : Z) (m : mask) w : world St :=
  match epoll w !! fd with
  | Some _ => with_epoll w (<[fd := {| data := p; armed := Some m |}]> (epoll w))
  | None => w
  end.

(** The connection behind a pointer: undefined after [delete]. *)
Definition deref (p : Z) w : result Connection := lift (heap w !! p).

(** The socket of a descriptor; calls on a closed one fail. *)
Definition sock (fd : Z) w : socket := default (Socket false [] [] []) (socks w !! fd).

(** The calls on the socket of a connection leave it as they left it, or closed. *)
Definition put_sock (fd : Z) (s : socket) w : world St :=
  match socks w !! fd with
  | Some _ => if is_open s then with_socks w (<[fd := s]> (socks w)) else close_fd fd w
  | None => w
  end.

(** One event of [epoll_wait]: the pointer of an armed registration, which it disarms.
    An error is reported whatever is asked for, but not for the listening socket. *)
Definition deliver (w : world St) (ev : Z * mask) : option ((mask * Z) * world St) :=
  let '(fd, m) := ev in
  if fd =? listenfd w then match m with In => Some ((In, listenfd w), w) | _ => None end
  else
    r ← epoll w !! fd;
    match armed r, m with
    | Some In, In | Some Out, Out | Some _, Err =>
      Some ((m, data r), with_epoll w (<[fd := {| data := data r; armed := None |}]> (epoll w)))
    | _, _ => None
    end.

Fixpoint deliver_all (w : world St) (evs : list (Z * mask)) : option (list (mask * Z) * world St) :=
  match evs with
  | [] => Some ([], w)
  | ev :: evs => '(x, w) ← deliver w ev; '(xs, w) ← deliver_all w evs; Some (x :: xs, w)
  end.

(** The data of an event as the descriptor of the union. *)
Definition data_fd (p : Z) : Z := int p.

(** Worker [x] at the beginning of an event that is not a new connection. *)
Definition dispatch (w : world St) (i : nat) (x : worker) (m : mask) (p : Z) : result (world St) :=
  c ← deref p w;
  let fd := connfd c in
  match m with
  | Err => Ok (with_worker (close_fd fd w) i (at_pc x (LClosed p fd)))
  | In =>
    '(ret, c, s) ← handleRead c (sock fd w);
    let w := with_heap (put_sock fd s w) (<[p := c]> (heap w)) in
    if ret <? 0 then Ok (with_worker w i (at_pc x (LRead_failed p fd)))
    else if state c <? STATE_READ_DONE then Ok (with_worker w i (at_pc x (LArm p fd In)))
    else if state c =? STATE_READ_DONE then Ok (with_worker w i (at_pc x (LRequest p fd)))
    else Ok (with_worker w i (at_pc x LNext))
  | Out =>
    '(ret, c, s) ← handleWrite c (sock fd w);
    let w := put_sock fd s w in
    if ret <? 0 then Ok (with_worker (with_heap w (<[p := c]> (heap w))) i (at_pc x (LWrite_failed p fd)))
    else if state c <? STATE_WRITE_DONE then
      Ok (with_worker (with_heap w (<[p := c]> (heap w))) i (at_pc x (LArm p fd Out)))
    else if state c =? STATE_WRITE_DONE then
      Ok (with_worker (with_heap w (<[p := reset c]> (heap w))) i (at_pc x (LArm p fd In)))
    else Ok (with_worker (with_heap w (<[p := c]> (heap w))) i (at_pc x LNext))
  end.

(** [delete connection]: undefined a second time. *)
Definition free_conn (p : Z) (w : world St) : result (world St) :=
  _ ← deref p w; Ok (with_heap w (delete p (heap w))).

(** Worker [x] goes on from where it is. *)
Definition go_on (w : world St) (i : nat) (x : worker) : result (world St) :=
  match pc x with
  | LNext =>
    match batch x with
    | [] => Ok (with_worker w i (at_pc x LWait))
    | (m, p) :: evs =>
      let x := {| curfds := curfds x; batch := evs; pc := LNext |} in
      match m with
      | Err => dispatch w i x m p
      | _ => if data_fd p =? listenfd w then Ok w else dispatch w i x m p
      end
    end
  | LClosed p fd =>
    w ← free_conn p w; Ok (with_worker (epoll_del fd w) i (at_pc (count x (-1)) LNext))
  | LRead_failed p fd => Ok (with_worker (epoll_del fd w) i (at_pc x (LRead_removed p fd)))
  | LRead_removed p fd =>
    w ← free_conn p (close_fd fd w); Ok (with_worker w i (at_pc (count x (-1)) LNext))
  | LRequest p fd =>
    c ← deref p w;
    '(c, st) ← handle c (store w);
    Ok (with_worker (with_store (with_heap w (<[p := c]> (heap w))) st) i (at_pc x (LArm p fd Out)))
  | LArm p fd m => Ok (with_worker (epoll_mod fd p m w) i (at_pc x LNext))
  | LWrite_failed p fd =>
    w ← free_conn p (close_fd fd w); Ok (with_worker w i (at_pc (count x (-1)) (LWrite_closed fd)))
  | LWrite_closed fd => Ok (with_worker (epoll_del fd w) i (at_pc x LNext))
  | _ => Ok w
  end.

(** [accept] at the event of the listening socket: no connection, one too many, or a
    new descriptor. *)
Definition accept_conn (w : world St) (i : nat) (x : worker) (fd : option Z) : world St :=
  match pc x, batch x with
  | LNext, (In, p) :: evs =>
    if data_fd p =? listenfd w then
      let x := {| curfds := curfds x; batch := evs; pc := LNext |} in
      match fd with
      | Some fd =>
        match socks w !! fd with
        | Some _ => w
        | None =>
          if MAX_EPOLL_SIZE <=? curfds x then with_worker w i x
          else with_worker (with_socks w (<[fd := Socket true [] [] []]> (socks w))) i (at_pc x (LAccepted fd))
        end
      | None => with_worker w i x
      end
    else w
  | _, _ => w
  end.

(** [new Connection] at a free address and its registration, which may fail: then the
    socket is closed and the connection is not deleted. *)
Definition create_conn (w : world St) (i : nat) (x : worker) (p : Z) (added : bool) : world St :=
  match pc x with
  | LAccepted fd =>
    match heap w !! p with
    | Some _ => w
    | None =>
      let w := with_heap w (<[p := new_Connection fd]> (heap w)) in
      let w := if added then with_epoll w (<[fd := {| data := p; armed := Some In |}]> (epoll w)) else close_fd fd w in
      with_worker w i (at_pc (count x 1) LNext)
    end
  | _ => w
  end.

(** The network changes what arrives on an open socket and what is taken from it. *)
Definition network (w : world St) (fd : Z) (s : socket) : world St :=
  match socks w !! fd with
  | Some old => with_socks w (<[fd := Socket true (net s) (rooms s) (out old)]> (socks w))
  | None => w
  end.

(** A step; an event that cannot happen changes nothing. *)
Definition step (w : world St) (e : event) : result (world St) :=
  match e with
  | Deliver i evs =>
    match workers w !! i with
    | Some x =>
      match pc x, deliver_all w evs with
      | LWait, Some (xs, w') => Ok (with_worker w' i {| curfds := curfds x; batch := xs; pc := LNext |})
      | _, _ => Ok w
      end
    | None => Ok w
    end
  | Wait_fails i =>
    match workers w !! i with
    | Some x => match pc x with LWait => Ok (with_worker w i (at_pc x LEnded)) | _ => Ok w end
    | None => Ok w
    end
  | Run i => match workers w !! i with Some x => go_on w i x | None => Ok w end
  | Accept i fd => Ok match workers w !! i with Some x => accept_conn w i x fd | None => w end
  | Create i p added => Ok match workers w !! i with Some x => create_conn w i x p added | None => w end
  | Network fd s => Ok (network w fd s)
  end.

Fixpoint steps (w : world St) (es : list event) : result (world St) :=
  match es with [] => Ok w | e :: es => w ← step w e; steps w es end.

(** After [start]: [n] workers, no connection. *)
Definition started (lfd : Z) (st : St) (n : nat) : world St :=
  {| listenfd := lfd; socks := ∅; epoll := ∅; heap := ∅; store := st;
     workers := repeat {| curfds := 1; batch := []; pc := LWait |} n |}.

End Loop.
