(* ===== verification/ObjLoopProps.v ===== *)
(** The event loop with several workers: every connection has one owner at a time, so
    no worker uses a connection that another one handles or has deleted, whatever the
    network, the kernel and the scheduler do; and the executions in which a worker
    closes the socket of a client of another one. *)

From S2P Require Import Prelude Result ChatWire ObjWire ObjWireProps ObjConn ObjConnProps ObjStore ObjStoreProps ObjLoop.
#[local] Open Scope Z_scope.

(** ** Owners *)

Definition reg_ptr (r : registration) : option Z :=
  match armed r with Some _ => Some (data r) | None => None end.

(** The pointers of the armed registrations. *)
Definition armed_ptrs (m : gmap Z registration) : list Z := omap (fun x => reg_ptr x.2) (map_to_list m).

Lemma armed_insert fd r m :
  armed_ptrs (<[fd := r]> m) ≡ₚ option_list (reg_ptr r) ++ armed_ptrs (delete fd m).
Proof.
  rewrite <- insert_delete_eq. unfold armed_ptrs.
  rewrite map_to_list_insert by apply lookup_delete_eq. cbn. by destruct (reg_ptr r).
Qed.

Lemma armed_delete fd m r : m !! fd = Some r ->
  armed_ptrs m ≡ₚ option_list (reg_ptr r) ++ armed_ptrs (delete fd m).
Proof. intros H. by rewrite <- armed_insert, insert_id. Qed.

Lemma armed_delete_sub fd m : armed_ptrs (delete fd m) ⊆+ armed_ptrs m.
Proof.
  destruct (m !! fd) as [r|] eqn:E; [|by rewrite delete_id].
  rewrite (armed_delete fd m r E). apply submseteq_inserts_l. done.
Qed.

(** The pointer an event of a batch carries, unless it is taken for the listening socket. *)
Definition event_ptr (lfd : Z) (ev : mask * Z) : option Z :=
  match ev.1 with
  | Err => Some ev.2
  | _ => if data_fd ev.2 =? lfd then None else Some ev.2
  end.

Definition pc_ptrs (p : loop_pc) : list Z :=
  match p with
  | LClosed p _ | LRead_failed p _ | LRead_removed p _ | LRequest p _ | LArm p _ _ | LWrite_failed p _ => [p]
  | _ => []
  end.

(** The pointers in the hands of a worker. *)
Definition ptrs (lfd : Z) (x : worker) : list Z := pc_ptrs (pc x) ++ omap (event_ptr lfd) (batch x).

Section Owners.
Context `{Malloc} `{Storage St}.
Implicit Types w : world St.
Variable lfd : Z.

Definition owned w : list Z := concat (map (ptrs (listenfd w)) (workers w)) ++ armed_ptrs (epoll w).

(** Every pointer in use has one owner and a well-formed connection behind it. *)
Record Inv w : Prop := {
  inv_listen : int (listenfd w) = listenfd w /\ listenfd w = lfd;
  inv_owner : NoDup (owned w);
  inv_conn p : p ∈ owned w -> exists c, heap w !! p = Some c /\ wf_conn c;
  inv_request i x p fd : workers w !! i = Some x -> pc x = LRequest p fd ->
    exists c, heap w !! p = Some c /\ state c = STATE_READ_DONE
}.

Lemma inv_started (st : St) n : int lfd = lfd -> Inv (started lfd st n).
Proof.
  intros Hl. assert (forall n, concat (map (ptrs lfd) (repeat {| curfds := 1; batch := []; pc := LWait |} n)) = []) as Hn.
  { induction n0; [done|]. by cbn. }
  assert (owned (started lfd st n) = []) as Ho by (unfold owned; cbn; rewrite Hn; done).
  split; [done|by rewrite Ho; constructor|intros p; rewrite Ho; by intros ?%elem_of_nil|].
  intros i x p fd Hx%list_elem_of_lookup_2. cbn in Hx. intros Hp. exfalso. induction n; cbn in Hx; [by apply elem_of_nil in Hx|].
  apply elem_of_cons in Hx as [->|Hx]; [done|auto].
Qed.

Lemma concat_split {A} (f : A -> list Z) (l : list A) i x : l !! i = Some x ->
  concat (map f l) ≡ₚ f x ++ concat (map f (delete i l)).
Proof.
  revert i. induction l as [|y l IH]; intros [|i] Hi; simplify_eq/=; [done|].
  rewrite (IH i Hi). rewrite !(assoc_L (++)). by rewrite (Permutation_app_comm (f y) (f x)).
Qed.

Lemma delete_list_insert {A} (l : list A) i x : delete i (<[i := x]> l) = delete i l.
Proof. revert i. induction l as [|y l IH]; intros [|i]; [done..|]. cbn. f_equal. apply IH. Qed.

Lemma NoDup_part {A} (l k : list A) : NoDup k -> l ⊆+ k -> NoDup l.
Proof. intros Hk [r Hr]%submseteq_Permutation. rewrite Hr in Hk. by apply NoDup_app in Hk as []. Qed.

Lemma elem_of_others {A} (f : A -> list Z) i j (l : list A) y p : l !! j = Some y -> i <> j -> p ∈ f y ->
  p ∈ concat (map f (delete i l)).
Proof.
  revert i j. induction l as [|z l IH]; intros i j Hj Hij Hp; [done|].
  destruct i as [|i], j as [|j]; simplify_eq/=; rewrite ?elem_of_app.
  - rewrite (concat_split f l j y Hj), elem_of_app. by left.
  - by left.
  - right. by apply (IH i j); [|congruence|].
Qed.

(** A step of one worker: what it owns afterwards, in its hands and in the
    registrations, it or the registrations owned before, and it leaves the other
    connections alone. *)
Lemma own_update w w' i x x' : Inv w -> workers w !! i = Some x ->
  listenfd w' = listenfd w -> workers w' = <[i := x']> (workers w) ->
  ptrs (listenfd w) x' ++ armed_ptrs (epoll w') ⊆+ ptrs (listenfd w) x ++ armed_ptrs (epoll w) ->
  (forall p, p ∉ ptrs (listenfd w) x -> heap w' !! p = heap w !! p) ->
  (forall p, p ∈ ptrs (listenfd w) x' ++ armed_ptrs (epoll w') -> p ∈ ptrs (listenfd w) x ->
     exists c, heap w' !! p = Some c /\ wf_conn c) ->
  (forall p fd, pc x' = LRequest p fd -> exists c, heap w' !! p = Some c /\ state c = STATE_READ_DONE) -> Inv w'.
Proof.
  intros [Hl Hn Hc Hr] Hx Hl' Hw Hsub Hh Hown Hreq.
  set (rest := concat (map (ptrs (listenfd w)) (delete i (workers w)))).
  assert (owned w ≡ₚ rest ++ ptrs (listenfd w) x ++ armed_ptrs (epoll w)) as Ho.
  { unfold owned. rewrite (concat_split _ _ _ _ Hx). fold rest. solve_Permutation. }
  assert (owned w' ≡ₚ rest ++ ptrs (listenfd w) x' ++ armed_ptrs (epoll w')) as Ho'.
  { unfold owned. rewrite Hl', Hw. rewrite (concat_split _ _ i x'), delete_list_insert.
    - fold rest. solve_Permutation.
    - apply list_lookup_insert_eq. by eapply lookup_lt_Some. }
  assert (NoDup (owned w')) as Hn'.
  { rewrite Ho'. rewrite Ho in Hn. eapply NoDup_part; [exact Hn|]. by apply submseteq_app. }
  rewrite Ho in Hn. apply NoDup_app in Hn as (_ & Hdis & _).
  assert (forall p, p ∈ rest -> p ∉ ptrs (listenfd w) x) as Hother
    by (intros p Hp Hin; apply (Hdis p Hp), elem_of_app; by left).
  split; [by rewrite Hl'|done| |].
  - intros p. rewrite Ho', elem_of_app. intros [Hp|Hp].
    + rewrite Hh by auto. apply Hc. rewrite Ho. apply elem_of_app. by left.
    + destruct (decide (p ∈ ptrs (listenfd w) x)); [by apply Hown|]. rewrite Hh by done. apply Hc.
      rewrite Ho. apply elem_of_app. right. by eapply elem_of_submseteq.
  - intros j y p fd Hy Hpc. rewrite Hw in Hy. destruct (decide (i = j)) as [<-|Hij].
    + rewrite list_lookup_insert_eq in Hy by (by eapply lookup_lt_Some). simplify_eq. by eapply Hreq.
    + rewrite list_lookup_insert_ne in Hy by done. rewrite Hh; [by eapply Hr|]. apply Hother.
      unfold rest. apply (elem_of_others _ i j _ y p); [done|done|]. unfold ptrs. rewrite Hpc. by left.
Qed.

Lemma owned_hands w i x p : workers w !! i = Some x -> p ∈ ptrs (listenfd w) x -> p ∈ owned w.
Proof.
  intros Hx Hp. unfold owned. rewrite (concat_split _ _ _ _ Hx), !elem_of_app. tauto.
Qed.

Lemma owned_nodup w i x : Inv w -> workers w !! i = Some x -> NoDup (ptrs (listenfd w) x ++ armed_ptrs (epoll w)).
Proof.
  intros [_ Hn _ _] Hx. eapply NoDup_part; [exact Hn|]. unfold owned. rewrite (concat_split _ _ _ _ Hx).
  rewrite <- (assoc_L (++)). apply submseteq_skips_l. apply submseteq_inserts_l. done.
Qed.

(** A step that keeps or changes the connection it holds. *)
Lemma inv_hold w w1 i x x' p c' : Inv w -> workers w !! i = Some x -> p ∈ ptrs (listenfd w) x ->
  listenfd w1 = listenfd w -> workers w1 = workers w -> armed_ptrs (epoll w1) ⊆+ armed_ptrs (epoll w) ->
  heap w1 = <[p := c']> (heap w) -> wf_conn c' -> ptrs (listenfd w) x' ⊆+ ptrs (listenfd w) x ->
  (forall q fd, pc x' = LRequest q fd -> q = p /\ state c' = STATE_READ_DONE) -> Inv (with_worker w1 i x').
Proof.
  intros Hi Hx Hp Hl Hw He Hh Hc Hs Hr. apply (own_update w _ i x x'); try done.
  - cbn. by rewrite Hw.
  - cbn. by apply submseteq_app.
  - intros q Hq. cbn. rewrite Hh, lookup_insert_ne; [done|congruence].
  - intros q _ Hq. cbn. rewrite Hh. destruct (decide (q = p)) as [->|Hne].
    + rewrite lookup_insert_eq. by exists c'.
    + rewrite lookup_insert_ne by done. eapply inv_conn; [done|]. by eapply owned_hands.
  - intros q fd Hpc. cbn. destruct (Hr q fd Hpc) as [-> ?]. rewrite Hh, lookup_insert_eq. by exists c'.
Qed.

(** A step that deletes the connection it holds. *)
Lemma inv_free w w1 i x x' p : Inv w -> workers w !! i = Some x ->
  p :: ptrs (listenfd w) x' ⊆+ ptrs (listenfd w) x -> pc_ptrs (pc x') = [] ->
  listenfd w1 = listenfd w -> workers w1 = workers w -> armed_ptrs (epoll w1) ⊆+ armed_ptrs (epoll w) ->
  heap w1 = delete p (heap w) -> Inv (with_worker w1 i x').
Proof.
  intros Hi Hx Hs Hpc Hl Hw He Hh. pose proof (owned_nodup w i x Hi Hx) as Hn.
  assert (NoDup (p :: ptrs (listenfd w) x' ++ armed_ptrs (epoll w1))) as Hn'
    by (eapply NoDup_part; [exact Hn|]; by apply (submseteq_app (p :: _))).
  apply NoDup_cons in Hn' as [Hnot _]. apply (own_update w _ i x x'); try done.
  - cbn. by rewrite Hw.
  - cbn. apply submseteq_app; [|done]. etransitivity; [|exact Hs]. by apply submseteq_cons.
  - intros q Hq. cbn. rewrite Hh, lookup_delete_ne; [done|]. intros ->. apply Hq.
    eapply elem_of_submseteq; [|exact Hs]. by left.
  - intros q Hq Hin. cbn. rewrite Hh, lookup_delete_ne by (by intros ->).
    eapply inv_conn; [done|]. by eapply owned_hands.
  - intros q fd Hq. by rewrite Hq in Hpc.
Qed.

(** A step that arms the registration of its connection. *)
Lemma inv_arm w i x p fd m : Inv w -> workers w !! i = Some x -> pc x = LArm p fd m ->
  Inv (with_worker (epoll_mod fd p m w) i (at_pc x LNext)).
Proof.
  intros Hi Hx Hpc. assert (ptrs (listenfd w) x = p :: ptrs (listenfd w) (at_pc x LNext)) as Hp
    by (unfold ptrs; by rewrite Hpc).
  apply (own_update w _ i x (at_pc x LNext)); try done;
    [unfold epoll_mod; by destruct (epoll w !! fd)..| | |].
  - rewrite Hp. cbn [with_worker epoll]. rewrite <- app_comm_cons, Permutation_middle. apply submseteq_app; [done|].
    unfold epoll_mod. destruct (epoll w !! fd) as [r|] eqn:E; [|by apply submseteq_cons].
    cbn [with_epoll epoll]. rewrite armed_insert. cbn. apply submseteq_skip, armed_delete_sub.
  - intros q _. unfold epoll_mod. by destruct (epoll w !! fd).
  - intros q _ Hq. apply (owned_hands w i x q Hx) in Hq. destruct (inv_conn w Hi q Hq) as (c & ? & ?). exists c.
    unfold epoll_mod. by destruct (epoll w !! fd).
Qed.

(** A step that drops what it holds or changes other things only. *)
Lemma inv_drop w w1 i x x' : Inv w -> workers w !! i = Some x ->
  listenfd w1 = listenfd w -> workers w1 = workers w -> armed_ptrs (epoll w1) ⊆+ armed_ptrs (epoll w) ->
  heap w1 = heap w -> ptrs (listenfd w) x' ⊆+ ptrs (listenfd w) x ->
  (forall q fd, pc x' <> LRequest q fd) -> Inv (with_worker w1 i x').
Proof.
  intros Hi Hx Hl Hw He Hh Hs Hr. apply (own_update w _ i x x'); try done.
  - cbn. by rewrite Hw.
  - cbn. by apply submseteq_app.
  - intros q Hq. cbn. by rewrite Hh.
  - intros q _ Hq. cbn. rewrite Hh. eapply inv_conn; [done|]. by eapply owned_hands.
  - intros q fd Hpc. by destruct (Hr q fd).
Qed.

Lemma close_fd_sub fd w : armed_ptrs (epoll (close_fd fd w)) ⊆+ armed_ptrs (epoll w).
Proof. apply armed_delete_sub. Qed.

Lemma put_sock_frame fd s w : listenfd (put_sock fd s w) = listenfd w /\ workers (put_sock fd s w) = workers w
  /\ armed_ptrs (epoll (put_sock fd s w)) ⊆+ armed_ptrs (epoll w) /\ heap (put_sock fd s w) = heap w
  /\ store (put_sock fd s w) = store w.
Proof.
  unfold put_sock. destruct (socks w !! fd); [|done]. destruct (is_open s); [done|].
  split_and!; try done. apply close_fd_sub.
Qed.

(** The beginning of the branches of a connection. *)
Lemma dispatch_inv w i x0 x m p evs : Inv w -> workers w !! i = Some x0 -> pc x0 = LNext -> batch x0 = (m, p) :: evs ->
  event_ptr (listenfd w) (m, p) = Some p -> batch x = evs ->
  exists w', dispatch w i x m p = Ok w' /\ Inv w'.
Proof.
  intros Hi Hx Hpc Hb Hev Hbx.
  assert (ptrs (listenfd w) x0 = p :: omap (event_ptr (listenfd w)) evs) as Hp0.
  { unfold ptrs. rewrite Hpc, Hb. cbn [pc_ptrs app omap list_omap]. by rewrite Hev. }
  assert (p ∈ ptrs (listenfd w) x0) as Hin by (rewrite Hp0; by left).
  destruct (inv_conn w Hi p (owned_hands w i x0 p Hx Hin)) as (c & Hc & Hwf).
  unfold dispatch, deref. rewrite Hc. cbn [lift mbind result_bind].
  assert (forall pc', pc_ptrs pc' = [p] \/ pc_ptrs pc' = [] -> ptrs (listenfd w) (at_pc x pc') ⊆+ ptrs (listenfd w) x0) as Hsub.
  { intros pc' Hpc'. rewrite Hp0. unfold ptrs. cbn [at_pc pc batch]. rewrite Hbx.
    destruct Hpc' as [-> | ->]; [done|by apply submseteq_cons]. }
  destruct m.
  - destruct (handleRead_wf c (sock (connfd c) w) Hwf) as (ret & c' & s' & -> & Hwf'). cbn [mbind result_bind].
    destruct (put_sock_frame (connfd c) s' w) as (Hl & Hw & He & Hh & _).
    assert (forall pc', pc_ptrs pc' = [p] \/ pc_ptrs pc' = [] ->
      (forall q fd, pc' = LRequest q fd -> q = p /\ state c' = STATE_READ_DONE) ->
      Inv (with_worker (with_heap (put_sock (connfd c) s' w) (<[p := c']> (heap w))) i (at_pc x pc'))) as Hgo.
    { intros pc' Hpc' Hreq. apply (inv_hold w _ i x0 _ p c'); try done. by apply Hsub. }
    case_bool; (eexists; split; [done|]); apply Hgo; try done; try (by left); try (by right). by intros q fd' [= <- <-].
  - destruct (handleWrite_wf c (sock (connfd c) w) Hwf) as (ret & c' & s' & -> & Hwf'). cbn [mbind result_bind].
    destruct (put_sock_frame (connfd c) s' w) as (Hl & Hw & He & Hh & _).
    assert (forall c1 pc', wf_conn c1 -> pc_ptrs pc' = [p] \/ pc_ptrs pc' = [] -> (forall q fd, pc' <> LRequest q fd) ->
      Inv (with_worker (with_heap (put_sock (connfd c) s' w) (<[p := c1]> (heap (put_sock (connfd c) s' w)))) i (at_pc x pc'))) as Hgo.
    { intros c1 pc' Hc1 Hpc' Hreq. apply (inv_hold w _ i x0 _ p c1); try done; [cbn; by rewrite Hh|by apply Hsub|].
      intros q fd' Hq. by destruct (Hreq q fd'). }
    case_bool; (eexists; split; [done|]); apply Hgo; try done; try (by left); try (by right).
    destruct Hwf' as [E|E|E|? E|? E|E]; try wrong_state. by apply Wf_init.
  - eexists. split; [done|]. apply (inv_drop w _ i x0); try done; [apply close_fd_sub|apply Hsub; by left].
Qed.

Lemma free_conn_ok p w : (exists c, heap w !! p = Some c) -> free_conn p w = Ok (with_heap w (delete p (heap w))).
Proof. intros [c Hc]. unfold free_conn, deref. by rewrite Hc. Qed.

(** What the storage answers fits in an [int]. *)
Hypothesis responses_fit :
  forall r (st : St) resp st', respond r st = Ok (resp, st') -> 0 <= rs_len resp < 2 ^ 31.

(** Worker [i] is about to handle a request, and handling it is undefined. *)
Definition handle_undefined w : Prop := exists i x p fd c,
  workers w !! i = Some x /\ pc x = LRequest p fd /\ heap w !! p = Some c /\ state c = STATE_READ_DONE
  /\ forall x', handle c (store w) <> Ok x'.

Lemma go_on_inv w i x : Inv w -> workers w !! i = Some x ->
  handle_undefined w \/ exists w', go_on w i x = Ok w' /\ Inv w'.
Proof.
  intros Hi Hx. unfold go_on.
  assert (forall p, pc_ptrs (pc x) = [p] -> exists c, heap w !! p = Some c /\ wf_conn c) as Hconn.
  { intros p Hp. apply (inv_conn w Hi). apply (owned_hands w i x p Hx). unfold ptrs. rewrite Hp. by left. }
  destruct (pc x) as [| |p fd|fd|p fd|p fd|p fd|p fd m|p fd|fd|] eqn:Hpc; try (right; eexists; split; [done|assumption]).
  - right. destruct (batch x) as [|[m p] evs] eqn:Hb.
    { eexists. split; [done|]. apply (inv_drop w _ i x); try done. unfold ptrs. by rewrite Hpc. }
    destruct m; [| |by apply (dispatch_inv w i x _ Err p evs)].
    all: destruct (Z.eqb_spec (data_fd p) (listenfd w)) as [He|He]; [by eexists|].
    all: apply (dispatch_inv w i x _ _ p evs); try done; unfold event_ptr; cbn; by rewrite (proj2 (Z.eqb_neq _ _) He).
  - right. destruct (Hconn p eq_refl) as (c & Hc & _). rewrite free_conn_ok by (by eexists).
    eexists. split; [done|]. apply (inv_free w _ i x _ p); try done; [|apply armed_delete_sub].
    unfold ptrs. by rewrite Hpc.
  - right. eexists. split; [done|]. apply (inv_drop w _ i x); try done; [apply armed_delete_sub|].
    unfold ptrs. by rewrite Hpc.
  - right. destruct (Hconn p eq_refl) as (c & Hc & _). rewrite free_conn_ok by (by eexists).
    eexists. split; [done|]. apply (inv_free w _ i x _ p); try done; [|apply armed_delete_sub].
    unfold ptrs. by rewrite Hpc.
  - destruct (Hconn p eq_refl) as (c & Hc & Hwf). destruct (inv_request w Hi i x p fd Hx Hpc) as (c0 & Hc0 & Hst).
    simplify_eq. unfold deref. rewrite Hc. cbn [lift mbind result_bind].
    destruct (handle c (store w)) as [[c' st']| |] eqn:Eh;
      [|left; exists i, x, p, fd, c; split_and!; try done; by rewrite Eh..].
    right. cbn [mbind result_bind]. eexists. split; [done|].
    apply (inv_hold w _ i x _ p c'); try done; [unfold ptrs; rewrite Hpc; by left|exact (handle_wf c (store w) c' st' Hwf Hst (fun r => responses_fit r (store w)) Eh)|].
    unfold ptrs. by rewrite Hpc.
  - right. eexists. split; [done|]. by apply inv_arm.
  - right. destruct (Hconn p eq_refl) as (c & Hc & _). rewrite free_conn_ok by (by eexists).
    eexists. split; [done|]. apply (inv_free w _ i x _ p); try done; [|apply armed_delete_sub].
    unfold ptrs. by rewrite Hpc.
  - right. eexists. split; [done|]. apply (inv_drop w _ i x); try done; [apply armed_delete_sub|].
    unfold ptrs. by rewrite Hpc.
Qed.

(** Delivered events move pointers from the registrations into the batch. *)
Lemma deliver_frame w ev x w' : int (listenfd w) = listenfd w -> deliver w ev = Some (x, w') ->
  listenfd w' = listenfd w /\ workers w' = workers w /\ heap w' = heap w
  /\ option_list (event_ptr (listenfd w) x) ++ armed_ptrs (epoll w') ⊆+ armed_ptrs (epoll w).
Proof.
  intros Hl Hd. destruct ev as [fd m]. unfold deliver in Hd. case_bool.
  - destruct m; simplify_eq. split_and!; try done. unfold event_ptr, data_fd. cbn. by rewrite Hl, Z.eqb_refl.
  - destruct (epoll w !! fd) as [r|] eqn:Er; [|done]. cbn [mbind option_bind] in Hd.
    assert (forall a, armed r = Some a -> option_list (event_ptr (listenfd w) (m, data r))
      ++ armed_ptrs (<[fd := {| data := data r; armed := None |}]> (epoll w)) ⊆+ armed_ptrs (epoll w)) as Hsub.
    { intros a Ha. rewrite armed_insert, (armed_delete fd (epoll w) r Er). unfold reg_ptr. rewrite Ha. cbn.
      unfold event_ptr. destruct m; cbn; try done; (destruct (_ =? _); cbn; [by apply submseteq_cons|done]). }
    destruct (armed r) as [a|] eqn:Ea; [|by destruct m].
    destruct a, m; simplify_eq; split_and!; try done; by apply (Hsub _ eq_refl).
Qed.

Lemma deliver_all_frame w evs xs w' : int (listenfd w) = listenfd w -> deliver_all w evs = Some (xs, w') ->
  listenfd w' = listenfd w /\ workers w' = workers w /\ heap w' = heap w
  /\ omap (event_ptr (listenfd w)) xs ++ armed_ptrs (epoll w') ⊆+ armed_ptrs (epoll w).
Proof.
  revert w xs. induction evs as [|ev evs IH]; intros w xs Hl Hd; cbn in Hd; [by simplify_eq|].
  destruct (deliver w ev) as [[x w1]|] eqn:E1; [|done]. cbn [mbind option_bind] in Hd.
  destruct (deliver_all w1 evs) as [[xs' w2]|] eqn:E2; [|done]. cbn in Hd. simplify_eq.
  apply deliver_frame in E1 as (Hl1 & Hw1 & Hh1 & Hs1); [|done].
  apply IH in E2 as (Hl2 & Hw2 & Hh2 & Hs2); [|by rewrite Hl1]. split_and!; [congruence..|].
  rewrite Hl1 in Hs2. etransitivity; [|exact Hs1]. cbn [omap list_omap].
  transitivity (option_list (event_ptr (listenfd w) x) ++ (omap (event_ptr (listenfd w)) xs' ++ armed_ptrs (epoll w'))).
  - by destruct (event_ptr (listenfd w) x).
  - by apply submseteq_skips_l.
Qed.

Lemma deliver_inv w i x evs xs w' : Inv w -> workers w !! i = Some x -> pc x = LWait ->
  deliver_all w evs = Some (xs, w') ->
  Inv (with_worker w' i {| curfds := curfds x; batch := xs; pc := LNext |}).
Proof.
  intros Hi Hx Hpc Hd. apply deliver_all_frame in Hd as (Hl & Hw & Hh & Hs); [|apply (inv_listen w Hi)].
  apply (own_update w _ i x {| curfds := curfds x; batch := xs; pc := LNext |}); try done.
  - cbn. by rewrite Hw.
  - cbn. etransitivity; [exact Hs|]. by apply submseteq_inserts_l.
  - intros p _. cbn. by rewrite Hh.
  - intros p _ Hp. cbn. rewrite Hh. eapply inv_conn; [done|]. by eapply owned_hands.
Qed.

Lemma accept_inv w i x fd : Inv w -> workers w !! i = Some x -> Inv (accept_conn w i x fd).
Proof.
  intros Hi Hx. unfold accept_conn. destruct (pc x) eqn:Hpc; try done.
  destruct (batch x) as [|[[| |] p] evs] eqn:Hb; try done. destruct (data_fd p =? listenfd w); [|done].
  assert (forall w1 pc', listenfd w1 = listenfd w -> workers w1 = workers w -> epoll w1 = epoll w -> heap w1 = heap w ->
    pc_ptrs pc' = [] -> (forall q fd, pc' <> LRequest q fd) ->
    Inv (with_worker w1 i {| curfds := curfds x; batch := evs; pc := pc' |})) as Hgo.
  { intros w1 pc' Hl Hw He Hh Hp Hr. apply (inv_drop w _ i x); try done; [by rewrite He|].
    unfold ptrs. cbn [pc batch]. rewrite Hp, Hpc, Hb. cbn [pc_ptrs app omap list_omap].
    destruct (event_ptr _ _); [by apply submseteq_cons|done]. }
  destruct fd as [fd|]; [|by apply Hgo]. destruct (socks w !! fd); [done|].
  destruct (MAX_EPOLL_SIZE <=? _); by apply Hgo.
Qed.

(** A new connection is owned by its registration. *)
Lemma create_inv w i x p added : Inv w -> workers w !! i = Some x -> Inv (create_conn w i x p added).
Proof.
  intros Hi Hx. unfold create_conn. destruct (pc x) as [| | |fd| | | | | | |] eqn:Hpc; try done.
  destruct (heap w !! p) eqn:Hp; [done|].
  assert (p ∉ owned w) as Hfresh by (intros Hin; destruct (inv_conn w Hi p Hin) as (c & Hc & _); congruence).
  set (w1 := with_heap w (<[p := new_Connection fd]> (heap w))).
  assert (Inv w1) as Hi1.
  { destruct Hi as [Hl Hn Hc Hr]. split; [done|done| |].
    - intros q Hq. cbn. rewrite lookup_insert_ne by (intros ->; done). by apply Hc.
    - intros j y q f Hy Hq. destruct (Hr j y q f Hy Hq) as (c & Hc' & ?). exists c. cbn.
      rewrite lookup_insert_ne by congruence. done. }
  set (x' := at_pc (count x 1) LNext).
  assert (forall w2, Inv w2 -> workers w2 = workers w -> Inv (with_worker w2 i x')) as Hgo.
  { intros w2 Hi2 Hw2. apply (inv_drop w2 _ i x); try done; [by rewrite Hw2|]. unfold ptrs. by rewrite Hpc. }
  destruct added.
  - apply Hgo; [|done]. destruct Hi1 as [Hl Hn Hc Hr].
    assert (owned (with_epoll w1 (<[fd := {| data := p; armed := Some In |}]> (epoll w1))) ⊆+ p :: owned w1) as Hs.
    { unfold owned. cbn [with_epoll epoll listenfd workers]. rewrite armed_insert.
      change (option_list _ ++ armed_ptrs (delete fd (epoll w1))) with (p :: armed_ptrs (delete fd (epoll w1))).
      rewrite <- Permutation_middle.
      apply submseteq_skip, submseteq_skips_l, armed_delete_sub. }
    split; [done|eapply NoDup_part; [|exact Hs]; by constructor| |done].
    intros q Hq. eapply elem_of_submseteq in Hq; [|exact Hs]. apply elem_of_cons in Hq as [->|Hq]; [|by apply Hc].
    exists (new_Connection fd). cbn. rewrite lookup_insert_eq. split; [done|apply wf_new].
  - apply (inv_drop w1 _ i x x'); try done; [apply close_fd_sub|]. unfold ptrs. by rewrite Hpc.
Qed.

Lemma step_inv w e : Inv w -> handle_undefined w \/ exists w', step w e = Ok w' /\ Inv w'.
Proof.
  intros Hi. destruct e as [i evs|i|i|i fd|i p added|fd s]; cbn [step].
  1-5: destruct (workers w !! i) as [x|] eqn:Hx; [|right; by eexists].
  - right. destruct (pc x) eqn:Hpc; try by eexists. destruct (deliver_all w evs) as [[xs w']|] eqn:Hd; [|by eexists].
    eexists. split; [done|]. by eapply deliver_inv.
  - right. destruct (pc x) eqn:Hpc; try by eexists. eexists. split; [done|]. apply (inv_drop w _ i x); try done.
    unfold ptrs. by rewrite Hpc.
  - by apply go_on_inv.
  - right. eexists. split; [done|]. by apply accept_inv.
  - right. eexists. split; [done|]. by apply create_inv.
  - right. eexists. split; [done|]. unfold network. destruct (socks w !! fd); [|done]. destruct Hi. by split.
Qed.

(** Executions that come to the handling of a request that is undefined. *)
Fixpoint bad_request_reached w (es : list event) : Prop :=
  handle_undefined w
  \/ match es with [] => False | e :: es => exists w', step w e = Ok w' /\ bad_request_reached w' es end.

Lemma loop_steps_inv w es : Inv w -> bad_request_reached w es \/ exists w', steps w es = Ok w' /\ Inv w'.
Proof.
  revert w. induction es as [|e es IH]; intros w Hi; cbn; [right; by eexists|].
  destruct (step_inv w e Hi) as [Hbad|(w1 & He & Hi1)]; [by left; left|]. rewrite He. cbn [mbind result_bind].
  destruct (IH w1 Hi1) as [Hbad|?]; [left; right; by exists w1|by right].
Qed.

End Owners.

(** ** The server with its storage *)

Section Server.
Context `{Malloc}.

Lemma fileLength_fits io st n st' : fileLength io st = Ok (n, st') -> n < 2 ^ 31.
Proof.
  unfold fileLength. destruct (fp io) as [f|]; [|done]. cbn [lift mbind result_bind].
  destruct (fseek f _ st) as [[r f1] st1]. case_bool; [intros; by simplify_eq| |].
  all: pose proof (is_int_int (Z.of_nat (pos f1))) as Hi; unfold is_int in Hi.
  - intros; by simplify_eq.
  - destruct (fseek f1 0 st1) as [[r' f2] st2]. destruct (r' <? 0); intros; simplify_eq; lia.
Qed.

Lemma put_fits r resp st x : put_object r resp st = Ok x -> rs_len x.1 = 0.
Proof.
  unfold put_object, put_new, put_existing. destruct (rq_buf r) as [buf|]; [|intros; by simplify_eq].
  destruct (meta_get _ st) as [g st1]. destruct (g <? 0).
  - destruct (open_file _ _ _ st1) as [io st2]. destruct (writeData io buf _ st2) as [[[w io'] st3]| |]; [|done..].
    cbn [mbind result_bind]. destruct ((w <? 0) || _); [intros; by simplify_eq|].
    destruct (meta_put _ st3). intros; by simplify_eq.
  - destruct (open_file _ _ _ st1) as [io st2]. destruct (writeData io buf _ st2) as [[[w io'] st3]| |]; [|done..].
    cbn [mbind result_bind]. destruct ((w <? 0) || _); [intros; by simplify_eq|].
    destruct (renameFile _ _ st3) as [[n io2] st4]. intros; by simplify_eq.
Qed.

Lemma delete_fits r resp st x : delete_object r resp st = Ok x -> rs_len x.1 = 0.
Proof.
  unfold delete_object. destruct (meta_get _ st) as [g st1]. destruct (0 <=? g); [|intros; by simplify_eq].
  destruct (open_file _ _ _ st1) as [io st2]. destruct (fp io); destruct (meta_del _ _) as [d st3];
    [destruct (d <? 0)|]; intros; by simplify_eq.
Qed.

Lemma get_fits r resp st x : get_object r resp st = Ok x -> 0 <= rs_len x.1 < 2 ^ 31.
Proof.
  unfold get_object. destruct (meta_get _ st) as [g st1]. destruct (0 <=? g); [|intros; by simplify_eq].
  destruct (open_file _ _ _ st1) as [io st2]. destruct (fileLength io st2) as [[len st3]| |] eqn:El; [|done..].
  apply fileLength_fits in El. cbn [mbind result_bind]. destruct (fp io); [|intros; by simplify_eq].
  destruct (Z.ltb_spec len 0); [intros; by simplify_eq|]. destruct (malloc _) as [b|]; [|done].
  cbn [lift mbind result_bind]. destruct (readData io b len st3) as [[[n b'] st4]| |]; [|done..].
  cbn [mbind result_bind]. destruct (len =? n); intros; simplify_eq; cbn; lia.
Qed.

Lemma respond_fits r (st : storage) resp st' : respond r st = Ok (resp, st') -> 0 <= rs_len resp < 2 ^ 31.
Proof.
  unfold respond. cbn [handlePut handleGet handleDelete object_storage].
  destruct (_ =? METHOD_PUT); [intros E%put_fits; cbn in E; lia|].
  destruct (_ =? METHOD_GET); [by intros E%get_fits|].
  destruct (_ =? METHOD_DELETE); [intros E%delete_fits; cbn in E; lia|]. intros; by simplify_eq.
Qed.

(** C6: However the workers interleave, whatever the clients send and the kernel
    reports, until a request is handled that is malformed: no worker uses a connection
    after its deletion, a connection is in the hands of at most one worker and then
    not armed for another event, and it is well formed. *)
Theorem loop_safe lfd (st : storage) n es : int lfd = lfd ->
  bad_request_reached (started lfd st n) es
  \/ exists w, steps (started lfd st n) es = Ok w
     /\ forall i x p, workers w !! i = Some x -> p ∈ ptrs lfd x ->
        (exists c, heap w !! p = Some c /\ wf_conn c)
        /\ (forall j y, workers w !! j = Some y -> p ∈ ptrs lfd y -> i = j)
        /\ (forall fd r, epoll w !! fd = Some r -> data r = p -> armed r = None).
Proof.
  intros Hl. destruct (loop_steps_inv lfd respond_fits (started lfd st n) es (inv_started lfd st n Hl)) as [Hbad|(w & Hw & Hi)];
    [by left|right]. exists w. split; [done|]. intros i x p Hx Hp.
  destruct (inv_listen _ _ Hi) as [_ Hlf]. rewrite <- Hlf in *. pose proof (owned_nodup _ w i x Hi Hx) as Hn. split_and!.
  - apply (inv_conn _ w Hi). by eapply owned_hands.
  - intros j y Hy Hpy. destruct (decide (i = j)) as [|Hij]; [done|exfalso].
    pose proof (inv_owner _ w Hi) as Ho. unfold owned in Ho. rewrite (concat_split _ _ _ _ Hx) in Ho.
    rewrite <- (assoc_L (++)) in Ho. apply NoDup_app in Ho as (_ & Hd & _). apply (Hd p Hp), elem_of_app. left.
    by apply (elem_of_others _ i j _ y p).
  - intros fd r Hr <-. destruct (armed r) as [m|] eqn:Ha; [exfalso|done].
    apply NoDup_app in Hn as (_ & Hd & _). apply (Hd _ Hp). rewrite (armed_delete fd _ r Hr). unfold reg_ptr. rewrite Ha. by left.
Qed.

End Server.

(** ** A stale close *)

(** Two workers, the listening socket 3. Worker 0 finds the end of the connection of a
    client on descriptor 5 and closes the descriptor; before it goes on, worker 1
    accepts another client, which gets the descriptor 5. *)
Definition stale_events : list event :=
  [Deliver 0 [(3, In)]; Accept 0 (Some 5); Create 0 4096 true; Run 0;
   Network 5 (Socket true [Closed] [] []); Deliver 0 [(5, In)]; Run 0;
   Deliver 1 [(3, In)]; Accept 1 (Some 5); Create 1 8192 true; Run 1; Run 0; Run 0; Run 0].

(** A worker that drops a connection closes its descriptor twice. In between another
    worker can accept a client on the same descriptor: the second close cuts off that
    client, and its connection is neither registered nor in the hands of a worker. *)
Theorem stale_close (st : storage) : exists w, steps (started 3 st 2) stale_events = Ok w
  /\ heap w !! 8192 = Some (new_Connection 5) /\ socks w !! 5 = None /\ epoll w !! 5 = None
  /\ (forall i x, workers w !! i = Some x -> pc x = LWait /\ batch x = []).
Proof.
  eexists. split; [vm_compute; reflexivity|]. split_and!; try (vm_compute; reflexivity).
  intros [|[|[|i]]] x; intros; by simplify_eq/=.
Qed.

(** The storage of a server that has just been set up. *)
Definition no_objects : storage := store_of ∅ [].

Lemma loop_safe_witness : int 3 = 3 /\ (bad_request_reached (started 3 no_objects 2) stale_events
  \/ exists w, steps (started 3 no_objects 2) stale_events = Ok w
     /\ forall i x p, workers w !! i = Some x -> p ∈ ptrs 3 x ->
        (exists c, heap w !! p = Some c /\ wf_conn c)
        /\ (forall j y, workers w !! j = Some y -> p ∈ ptrs 3 y -> i = j)
        /\ (forall fd r, epoll w !! fd = Some r -> data r = p -> armed r = None)).
Proof. split; [reflexivity|]. apply (loop_safe 3 no_objects 2 stale_events). reflexivity. Defined.

(** A connection whose first byte has arrived. *)
Lemma connection_typed_witness : wf_conn (new_Connection 5)
  /\ exists ret c' s', handleRead (new_Connection 5) (Socket true [Bytes 0 []] [] []) = Ok (ret, c', s') /\ wf_conn c'.
Proof.
  split; [apply wf_new|].
  exact (proj1 (connection_typed (new_Connection 5) (Socket true [Bytes 0 []] [] []) no_objects (wf_new 5))).
Defined.

(** A frame of twelve bytes whose key is said to have 100 characters. *)
Definition bad_request_block : list Z := be32 0 ++ be32 METHOD_GET ++ be32 100 ++ [].

Lemma bad_frames_witness :
  handle (set_in (new_Connection 5) STATE_READ_DONE (Some bad_request_block) 12 12) no_objects = Undefined.
Proof.
  apply (proj2 (proj2 (bad_frames (set_in (new_Connection 5) STATE_READ_DONE (Some bad_request_block) 12 12)
    (Socket true [] [] []) no_objects)) bad_request_block 0 METHOD_GET 100 []);
    [reflexivity|reflexivity|vm_compute; split; [discriminate|reflexivity]|right; vm_compute; reflexivity].
Defined.
