(* ===== verification/ThreadPool.v ===== *)
(** The thread pool of the object storage server (src/cpp-object-storage-demo/
    threadpool.h): its queue of tasks, its threads, [submit] and the destructor, as
    steps that interleave. A step is one operation on the mutex, the condition
    variable, the flag [run] or, under the mutex, on the queue. *)

From S2P Require Import Prelude Result.
#[local] Open Scope Z_scope.

Definition THREAD_POOL_MAX_NUM : Z := 16.

(** Where a thread of the pool is. *)
Inductive pool_pc :=
| PLoop                 (* at [while (run)] *)
| PLock                 (* at the lock of the mutex, from the loop or from a wait *)
| PTest                 (* holds the mutex; at the predicate of [wait] *)
| PBlock                (* holds the mutex; the predicate was false *)
| PWaiting              (* waits at the condition variable, without the mutex *)
| PTake                 (* holds the mutex; behind [wait] *)
| PTaken (t : Z)        (* has a task; before [idle--] *)
| PExecute (t : Z)      (* executes it; then [idle++] *)
| PReturned.

(** Where the destructor is: not called, behind [run = false], joining the threads. *)
Inductive destructor := DNone | DStopped | DJoining.

Record pool := {
  threads : list pool_pc;
  tasks : list Z;
  holder : option nat;          (* the thread of the pool that holds the mutex *)
  run : bool;
  idle : Z;
  dtor : destructor;
  checked : list Z;             (* calls of [submit] behind the test of [run] *)
  unnotified : nat;             (* calls of [submit] before [notify_one] *)
  submitted : list Z;           (* all tasks put in the queue, in order *)
  taken : list Z                (* all tasks taken out, in order *)
}.

Definition with_thread (s : pool) (i : nat) (p : pool_pc) : pool :=
  {| threads := <[i := p]> (threads s); tasks := tasks s; holder := holder s; run := run s; idle := idle s;
     dtor := dtor s; checked := checked s; unnotified := unnotified s; submitted := submitted s; taken := taken s |}.
Definition with_holder (s : pool) (h : option nat) : pool :=
  {| threads := threads s; tasks := tasks s; holder := h; run := run s; idle := idle s;
     dtor := dtor s; checked := checked s; unnotified := unnotified s; submitted := submitted s; taken := taken s |}.
Definition with_idle (s : pool) (d : Z) : pool :=
  {| threads := threads s; tasks := tasks s; holder := holder s; run := run s; idle := idle s + d;
     dtor := dtor s; checked := checked s; unnotified := unnotified s; submitted := submitted s; taken := taken s |}.
Definition with_dtor (s : pool) (r : bool) (d : destructor) : pool :=
  {| threads := threads s; tasks := tasks s; holder := holder s; run := r; idle := idle s;
     dtor := d; checked := checked s; unnotified := unnotified s; submitted := submitted s; taken := taken s |}.
Definition with_submit (s : pool) (c : list Z) (n : nat) : pool :=
  {| threads := threads s; tasks := tasks s; holder := holder s; run := run s; idle := idle s;
     dtor := dtor s; checked := c; unnotified := n; submitted := submitted s; taken := taken s |}.

(** [addThread] in the constructor, as one step: at most [THREAD_POOL_MAX_NUM] threads. *)
Definition new_pool (size : nat) : pool :=
  let n := Nat.min (Z.to_nat THREAD_POOL_MAX_NUM) size in
  {| threads := repeat PLoop n; tasks := []; holder := None; run := true; idle := Z.of_nat n;
     dtor := DNone; checked := []; unnotified := O; submitted := []; taken := [] |}.

(** [task = move(tasks.front()); tasks.pop();] and the end of the scope of the lock. *)
Definition take_task (s : pool) (i : nat) : result pool :=
  match tasks s with
  | [] => Undefined
  | t :: ts =>
    Ok {| threads := <[i := PTaken t]> (threads s); tasks := ts; holder := None; run := run s; idle := idle s;
          dtor := dtor s; checked := checked s; unnotified := unnotified s; submitted := submitted s;
          taken := taken s ++ [t] |}
  end.

(** A step of a thread of the pool. *)
Definition thread_step (s : pool) (i : nat) : result pool :=
  match threads s !! i with
  | Some PLoop => Ok (with_thread s i (if run s then PLock else PReturned))
  | Some PLock =>
    Ok match holder s with None => with_thread (with_holder s (Some i)) i PTest | Some _ => s end
  | Some PTest =>
    Ok (with_thread s i (if negb (run s) || negb (match tasks s with [] => true | _ => false end) then PTake else PBlock))
  | Some PBlock => Ok (with_thread (with_holder s None) i PWaiting)
  | Some PTake =>
    if negb (run s) && match tasks s with [] => true | _ => false end
    then Ok (with_thread (with_holder s None) i PReturned)
    else take_task s i
  | Some (PTaken t) => Ok (with_thread (with_idle s (-1)) i (PExecute t))
  | Some (PExecute t) => Ok (with_thread (with_idle s 1) i PLoop)
  | _ => Ok s
  end.

(** Waking thread [i]. *)
Definition wake (s : pool) (i : nat) : pool :=
  match threads s !! i with Some PWaiting => with_thread s i PLock | _ => s end.

Definition wake_all (s : pool) : pool :=
  {| threads := (fun p => match p with PWaiting => PLock | _ => p end) <$> threads s;
     tasks := tasks s; holder := holder s; run := run s; idle := idle s;
     dtor := dtor s; checked := checked s; unnotified := unnotified s; submitted := submitted s; taken := taken s |}.

Definition is_waiting (p : pool_pc) : bool := match p with PWaiting => true | _ => false end.

(** What the scheduler and the callers decide. *)
Inductive pool_event :=
| Thread (i : nat)
| Submit (t : Z)               (* a call of [submit]: the test of [run] *)
| Push (k : nat)               (* the [k]-th of these calls goes on with the queue *)
| Notify (i : option nat)      (* it goes on with [notify_one], which wakes a waiting thread if there is one *)
| Spurious (i : nat)           (* a thread wakes without being notified *)
| Destroy                      (* the destructor: [run = false] *)
| Notify_all.                  (* it goes on with [notify_all] *)

Definition push (s : pool) (k : nat) : pool :=
  match holder s, checked s !! k with
  | None, Some t =>
    {| threads := threads s; tasks := tasks s ++ [t]; holder := holder s; run := run s; idle := idle s;
       dtor := dtor s; checked := delete k (checked s); unnotified := S (unnotified s);
       submitted := submitted s ++ [t]; taken := taken s |}
  | _, _ => s
  end.

Definition notify_one (s : pool) (i : option nat) : pool :=
  match unnotified s with
  | O => s
  | S n =>
    match i with
    | Some i => if is_waiting (default PReturned (threads s !! i)) then wake (with_submit s (checked s) n) i else s
    | None => if existsb is_waiting (threads s) then s else with_submit s (checked s) n
    end
  end.

(** A step; an event that cannot happen changes nothing. A call of [submit] on a pool
    that is stopped throws. *)
Definition step (s : pool) (e : pool_event) : result pool :=
  match e with
  | Thread i => thread_step s i
  | Submit t => Ok (if run s then with_submit s (t :: checked s) (unnotified s) else s)
  | Push k => Ok (push s k)
  | Notify i => Ok (notify_one s i)
  | Spurious i => Ok (wake s i)
  | Destroy => Ok (match dtor s with DNone => with_dtor s false DStopped | _ => s end)
  | Notify_all => Ok (match dtor s with DStopped => wake_all (with_dtor s (run s) DJoining) | _ => s end)
  end.

Fixpoint steps (s : pool) (es : list pool_event) : result pool :=
  match es with [] => Ok s | e :: es => s ← step s e; steps s es end.

(** The destructor returns when all threads have returned. *)
Definition joined (s : pool) : Prop := dtor s = DJoining /\ Forall (eq PReturned) (threads s).

(** ** The invariant *)

Definition holds_mutex (p : pool_pc) : bool :=
  match p with PTest | PBlock | PTake => true | _ => false end.

Definition executing (p : pool_pc) : bool := match p with PExecute _ => true | _ => false end.

Definition count_if (f : pool_pc -> bool) (l : list pool_pc) : Z := Z.of_nat (length (List.filter f l)).

Record pool_inv (s : pool) : Prop := {
  inv_order : taken s ++ tasks s = submitted s;
  inv_mutex i p : threads s !! i = Some p -> holds_mutex p = true -> holder s = Some i;
  inv_take i : threads s !! i = Some PTake -> run s = true -> tasks s <> [];
  inv_idle : idle s = Z.of_nat (length (threads s)) - count_if executing (threads s)
}.

Lemma count_if_insert f (l : list pool_pc) i p q : l !! i = Some p ->
  count_if f (<[i := q]> l) = count_if f l - (if f p then 1 else 0) + (if f q then 1 else 0).
Proof.
  unfold count_if. revert i. induction l as [|r l IH]; intros [|i] Hi; simplify_eq/=.
  - destruct (f p), (f q); cbn [length]; lia.
  - specialize (IH i Hi). destruct (f r); cbn [length]; lia.
Qed.

Lemma pool_inv_new size : pool_inv (new_pool size).
Proof.
  assert (forall n i p, repeat PLoop n !! i = Some p -> p = PLoop) as Hr
    by (intros n i p Hi%list_elem_of_lookup_2; by apply List.repeat_spec with (n := n), list_elem_of_In).
  split; cbn.
  - done.
  - by intros i p ->%Hr.
  - by intros i ?%Hr.
  - rewrite repeat_length. assert (forall n, count_if executing (repeat PLoop n) = 0) as ->; [|lia].
    induction n as [|n IH]; [done|]. exact IH.
Qed.

(** A step of thread [i] that keeps the queue and, if it takes the mutex, finds it free
    or keeps it. *)
Lemma pool_inv_thread s s' i p q : pool_inv s -> threads s !! i = Some p ->
  threads s' = <[i := q]> (threads s) -> tasks s' = tasks s -> taken s' = taken s -> submitted s' = submitted s ->
  run s' = run s -> idle s' = idle s + (if executing p then 1 else 0) - (if executing q then 1 else 0) ->
  (if holds_mutex q then holder s' = Some i /\ (holder s = None \/ holds_mutex p = true)
   else holder s' = if holds_mutex p then None else holder s) ->
  (q = PTake -> run s = true -> tasks s <> []) -> pool_inv s'.
Proof.
  intros [Ho Hm Ht Hi] Hp Hth Hta Htk Hsu Hru Hid Hh Hq.
  assert (i < length (threads s))%nat as Hlt by (by eapply lookup_lt_Some).
  split.
  - by rewrite Hta, Htk, Hsu.
  - intros j r Hj Hr. rewrite Hth in Hj. destruct (decide (i = j)) as [<-|Hne].
    + rewrite list_lookup_insert_eq in Hj by done. simplify_eq. rewrite Hr in Hh. apply Hh.
    + rewrite list_lookup_insert_ne in Hj by done. pose proof (Hm j r Hj Hr) as Hj'.
      assert (holds_mutex p = false) as Hp'.
      { destruct (holds_mutex p) eqn:E; [|done]. pose proof (Hm i p Hp E). congruence. }
      rewrite Hp' in Hh. destruct (holds_mutex q); [destruct Hh as [_ [?|?]]|]; congruence.
  - intros j Hj. rewrite Hth in Hj. rewrite Hru, Hta. destruct (decide (i = j)) as [<-|Hne].
    + rewrite list_lookup_insert_eq in Hj by done. simplify_eq. by apply Hq.
    + rewrite list_lookup_insert_ne in Hj by done. by apply (Ht j).
  - rewrite Hid, Hi, Hth, length_insert, (count_if_insert _ _ i p q Hp). lia.
Qed.

Lemma thread_step_inv s i : pool_inv s -> exists s', thread_step s i = Ok s' /\ pool_inv s'.
Proof.
  intros Hs. unfold thread_step. destruct (threads s !! i) as [p|] eqn:Hp; [|by eexists].
  destruct p as [| | | | | |t|t|]; try (by eexists).
  - eexists. split; [done|]. apply (pool_inv_thread s _ i PLoop (if run s then PLock else PReturned)); try done;
      destruct (run s); cbn; (done || lia).
  - eexists. split; [done|]. destruct (holder s) as [h|] eqn:Eh; [done|].
    apply (pool_inv_thread s _ i PLock PTest); try done; [cbn; lia|]. split; [done|by left].
  - eexists. split; [done|]. pose proof (inv_mutex s Hs i PTest Hp eq_refl) as Hh.
    destruct (negb (run s) || _) eqn:Eq.
    + apply (pool_inv_thread s _ i PTest PTake); try done; [cbn; lia|split; [done|by right]|].
      intros _ Hr. rewrite Hr in Eq. by destruct (tasks s).
    + apply (pool_inv_thread s _ i PTest PBlock); try done; [cbn; lia|]. split; [done|by right].
  - eexists. split; [done|]. apply (pool_inv_thread s _ i PBlock PWaiting); try done. cbn; lia.
  - destruct (negb (run s) && _) eqn:Eq.
    + eexists. split; [done|]. apply (pool_inv_thread s _ i PTake PReturned); try done. cbn; lia.
    + unfold take_task. destruct (tasks s) as [|t ts] eqn:Et.
      { destruct (run s) eqn:Er; [|done]. by destruct (inv_take s Hs i Hp Er). }
      eexists. split; [done|]. destruct Hs as [Ho Hm Ht Hi]. pose proof (Hm i PTake Hp eq_refl) as Hh.
      assert (i < length (threads s))%nat by (by eapply lookup_lt_Some).
      assert (forall j r, <[i := PTaken t]> (threads s) !! j = Some r -> holds_mutex r = true -> False) as Hno.
      { intros j r Hj Hr. destruct (decide (i = j)) as [<-|Hne].
        - rewrite list_lookup_insert_eq in Hj by done. by simplify_eq.
        - rewrite list_lookup_insert_ne in Hj by done. pose proof (Hm j r Hj Hr). congruence. }
      split; cbn.
      * rewrite <- (assoc_L (++)). cbn. by rewrite <- Et.
      * intros j r Hj Hr. by destruct (Hno j r Hj Hr).
      * intros j Hj. by destruct (Hno j _ Hj).
      * rewrite Hi, length_insert, (count_if_insert _ _ i PTake (PTaken t) Hp). cbn. lia.
  - eexists. split; [done|]. apply (pool_inv_thread s _ i (PTaken t) (PExecute t)); try done. cbn; lia.
  - eexists. split; [done|]. apply (pool_inv_thread s _ i (PExecute t) PLoop); try done. cbn; lia.
Qed.

Lemma wake_inv s i : pool_inv s -> pool_inv (wake s i).
Proof.
  intros Hs. unfold wake. destruct (threads s !! i) as [[]|] eqn:Hp; try done.
  apply (pool_inv_thread s _ i PWaiting PLock); try done. cbn; lia.
Qed.

(** Steps that leave the threads, the queue and the mutex alone. *)
Lemma pool_inv_same s s' : pool_inv s -> threads s' = threads s -> tasks s' = tasks s -> holder s' = holder s ->
  taken s' = taken s -> submitted s' = submitted s -> idle s' = idle s ->
  (run s' = true -> run s = true) -> pool_inv s'.
Proof.
  intros [Ho Hm Ht Hi] Hth Hta Hho Htk Hsu Hid Hr. split.
  - by rewrite Htk, Hta, Hsu.
  - intros i p. rewrite Hth, Hho. apply Hm.
  - intros i. rewrite Hth, Hta. intros Hp Hr'. by apply (Ht i Hp), Hr.
  - by rewrite Hid, Hth.
Qed.

Lemma wake_all_inv s : pool_inv s -> pool_inv (wake_all s).
Proof.
  intros [Ho Hm Ht Hi]. split; cbn.
  - done.
  - intros i p Hp Hh. rewrite list_lookup_fmap in Hp.
    destruct (threads s !! i) as [r|] eqn:Er; [|done]. cbn in Hp. simplify_eq.
    apply (Hm i r Er). by destruct r.
  - intros i Hp. rewrite list_lookup_fmap in Hp.
    destruct (threads s !! i) as [r|] eqn:Er; [|done]. cbn in Hp. apply (Ht i). by destruct r.
  - rewrite Hi, length_fmap. f_equal. unfold count_if. f_equal. clear. induction (threads s) as [|p l IH]; [done|].
    destruct p; cbn; congruence.
Qed.

Lemma step_pool_inv s e : pool_inv s -> exists s', step s e = Ok s' /\ pool_inv s'.
Proof.
  intros Hs. destruct e as [i|t|k|i|i| |]; cbn [step]; [by apply thread_step_inv|..]; eexists; (split; [done|]).
  - destruct (run s); [|done]. by apply (pool_inv_same s).
  - unfold push. destruct (holder s) eqn:Eh; [done|]. destruct (checked s !! k) as [t|]; [|done].
    destruct Hs as [Ho Hm Ht Hi]. split; cbn.
    + by rewrite (assoc_L (++)), Ho.
    + rewrite Eh in Hm. exact Hm.
    + intros i _ _ Hnil. by apply app_eq_nil in Hnil as [_ ?].
    + done.
  - unfold notify_one. destruct (unnotified s) as [|n]; [done|].
    assert (pool_inv (with_submit s (checked s) n)) as Hs' by (by apply (pool_inv_same s)).
    destruct i as [i|]; [destruct (is_waiting _); [by apply wake_inv|done]|by destruct (existsb _ _)].
  - by apply wake_inv.
  - destruct (dtor s); try done. by apply (pool_inv_same s).
  - destruct (dtor s); try done. apply wake_all_inv. by apply (pool_inv_same s).
Qed.

Lemma steps_pool_inv s es : pool_inv s -> exists s', steps s es = Ok s' /\ pool_inv s'.
Proof.
  revert s. induction es as [|e es IH]; intros s Hs; [by eexists|]. cbn.
  destruct (step_pool_inv s e Hs) as (s1 & -> & Hs1). cbn [mbind result_bind]. by apply IH.
Qed.

(** ** The theorems *)

(** C36: However threads, callers and the destructor interleave, no thread takes a task
    from an empty queue; the tasks are taken in the order they were submitted, each at
    most once and none that was not submitted; at most one thread holds the mutex; and
    [idle] counts the threads that execute no task. *)
Theorem tasks_once size es : exists s, steps (new_pool size) es = Ok s
  /\ taken s ++ tasks s = submitted s
  /\ (forall i j p q, threads s !! i = Some p -> threads s !! j = Some q ->
        holds_mutex p = true -> holds_mutex q = true -> i = j)
  /\ idle s = Z.of_nat (length (threads s)) - count_if executing (threads s).
Proof.
  destruct (steps_pool_inv (new_pool size) es (pool_inv_new size)) as (s & Hs & [Ho Hm Ht Hi]).
  exists s. split_and!; try done. intros i j p q Hp Hq Hhp Hhq.
  pose proof (Hm i p Hp Hhp). pose proof (Hm j q Hq Hhq). congruence.
Qed.

(** Between the predicate and the wait of the only thread, the destructor sets the flag
    and notifies. *)
Definition late_wait : list pool_event := [Thread 0; Thread 0; Thread 0; Destroy; Notify_all; Thread 0].

(** The destructor changes [run] without the mutex: a thread that has just found the
    predicate false then waits, and unless it wakes without being notified nothing
    changes any more, while the destructor waits for the thread. *)
Theorem destructor_hangs : exists s, steps (new_pool 1) late_wait = Ok s
  /\ dtor s = DJoining /\ ~ joined s /\ forall e, (forall i, e <> Spurious i) -> step s e = Ok s.
Proof.
  eexists. split; [vm_compute; reflexivity|]. split; [done|]. split.
  - intros [_ Hj]. by inversion Hj.
  - intros [i|t|k|i|i| |] He; try done; [|by destruct (He i)]. by destruct i as [|[|i]].
Qed.

(** A destroyed pool can have tasks that were submitted and never run: the threads
    return from their loop without looking at the queue. *)
Theorem tasks_abandoned : exists es s, steps (new_pool 1) es = Ok s
  /\ joined s /\ submitted s = [7] /\ taken s = [] /\ tasks s = [7].
Proof.
  exists [Submit 7; Push 0; Notify None; Destroy; Notify_all; Thread 0]. eexists.
  split; [vm_compute; reflexivity|]. split; [|done]. split; [done|]. by repeat constructor.
Qed.
