(* ===== verification/CoChannel.v ===== *)
(** The channel of the coroutine library: src/coroutine/channel.h with its awaiters
    (channel_awaiter.h, awaiter.h) and what the executors of executor.h do with a
    dispatched function. A step is a critical section of [channel_lock], an operation on
    the flag [active], or a function that an executor runs. *)

From S2P Require Import Prelude Result.
From stdpp Require Import strings.
#[local] Open Scope Z_scope.

(** The executor of the coroutine that awaits. *)
Inductive executor := NoopExecutor | NewThreadExecutor | AsyncExecutor | LooperExecutor.

#[export] Instance executor_eq_dec : EqDecision executor.
Proof. solve_decision. Defined.

(** Whether [execute] returns only after the function has run: [NoopExecutor] calls it,
    and the future that [AsyncExecutor] drops waits for it in its destructor. *)
Definition runs_in_place (e : executor) : bool :=
  match e with NoopExecutor | AsyncExecutor => true | _ => false end.

Section Channel.
Context {V : Type}.

Inductive awaiter_kind :=
| WriteAwaiter (val : V)
| ReadAwaiter.

(** How far [co_await] is: the awaiter is made, the coroutine is suspended, or
    [co_await] has returned or thrown. *)
Inductive await_state :=
| Made
| Suspended
| Returned (v : option V)
| Threw.

Record awaiter := { kind : awaiter_kind; exec : executor; state : await_state }.

(** The functions that [resume] and [resume_unsafe] dispatch. *)
Inductive resumption :=
| Resume                    (* of a writer *)
| Resume_with (v : V)       (* of a reader *)
| Resume_unsafe.            (* of a reader, without a value *)

(** A channel, the awaiters by their addresses, and the functions that executors have
    still to run. The last four fields record what has happened. *)
Record channel := {
  buffer_capacity : Z;
  buffer : list V;
  writer_list : list nat;
  reader_list : list nat;
  active : bool;
  cleaning : bool;                  (* [close] is before [clean_up] *)
  awaiters : gmap nat awaiter;
  pending : list (nat * resumption);
  written : list V;                 (* the values of [try_push_writer], in order *)
  asked : list nat;                 (* the readers of [try_push_reader], in order *)
  handed : list (nat * V);          (* the values given to readers, in order *)
  dropped : list V * list nat       (* the values and readers that [clean_up] removed *)
}.

Definition new_channel (capacity : Z) : channel :=
  {| buffer_capacity := capacity; buffer := []; writer_list := []; reader_list := []; active := true;
     cleaning := false; awaiters := ∅; pending := []; written := []; asked := []; handed := [];
     dropped := ([], []) |}.

Definition with_awaiters (s : channel) (m : gmap nat awaiter) : channel :=
  {| buffer_capacity := buffer_capacity s; buffer := buffer s; writer_list := writer_list s;
     reader_list := reader_list s; active := active s; cleaning := cleaning s; awaiters := m;
     pending := pending s; written := written s; asked := asked s; handed := handed s; dropped := dropped s |}.
Definition with_pending (s : channel) (p : list (nat * resumption)) : channel :=
  {| buffer_capacity := buffer_capacity s; buffer := buffer s; writer_list := writer_list s;
     reader_list := reader_list s; active := active s; cleaning := cleaning s; awaiters := awaiters s;
     pending := p; written := written s; asked := asked s; handed := handed s; dropped := dropped s |}.
Definition with_lists (s : channel) (b : list V) (w r : list nat) : channel :=
  {| buffer_capacity := buffer_capacity s; buffer := b; writer_list := w;
     reader_list := r; active := active s; cleaning := cleaning s; awaiters := awaiters s;
     pending := pending s; written := written s; asked := asked s; handed := handed s; dropped := dropped s |}.
Definition with_flags (s : channel) (a c : bool) : channel :=
  {| buffer_capacity := buffer_capacity s; buffer := buffer s; writer_list := writer_list s;
     reader_list := reader_list s; active := a; cleaning := c; awaiters := awaiters s;
     pending := pending s; written := written s; asked := asked s; handed := handed s; dropped := dropped s |}.
Definition with_record (s : channel) (w : list V) (r : list nat) (h : list (nat * V)) (d : list V * list nat) : channel :=
  {| buffer_capacity := buffer_capacity s; buffer := buffer s; writer_list := writer_list s;
     reader_list := reader_list s; active := active s; cleaning := cleaning s; awaiters := awaiters s;
     pending := pending s; written := w; asked := r; handed := h; dropped := d |}.

Definition set_state (s : channel) (a : nat) (st : await_state) : channel :=
  with_awaiters s (alter (fun x => {| kind := kind x; exec := exec x; state := st |}) a (awaiters s)).

(** [writer->val]. *)
Definition val_of (s : channel) (w : nat) : result V :=
  match kind <$> awaiters s !! w with Some (WriteAwaiter v) => Ok v | _ => Undefined end.

(** ** Resuming a coroutine *)

Definition remove_writer (s : channel) (w : nat) : channel :=
  with_lists s (buffer s) (filter (fun x => x <> w) (writer_list s)) (reader_list s).
Definition remove_reader (s : channel) (r : nat) : channel :=
  with_lists s (buffer s) (writer_list s) (filter (fun x => x <> r) (reader_list s)).

(** The destructor of an awaiter whose [chan] is set, when the caller holds
    [channel_lock] ([locked]) and when it does not. *)
Definition destroy (locked : bool) (s : channel) (a : nat) : result channel :=
  if locked then Fatal "channel_lock is locked by the thread that waits for it"
  else match kind <$> awaiters s !! a with
       | Some (WriteAwaiter _) => Ok (remove_writer s a)
       | Some ReadAwaiter => Ok (remove_reader s a)
       | None => Undefined
       end.

(** [co_await] throws [ChannelClosedException]; this destroys the awaiter. *)
Definition throw (locked : bool) (s : channel) (a : nat) : result channel :=
  destroy locked (set_state s a Threw) a.

(** The dispatched function: it sets [ret], resumes the coroutine, whose [await_resume]
    calls [before_resume] and takes the value out of [ret]. *)
Definition await_resume (locked : bool) (s : channel) (a : nat) (r : resumption) : result channel :=
  x ← lift (awaiters s !! a);
  match state x with
  | Suspended =>
    if active s then
      match kind x, r with
      | WriteAwaiter _, Resume => Ok (set_state s a (Returned None))
      | ReadAwaiter, Resume_with v => Ok (set_state s a (Returned (Some v)))
      | _, _ => Undefined
      end
    else throw locked s a
  | _ => Undefined
  end.

(** [resume] and [resume_unsafe] without the lock. *)
Definition resume (s : channel) (a : nat) (r : resumption) : channel :=
  with_pending s (pending s ++ [(a, r)]).

(** The same with the lock: an executor that runs functions in place runs this one while
    the lock is held. *)
Definition resume_locked (s : channel) (a : nat) (r : resumption) : result channel :=
  x ← lift (awaiters s !! a);
  if runs_in_place (exec x) then await_resume true s a r else Ok (resume s a r).

(** ** The operations of the channel *)

(** [buffer.size() < buffer_capacity], of an unsigned and a signed integer. *)
Definition has_room (s : channel) : bool :=
  Z.of_nat (length (buffer s)) <? wrap_u 64 (buffer_capacity s).

(** [None] is [ChannelClosedException]. *)
Definition try_push_writer (s : channel) (w : nat) : result (option channel) :=
  if negb (active s) then Ok None else
  val ← val_of s w;
  let s := with_record s (written s ++ [val]) (asked s) (handed s) (dropped s) in
  match reader_list s with
  | reader :: rest =>
    let s := with_record (with_lists s (buffer s) (writer_list s) rest)
                         (written s) (asked s) (handed s ++ [(reader, val)]) (dropped s) in
    Ok (Some (resume (resume s reader (Resume_with val)) w Resume))
  | [] =>
    if has_room s then Ok (Some (resume (with_lists s (buffer s ++ [val]) (writer_list s) (reader_list s)) w Resume))
    else Ok (Some (with_lists s (buffer s) (writer_list s ++ [w]) (reader_list s)))
  end.

Definition try_push_reader (s : channel) (r : nat) : result (option channel) :=
  if negb (active s) then Ok None else
  let s := with_record s (written s) (asked s ++ [r]) (handed s) (dropped s) in
  match buffer s, writer_list s with
  | value :: b, [] =>
    let s := with_record (with_lists s b [] (reader_list s))
                         (written s) (asked s) (handed s ++ [(r, value)]) (dropped s) in
    Ok (Some (resume s r (Resume_with value)))
  | value :: b, writer :: ws =>
    val ← val_of s writer;
    let s := with_record (with_lists s (b ++ [val]) ws (reader_list s))
                         (written s) (asked s) (handed s ++ [(r, value)]) (dropped s) in
    Ok (Some (resume (resume s writer Resume) r (Resume_with value)))
  | [], writer :: ws =>
    val ← val_of s writer;
    let s := with_record (with_lists s [] ws (reader_list s))
                         (written s) (asked s) (handed s ++ [(r, val)]) (dropped s) in
    Ok (Some (resume (resume s r (Resume_with val)) writer Resume))
  | [], [] => Ok (Some (with_lists s [] [] (reader_list s ++ [r])))
  end.

(** [write] and [read] make an awaiter, unless the channel is closed. *)
Definition make_awaiter (s : channel) (a : nat) (k : awaiter_kind) (e : executor) : channel :=
  match awaiters s !! a with
  | Some _ => s
  | None => with_awaiters s (<[a := {| kind := k; exec := e; state := if active s then Made else Threw |}]> (awaiters s))
  end.

(** [await_suspend]; an exception of [after_suspend] is thrown in the coroutine. *)
Definition await_suspend (s : channel) (a : nat) : result channel :=
  match awaiters s !! a with
  | Some x =>
    match state x with
    | Made =>
      let s := set_state s a Suspended in
      o ← match kind x with WriteAwaiter _ => try_push_writer s a | ReadAwaiter => try_push_reader s a end;
      match o with Some s => Ok s | None => throw false s a end
    | _ => Ok s
    end
  | None => Ok s
  end.

(** An executor runs the [k]-th of the dispatched functions. *)
Definition run_pending (s : channel) (k : nat) : result channel :=
  match pending s !! k with
  | Some (a, r) => await_resume false (with_pending s (delete k (pending s))) a r
  | None => Ok s
  end.

Definition close (s : channel) : channel :=
  if active s then with_flags s false true else s.

Fixpoint resume_all (s : channel) (l : list (nat * resumption)) : result channel :=
  match l with
  | [] => Ok s
  | (a, r) :: l => s ← resume_locked s a r; resume_all s l
  end.

Fixpoint vals_of (s : channel) (l : list nat) : result (list V) :=
  match l with [] => Ok [] | w :: l => v ← val_of s w; vs ← vals_of s l; Ok (v :: vs) end.

(** The values of the writers are read here for the record of what is dropped only. *)
Definition clean_up (s : channel) : result channel :=
  if negb (cleaning s) then Ok s else
  vs ← vals_of s (writer_list s);
  let d := (buffer s ++ vs, reader_list s) in
  s ← resume_all s (((fun w => (w, Resume)) <$> writer_list s) ++ ((fun r => (r, Resume_unsafe)) <$> reader_list s));
  Ok (with_record (with_flags (with_lists s [] [] []) (active s) false) (written s) (asked s) (handed s) d).

(** ** Executions *)

Inductive channel_event :=
| Write (a : nat) (v : V) (e : executor)     (* a coroutine awaits [channel << v] *)
| Read (a : nat) (e : executor)              (* a coroutine awaits [channel.read()] *)
| Suspend (a : nat)
| Run (k : nat)
| Close
| Clean_up.

Definition step (s : channel) (e : channel_event) : result channel :=
  match e with
  | Write a v e => Ok (make_awaiter s a (WriteAwaiter v) e)
  | Read a e => Ok (make_awaiter s a ReadAwaiter e)
  | Suspend a => await_suspend s a
  | Run k => run_pending s k
  | Close => Ok (close s)
  | Clean_up => clean_up s
  end.

Fixpoint steps (s : channel) (es : list channel_event) : result channel :=
  match es with [] => Ok s | e :: es => s ← step s e; steps s es end.

End Channel.
Arguments awaiter_kind V : clear implicits.
Arguments await_state V : clear implicits.
Arguments awaiter V : clear implicits.
Arguments resumption V : clear implicits.
Arguments channel V : clear implicits.
Arguments channel_event V : clear implicits.
