(* ===== verification/CoChannelProps.v ===== *)
(** The channel of the coroutine library: its invariant, the order in which values reach
    readers, what [close] does to those that wait, and two ways in which it goes wrong. *)

From S2P Require Import Prelude Result CoChannel.
From stdpp Require Import strings.
#[local] Open Scope Z_scope.

Section Inv.
Context {V : Type}.
Implicit Types (s : channel V) (a w r : nat) (v : V).

Definition kind_of s a : option (awaiter_kind V) := kind <$> awaiters s !! a.
Definition state_of s a : option (await_state V) := state <$> awaiters s !! a.

(** The awaiters that the channel or an executor still has to resume. *)
Definition waiting s : list nat := writer_list s ++ reader_list s ++ (pending s).*1.

(** The awaiters with a suspended coroutine are those in [hand] and those waiting, each
    in one place. *)
Record places (hand : list nat) s : Prop := {
  pl_once : NoDup (hand ++ waiting s);
  pl_susp a : a ∈ hand ++ waiting s <-> state_of s a = Some Suspended
}.

Definition has_val s w v : Prop := kind_of s w = Some (WriteAwaiter v).
Definition is_reader s r : Prop := kind_of s r = Some ReadAwaiter.

Definition pending_ok s (p : nat * resumption V) : Prop :=
  match p.2 with
  | Resume => exists v, has_val s p.1 v
  | Resume_with v => is_reader s p.1 /\ p ∈ ((fun h => (h.1, Resume_with h.2)) <$> handed s)
  | Resume_unsafe => is_reader s p.1 /\ active s = false
  end.

Definition room s : Z := wrap_u 64 (buffer_capacity s).

(** The way of the values and the readers through the channel. *)
Record flow s : Prop := {
  fl_values : exists vs, Forall2 (has_val s) (writer_list s) vs
    /\ written s = (handed s).*2 ++ (dropped s).1 ++ buffer s ++ vs;
  fl_readers : Forall (is_reader s) (reader_list s);
  fl_asked : asked s = (handed s).*1 ++ (dropped s).2 ++ reader_list s;
  fl_bound : Z.of_nat (length (buffer s)) <= room s;
  fl_full : writer_list s <> [] -> Z.of_nat (length (buffer s)) = room s;
  fl_empty : reader_list s <> [] -> buffer s = [] /\ writer_list s = [];
  fl_pending : Forall (pending_ok s) (pending s);
  fl_active : active s = true -> cleaning s = false /\ dropped s = ([], []);
  fl_closed : active s = false -> if cleaning s then dropped s = ([], [])
    else buffer s = [] /\ writer_list s = [] /\ reader_list s = []
}.

(** Who has been answered, and how. *)
Record answers s : Prop := {
  an_asked a : a ∈ asked s -> exists st, state_of s a = Some st /\ st <> Made;
  an_once : NoDup (asked s);
  an_returned a o : state_of s a = Some (Returned o) ->
    match o with Some v => (a, v) ∈ handed s | None => exists v, has_val s a v end
}.

Record channel_inv s : Prop := { ci_places : places [] s; ci_flow : flow s; ci_answers : answers s }.

(** ** Changes of one awaiter *)

Lemma kind_of_set s a st b : kind_of (set_state s a st) b = kind_of s b.
Proof.
  unfold kind_of, set_state. cbn. destruct (decide (a = b)) as [<-|Hne].
  - rewrite lookup_alter_eq. by destruct (awaiters s !! a).
  - by rewrite lookup_alter_ne.
Qed.

Lemma state_of_set s a st b x : awaiters s !! a = Some x ->
  state_of (set_state s a st) b = if decide (a = b) then Some st else state_of s b.
Proof.
  intros Ha. unfold state_of, set_state. cbn. destruct (decide (a = b)) as [<-|Hne].
  - by rewrite lookup_alter_eq, Ha.
  - by rewrite lookup_alter_ne.
Qed.

(** [flow] depends on the kinds of the awaiters only. *)
Lemma flow_awaiters s m : (forall a k, kind_of s a = Some k -> kind_of (with_awaiters s m) a = Some k) ->
  flow s -> flow (with_awaiters s m).
Proof.
  intros Hk [(vs & Hvs & Hw) Hr Ha Hb Hf He Hp Hac Hc]. split; try done.
  - exists vs. split; [|done]. eapply Forall2_impl; [exact Hvs|]. intros w v. apply Hk.
  - eapply Forall_impl; [exact Hr|]. intros w. apply Hk.
  - eapply Forall_impl; [exact Hp|]. intros [a []]; cbn; unfold pending_ok; cbn.
    + intros [v Hv]. exists v. by apply Hk.
    + intros [? ?]. split; [by apply Hk|done].
    + intros [? ?]. split; [by apply Hk|done].
Qed.

Lemma flow_set s a st : flow s -> flow (set_state s a st).
Proof. apply flow_awaiters. intros b k. unfold kind_of. fold (kind_of s b). by rewrite <- (kind_of_set s a st b). Qed.

Lemma places_perm h h' s s' : (forall a, state_of s' a = state_of s a) ->
  h' ++ waiting s' ≡ₚ h ++ waiting s -> places h s -> places h' s'.
Proof.
  intros Hst Hp [Hn Hs]. split; [by rewrite Hp|]. intros a. by rewrite Hp, Hs, Hst.
Qed.

(** The awaiter in hand is suspended, or a suspended one ends. *)
Lemma places_suspend s a x : awaiters s !! a = Some x -> state x = Made ->
  places [] s -> places [a] (set_state s a Suspended).
Proof.
  intros Ha Hx [Hn Hs]. assert (a ∉ waiting s) as Hnot.
  { intros Hin%Hs. unfold state_of in Hin. rewrite Ha in Hin. cbn in Hin. congruence. }
  split; [by constructor|]. intros b. rewrite (state_of_set _ _ _ _ x Ha). cbn.
  rewrite elem_of_cons. destruct (decide (a = b)) as [<-|Hne]; [naive_solver|].
  rewrite <- Hs. cbn. naive_solver.
Qed.

Lemma places_end s a st x : awaiters s !! a = Some x -> st <> Suspended ->
  places [a] s -> places [] (set_state s a st).
Proof.
  intros Ha Hst [Hn Hs]. inversion Hn as [|? ? Hnot Hn']; subst. split; [done|].
  intros b. rewrite (state_of_set _ _ _ _ x Ha). specialize (Hs b). cbn in *.
  rewrite elem_of_cons in Hs. destruct (decide (a = b)) as [<-|Hne]; [|naive_solver].
  split; [done|]. intros [=]. congruence.
Qed.

(** ** The operations keep the invariant *)

Lemma val_of_Ok s w v : has_val s w v -> val_of s w = Ok v.
Proof. unfold val_of, has_val, kind_of. by intros ->. Qed.

Lemma pending_handed s s' h : (forall a, kind_of s' a = kind_of s a) -> active s' = active s ->
  handed s' = handed s ++ h -> Forall (pending_ok s) (pending s) -> Forall (pending_ok s') (pending s).
Proof.
  intros Hk Ha Hh Hp. eapply Forall_impl; [exact Hp|]. intros [a []]; unfold pending_ok, has_val, is_reader; cbn;
    rewrite Hk, ?Ha, ?Hh, ?fmap_app, ?elem_of_app; naive_solver.
Qed.

(** The answers change with the places that are handed out only. *)
Lemma answers_mono s s' : (forall a, kind_of s' a = kind_of s a) -> (forall a, state_of s' a = state_of s a) ->
  asked s' = asked s -> handed s ⊆ handed s' -> answers s -> answers s'.
Proof.
  intros Hk Hst Ha Hh [Hm Ho Hr]. split.
  - intros a. rewrite Ha, Hst. apply Hm.
  - by rewrite Ha.
  - intros a [v|]; rewrite Hst; intros Hs%Hr; [by apply Hh|]. unfold has_val. by rewrite Hk.
Qed.

Lemma push_writer_inv s w v : places [w] s -> flow s -> answers s -> has_val s w v ->
  exists o, try_push_writer s w = Ok o /\ match o with Some s' => channel_inv s' | None => active s = false end.
Proof.
  intros Hpl [(vs & Hvs & Hw) Hr Ha Hb Hf He Hp Hac Hc] Han Hv. unfold try_push_writer.
  destruct (active s) eqn:Eact; cbn; [|by exists None]. destruct (Hac eq_refl) as [Hcl Hdr].
  rewrite (val_of_Ok s w v Hv). cbn [mbind result_bind]. cbn. rewrite Hdr in *. cbn in Hw, Ha.
  destruct (reader_list s) as [|reader rest] eqn:Erl; [destruct (has_room _) eqn:Eroom; unfold has_room in Eroom; cbn in Eroom|];
    (eexists; split; [done|]).
  - assert (writer_list s = []) as Ewl.
    { destruct (writer_list s); [done|]. specialize (Hf ltac:(done)). fold (room s) in Eroom. case_bool; lia. }
    rewrite Ewl in *. inversion Hvs; subst. split.
    + eapply places_perm, Hpl; [done|]. unfold waiting. cbn. rewrite Ewl, Erl, fmap_app. cbn. solve_Permutation.
    + split; cbn; rewrite ?Ewl, ?Hdr, ?Erl; try done.
      * exists []. split; [done|]. cbn. rewrite Hw. by rewrite !app_nil_r, (assoc_L (++)).
      * rewrite length_app. cbn. unfold room in *. cbn. case_bool; lia.
      * apply Forall_app. split; [|constructor; [by exists v|done]].
        by apply (pending_handed s _ []); rewrite ?app_nil_r.
      * by rewrite Eact.
    + by apply (answers_mono s).
  - split.
    + eapply places_perm, Hpl; [done|]. unfold waiting. cbn. rewrite Erl. cbn. solve_Permutation.
    + split; cbn; rewrite ?Hdr, ?Erl; try done.
      * exists (vs ++ [v]). split; [apply Forall2_app; [done|by repeat constructor]|]. cbn.
        by rewrite Hw, !(assoc_L (++)).
      * intros _. unfold room in *. cbn. case_bool; [done|lia].
      * by rewrite Eact.
    + by apply (answers_mono s).
  - destruct (He ltac:(done)) as [Eb Ewl]. rewrite Eb, Ewl in *. inversion Hvs; subst. inversion Hr; subst. split.
    + eapply places_perm, Hpl; [done|]. unfold waiting. cbn. rewrite Ewl, Erl, !fmap_app. cbn. solve_Permutation.
    + split; cbn; rewrite ?Ewl, ?Eb, ?Hdr; try done.
      * exists []. split; [done|]. by rewrite Hw, fmap_app, !app_nil_r.
      * rewrite Ha, fmap_app. cbn. by rewrite <- (assoc_L (++)).
      * apply Forall_app. split; [apply Forall_app; split|].
        -- by apply (pending_handed s _ [(reader, v)]).
        -- constructor; [|done]. split; [done|]. cbn. rewrite fmap_app, elem_of_app. right. cbn. set_solver.
        -- constructor; [by exists v|done].
      * by rewrite Eact.
    + apply (answers_mono s); try done. cbn. set_solver.
Qed.

(** The next reader is new: its place is the last one asked for. *)
Lemma answers_ask s s' r : (forall a, kind_of s' a = kind_of s a) -> (forall a, state_of s' a = state_of s a) ->
  asked s' = asked s ++ [r] -> handed s ⊆ handed s' -> r ∉ asked s -> state_of s r = Some Suspended ->
  answers s -> answers s'.
Proof.
  intros Hk Hst Ha Hh Hnew Hr [Hm Ho Hre]. split.
  - intros a. rewrite Ha, Hst, elem_of_app, list_elem_of_singleton. intros [Hin| ->]; [by apply Hm|by exists Suspended].
  - rewrite Ha. apply NoDup_app. split; [done|]. split; [set_solver|apply NoDup_singleton].
  - intros a [v|]; rewrite Hst; intros Hs%Hre; [by apply Hh|]. unfold has_val. by rewrite Hk.
Qed.

(** Reader [r] is given [v]; [ps] are the functions dispatched for it and a writer. *)
Lemma handed_inv s s' r v vs ps : places [r] s -> answers s -> is_reader s r -> r ∉ asked s ->
  Forall (pending_ok s) (pending s) -> asked s = (handed s).*1 ->
  awaiters s' = awaiters s -> active s' = true -> active s = true -> cleaning s' = false -> dropped s' = ([], []) ->
  reader_list s' = [] -> reader_list s = [] -> asked s' = asked s ++ [r] -> handed s' = handed s ++ [(r, v)] ->
  pending s' = pending s ++ ps -> r :: writer_list s ≡ₚ writer_list s' ++ ps.*1 ->
  (forall p, p ∈ ps -> p = (r, Resume_with v) \/ exists w u, p = (w, Resume) /\ has_val s w u) ->
  Forall2 (has_val s) (writer_list s') vs -> written s' = (handed s').*2 ++ buffer s' ++ vs ->
  Z.of_nat (length (buffer s')) <= room s' ->
  (writer_list s' <> [] -> Z.of_nat (length (buffer s')) = room s') -> channel_inv s'.
Proof.
  intros Hpl Han Hk Hnew Hp Ha0 Haw Hac Hac0 Hcl Hdr Hrl Hrl0 Has Hh Hpe Hperm Hps Hvs Hw Hb Hf.
  assert (forall a, kind_of s' a = kind_of s a) as Hkind by (intros a; unfold kind_of; by rewrite Haw).
  assert (forall a, state_of s' a = state_of s a) as Hstate by (intros a; unfold state_of; by rewrite Haw).
  split.
  - eapply places_perm, Hpl; [done|]. unfold waiting. rewrite Hrl, Hrl0, Hpe, fmap_app. cbn.
    trans ((writer_list s' ++ ps.*1) ++ (pending s).*1); [solve_Permutation|]. rewrite <- Hperm. solve_Permutation.
  - split; rewrite ?Hrl, ?Hdr, ?Hac; try done.
    + exists vs. split; [|done]. eapply Forall2_impl; [exact Hvs|]. intros a u. unfold has_val. by rewrite Hkind.
    + cbn. by rewrite Has, Hh, Ha0, fmap_app, app_nil_r.
    + rewrite Hpe. apply Forall_app. split; [apply (pending_handed s _ [(r, v)]); (done || congruence)|].
      apply Forall_forall. intros p [->|(w & u & -> & Hu)]%Hps; unfold pending_ok, is_reader, has_val; cbn; rewrite Hkind.
      * split; [done|]. rewrite Hh, fmap_app. cbn. set_solver.
      * by exists u.
  - apply (answers_ask s _ r); try done; [rewrite Hh; set_solver|]. apply (pl_susp _ _ Hpl). set_solver.
Qed.

Lemma push_reader_inv s r : places [r] s -> flow s -> answers s -> is_reader s r -> r ∉ asked s ->
  exists o, try_push_reader s r = Ok o /\ match o with Some s' => channel_inv s' | None => active s = false end.
Proof.
  intros Hpl [(vs & Hvs & Hw) Hr Ha Hb Hf He Hp Hac Hc] Han Hk Hnew. unfold try_push_reader.
  destruct (active s) eqn:Eact; cbn; [|by exists None]. destruct (Hac eq_refl) as [Hcl Hdr].
  rewrite Hdr in *. cbn in Hw, Ha. unfold room in *.
  assert (reader_list s = [] \/ (buffer s = [] /\ writer_list s = [])) as Hcase
    by (destruct (reader_list s); [by left|right; by apply He]).
  destruct (buffer s) as [|value b] eqn:Eb, (writer_list s) as [|writer ws] eqn:Ewl;
    [|destruct Hcase as [Erl|[? ?]]; [|done]; rewrite Erl, app_nil_r in Ha..].
  - eexists. split; [done|]. inversion Hvs; subst. split.
    + eapply places_perm, Hpl; [done|]. unfold waiting. cbn. rewrite Ewl. cbn. solve_Permutation.
    + split; cbn; rewrite ?Hdr, ?Eact; try done; try by exists [].
      * apply Forall_app. split; [done|]. by constructor.
      * by rewrite Ha, !(assoc_L (++)).
    + apply (answers_ask s _ r); try done. apply (pl_susp _ _ Hpl). set_solver.
  - inversion Hvs as [|? v ? vs' Hv Hvs']; subst. rewrite (val_of_Ok _ writer v) by exact Hv. cbn [mbind result_bind].
    eexists. split; [done|]. apply (handed_inv s _ r v vs' [(r, Resume_with v); (writer, Resume)]); try done; cbn.
    + by rewrite <- (assoc_L (++)).
    + rewrite Ewl. solve_Permutation.
    + set_solver.
    + rewrite Hw, fmap_app. cbn. by rewrite <- (assoc_L (++)).
    + intros _. by apply Hf.
  - inversion Hvs; subst.
    eexists. split; [done|]. apply (handed_inv s _ r value [] [(r, Resume_with value)]); try done; cbn.
    + by rewrite Ewl.
    + set_solver.
    + rewrite Hw, fmap_app. cbn. by rewrite <- (assoc_L (++)).
    + unfold room. cbn in *. lia.
  - inversion Hvs as [|? v ? vs' Hv Hvs']; subst. rewrite (val_of_Ok _ writer v) by exact Hv. cbn [mbind result_bind].
    eexists. split; [done|]. apply (handed_inv s _ r value vs' [(writer, Resume); (r, Resume_with value)]); try done; cbn.
    + by rewrite <- (assoc_L (++)).
    + rewrite Ewl. solve_Permutation.
    + set_solver.
    + rewrite Hw, fmap_app. cbn. by rewrite <- !(assoc_L (++)).
    + unfold room. rewrite length_app. cbn in *. lia.
    + intros _. unfold room. rewrite length_app. cbn in *. specialize (Hf ltac:(done)). lia.
Qed.

Lemma filter_other (l : list nat) a : a ∉ l -> filter (fun x => x <> a) l = l.
Proof.
  induction l as [|b l IH]; [done|]. intros Hn. apply not_elem_of_cons in Hn as [Hne Hn].
  rewrite filter_cons_True by congruence. by rewrite IH.
Qed.

(** An awaiter that no list names is destroyed without a trace. *)
Lemma destroy_idle s a x : awaiters s !! a = Some x -> a ∉ waiting s -> destroy false s a = Ok s.
Proof.
  intros Ha Hn. unfold waiting in Hn. rewrite !elem_of_app in Hn. unfold destroy. rewrite Ha. cbn.
  destruct (kind x); unfold remove_writer, remove_reader; rewrite filter_other by tauto; by destruct s.
Qed.

Lemma answers_set s a x st : awaiters s !! a = Some x -> st <> Made ->
  (forall o, st = Returned o -> match o with Some v => (a, v) ∈ handed s | None => exists v, has_val s a v end) ->
  answers s -> answers (set_state s a st).
Proof.
  intros Ha Hst Hret [Hm Ho Hr]. split.
  - intros b Hb. rewrite (state_of_set s a st b x Ha). destruct (decide (a = b)); [by exists st|by apply Hm].
  - done.
  - intros b o. rewrite (state_of_set s a st b x Ha). unfold has_val.
    destruct (decide (a = b)) as [<-|]; [intros [= ->]|intros Hb%Hr]; destruct o as [v|]; try done.
    + by apply (Hret (Some v)).
    + destruct (Hret None eq_refl) as [v Hv]. exists v. by rewrite kind_of_set.
    + destruct Hb as [v Hv]. exists v. by rewrite kind_of_set.
Qed.

(** The coroutine in hand ends its [co_await] with the exception. *)
Lemma throw_inv s a x : awaiters s !! a = Some x -> places [a] s -> flow s -> answers s ->
  exists s', throw false s a = Ok s' /\ channel_inv s'.
Proof.
  intros Ha Hpl Hfl Han. unfold throw. assert (a ∉ waiting (set_state s a Threw)) as Hn.
  { destruct Hpl as [Hn _]. by inversion Hn. }
  rewrite (destroy_idle _ _ {| kind := kind x; exec := exec x; state := Threw |});
    [|by unfold set_state; cbn; rewrite lookup_alter_eq, Ha|done].
  eexists. split; [done|]. split; [by apply (places_end s a _ x)|by apply flow_set|by apply (answers_set s a x)].
Qed.

Lemma await_suspend_inv s a : channel_inv s -> exists s', await_suspend s a = Ok s' /\ channel_inv s'.
Proof.
  intros [Hpl Hfl Han]. unfold await_suspend. destruct (awaiters s !! a) as [x|] eqn:Ha; [|by exists s].
  destruct (state x) eqn:Hx; try by exists s.
  set (s1 := set_state s a Suspended). set (x1 := {| kind := kind x; exec := exec x; state := Suspended |}).
  assert (awaiters s1 !! a = Some x1) as Ha1 by (unfold s1, set_state; cbn; by rewrite lookup_alter_eq, Ha).
  assert (places [a] s1) as Hpl1 by (by apply (places_suspend s a x)).
  assert (flow s1) as Hfl1 by (by apply flow_set).
  assert (answers s1) as Han1 by (by apply (answers_set s a x)).
  assert (a ∉ asked s1) as Hnew.
  { intros Hin. destruct (an_asked s Han a Hin) as (st & Hst & Hne). unfold state_of in Hst.
    rewrite Ha in Hst. cbn in Hst. congruence. }
  destruct (kind x) as [v|] eqn:Hk.
  - destruct (push_writer_inv s1 a v) as (o & -> & Ho); [done..|by unfold has_val, kind_of; rewrite Ha1; cbn; f_equal|].
    cbn. destruct o as [s'|]; [by exists s'|by apply (throw_inv s1 a x1)].
  - destruct (push_reader_inv s1 a) as (o & -> & Ho); [done..|by unfold is_reader, kind_of; rewrite Ha1; cbn; f_equal|done|].
    cbn. destruct o as [s'|]; [by exists s'|by apply (throw_inv s1 a x1)].
Qed.

Lemma make_awaiter_inv s a k e : channel_inv s -> channel_inv (make_awaiter s a k e).
Proof.
  intros [[Hn Hs] Hfl [Hm Ho Hr]]. unfold make_awaiter. destruct (awaiters s !! a) as [x|] eqn:Ha; [done|].
  set (x := {| kind := k; exec := e; state := if active s then Made else Threw |}).
  assert (forall b st, state_of s b = Some st -> b <> a) as Hne.
  { intros b st Hb ->. unfold state_of in Hb. by rewrite Ha in Hb. }
  assert (forall b, b <> a -> awaiters (with_awaiters s (<[a := x]> (awaiters s))) !! b = awaiters s !! b) as Hold
    by (intros b Hb; cbn; by rewrite lookup_insert_ne by congruence).
  assert (forall st, state_of (with_awaiters s (<[a := x]> (awaiters s))) a = Some st -> st = Made \/ st = Threw) as Hst.
  { unfold state_of. cbn. rewrite lookup_insert_eq. cbn. intros st [= <-]. destruct (active s); tauto. }
  split; [split; [done|]| |split; [|done|]].
  - intros b. destruct (decide (b = a)) as [->|Hb].
    + split; [intros Hin%Hs; by destruct (Hne _ _ Hin)|intros Hb%Hst; naive_solver].
    + unfold state_of. rewrite Hold by done. apply Hs.
  - apply flow_awaiters; [|done]. intros b kb Hb. unfold kind_of in *. rewrite Hold; [done|].
    intros ->. by rewrite Ha in Hb.
  - intros b Hb%Hm. destruct Hb as (st & Hb & Hnm). exists st. unfold state_of. rewrite Hold; [done|]. by eapply Hne.
  - intros b o Hb. destruct (decide (b = a)) as [->|Hba]; [apply Hst in Hb; naive_solver|].
    unfold state_of, has_val, kind_of in *. rewrite Hold in * by done. by apply Hr.
Qed.

Lemma run_pending_inv s k : channel_inv s -> exists s', run_pending s k = Ok s' /\ channel_inv s'.
Proof.
  intros [Hpl Hfl Han]. unfold run_pending. destruct (pending s !! k) as [[a r]|] eqn:Hk; [|by exists s].
  set (s1 := with_pending s (delete k (pending s))).
  assert (pending s ≡ₚ (a, r) :: delete k (pending s)) as Hp by (by apply delete_Permutation).
  assert (places [a] s1) as Hpl1.
  { apply (places_perm [] _ s); [done| |done]. unfold waiting. cbn. rewrite Hp at 2. cbn. solve_Permutation. }
  assert (flow s1 /\ pending_ok s (a, r)) as [Hfl1 Hok].
  { destruct Hfl as [? ? ? ? ? ? Hpe ? ?]. rewrite Hp in Hpe. inversion Hpe; subst. split; [by split|done]. }
  assert (answers s1) as Han1 by (by apply (answers_mono s)).
  assert (state_of s1 a = Some Suspended) as Hst by (apply (pl_susp _ _ Hpl1); set_solver).
  unfold await_resume. unfold state_of in Hst. cbn in Hst |- *.
  destruct (awaiters s !! a) as [x|] eqn:Ha; [|done]. cbn in Hst |- *. injection Hst as Hst. rewrite Hst.
  destruct (active s) eqn:Eact; [|by apply (throw_inv s1 a x)].
  unfold pending_ok, has_val, is_reader, kind_of in Hok. cbn in Hok. rewrite Ha in Hok. cbn in Hok.
  destruct r as [|v|].
  - destruct Hok as [v [= Hv]]. rewrite Hv. eexists. split; [done|].
    split; [by apply (places_end s1 a _ x)|by apply flow_set|apply (answers_set s1 a x); try done].
    intros o [= <-]. exists v. unfold has_val, kind_of. cbn. rewrite Ha. cbn. by rewrite Hv.
  - destruct Hok as [[= Hr] Hin]. rewrite Hr. eexists. split; [done|].
    split; [by apply (places_end s1 a _ x)|by apply flow_set|apply (answers_set s1 a x); try done].
    intros o [= <-]. apply list_elem_of_fmap in Hin as ([b u] & [=] & Hin). cbn in *. by subst.
  - destruct Hok as [_ Hf]. congruence.
Qed.

Lemma close_inv s : channel_inv s -> channel_inv (close s).
Proof.
  intros [Hpl Hfl Han]. unfold close. destruct (active s) eqn:Eact; [|done]. split.
  - by apply (places_perm [] _ s).
  - destruct Hfl as [Hv Hr Ha Hb Hf He Hp Hac Hc]. split; try done.
    + eapply Forall_impl; [exact Hp|]. intros [a []]; unfold pending_ok; cbn; try done.
      intros [? ?]. congruence.
    + intros _. by destruct (Hac Eact).
  - by apply (answers_mono s).
Qed.

(** ** The end of a channel *)

Definition in_place s a : bool :=
  match exec <$> awaiters s !! a with Some e => runs_in_place e | None => false end.

(** Resuming with the lock held: one awaiter whose executor runs functions in place is
    enough for a deadlock. *)
Lemma resume_all_spec s l : active s = false -> Forall (fun p => state_of s p.1 = Some Suspended) l ->
  if existsb (fun p => in_place s p.1) l then exists m, resume_all s l = Fatal m
  else resume_all s l = Ok (with_pending s (pending s ++ l)).
Proof.
  revert s. induction l as [|[a r] l IH]; intros s Hac Hl; [by destruct s; cbn; rewrite app_nil_r|].
  inversion Hl as [|? ? Ha Hl']; subst. cbn in Ha |- *. unfold resume_locked, await_resume, state_of, in_place in *.
  destruct (awaiters s !! a) as [x|] eqn:Hx; [|done]. cbn in Ha |- *. injection Ha as Ha. rewrite Ha, Hac.
  destruct (runs_in_place (exec x)); cbn; [by eexists|]. specialize (IH (resume s a r) Hac Hl').
  cbn in IH. unfold in_place in IH. cbn in IH. destruct (existsb _ l); [done|]. rewrite IH. cbn.
  by rewrite <- (assoc_L (++)).
Qed.

Lemma vals_of_Ok s l vs : Forall2 (has_val s) l vs -> vals_of s l = Ok vs.
Proof. induction 1 as [|w v l vs Hw _ IH]; [done|]. cbn. rewrite (val_of_Ok _ w v) by done. cbn. by rewrite IH. Qed.

Lemma clean_up_inv s : channel_inv s ->
  (exists s', clean_up s = Ok s' /\ channel_inv s' /\ awaiters s' = awaiters s
     /\ active s' = active s /\ (active s = false -> cleaning s' = false)
     /\ (cleaning s = true -> forall a, a ∈ writer_list s ++ reader_list s -> in_place s a = false)) \/
  (exists m a, clean_up s = Fatal m /\ a ∈ writer_list s ++ reader_list s /\ in_place s a = true).
Proof.
  intros [Hpl Hfl Han]. unfold clean_up. destruct (cleaning s) eqn:Ecl; cbn; [|left; by exists s].
  destruct Hfl as [(vs & Hvs & Hw) Hr Ha Hb Hf He Hp Hac Hc].
  rewrite (vals_of_Ok s _ vs Hvs). cbn [mbind result_bind]. cbn.
  destruct (active s) eqn:Eact; [destruct (Hac eq_refl); congruence|].
  specialize (Hc eq_refl) as Hd. rewrite Ecl in Hd.
  set (l := ((fun w => (w, Resume)) <$> writer_list s) ++ ((fun r => (r, Resume_unsafe)) <$> reader_list s) : list (nat * resumption V)).
  assert (l.*1 = writer_list s ++ reader_list s) as Hl.
  { unfold l. rewrite fmap_app, <- !list_fmap_compose. f_equal; apply list_fmap_id. }
  assert (Forall (fun p => state_of s p.1 = Some Suspended) l) as Hsu.
  { apply Forall_forall. intros p Hin. apply (pl_susp _ _ Hpl). cbn. unfold waiting. rewrite (assoc_L (++)), <- Hl.
    apply elem_of_app. left. by apply list_elem_of_fmap_2. }
  pose proof (resume_all_spec s l Eact Hsu) as Hall. destruct (existsb _ l) eqn:Eex.
  - right. apply existsb_exists in Eex as (p & Hin%list_elem_of_In & Hp'). destruct Hall as [m Hm].
    exists m, p.1. rewrite Hm, <- Hl. split; [done|]. split; [by apply list_elem_of_fmap_2|done].
  - left. rewrite Hall. eexists. split; [done|]. split; [|split_and!; try done].
    2:{ intros _ a. rewrite <- Hl. intros (p & -> & Hin)%list_elem_of_fmap. apply not_true_iff_false. intros Hp'.
        apply not_true_iff_false in Eex. apply Eex, existsb_exists. exists p. by rewrite <- list_elem_of_In. }
    split.
    + eapply places_perm, Hpl; [done|]. unfold waiting. cbn. rewrite fmap_app, Hl. solve_Permutation.
    + assert (forall w, w ∈ writer_list s -> exists v, has_val s w v) as Hkw.
      { intros w [i Hi]%list_elem_of_lookup. destruct (Forall2_lookup_l _ _ _ _ _ Hvs Hi) as (v & _ & Hv). by exists v. }
      split; cbn; rewrite ?Eact; try done.
      * exists []. split; [done|]. by rewrite Hw, Hd, !app_nil_r.
      * rewrite Ha, Hd. cbn. by rewrite app_nil_r.
      * unfold room in *. cbn in *. lia.
      * apply Forall_app. split; [eapply Forall_impl; [exact Hp|]; intros [a []]; by unfold pending_ok; cbn; rewrite ?Eact|].
        apply Forall_app. split; apply Forall_fmap, Forall_forall; intros a Hin; cbn.
        -- by apply Hkw.
        -- split; [|done]. rewrite Forall_forall in Hr. by apply Hr.
    + by apply (answers_mono s).
Qed.

Lemma new_channel_inv capacity : channel_inv (new_channel capacity).
Proof.
  split; split; cbn; try done; try constructor.
  - by intros ?%elem_of_nil.
  - done.
  - by exists [].
  - unfold room. cbn. pose proof (wrap_u_bounds 64 capacity). lia.
  - by intros a ?%elem_of_nil.
Qed.

Lemma channel_step_inv s e : channel_inv s ->
  (exists s', step s e = Ok s' /\ channel_inv s') \/
  (exists m a, e = Clean_up /\ step s e = Fatal m /\ a ∈ writer_list s ++ reader_list s /\ in_place s a = true).
Proof.
  intros Hs. destruct e as [a v e|a e|a|k| |]; cbn [step].
  - left. eexists. split; [done|by apply make_awaiter_inv].
  - left. eexists. split; [done|by apply make_awaiter_inv].
  - left. by apply await_suspend_inv.
  - left. by apply run_pending_inv.
  - left. eexists. split; [done|by apply close_inv].
  - destruct (clean_up_inv s Hs) as [(s' & ? & ? & _)|(m & a & ? & ? & ?)]; [left; by exists s'|right; by exists m, a].
Qed.

Lemma channel_steps_inv s es : channel_inv s ->
  match steps s es with
  | Ok s' => channel_inv s'
  | Fatal _ => exists es1 es2 s1 a, es = es1 ++ Clean_up :: es2 /\ steps s es1 = Ok s1
      /\ a ∈ writer_list s1 ++ reader_list s1 /\ in_place s1 a = true
  | Undefined => False
  end.
Proof.
  revert s. induction es as [|e es IH]; intros s Hs; [done|]. cbn [steps].
  destruct (channel_step_inv s e Hs) as [(s' & Hst & Hs')|(m & a & -> & Hst & Ha & Hp)]; rewrite Hst; cbn.
  - specialize (IH s' Hs'). destruct (steps s' es) as [s2| |]; [done| |done].
    destruct IH as (es1 & es2 & s1 & a & -> & Hes & Ha). exists (e :: es1), es2, s1, a.
    split; [done|]. split; [|done]. cbn. by rewrite Hst.
  - exists [], es, s, a. done.
Qed.

Lemma run_pending_closed s a (r : resumption V) ps : channel_inv s -> active s = false -> pending s = (a, r) :: ps ->
  exists x, awaiters s !! a = Some x /\ run_pending s 0 = Ok (set_state (with_pending s ps) a Threw).
Proof.
  intros [[Hnd Hsu] _ _] Hac Hp. unfold run_pending, await_resume. rewrite Hp. cbn [lookup list_lookup delete list_delete].
  assert (state_of s a = Some Suspended) as Hst.
  { apply Hsu. unfold waiting. rewrite Hp. cbn. set_solver. }
  unfold state_of in Hst. destruct (awaiters s !! a) as [x|] eqn:Ha; [|done]. exists x. split; [done|].
  injection Hst as Hst. change (awaiters (with_pending s ps)) with (awaiters s).
  change (active (with_pending s ps)) with (active s). rewrite Ha. cbn [lift mbind result_bind]. rewrite Hst, Hac.
  apply (destroy_idle _ _ {| kind := kind x; exec := exec x; state := Threw |}).
  - unfold set_state. cbn. by rewrite lookup_alter_eq, Ha.
  - unfold waiting in *. rewrite Hp in Hnd. cbn in Hnd |- *.
    rewrite (assoc_L (++)) in Hnd |- *. apply NoDup_app in Hnd as (_ & Hnot & Hps). inversion Hps; subst.
    rewrite elem_of_app. intros [Hin|Hin]; [|done]. apply (Hnot a Hin). set_solver.
Qed.

(** Running what is dispatched on a closed channel ends each of these coroutines. *)
Lemma run_closed n s : channel_inv s -> active s = false -> length (pending s) = n ->
  exists s', steps s (repeat (Run 0) n) = Ok s' /\ channel_inv s' /\ pending s' = []
    /\ writer_list s' = writer_list s /\ reader_list s' = reader_list s
    /\ forall a, state_of s' a = if decide (a ∈ (pending s).*1) then Some Threw else state_of s a.
Proof.
  revert s. induction n as [|n IH]; intros s Hs Hac Hlen; (destruct (pending s) as [|[a r] ps] eqn:Hp; [try done|try done]);
    [exists s; split_and!; try done; intros b; by rewrite decide_False by apply not_elem_of_nil|].
  destruct (run_pending_inv s 0 Hs) as (s1 & Hrun & Hs1). cbn [repeat steps step]. rewrite Hrun. cbn [mbind result_bind].
  destruct (run_pending_closed s a r ps Hs Hac Hp) as (x & Ha & Heq). rewrite Heq in Hrun.
  injection Hrun as <-. destruct (IH _ Hs1 Hac) as (s' & Hs' & Hinv & Hps & Hw & Hr & Hall).
  { rewrite <- Nat.succ_inj_wd. exact Hlen. }
  exists s'. split_and!; try done. intros b. rewrite Hall, (state_of_set _ a _ b x) by done. cbn.
  repeat case_decide; set_solver.
Qed.

End Inv.

(** ** The theorems *)

(** C7: Whatever coroutines, executors and closings do, a coroutine is never resumed twice
    or without the value it waits for, and every suspended one is in a list or has one
    dispatched function; readers are given the values in the order they were written, the
    readers in the order they came; the buffer is not longer than its capacity, writers
    wait only while it is full and readers only while nothing is to read. The only other
    outcome is a deadlock in [clean_up], over a waiting coroutine whose executor runs
    functions in place. *)
Theorem channel_fifo {V} capacity es :
  match steps (new_channel capacity) es with
  | Ok s =>
    NoDup (waiting s) /\ (forall a, a ∈ waiting s <-> state_of s a = Some Suspended)
    /\ (exists vs, Forall2 (has_val s) (writer_list s) vs
         /\ written s = (handed s).*2 ++ (dropped s).1 ++ buffer s ++ vs)
    /\ asked s = (handed s).*1 ++ (dropped s).2 ++ reader_list s /\ NoDup (asked s)
    /\ (forall r (v : V), state_of s r = Some (Returned (Some v)) -> (r, v) ∈ handed s)
    /\ Z.of_nat (length (buffer s)) <= room s
    /\ (writer_list s <> [] -> Z.of_nat (length (buffer s)) = room s)
    /\ (reader_list s <> [] -> buffer s = [] /\ writer_list s = [])
  | Fatal _ => exists es1 es2 s1 a, es = es1 ++ Clean_up :: es2 /\ steps (new_channel capacity) es1 = Ok s1
      /\ a ∈ writer_list s1 ++ reader_list s1 /\ in_place s1 a = true
  | Undefined => False
  end.
Proof.
  pose proof (channel_steps_inv (new_channel capacity) es (new_channel_inv capacity)) as H.
  destruct (steps _ es) as [s| |]; [|done..]. destruct H as [[Hn Hs] [Hv Hr Ha Hb Hf He Hp Hac Hc] [Hm Ho Hret]].
  split_and!; try done. intros r v. apply (Hret r (Some v)).
Qed.

(** C37: [close] with [clean_up] and the functions it dispatches ends the [co_await] of
    every suspended coroutine with the exception, and of no other, if no waiting coroutine
    has an executor that runs functions in place. *)
Theorem channel_closes {V} capacity es (s : channel V) : steps (new_channel capacity) es = Ok s ->
  (forall a, a ∈ writer_list s ++ reader_list s -> in_place s a = false) ->
  exists s', steps s (Close :: Clean_up :: repeat (Run 0) (length (waiting s))) = Ok s'
    /\ (forall a, state_of s a = Some Suspended -> state_of s' a = Some Threw)
    /\ (forall a, state_of s a <> Some Suspended -> state_of s' a = state_of s a).
Proof.
  intros Hes Hno. pose proof (channel_steps_inv (new_channel capacity) es (new_channel_inv capacity)) as Hs. rewrite Hes in Hs.
  cbn [steps step mbind result_bind]. pose proof (close_inv s Hs) as Hs1.
  assert (active (close s) = false /\ awaiters (close s) = awaiters s /\ waiting (close s) = waiting s
    /\ writer_list (close s) ++ reader_list (close s) = writer_list s ++ reader_list s) as (Hac & Haw & Hwa & Hli)
    by (unfold close; by destruct (active s) eqn:?).
  destruct (clean_up_inv (close s) Hs1) as [(s2 & -> & Hs2 & Haw2 & Hac2 & Hcl & _)|(m & a & _ & Hin & Hp)].
  - rewrite Hac in Hac2, Hcl. pose proof (fl_closed s2 (ci_flow s2 Hs2) Hac2) as Hem. rewrite (Hcl eq_refl) in Hem.
    destruct Hem as (_ & Hw & Hr). cbn [mbind result_bind].
    assert (forall a, state_of s2 a = state_of s a) as Hst by (intros a; unfold state_of; by rewrite Haw2, Haw).
    assert (waiting s ≡ₚ (pending s2).*1) as Hperm.
    { replace (pending s2).*1 with (waiting s2) by (unfold waiting; by rewrite Hw, Hr).
      apply NoDup_Permutation; [apply (pl_once _ _ (ci_places s Hs))|apply (pl_once _ _ (ci_places s2 Hs2))|].
      intros a. rewrite (pl_susp _ _ (ci_places s Hs) a), <- Hst. symmetry. apply (pl_susp _ _ (ci_places s2 Hs2) a). }
    destruct (run_closed (length (waiting s)) s2 Hs2 Hac2) as (s' & Hrun & _ & _ & _ & _ & Hall).
    { apply Permutation_length in Hperm. by rewrite length_fmap in Hperm. }
    exists s'. split; [exact Hrun|]. split; intros a Ha; rewrite Hall, Hst.
    + rewrite decide_True; [done|]. rewrite <- Hperm. by apply (pl_susp _ _ (ci_places s Hs)).
    + rewrite decide_False; [done|]. rewrite <- Hperm. intros Hin. by apply Ha, (pl_susp _ _ (ci_places s Hs)).
  - rewrite Hli in Hin. assert (in_place (close s) a = in_place s a) as Heq by (unfold in_place; by rewrite Haw).
    by rewrite Heq, (Hno a Hin) in Hp.
Qed.

(** A buffer of one value, a writer and three readers of which two wait at the end. *)
Definition two_readers : list (channel_event Z) :=
  [Write 0 7 LooperExecutor; Suspend 0; Run 0; Read 1 LooperExecutor; Suspend 1; Run 0;
   Read 2 LooperExecutor; Read 3 NewThreadExecutor; Suspend 3; Suspend 2].

Theorem channel_closes_witness : exists s s', steps (new_channel 1) two_readers = Ok s
  /\ steps s (Close :: Clean_up :: repeat (Run 0) (length (waiting s))) = Ok s'
  /\ state_of s' 2 = Some Threw /\ state_of s' 1 = Some (Returned (Some 7)).
Proof.
  destruct (steps (new_channel 1) two_readers) as [s| |] eqn:Hs; [|by vm_compute in Hs..].
  pose proof Hs as Hv. vm_compute in Hv. injection Hv as Hv.
  destruct (channel_closes 1 two_readers s Hs) as (s' & Hs' & Hsu & Hot).
  { rewrite <- Hv. intros a Ha. cbn in Ha. apply elem_of_cons in Ha as [->|Ha]; [done|].
    apply elem_of_cons in Ha as [->|Ha]; [done|]. by apply elem_of_nil in Ha. }
  exists s, s'. split; [done|]. split; [done|]. split.
  - apply Hsu. by rewrite <- Hv.
  - rewrite Hot by (by rewrite <- Hv). by rewrite <- Hv.
Defined.

(** [clean_up] resumes the waiting coroutines while it holds [channel_lock]. If one of
    them has an executor that runs functions in place, as the default [NoopExecutor]
    does, closing the channel is a deadlock: the exception destroys the awaiter, whose
    destructor locks [channel_lock]. *)
Theorem close_deadlocks {V} capacity es (s : channel V) a : steps (new_channel capacity) es = Ok s ->
  a ∈ writer_list s ++ reader_list s -> in_place s a = true -> exists m, steps s [Close; Clean_up] = Fatal m.
Proof.
  intros Hes Ha Hp. pose proof (channel_steps_inv (new_channel capacity) es (new_channel_inv capacity)) as Hs. rewrite Hes in Hs.
  pose proof (close_inv s Hs) as Hs1. cbn [steps step mbind result_bind].
  assert (cleaning (close s) = true /\ writer_list (close s) ++ reader_list (close s) = writer_list s ++ reader_list s
    /\ in_place (close s) a = in_place s a) as (Hcl & Hli & Hpl).
  { unfold close. destruct (active s) eqn:Hac; [done|]. pose proof (fl_closed s (ci_flow s Hs) Hac) as Hem.
    destruct (cleaning s); [done|]. destruct Hem as (_ & Hw & Hr). rewrite Hw, Hr in Ha. by apply elem_of_nil in Ha. }
  destruct (clean_up_inv (close s) Hs1) as [(s2 & _ & _ & _ & _ & _ & Hno)|(m & _ & -> & _)]; [|by exists m].
  rewrite <- Hli in Ha. by rewrite <- Hpl, (Hno Hcl a Ha) in Hp.
Qed.

Theorem close_deadlocks_witness : exists s m,
  steps (new_channel (V := Z) 1) [Read 0 NoopExecutor; Suspend 0] = Ok s /\ steps s [Close; Clean_up] = Fatal m.
Proof.
  destruct (steps (new_channel (V := Z) 1) [Read 0 NoopExecutor; Suspend 0]) as [s| |] eqn:Hs; [|by vm_compute in Hs..].
  pose proof Hs as Hv. vm_compute in Hv. injection Hv as Hv.
  destruct (close_deadlocks 1 _ s 0 Hs) as [m Hm]; [rewrite <- Hv; by left|by rewrite <- Hv|by exists s, m].
Defined.

(** A writer, a reader that is given its value, and [close] before the reader runs. *)
Definition close_behind : list (channel_event Z) :=
  [Write 0 7 LooperExecutor; Suspend 0; Run 0; Read 1 LooperExecutor; Suspend 1; Close; Clean_up; Run 0].

(** A value can be lost although its write has returned without an exception and a
    reader has been given the value: the reader looks at [active] again when it runs. *)
Theorem close_loses_value : exists s, steps (new_channel 1) close_behind = Ok s
  /\ state_of s 0 = Some (Returned None) /\ written s = [7] /\ handed s = [(1%nat, 7)]
  /\ state_of s 1 = Some Threw /\ waiting s = [] /\ buffer s = [] /\ dropped s = ([], []).
Proof. eexists. split; [vm_compute; reflexivity|done]. Qed.
