(* ===== verification/CoTimer.v ===== *)
(** The timer (src/coroutine/timer.h) and the executor with a thread of its own
    ([LooperExecutor] in executor.h): the loops of their threads and the calls of other
    threads, as steps that interleave. The thread of a loop keeps its lock between two
    steps only to wait; a call's critical section is one step. *)

From S2P Require Import Prelude Result.
From Stdlib Require Import Sorted.
#[local] Open Scope Z_scope.

(** ** The queue of the timer

    [std::priority_queue] with [DelayedExecutableCompare]: a collection whose top is an
    executable with the earliest time. Which one is on top when several have this time is not
    documented, nor that it stays there. *)

Record DelayedExecutable := { func : Z; scheduled_time : Z }.

Class PriorityQueue (Q : Type) := {
  pq_empty : Q;
  pq_push : DelayedExecutable -> Q -> Q;
  pq_top : Q -> option DelayedExecutable;
  pq_pop : Q -> Q;
  pq_elements : Q -> list DelayedExecutable
}.

Class PriorityQueueLaws (Q : Type) `{PriorityQueue Q} := {
  pq_elements_empty : pq_elements pq_empty = [];
  pq_elements_push x q : pq_elements (pq_push x q) ≡ₚ x :: pq_elements q;
  pq_top_None q : pq_top q = None <-> pq_elements q = [];
  pq_top_pop q x : pq_top q = Some x -> pq_elements q ≡ₚ x :: pq_elements (pq_pop q);
  pq_top_first q x y : pq_top q = Some x -> y ∈ pq_elements q -> scheduled_time x <= scheduled_time y
}.

(** What a queue may do besides: a push of an executable that is not earlier than the top
    leaves the top. *)
Definition keeps_top Q `{PriorityQueue Q} : Prop := forall q x y,
  pq_top q = Some x -> scheduled_time x <= scheduled_time y -> pq_top (pq_push y q) = Some x.

(** Any queue does so while no two of its executables have the same time. *)
Definition distinct_times (l : list DelayedExecutable) : Prop := NoDup (scheduled_time <$> l).

Lemma top_stays Q `{PriorityQueueLaws Q} (q : Q) x y : keeps_top Q \/ distinct_times (y :: pq_elements q) ->
  pq_top q = Some x -> scheduled_time x <= scheduled_time y -> pq_top (pq_push y q) = Some x.
Proof.
  intros [Hk|Hd] Hx Hle; [by apply Hk|]. destruct (pq_top (pq_push y q)) as [z|] eqn:Hz.
  - pose proof (pq_top_pop _ _ Hx) as Hqx. pose proof (pq_top_pop _ _ Hz) as Hqz. rewrite pq_elements_push in Hqz.
    assert (x ∈ pq_elements q) as Hin by (rewrite Hqx; set_solver).
    assert (scheduled_time z <= scheduled_time x) as Hzx by (apply (pq_top_first _ _ x Hz); rewrite pq_elements_push; set_solver).
    assert (z ∈ y :: pq_elements q) as Hzin by (rewrite Hqz; set_solver).
    unfold distinct_times in Hd. cbn in Hd. apply NoDup_cons in Hd as [Hy Hd]. apply elem_of_cons in Hzin as [->|Hzin].
    + destruct Hy. replace (scheduled_time y) with (scheduled_time x) by lia. by apply list_elem_of_fmap_2.
    + pose proof (pq_top_first _ _ z Hx Hzin). rewrite Hqx in Hzin, Hd. apply elem_of_cons in Hzin as [->|Hzin]; [done|].
      cbn in Hd. apply NoDup_cons in Hd as [Hnx _]. destruct Hnx. replace (scheduled_time x) with (scheduled_time z) by lia.
      by apply list_elem_of_fmap_2.
  - apply pq_top_None in Hz. pose proof (pq_elements_push y q) as Hp. rewrite Hz in Hp. by apply Permutation_nil_cons in Hp.
Qed.

(** A sorted list is such a queue. *)
Fixpoint insert_by_time (x : DelayedExecutable) (l : list DelayedExecutable) : list DelayedExecutable :=
  match l with
  | [] => [x]
  | y :: l' => if scheduled_time x <? scheduled_time y then x :: l else y :: insert_by_time x l'
  end.

Definition sorted_queue := { l : list DelayedExecutable | StronglySorted (fun x y => scheduled_time x <= scheduled_time y) l }.

Lemma insert_by_time_perm x l : insert_by_time x l ≡ₚ x :: l.
Proof. induction l as [|y l IH]; [done|]. cbn. case_bool; [done|]. rewrite IH. constructor. Qed.

Lemma insert_by_time_sorted x l : StronglySorted (fun x y => scheduled_time x <= scheduled_time y) l ->
  StronglySorted (fun x y => scheduled_time x <= scheduled_time y) (insert_by_time x l).
Proof.
  induction 1 as [|y l Hl IH Hy]; cbn; [by repeat constructor|]. case_bool.
  - constructor; [by constructor|]. constructor; [lia|]. eapply Forall_impl; [exact Hy|]. cbn. lia.
  - constructor; [done|]. rewrite insert_by_time_perm. by constructor.
Qed.

#[export] Instance sorted_pq : PriorityQueue sorted_queue := {
  pq_empty := exist _ [] (SSorted_nil _);
  pq_push x q := exist _ (insert_by_time x (`q)) (insert_by_time_sorted x _ (proj2_sig q));
  pq_top q := head (`q);
  pq_pop q := match q with
              | exist _ [] H => exist _ [] H
              | exist _ (x :: l) H => exist _ l (proj1 (StronglySorted_inv H))
              end;
  pq_elements q := `q
}.

#[export] Instance sorted_pq_laws : PriorityQueueLaws sorted_queue.
Proof.
  split.
  - done.
  - intros x [l H]. apply insert_by_time_perm.
  - intros [[|x l] H]; cbn; split; (done || congruence).
  - by intros [[|x l] H] y; cbn; [|intros [= ->]].
  - intros [[|x l] H] x' y; cbn; [done|]. intros [= ->] [->|Hy]%elem_of_cons; [done|].
    apply StronglySorted_inv in H as [_ H]. rewrite Forall_forall in H. by apply H.
Qed.

Lemma sorted_queue_keeps_top : keeps_top sorted_queue.
Proof. intros [[|x l] H] x' y; cbn; [done|]. intros [= ->] Hle. case_bool; [lia|done]. Qed.

(** ** The timer *)

Module Timer.
Section Timer.
Context {Q : Type} `{PriorityQueue Q}.

(** Where the thread of the timer is. *)
Inductive worker :=
| TLoop                                         (* at [while (...)] *)
| TLock                                         (* at [unique_lock lock(queue_lock)] *)
| TWaiting                                      (* in [wait] *)
| TWoken                                        (* to take the lock again *)
| TDelay (e : DelayedExecutable) (delay : Z)    (* holds the lock; before [wait_for] *)
| TSleeping (e : DelayedExecutable) (until : Z) (* in [wait_for] *)
| TNotified                                     (* to take the lock again, status [no_timeout] *)
| TTimedOut (e : DelayedExecutable)             (* the same, status [timeout] *)
| TRunning (e : DelayedExecutable)              (* at [executable()] *)
| TExited.

(** The stages of [shutdown]. *)
Inductive shutdown_stage := SNone | SClear | SNotify | SDone.

Record timer := {
  clock : Z;                                    (* milliseconds of the system clock *)
  steady : Z;                                   (* milliseconds of the clock of [wait_for] *)
  executable_queue : Q;
  is_active : bool;
  work_thread : worker;
  unnotified : nat;                             (* calls of [execute] before [notify_one] *)
  stage : shutdown_stage;
  submitted : list DelayedExecutable;           (* all that were pushed *)
  executed : list (DelayedExecutable * Z);      (* all that were called, with the time *)
  cleared : list DelayedExecutable              (* all that [shutdown] has thrown away *)
}.

Definition new_timer (now : Z) : timer :=
  {| clock := now; steady := 0; executable_queue := pq_empty; is_active := true; work_thread := TLoop; unnotified := O;
     stage := SNone; submitted := []; executed := []; cleared := [] |}.

Definition with_worker (s : timer) (w : worker) : timer :=
  {| clock := clock s; steady := steady s; executable_queue := executable_queue s; is_active := is_active s; work_thread := w;
     unnotified := unnotified s; stage := stage s; submitted := submitted s; executed := executed s; cleared := cleared s |}.
Definition with_queue (s : timer) (q : Q) (sub cl : list DelayedExecutable) : timer :=
  {| clock := clock s; steady := steady s; executable_queue := q; is_active := is_active s; work_thread := work_thread s;
     unnotified := unnotified s; stage := stage s; submitted := sub; executed := executed s; cleared := cl |}.
Definition with_unnotified (s : timer) (n : nat) : timer :=
  {| clock := clock s; steady := steady s; executable_queue := executable_queue s; is_active := is_active s; work_thread := work_thread s;
     unnotified := n; stage := stage s; submitted := submitted s; executed := executed s; cleared := cleared s |}.
Definition with_stage (s : timer) (a : bool) (st : shutdown_stage) : timer :=
  {| clock := clock s; steady := steady s; executable_queue := executable_queue s; is_active := a; work_thread := work_thread s;
     unnotified := unnotified s; stage := st; submitted := submitted s; executed := executed s; cleared := cleared s |}.
(** The system clock moves by [d], the other one by [d']. *)
Definition tick (s : timer) (d d' : Z) : timer :=
  {| clock := clock s + d; steady := steady s + d'; executable_queue := executable_queue s; is_active := is_active s;
     work_thread := work_thread s; unnotified := unnotified s; stage := stage s; submitted := submitted s;
     executed := executed s; cleared := cleared s |}.
Definition call (s : timer) (e : DelayedExecutable) : timer :=
  {| clock := clock s; steady := steady s; executable_queue := executable_queue s; is_active := is_active s; work_thread := TLoop;
     unnotified := unnotified s; stage := stage s; submitted := submitted s; executed := executed s ++ [(e, clock s)];
     cleared := cleared s |}.

(** [DelayedExecutable(func, delay)] and its [delay()]. *)
Definition new_executable (s : timer) (f delay : Z) : DelayedExecutable :=
  {| func := f; scheduled_time := clock s + delay |}.
Definition delay_of (s : timer) (e : DelayedExecutable) : Z := scheduled_time e - clock s.

Definition is_empty (s : timer) : bool := match pq_top (executable_queue s) with None => true | _ => false end.

(** [executable_queue.pop(); lock.unlock();] of an empty queue is undefined. *)
Definition pop_and_run (s : timer) (e : DelayedExecutable) : result timer :=
  if is_empty s then Undefined
  else Ok (with_worker (with_queue s (pq_pop (executable_queue s)) (submitted s) (cleared s)) (TRunning e)).

(** From [auto executable = executable_queue.top();] on. *)
Definition read_top (s : timer) : result timer :=
  executable ← lift (pq_top (executable_queue s));
  let delay := delay_of s executable in
  if 0 <? delay then Ok (with_worker s (TDelay executable delay)) else pop_and_run s executable.

(** A step of [run_loop]; a waiting thread makes none. *)
Definition run_loop (s : timer) : result timer :=
  match work_thread s with
  | TLoop => Ok (with_worker s (if is_active s || negb (is_empty s) then TLock else TExited))
  | TLock => if is_empty s then Ok (with_worker s TWaiting) else read_top s
  | TWoken => if is_empty s then Ok (with_worker s TLoop) else read_top s
  | TDelay e delay => Ok (with_worker s (TSleeping e (steady s + delay)))
  | TNotified => Ok (with_worker s TLoop)
  | TTimedOut e => pop_and_run s e
  | TRunning e => Ok (call s e)
  | TWaiting | TSleeping _ _ | TExited => Ok s
  end.

(** The thread holds the lock between two steps. *)
Definition holds_lock (w : worker) : bool := match w with TDelay _ _ => true | _ => false end.

Definition wake (s : timer) : timer :=
  match work_thread s with
  | TWaiting => with_worker s TWoken
  | TSleeping _ _ => with_worker s TNotified
  | _ => s
  end.

(** [wait_for] gives up when its time has passed. *)
Definition time_out (s : timer) : timer :=
  match work_thread s with
  | TSleeping e until => if until <=? steady s then with_worker s (TTimedOut e) else s
  | _ => s
  end.

(** [execute] up to [notify_one]. *)
Definition execute (s : timer) (f delay : Z) : timer :=
  let delay := if delay <? 0 then 0 else delay in
  if is_active s then
    let need_notify := match pq_top (executable_queue s) with None => true | Some e => delay <? delay_of s e end in
    let x := new_executable s f delay in
    with_unnotified (with_queue s (pq_push x (executable_queue s)) (submitted s ++ [x]) (cleared s))
                    (if need_notify then S (unnotified s) else unnotified s)
  else s.

Definition notify_one (s : timer) : timer :=
  match unnotified s with O => s | S n => wake (with_unnotified s n) end.

(** [shutdown]: the flag, the queue unless [wait_for_complete], and [notify_all]. *)
Definition shutdown (s : timer) (wait_for_complete : bool) : timer :=
  match stage s with
  | SNone => with_stage s false (if wait_for_complete then SNotify else SClear)
  | _ => s
  end.
Definition clear_queue (s : timer) : timer :=
  match stage s with
  | SClear => with_stage (with_queue s pq_empty (submitted s) (cleared s ++ pq_elements (executable_queue s))) (is_active s) SNotify
  | _ => s
  end.
Definition notify_all (s : timer) : timer :=
  match stage s with
  | SNotify => wake (with_stage s (is_active s) SDone)
  | _ => s
  end.

Inductive timer_event :=
| Tick (d : nat)                    (* time passes *)
| Adjust (d : Z)                    (* somebody sets the system clock *)
| Work                              (* the thread of the timer makes a step *)
| Time_out                          (* its [wait_for] times out *)
| Spurious                          (* it wakes without being notified *)
| Execute (f delay : Z)
| Notify
| Shutdown (wait_for_complete : bool)
| Clear
| Notify_all.

(** An event that takes the lock does nothing while the thread holds it. *)
Definition step (s : timer) (e : timer_event) : result timer :=
  match e with
  | Tick d => Ok (tick s (Z.of_nat d) (Z.of_nat d))
  | Adjust d => Ok (tick s d 0)
  | Work => run_loop s
  | Time_out => Ok (time_out s)
  | Spurious => Ok (wake s)
  | Execute f delay => Ok (if holds_lock (work_thread s) then s else execute s f delay)
  | Notify => Ok (notify_one s)
  | Shutdown b => Ok (shutdown s b)
  | Clear => Ok (if holds_lock (work_thread s) then s else clear_queue s)
  | Notify_all => Ok (notify_all s)
  end.

Fixpoint steps (s : timer) (es : list timer_event) : result timer :=
  match es with [] => Ok s | e :: es => s ← step s e; steps s es end.

(** ** The invariant *)

Context `{!PriorityQueueLaws Q}.

(** What the thread has taken out of the queue and not yet called. *)
Definition in_hand (w : worker) : list DelayedExecutable := match w with TRunning e => [e] | _ => [] end.

(** The executable that the thread has read is on top, or [shutdown] has cleared the queue. *)
Definition on_top (s : timer) (e : DelayedExecutable) : Prop :=
  pq_top (executable_queue s) = Some e \/ (pq_elements (executable_queue s) = [] /\ stage s <> SNone /\ stage s <> SClear).

Record timer_inv (s : timer) : Prop := {
  ti_once : submitted s ≡ₚ (executed s).*1 ++ in_hand (work_thread s) ++ cleared s ++ pq_elements (executable_queue s);
  ti_time : Forall (fun p => scheduled_time p.1 <= p.2) (executed s);
  ti_due : match work_thread s with
           | TRunning e | TTimedOut e => scheduled_time e <= clock s
           | TSleeping e until => scheduled_time e - clock s <= until - steady s
           | TDelay e delay => scheduled_time e <= clock s + delay
           | _ => True
           end;
  ti_top : match work_thread s with
           | TDelay e _ => pq_top (executable_queue s) = Some e
           | TTimedOut e => on_top s e
           | TSleeping e _ => unnotified s = O -> on_top s e
           | TExited => is_active s = false /\ pq_elements (executable_queue s) = []
           | _ => True
           end;
  ti_ties : keeps_top Q \/ distinct_times (pq_elements (executable_queue s));
  ti_active : stage s <> SNone -> is_active s = false;
  ti_cleared : stage s = SNone \/ stage s = SClear -> cleared s = []
}.

Lemma new_timer_inv now : timer_inv (new_timer now).
Proof. split; cbn; try done; [by rewrite pq_elements_empty|]. right. unfold distinct_times. rewrite pq_elements_empty. constructor. Qed.

Lemma distinct_pop q e : pq_top q = Some e -> keeps_top Q \/ distinct_times (pq_elements q) ->
  keeps_top Q \/ distinct_times (pq_elements (pq_pop q)).
Proof.
  intros Htop [Hk|Hd]; [by left|right]. unfold distinct_times in *. rewrite (pq_top_pop _ _ Htop) in Hd. cbn in Hd.
  by apply NoDup_cons in Hd as [_ Hd].
Qed.

Lemma pop_and_run_inv s e : timer_inv s -> in_hand (work_thread s) = [] ->
  pq_top (executable_queue s) = Some e -> (scheduled_time e <= clock s) ->
  exists s', pop_and_run s e = Ok s' /\ timer_inv s'.
Proof.
  intros [Ho Ht _ _ Hti Ha Hc] Hh Htop Hdue. unfold pop_and_run, is_empty. rewrite Htop. eexists. split; [done|].
  split; cbn; try done; [|by eapply distinct_pop]. rewrite Ho, Hh, (pq_top_pop _ e Htop). solve_Permutation.
Qed.

Lemma read_top_inv s : timer_inv s -> in_hand (work_thread s) = [] -> is_empty s = false ->
  exists s', read_top s = Ok s' /\ timer_inv s'.
Proof.
  intros Hs Hh He. unfold read_top, is_empty in *. destruct (pq_top (executable_queue s)) as [e|] eqn:Htop; [|done].
  cbn [lift mbind result_bind]. unfold delay_of. destruct (Z.ltb_spec 0 (scheduled_time e - clock s)) as [Hd|Hd].
  - eexists. split; [done|]. destruct Hs as [Ho Ht _ _ Hti Ha Hc]. split; cbn; try done; [by rewrite Ho, Hh|lia].
  - apply pop_and_run_inv; try done. lia.
Qed.

(** Changes of the thread alone. *)
Lemma with_worker_inv s w : timer_inv s -> in_hand w = in_hand (work_thread s) ->
  match w with
  | TLoop | TLock | TWaiting | TWoken | TNotified => True
  | TSleeping e until => (scheduled_time e - clock s <= until - steady s) /\ pq_top (executable_queue s) = Some e
  | TTimedOut e => (scheduled_time e <= clock s) /\ on_top s e
  | TExited => is_active s = false /\ is_empty s = true
  | _ => False
  end -> timer_inv (with_worker s w).
Proof.
  intros [Ho Ht Hd Hp Hti Ha Hc] Hh Hw. split; cbn; try done; [by rewrite Ho, Hh|..]; destruct w; try done; try tauto.
  - intros _. left. by destruct Hw.
  - split; [by destruct Hw|]. destruct Hw as [_ Hw]. unfold is_empty in Hw. apply pq_top_None. by destruct (pq_top _).
Qed.

(** The thread pops from an empty queue only if it was cleared while it waited. *)
Definition pops_empty (s : timer) (e : timer_event) : Prop :=
  e = Work /\ (exists x, work_thread s = TTimedOut x) /\ pq_elements (executable_queue s) = []
  /\ stage s <> SNone /\ stage s <> SClear.

Lemma timer_loop_inv s : timer_inv s ->
  match run_loop s with Ok s' => timer_inv s' | Fatal _ => False | Undefined => pops_empty s Work end.
Proof.
  intros Hs. unfold run_loop. pose proof Hs as [Ho Ht Hd Hp Hti Ha Hc]. destruct (work_thread s) eqn:Hw; try done.
  - destruct (is_active s || _) eqn:Hact; cbn; apply with_worker_inv; rewrite ?Hw; try done.
    apply orb_false_iff in Hact as [? ?%negb_false_iff]. done.
  - destruct (is_empty s) eqn:He; [apply with_worker_inv; rewrite ?Hw; done|].
    destruct (read_top_inv s) as (s' & -> & ?); by rewrite ?Hw.
  - destruct (is_empty s) eqn:He; [apply with_worker_inv; rewrite ?Hw; done|].
    destruct (read_top_inv s) as (s' & -> & ?); by rewrite ?Hw.
  - apply with_worker_inv; rewrite ?Hw; try done. split; [|done]. lia.
  - destruct Hp as [Htop|[Hnil Hst]]; [destruct (pop_and_run_inv s e) as (s' & -> & ?); rewrite ?Hw; done|].
    unfold pop_and_run, is_empty. rewrite (proj2 (pq_top_None _) Hnil). split; [done|]. split; [by exists e|done].
  - split; cbn; try done.
    + rewrite Ho, fmap_app. cbn. by rewrite <- (assoc_L (++)).
    + apply Forall_app. split; [done|]. by constructor.
Qed.

Lemma timer_wake_inv s : timer_inv s -> timer_inv (wake s).
Proof. intros Hs. unfold wake. destruct (work_thread s) eqn:Hw; try done; apply with_worker_inv; rewrite ?Hw; done. Qed.

(** An execution in which an [execute] pushes no executable with the time of one that is in
    the queue. *)
Definition no_tie (s : timer) (e : timer_event) : bool :=
  match e with
  | Execute f delay =>
    forallb (fun y => negb (scheduled_time y =? clock s + Z.max 0 delay)) (pq_elements (executable_queue s))
  | _ => true
  end.

Lemma execute_inv s f delay : timer_inv s -> holds_lock (work_thread s) = false ->
  keeps_top Q \/ no_tie s (Execute f delay) = true -> timer_inv (execute s f delay).
Proof.
  intros Hs Hl Hno. pose proof Hs as [Ho Ht Hd Hp Hti Hst Hc]. unfold execute. replace (if delay <? 0 then 0 else delay) with (Z.max 0 delay) by (case_bool; lia).
  set (d := Z.max 0 delay) in *. destruct (is_active s) eqn:Ha; [|done].
  assert (stage s = SNone) as HsN by (destruct (stage s) eqn:E; [done|..]; exfalso; assert (true = false) by (by apply Hst); done).
  set (x := new_executable s f d).
  assert (keeps_top Q \/ distinct_times (x :: pq_elements (executable_queue s))) as Hx.
  { destruct Hti as [?|Hti]; [by left|]. destruct Hno as [?|Hno]; [by left|right]. cbn. constructor; [|done].
    intros (y & Hy & Hin)%list_elem_of_fmap. cbn in Hno. rewrite forallb_forall in Hno. specialize (Hno y (proj1 (list_elem_of_In _ _) Hin)).
    cbn in Hy. apply negb_true_iff, Z.eqb_neq in Hno. unfold d in *. lia. }
  split; cbn; try done.
  - rewrite Ho, pq_elements_push. solve_Permutation.
  - unfold on_top. cbn. destruct (work_thread s) as [| | | |e dl|e until| |e|e|] eqn:Hw; try done.
    + destruct (pq_top (executable_queue s)) as [e'|] eqn:Htop; [|done]. intros Hn.
      unfold delay_of in Hn. destruct (Z.ltb_spec d (scheduled_time e' - clock s)) as [|Hle]; [done|].
      destruct (Hp Hn) as [Hp'|(_ & ? & _)]; [|done]. rewrite Htop in Hp'. injection Hp' as ->. left. refine (top_stays _ _ _ _ Hx _ _); [done|]. cbn. lia.
    + destruct Hp as [Hp|(_ & ? & _)]; [|done]. left. refine (top_stays _ _ _ _ Hx _ _); [done|]. cbn. lia.
    + by destruct Hp.
  - destruct Hx as [?|Hx]; [by left|right]. unfold distinct_times in *. by rewrite pq_elements_push.
Qed.

Lemma timer_step_inv s e : timer_inv s -> (forall d, e <> Adjust d) -> (e = Time_out -> unnotified s = O) ->
  keeps_top Q \/ no_tie s e = true ->
  match step s e with Ok s' => timer_inv s' | Fatal _ => False | Undefined => pops_empty s e end.
Proof.
  intros Hs Hadj Ht Hk. destruct e as [d|d| | | |f delay| |b| |]; cbn [step]; [|by destruct (Hadj d)|by apply timer_loop_inv|..].
  - destruct Hs as [Ho Htm Hd Hp Hti Ha Hc]. split; cbn; try done. revert Hd. destruct (work_thread s); try done; lia.
  - unfold time_out. destruct (work_thread s) eqn:Hw; try done. case_bool; [|done].
    pose proof Hs as [Ho Htm Hd Hp Hti Ha Hc]. rewrite Hw in Hd, Hp. specialize (Hp (Ht eq_refl)).
    apply with_worker_inv; rewrite ?Hw; try done. split; [lia|done].
  - by apply timer_wake_inv.
  - destruct (holds_lock _) eqn:Hl; [done|by apply execute_inv].
  - unfold notify_one. destruct (unnotified s) as [|n] eqn:Hn; [done|].
    destruct Hs as [Ho Htm Hd Hp Hti Ha Hc]. unfold wake. cbn.
    destruct (work_thread s) eqn:Hw; split; cbn; rewrite ?Hw; try done.
  - unfold shutdown. destruct (stage s) eqn:Hst; try done. destruct Hs as [Ho Htm Hd Hp Hti Ha Hc].
    assert (forall e, on_top s e -> pq_top (executable_queue s) = Some e) as Htop by (intros e [?|(_ & ? & _)]; done).
    split; cbn; try done; [|intros _; apply Hc; rewrite ?Hst; by left]. revert Hp. destruct (work_thread s); try done.
    + intros Hp Hn. left. by apply Htop, Hp.
    + intros Hp. left. by apply Htop.
    + by intros [_ ?].
  - destruct (holds_lock _) eqn:Hl; [done|]. unfold clear_queue. destruct (stage s) eqn:Hst; try done.
    destruct Hs as [Ho Htm Hd Hp Hti Ha Hc]. assert (is_active s = false) as Hact by (by apply Ha; rewrite Hst).
    split; cbn; try done; try (by intros [?|?]); rewrite ?pq_elements_empty.
    + by rewrite Ho, app_nil_r.
    + unfold on_top. cbn. rewrite pq_elements_empty. destruct (work_thread s); try done; [intros _|]; by right.
    + right. constructor.
  - unfold notify_all. destruct (stage s) eqn:Hst; try done. apply timer_wake_inv. destruct Hs as [Ho Htm Hd Hp Hti Ha Hc].
    assert (forall e, on_top s e -> on_top (with_stage s (is_active s) SDone) e) as Htop by (intros e [?|(? & _)]; [by left|by right]).
    split; cbn; try done; try (intros [[=]|[=]]); [|intros _; apply Ha; congruence]. revert Hp. destruct (work_thread s); try done; [intros Hp Hn|intros Hp]; by auto.
Qed.

(** No [wait_for] times out between the push and the notification of an [execute], and
    nobody sets the clock. *)
Definition timely_step (s : timer) (e : timer_event) : bool :=
  match e with Time_out => Nat.eqb (unnotified s) 0 | Adjust _ => false | _ => true end.

Fixpoint all_steps (ok : timer -> timer_event -> bool) (s : timer) (es : list timer_event) : bool :=
  match es with
  | [] => true
  | e :: es => ok s e && match step s e with Ok s' => all_steps ok s' es | _ => true end
  end.

Definition timely : timer -> list timer_event -> bool := all_steps timely_step.
Definition tie_free : timer -> list timer_event -> bool := all_steps no_tie.

Lemma timer_steps_inv s es : timer_inv s -> timely s es = true -> keeps_top Q \/ tie_free s es = true ->
  match steps s es with
  | Ok s' => timer_inv s'
  | Undefined => exists es1 e es2 s', es = es1 ++ e :: es2 /\ steps s es1 = Ok s' /\ pops_empty s' e
  | Fatal _ => False
  end.
Proof.
  revert s. induction es as [|e es IH]; intros s Hs Ht Hk; [done|].
  cbn in Ht. apply andb_true_iff in Ht as [Hn Ht].
  assert (keeps_top Q \/ no_tie s e = true) as Hk1 by (destruct Hk as [|Hk]; [by left|right; cbn in Hk; by apply andb_true_iff in Hk as [? _]]).
  assert (forall s', step s e = Ok s' -> keeps_top Q \/ tie_free s' es = true) as Hk2.
  { intros s' Hst. destruct Hk as [|Hk]; [by left|right]. cbn in Hk. apply andb_true_iff in Hk as [_ Hk]. by rewrite Hst in Hk. }
  cbn [steps]. pose proof (timer_step_inv s e Hs) as Hi. destruct (step s e) as [s1| |] eqn:Hst; cbn [mbind result_bind].
  - specialize (IH s1). destruct (steps s1 es); [apply IH|apply IH|destruct IH as (es1 & e' & es2 & s' & -> & Hst1 & Hp)]; auto;
      try (apply Hi; [intros d ->|intros ->; apply Nat.eqb_eq|]; done).
    exists (e :: es1), e', es2, s'. split; [done|]. split; [cbn; by rewrite Hst|done].
  - apply Hi; [intros d ->|intros ->; apply Nat.eqb_eq|]; done.
  - exists [], e, es, s. split; [done|]. split; [done|]. apply Hi; [intros d ->|intros ->; apply Nat.eqb_eq|]; done.
Qed.

(** C20: In an execution in which [wait_for] never times out between the push and the
    notification of an [execute], nobody sets the clock, and no two executables in the queue
    have the same time, unless the queue keeps its top at a push of such a one: every executable
    that was pushed has been called once, is about to be called, is in the queue, or was
    thrown away by [shutdown(false)]; none is called before its time; and a thread that has left
    its loop has called all that were not thrown away. The only undefined step is a pop of the
    queue that [shutdown(false)] has cleared while the wait for its top ended. *)
Theorem timer_exact now es : timely (new_timer now) es = true -> keeps_top Q \/ tie_free (new_timer now) es = true ->
  match steps (new_timer now) es with
  | Ok s => submitted s ≡ₚ (executed s).*1 ++ in_hand (work_thread s) ++ cleared s ++ pq_elements (executable_queue s)
    /\ Forall (fun p => scheduled_time p.1 <= p.2) (executed s)
    /\ (work_thread s = TExited -> submitted s ≡ₚ (executed s).*1 ++ cleared s)
    /\ (stage s = SNone \/ stage s = SClear -> cleared s = [])
  | Undefined => exists es1 e es2 s, es = es1 ++ e :: es2 /\ steps (new_timer now) es1 = Ok s /\ pops_empty s e
  | Fatal _ => False
  end.
Proof.
  intros Ht Hk. pose proof (timer_steps_inv (new_timer now) es (new_timer_inv now) Ht Hk) as Hi.
  destruct (steps (new_timer now) es) as [s| |]; [|done..]. destruct Hi as [Ho Htm _ Hp _ _ Hc].
  split_and!; try done. intros Hw. rewrite Hw in Ho, Hp. destruct Hp as [_ Hnil]. by rewrite Ho, Hnil, app_nil_r.
Qed.

End Timer.
Arguments timer_event : clear implicits.

(** Two executables, a shutdown that waits for them, and the end of the thread. *)
Definition two_executables : list timer_event :=
  [Execute 1 10; Notify; Execute 2 5; Notify; Work; Work; Work; Tick 5; Time_out; Work; Work; Work; Work; Work;
   Shutdown true; Tick 5; Notify_all; Work; Work; Work; Work; Work].

Theorem timer_exact_witness : timely (Q := sorted_queue) (new_timer 0) two_executables = true
  /\ exists s, steps (Q := sorted_queue) (new_timer 0) two_executables = Ok s
  /\ work_thread s = TExited /\ submitted s ≡ₚ (executed s).*1.
Proof.
  assert (timely (Q := sorted_queue) (new_timer 0) two_executables = true) as Ht by (by vm_compute). split; [exact Ht|].
  pose proof (timer_exact (Q := sorted_queue) 0 two_executables Ht (or_introl sorted_queue_keeps_top)) as H.
  destruct (steps (Q := sorted_queue) (new_timer 0) two_executables) as [s| |] eqn:Hs; [|by vm_compute in Hs..].
  destruct H as (_ & _ & He & _). exists s. split; [done|]. vm_compute in Hs. injection Hs as <-. split; [done|]. by apply He.
Defined.

(** An executable for 10 ms later; the thread waits; another one, for at once, is pushed
    one millisecond before, and the wait ends before its notification. *)
Definition push_at_the_end : list timer_event :=
  [Execute 1 10; Work; Work; Work; Tick 9; Execute 2 0; Tick 1; Time_out; Work; Work; Notify; Work; Work; Work; Work].

Definition calls (l : list (DelayedExecutable * Z)) : list (Z * Z) := (fun p => (func p.1, p.2)) <$> l.

(** The thread copies the top of the queue before it waits and pops what is on top
    afterwards. An earlier executable pushed meanwhile is popped and never called, and the
    copied one is called twice. *)
Theorem timer_runs_twice : exists s, steps (Q := sorted_queue) (new_timer 0) push_at_the_end = Ok s
  /\ func <$> submitted s = [1; 2] /\ calls (executed s) = [(1, 10); (1, 10)] /\ pq_elements (executable_queue s) = [].
Proof. eexists. split; [vm_compute; reflexivity|done]. Qed.

(** The destructor clears the queue while the wait for its only executable ends: the
    thread pops from an empty queue. *)
Theorem timer_pops_empty : steps (Q := sorted_queue) (new_timer 0)
  [Execute 1 10; Work; Work; Work; Tick 10; Shutdown false; Clear; Time_out; Work] = Undefined.
Proof. by vm_compute. Qed.

(** The clock is set back while the thread takes the lock after its wait: an executable that is
    pushed then is earlier than the one that the thread has copied. *)
Example timer_set_back : exists s, steps (Q := sorted_queue) (new_timer 0)
    [Execute 1 10; Notify; Work; Work; Work; Tick 10; Time_out; Adjust (-100); Execute 2 0; Work; Work] = Ok s
  /\ calls (executed s) = [(1, -90)] /\ func <$> pq_elements (executable_queue s) = [1].
Proof. eexists. split; [vm_compute; reflexivity|done]. Qed.

(** The destructor sets the flag and notifies between the thread's test of the flag and its
    wait; then nothing but a spurious wakeup goes on. *)
Theorem timer_hangs : exists s, steps (Q := sorted_queue) (new_timer 0) [Work; Shutdown false; Clear; Notify_all; Work] = Ok s
  /\ work_thread s = TWaiting /\ stage s = SDone /\ is_active s = false
  /\ forall e, e <> Spurious -> exists s', step s e = Ok s' /\ work_thread s' = TWaiting.
Proof.
  eexists. split; [vm_compute; reflexivity|]. split_and!; try done.
  intros [d|d| | | |f delay| |b| |] He; try done; eexists; (split; [reflexivity|done]).
Qed.

End Timer.

(** ** The executor with a thread *)

Module Looper.

(** Where [run_loop] is. *)
Inductive looper_pc :=
| LLoop                 (* at [while (...)] *)
| LLock                 (* at [unique_lock lock(queue_lock)] *)
| LWaiting              (* in [wait] *)
| LWoken                (* to take the lock again *)
| LCalling (f : Z)      (* at [func()] *)
| LExited.

Record looper := {
  queue : list Z;
  active : bool;
  pc : looper_pc;
  to_notify : nat;            (* calls of [execute] before [notify_one] *)
  halt : Timer.shutdown_stage;
  pushed : list Z;            (* all functions that were pushed, in order *)
  called : list Z;            (* all that were called, in order *)
  cleared : list Z            (* all that [shutdown] threw away *)
}.

Definition new_looper : looper :=
  {| queue := []; active := true; pc := LLoop; to_notify := O; halt := Timer.SNone; pushed := []; called := []; cleared := [] |}.

Definition with_pc (s : looper) (p : looper_pc) : looper :=
  {| queue := queue s; active := active s; pc := p; to_notify := to_notify s; halt := halt s; pushed := pushed s;
     called := called s; cleared := cleared s |}.
Definition with_queue (s : looper) (q ps cl : list Z) : looper :=
  {| queue := q; active := active s; pc := pc s; to_notify := to_notify s; halt := halt s; pushed := ps;
     called := called s; cleared := cl |}.
Definition with_notify (s : looper) (n : nat) : looper :=
  {| queue := queue s; active := active s; pc := pc s; to_notify := n; halt := halt s; pushed := pushed s;
     called := called s; cleared := cleared s |}.
Definition with_halt (s : looper) (a : bool) (h : Timer.shutdown_stage) : looper :=
  {| queue := queue s; active := a; pc := pc s; to_notify := to_notify s; halt := h; pushed := pushed s;
     called := called s; cleared := cleared s |}.

Definition no_task (s : looper) : bool := match queue s with [] => true | _ => false end.

(** [front] and [pop]. *)
Definition take_front (s : looper) : result looper :=
  match queue s with
  | [] => Undefined
  | f :: q => Ok (with_pc (with_queue s q (pushed s) (cleared s)) (LCalling f))
  end.

Definition run_loop (s : looper) : result looper :=
  match pc s with
  | LLoop => Ok (with_pc s (if active s || negb (no_task s) then LLock else LExited))
  | LLock => if no_task s then Ok (with_pc s LWaiting) else take_front s
  | LWoken => if no_task s then Ok (with_pc s LLoop) else take_front s
  | LCalling f =>
    Ok (with_pc {| queue := queue s; active := active s; pc := pc s; to_notify := to_notify s; halt := halt s;
                   pushed := pushed s; called := called s ++ [f]; cleared := cleared s |} LLoop)
  | LWaiting | LExited => Ok s
  end.

Definition wake (s : looper) : looper := match pc s with LWaiting => with_pc s LWoken | _ => s end.

Definition execute (s : looper) (f : Z) : looper :=
  if active s then with_notify (with_queue s (queue s ++ [f]) (pushed s ++ [f]) (cleared s)) (S (to_notify s)) else s.

Definition shutdown (s : looper) (wait_for_complete : bool) : looper :=
  match halt s with
  | Timer.SNone => with_halt s false (if wait_for_complete then Timer.SNotify else Timer.SClear)
  | _ => s
  end.
Definition clear_queue (s : looper) : looper :=
  match halt s with
  | Timer.SClear => with_halt (with_queue s [] (pushed s) (queue s)) (active s) Timer.SNotify
  | _ => s
  end.
Definition notify_all (s : looper) : looper :=
  match halt s with Timer.SNotify => wake (with_halt s (active s) Timer.SDone) | _ => s end.

Inductive looper_event := Work | Spurious | Execute (f : Z) | Notify | Shutdown (wait_for_complete : bool) | Clear | Notify_all.

Definition step (s : looper) (e : looper_event) : result looper :=
  match e with
  | Work => run_loop s
  | Spurious => Ok (wake s)
  | Execute f => Ok (execute s f)
  | Notify => Ok (match to_notify s with O => s | S n => wake (with_notify s n) end)
  | Shutdown b => Ok (shutdown s b)
  | Clear => Ok (clear_queue s)
  | Notify_all => Ok (notify_all s)
  end.

Fixpoint steps (s : looper) (es : list looper_event) : result looper :=
  match es with [] => Ok s | e :: es => s ← step s e; steps s es end.

Definition in_hand (p : looper_pc) : list Z := match p with LCalling f => [f] | _ => [] end.

Record looper_inv (s : looper) : Prop := {
  li_order : called s ++ in_hand (pc s) ++ cleared s ++ queue s = pushed s;
  li_cleared : cleared s <> [] -> active s = false /\ queue s = [];
  li_active : halt s = Timer.SNone \/ active s = false;
  li_fresh : match halt s with Timer.SNone | Timer.SClear => cleared s = [] | _ => True end;
  li_exit : pc s = LExited -> active s = false /\ queue s = []
}.

Lemma with_pc_inv s p : looper_inv s -> in_hand p = in_hand (pc s) ->
  (p = LExited -> active s = false /\ queue s = []) -> looper_inv (with_pc s p).
Proof. intros [Ho Hc Ha Hf He] Hh Hp. split; cbn; try done. by rewrite Hh. Qed.

Lemma looper_wake_inv s : looper_inv s -> looper_inv (wake s).
Proof. intros Hs. unfold wake. destruct (pc s) eqn:Hp; try done. by apply with_pc_inv; rewrite ?Hp. Qed.

(** [take_front] is reached with a queue that is not empty. *)
Lemma take_front_inv s : looper_inv s -> in_hand (pc s) = [] -> no_task s = false ->
  exists s', take_front s = Ok s' /\ looper_inv s'.
Proof.
  intros [Ho Hc Ha Hf He] Hh Hn. unfold take_front, no_task in *. destruct (queue s) as [|f q] eqn:Hq; [done|].
  assert (cleared s = []) as Hcl by (destruct (cleared s); [done|by destruct Hc]).
  eexists. split; [done|]. rewrite Hcl, Hh in Ho. split; cbn; rewrite ?Hcl; try done. by destruct (halt s).
Qed.

Lemma looper_loop_inv s : looper_inv s -> exists s', run_loop s = Ok s' /\ looper_inv s'.
Proof.
  intros Hs. unfold run_loop. destruct (pc s) as [| | | |f|] eqn:Hp.
  - eexists. split; [done|]. destruct (active s || _) eqn:Hc; apply with_pc_inv; rewrite ?Hp; try done.
    apply orb_false_iff in Hc as [Ha Hn%negb_false_iff]. intros _. split; [done|]. unfold no_task in Hn. by destruct (queue s).
  - destruct (no_task s) eqn:Hn; [|by apply take_front_inv; rewrite ?Hp].
    eexists. split; [done|]. by apply with_pc_inv; rewrite ?Hp.
  - by exists s.
  - destruct (no_task s) eqn:Hn; [|by apply take_front_inv; rewrite ?Hp].
    eexists. split; [done|]. by apply with_pc_inv; rewrite ?Hp.
  - eexists. split; [done|]. destruct Hs as [Ho Hc Ha Hf He]. split; cbn; try done.
    rewrite <- Ho, Hp. cbn. by rewrite <- (assoc_L (++)).
  - by exists s.
Qed.

Lemma looper_step_inv s e : looper_inv s -> exists s', step s e = Ok s' /\ looper_inv s'.
Proof.
  intros Hs. destruct e as [| |f| |b| |]; cbn [step]; [by apply looper_loop_inv|..]; eexists; (split; [done|]).
  - by apply looper_wake_inv.
  - unfold execute. destruct (active s) eqn:Ha; [|done]. destruct Hs as [Ho Hc Hac Hf He].
    assert (cleared s = []) as Hcl.
    { destruct (decide (cleared s = [])) as [|Hne]; [done|]. destruct (Hc Hne). congruence. }
    split; cbn; rewrite ?Hcl; try done; rewrite ?Hcl in Ho.
    + rewrite <- Ho. cbn. by rewrite !(assoc_L (++)).
    + by destruct (halt s).
    + intros Hx. destruct (He Hx). congruence.
  - destruct (to_notify s); [done|]. apply looper_wake_inv. by destruct Hs.
  - unfold shutdown. destruct (halt s) eqn:Hh; try done. destruct Hs as [Ho Hc Ha Hf He]. rewrite Hh in Hf.
    split; cbn; rewrite ?Hf; try done; [by rewrite Hf in Ho|by right|by destruct b|]. intros Hx. by destruct (He Hx).
  - unfold clear_queue. destruct (halt s) eqn:Hh; try done. destruct Hs as [Ho Hc Ha Hf He]. rewrite Hh in Hf, Ha.
    destruct Ha as [|Ha]; [done|]. rewrite Hf in Ho. split; cbn; try done; [|by right].
    by rewrite app_nil_r.
  - unfold notify_all. destruct (halt s) eqn:Hh; try done. apply looper_wake_inv. destruct Hs as [Ho Hc Ha Hf He].
    rewrite Hh in Ha. destruct Ha as [|Ha]; [done|]. split; cbn; try done. by right.
Qed.

(** The functions given to a [LooperExecutor] are called in the order they were given, each
    once, apart from those that [shutdown(false)] throws away; a thread that has left its
    loop has called all others. *)
Theorem looper_fifo es : exists s, steps new_looper es = Ok s
  /\ called s ++ in_hand (pc s) ++ cleared s ++ queue s = pushed s
  /\ (pc s = LExited -> called s ++ cleared s = pushed s).
Proof.
  assert (forall s, looper_inv s -> exists s', steps s es = Ok s' /\ looper_inv s') as H.
  { induction es as [|e es IH]; intros s Hs; [by exists s|]. cbn [steps].
    destruct (looper_step_inv s e Hs) as (s1 & -> & Hs1). by apply IH. }
  destruct (H new_looper) as (s & Hs & [Ho _ _ _ He]); [split; try done; by left|].
  exists s. split_and!; try done. intros Hx. destruct (He Hx) as [_ Hq]. by rewrite Hx, Hq, app_nil_r in Ho.
Qed.

End Looper.
