(* ===== verification/CoTask.v ===== *)
(** Tasks of the coroutine library: the result and the callbacks of a promise
    (src/coroutine/task_promise.h, ret.h), the handlers of a task (task.h) and the awaiting
    of a task by another (task_awaiter.h). A step is a critical section of
    [completion_lock], a callback made inside one, or a step of the coroutine. *)

From S2P Require Import Prelude Result CoChannel.
From stdpp Require Import strings.
#[local] Open Scope Z_scope.

Section Task.
Context {T : Type}.

(** [Ret]: a value, or an exception by a number. *)
Inductive Ret :=
| Value (v : T)
| Exception (e_ptr : Z).

(** What [on_completed] is given: a handler of [then], [catching] or [finally], or the
    function of [TaskAwaiter::after_suspend], which resumes a coroutine with the given
    executor. *)
Inductive callback :=
| Then (f : Z)
| Catching (f : Z)
| Finally (f : Z)
| Await (exec : executor).

(** The function of the user that a callback calls, if any. *)
Definition handler (r : Ret) (cb : callback) : option (Z * option Ret) :=
  match cb, r with
  | Then f, Value _ => Some (f, Some r)
  | Catching f, Exception _ => Some (f, Some r)
  | Finally f, _ => Some (f, None)
  | _, _ => None
  end.

(** Where the coroutine is. *)
Inductive coroutine :=
| Body
| Notifying (r : Ret) (cbs : list callback)  (* in [notify_callbacks], with the lock *)
| Leaving                                    (* behind [return_value]; before the final suspend point *)
| At_final
| Destroyed.

(** Where a call of [get_result] is. *)
Inductive getter :=
| GLock                 (* before the lock *)
| GWaiting              (* in [wait] *)
| GWoken                (* to take the lock again *)
| GDone (r : Ret).      (* has returned, or thrown *)

Record promise := {
  result_ : option Ret;
  completion_callbacks : list callback;
  pc : coroutine;
  getters : list getter;
  registered : list callback;                 (* all that [on_completed] was given, in order *)
  called : list (Z * option Ret)              (* the functions of the user that were called, in order *)
}.

Definition new_promise : promise :=
  {| result_ := None; completion_callbacks := []; pc := Body; getters := []; registered := []; called := [] |}.

Definition with_pc (s : promise) (p : coroutine) : promise :=
  {| result_ := result_ s; completion_callbacks := completion_callbacks s; pc := p; getters := getters s;
     registered := registered s; called := called s |}.
Definition with_getters (s : promise) (g : list getter) : promise :=
  {| result_ := result_ s; completion_callbacks := completion_callbacks s; pc := pc s; getters := g;
     registered := registered s; called := called s |}.
Definition with_callbacks (s : promise) (l reg : list callback) : promise :=
  {| result_ := result_ s; completion_callbacks := l; pc := pc s; getters := getters s;
     registered := reg; called := called s |}.
Definition with_called (s : promise) (c : list (Z * option Ret)) : promise :=
  {| result_ := result_ s; completion_callbacks := completion_callbacks s; pc := pc s; getters := getters s;
     registered := registered s; called := c |}.

Definition locked (s : promise) : bool := match pc s with Notifying _ _ => true | _ => false end.

(** A callback gets the result. The coroutine that [Await] resumes calls [get_result] from
    [before_resume]: in place if its executor works so, else whenever the executor runs it. *)
Definition call_back (s : promise) (r : Ret) (cb : callback) : result promise :=
  match cb with
  | Await exec =>
    if runs_in_place exec && locked s then Fatal "completion_lock is locked by the thread that waits for it"
    else Ok (with_getters s (getters s ++ [GLock]))
  | _ => Ok (with_called s (called s ++ option_list (handler r cb)))
  end.

Definition notify_all (g : getter) : getter := match g with GWaiting => GWoken | _ => g end.

(** [return_value] and [unhandled_exception]: the result and [notify_all]. *)
Definition set_result (s : promise) (r : Ret) : promise :=
  {| result_ := Some r; completion_callbacks := completion_callbacks s; pc := Notifying r (completion_callbacks s);
     getters := notify_all <$> getters s; registered := registered s; called := called s |}.

(** A round of [notify_callbacks], or its end with [clear] and the unlocking. *)
Definition notify_callbacks (s : promise) : result promise :=
  match pc s with
  | Notifying r (cb :: cbs) => s ← call_back s r cb; Ok (with_pc s (Notifying r cbs))
  | Notifying _ [] => Ok (with_pc (with_callbacks s [] (registered s)) Leaving)
  | _ => Ok s
  end.

(** A step of the [i]-th call of [get_result], which has the lock for it. *)
Definition get_result (s : promise) (i : nat) : result promise :=
  if locked s then Ok s else
  match getters s !! i with
  | Some GLock =>
    Ok (with_getters s (<[i := match result_ s with Some r => GDone r | None => GWaiting end]> (getters s)))
  | Some GWoken =>
    match result_ s with
    | Some r => Ok (with_getters s (<[i := GDone r]> (getters s)))
    | None => Undefined
    end
  | _ => Ok s
  end.

(** A wait ends without a notification. *)
Definition wake (s : promise) (i : nat) : promise :=
  match getters s !! i with Some GWaiting => with_getters s (<[i := GWoken]> (getters s)) | _ => s end.

Definition on_completed (s : promise) (cb : callback) : result promise :=
  if locked s then Ok s else
  match result_ s with
  | Some r => call_back (with_callbacks s (completion_callbacks s) (registered s ++ [cb])) r cb
  | None => Ok (with_callbacks s (completion_callbacks s ++ [cb]) (registered s ++ [cb]))
  end.

(** The destructor of a task whose result somebody has: a coroutine is destroyed only
    while it is suspended. *)
Definition is_done (g : getter) : bool := match g with GDone _ => true | _ => false end.
Definition destroy (s : promise) : result promise :=
  if existsb is_done (getters s) then
    match pc s with At_final => Ok (with_pc s Destroyed) | _ => Undefined end
  else Ok s.

Inductive task_event :=
| Finish (r : Ret)        (* [co_return], or an exception that nobody catches *)
| Call_back               (* the coroutine goes on in [notify_callbacks] *)
| Final_suspend           (* it reaches its final suspend point *)
| Get                     (* somebody calls [get_result] *)
| Getter (i : nat)
| Spurious (i : nat)
| Register (cb : callback)
| Destroy.

(** Nobody may use a promise that is destroyed. *)
Definition step (s : promise) (e : task_event) : result promise :=
  match pc s with Destroyed => Undefined | _ =>
  match e with
  | Finish r => Ok (match pc s with Body => set_result s r | _ => s end)
  | Call_back => notify_callbacks s
  | Final_suspend => Ok (match pc s with Leaving => with_pc s At_final | _ => s end)
  | Get => Ok (with_getters s (getters s ++ [GLock]))
  | Getter i => get_result s i
  | Spurious i => Ok (wake s i)
  | Register cb => on_completed s cb
  | Destroy => destroy s
  end end.

Fixpoint steps (s : promise) (es : list task_event) : result promise :=
  match es with [] => Ok s | e :: es => s ← step s e; steps s es end.

(** ** The invariant *)

Definition pending (s : promise) : list callback :=
  match pc s with Notifying _ cbs => cbs | _ => completion_callbacks s end.

Record task_inv (s : promise) : Prop := {
  tk_result : match pc s with
              | Body => result_ s = None
              | Notifying r _ => result_ s = Some r
              | Leaving | At_final | Destroyed => is_Some (result_ s) /\ completion_callbacks s = []
              end;
  tk_done i r : getters s !! i = Some (GDone r) -> result_ s = Some r;
  tk_waiting i : getters s !! i = Some GWaiting -> result_ s = None;
  tk_called : exists before, registered s = before ++ pending s
    /\ match result_ s with Some r => called s = omap (handler r) before | None => before = [] /\ called s = [] end
}.

Lemma new_promise_inv : task_inv new_promise.
Proof. split; try done. by exists []. Qed.

(** A change of the getters that finds the lock free. *)
Lemma getters_inv s (gs : list getter) : task_inv s ->
  (forall i g, gs !! i = Some g -> getters s !! i = Some g \/
     match g with GLock | GWoken => True | GWaiting => result_ s = None | GDone r => result_ s = Some r end) ->
  task_inv (with_getters s gs).
Proof.
  intros [Hr Hd Hw Hc] Hg. split; cbn; try done; intros i; [intros r|..]; intros Hi;
    destruct (Hg _ _ Hi) as [Hold|]; try done; eauto.
Qed.

Lemma set_getter_inv s i g : task_inv s ->
  match g with GLock | GWoken => True | GWaiting => result_ s = None | GDone r => result_ s = Some r end ->
  task_inv (with_getters s (<[i := g]> (getters s))).
Proof.
  intros Hs Hg. apply getters_inv; [done|]. intros j g' Hj.
  apply list_lookup_insert_Some in Hj as [(_ & <- & _)|[_ Hj]]; [by right|by left].
Qed.

(** The getters of a task with the result [r]. *)
Definition served (s : promise) (r : Ret) : Prop :=
  forall i g, getters s !! i = Some g -> match g with GDone r' => r' = r | GWaiting => False | _ => True end.

Lemma answered s r : task_inv s -> result_ s = Some r -> served s r.
Proof.
  intros Hs Hr i [] Hi; try done.
  - by rewrite (tk_waiting s Hs i Hi) in Hr.
  - apply (tk_done s Hs) in Hi. congruence.
Qed.

Lemma answered_inv s s' r : result_ s' = Some r -> served s r -> getters s' = getters s ->
  (forall i r', getters s' !! i = Some (GDone r') -> result_ s' = Some r')
  /\ (forall i, getters s' !! i = Some GWaiting -> result_ s' = None).
Proof.
  intros Hr Hg ->. split.
  - intros i r' Hi. by rewrite (Hg i _ Hi).
  - intros i Hi. by destruct (Hg i _ Hi).
Qed.

Lemma call_back_inv s r cb : result_ s = Some r -> served s r ->
  match call_back s r cb with
  | Ok s' => result_ s' = Some r /\ pc s' = pc s /\ completion_callbacks s' = completion_callbacks s
     /\ registered s' = registered s /\ called s' = called s ++ omap (handler r) [cb] /\ served s' r
  | Fatal _ => exists exec, cb = Await exec /\ runs_in_place exec = true /\ locked s = true
  | Undefined => False
  end.
Proof.
  intros Hr Hg. unfold call_back. destruct cb as [f|f|f|exec]; cbn.
  - by split_and!; destruct r.
  - by split_and!; destruct r.
  - by split_and!.
  - destruct (runs_in_place exec) eqn:He, (locked s) eqn:Hl; cbn; try (by exists exec);
      split_and!; try done; try (by rewrite app_nil_r); intros i g [Hi|[_ Hi]]%lookup_app_Some;
      try (by eapply Hg); destruct (i - _)%nat; cbn in Hi; simplify_eq; done.
Qed.

Definition outcome (o : option Ret) (e : task_event) : option Ret :=
  match o, e with None, Finish r => Some r | _, _ => o end.

Lemma outcome_kept o e : match e with Finish _ => False | _ => True end -> outcome o e = o.
Proof. by destruct o, e. Qed.

Lemma set_result_inv s r : task_inv s -> pc s = Body -> task_inv (set_result s r).
Proof.
  intros [Hr Hd Hw Hc] Hp. rewrite Hp in Hr.
  assert (served (set_result s r) r) as Hg.
  { intros i g Hi. cbn in Hi. rewrite list_lookup_fmap in Hi. destruct (getters s !! i) as [g0|] eqn:Hg; [|done].
    cbn in Hi. destruct g0; cbn in Hi; simplify_eq; try done. apply Hd in Hg. congruence. }
  destruct (answered_inv _ (set_result s r) r eq_refl Hg eq_refl) as (? & ?). split; try done.
  destruct Hc as (before & Hreg & Hc). exists before. unfold pending in *. rewrite Hp in Hreg. rewrite Hr in Hc.
  destruct Hc as [-> Hc]. by split.
Qed.

(** A coroutine that runs in place gets the lock that its waker holds. *)
Definition deadlocks (s : promise) (exec : executor) : Prop :=
  exists r cbs, pc s = Notifying r (Await exec :: cbs) /\ runs_in_place exec = true.

Lemma notify_callbacks_inv s : task_inv s ->
  match notify_callbacks s with
  | Ok s' => task_inv s' /\ registered s' = registered s /\ result_ s' = result_ s /\ (pc s' = Destroyed -> pc s = Destroyed)
  | Fatal _ => exists exec, deadlocks s exec
  | Undefined => False
  end /\ (pc s = Body -> notify_callbacks s = Ok s).
Proof.
  intros Hs. unfold notify_callbacks. pose proof Hs as [Hr Hd Hw (before & Hb & Hc)]. unfold pending in Hb.
  destruct (pc s) as [|r [|cb cbs]| | |] eqn:Hp; try (by rewrite Hp); (split; [|done]); rewrite Hr in Hc.
  - split; [|done]. split; cbn; try done. exists before. by rewrite Hr.
  - pose proof (call_back_inv s r cb Hr (answered s r Hs Hr)) as Hcall.
    destruct (call_back s r cb) as [s'| |] eqn:Heq; cbn [mbind result_bind]; [| |done].
    + destruct Hcall as (Hr' & _ & _ & Hreg' & Hcd & Hg').
      destruct (answered_inv s' (with_pc s' (Notifying r cbs)) r Hr' Hg' eq_refl) as (? & ?). split; [|by rewrite Hr]. split; cbn; try done.
      exists (before ++ [cb]). rewrite Hr', Hcd, Hc, omap_app, Hreg', Hb. split; [by rewrite <- (assoc_L (++))|done].
    + destruct Hcall as (exec & -> & He & _). by exists exec, r, cbs.
Qed.

(** [get_result] reads a result that is not there only if its wait was over before it. *)
Lemma get_result_inv s i : task_inv s ->
  match get_result s i with
  | Ok s' => task_inv s' /\ registered s' = registered s /\ result_ s' = result_ s /\ pc s' = pc s
     /\ forall j, getters s' !! j = Some GWoken -> getters s !! j = Some GWoken
  | Fatal _ => False
  | Undefined => getters s !! i = Some GWoken /\ result_ s = None
  end.
Proof.
  intros Hs. unfold get_result. destruct (locked s) eqn:Hl; [done|].
  assert (forall g, g <> GWoken -> forall j, <[i := g]> (getters s) !! j = Some GWoken -> getters s !! j = Some GWoken) as Hset.
  { intros g Hg j Hj. by apply list_lookup_insert_Some in Hj as [(_ & -> & _)|[_ Hj]]. }
  destruct (getters s !! i) as [[| | |]|] eqn:Hi; try done.
  - split; [|split_and!; try done; apply Hset; by destruct (result_ s)]. apply set_getter_inv; [done|]. by destruct (result_ s).
  - destruct (result_ s) as [r|] eqn:Hr; [|done]. split; [by apply set_getter_inv|]. split_and!; try done. by apply Hset.
Qed.

Lemma on_completed_inv s cb : task_inv s -> exists s', on_completed s cb = Ok s' /\ task_inv s'
  /\ (registered s' = registered s \/ registered s' = registered s ++ [cb]) /\ result_ s' = result_ s /\ pc s' = pc s
  /\ (result_ s = None -> getters s' = getters s).
Proof.
  intros Hs. unfold on_completed. destruct (locked s) eqn:Hl; [exists s; tauto|].
  pose proof Hs as [Hr Hd Hw (before & Hb & Hc)].
  destruct (result_ s) as [r|] eqn:Hres.
  - set (s1 := with_callbacks s (completion_callbacks s) (registered s ++ [cb])).
    pose proof (call_back_inv s1 r cb Hres (answered s r Hs Hres)) as Hcall.
    destruct (call_back s1 r cb) as [s'| |]; [|by destruct Hcall as (? & _ & _ & Hl'); unfold locked in *; cbn in Hl'; congruence|done].
    destruct Hcall as (Hr' & Hp' & Hcc & Hreg' & Hcd & Hg'). exists s'. split; [done|].
    destruct (answered_inv s' s' r Hr' Hg' eq_refl) as (? & ?). split; [|split_and!; [by right|done..]].
    assert (pending s' = [] /\ pending s = []) as [Hp1 Hp2].
    { unfold pending, locked in *. rewrite Hp', Hcc. cbn. revert Hr Hl. destruct (pc s); try done; by intros [_ ->]. }
    split; try done.
    + rewrite Hp', Hcc, Hr'. cbn. unfold locked in Hl. revert Hr Hl. by destruct (pc s).
    + exists (registered s ++ [cb]). rewrite Hp1, app_nil_r, Hr', Hcd, Hreg'. split; [done|]. cbn.
      rewrite Hc, omap_app. by rewrite Hb, Hp2, app_nil_r.
  - eexists. split; [done|]. split; [|split_and!; [by right|done..]]. destruct Hc as [-> Hc]. cbn in Hb.
    assert (pc s = Body) as Hp by (revert Hr; destruct (pc s); try done; by intros [[? ?] _]).
    split; cbn; rewrite ?Hres, ?Hp; try done. exists []. unfold pending in *. cbn. rewrite Hp in *. by rewrite Hb.
Qed.

Lemma final_inv s : task_inv s -> pc s = Leaving -> task_inv (with_pc s At_final).
Proof.
  intros [Hr Hd Hw Hc] Hp. split; cbn; try done; [by rewrite Hp in Hr|]. unfold pending in *. cbn. by rewrite Hp in Hc.
Qed.

Lemma destroy_inv s : task_inv s ->
  match destroy s with
  | Ok s' => task_inv s' /\ registered s' = registered s /\ result_ s' = result_ s /\ getters s' = getters s
  | Fatal _ => False
  | Undefined => existsb is_done (getters s) = true /\ pc s <> At_final
  end.
Proof.
  intros Hs. unfold destroy. destruct (existsb _ _); [|done]. destruct (pc s) eqn:Hp; try done. split; [|done].
  destruct Hs as [Hr Hd Hw Hc]. split; cbn; try done; [by rewrite Hp in Hr|]. unfold pending in *. cbn. by rewrite Hp in Hc.
Qed.

Lemma new_get_inv s : task_inv s -> task_inv (with_getters s (getters s ++ [GLock])).
Proof.
  intros Hs. apply getters_inv; [done|]. intros j g [Hj|[_ Hj]]%lookup_app_Some; [by left|right].
  destruct (j - _)%nat; cbn in Hj; by simplify_eq.
Qed.

Lemma getter_wake_inv s i : task_inv s -> task_inv (wake s i).
Proof. intros Hs. unfold wake. destruct (getters s !! i) as [[| | |]|]; try done. by apply set_getter_inv. Qed.

Lemma wake_kept s i : pc (wake s i) = pc s /\ result_ (wake s i) = result_ s /\ registered (wake s i) = registered s.
Proof. unfold wake. by destruct (getters s !! i) as [[| | |]|]. Qed.

(** ** What has happened *)

(** The traces that the events leave in the promise. *)
Record history (es : list task_event) (s : promise) : Prop := {
  h_destroyed : pc s = Destroyed -> Destroy ∈ es;
  h_registered cb : cb ∈ registered s -> Register cb ∈ es;
  h_woken i : getters s !! i = Some GWoken -> result_ s = None -> Spurious i ∈ es
}.

Lemma history_more es e s s' : history es s -> (pc s' = Destroyed -> pc s = Destroyed) -> registered s' = registered s ->
  (result_ s' = None -> result_ s = None /\ forall i, getters s' !! i = Some GWoken -> getters s !! i = Some GWoken) ->
  history (es ++ [e]) s'.
Proof.
  intros [H1 H2 H3] Hp Hr Hg. split.
  - intros H. apply elem_of_app. left. by apply H1, Hp.
  - intros cb H. rewrite Hr in H. apply elem_of_app. left. by apply H2.
  - intros i Hi Hn. destruct (Hg Hn) as [Hn' Hgi]. apply elem_of_app. left. by apply H3; [apply Hgi|].
Qed.

(** The uses of a task that the code does not survive: a wait that has ended without a
    notification and finds no result; the destruction of a task whose coroutine is not at its
    final suspend point; any use of a task that is destroyed. *)
Definition misused (es : list task_event) (s : promise) (e : task_event) : Prop :=
  match e with
  | Getter i => Spurious i ∈ es /\ getters s !! i = Some GWoken /\ result_ s = None
  | Destroy => existsb is_done (getters s) = true /\ pc s <> At_final
  | _ => False
  end \/ (pc s = Destroyed /\ Destroy ∈ es).

Definition stuck (es : list task_event) (s : promise) (e : task_event) : Prop :=
  e = Call_back /\ exists exec, Register (Await exec) ∈ es /\ deadlocks s exec.

Lemma task_step_inv es s e : task_inv s -> history es s ->
  match step s e with
  | Ok s' => task_inv s' /\ history (es ++ [e]) s' /\ result_ s' = outcome (result_ s) e
  | Undefined => misused es s e
  | Fatal _ => stuck es s e
  end.
Proof.
  intros Hs Hh. unfold step.
  assert (pc s = Destroyed \/ pc s <> Destroyed) as [Hp|Hp] by (destruct (pc s); auto); [rewrite Hp; right; split; [done|by apply (h_destroyed es s)]|].
  assert (forall r : result promise, match pc s with Destroyed => Undefined | _ => r end = r) as -> by (by destruct (pc s)).
  destruct e as [r| | | |i|i|cb|]; rewrite ?outcome_kept by done.
  - pose proof (tk_result s Hs) as Hr. destruct (pc s) eqn:Hpc; try done.
    + rewrite Hr. split; [by apply set_result_inv|]. split; [|done]. by apply (history_more es _ s).
    + rewrite Hr. split; [done|]. split; [|done]. apply (history_more es _ s); [done..|tauto].
    + destruct Hr as [[r' Hr] _]. rewrite Hr. split; [done|]. split; [|done]. apply (history_more es _ s); [done..|tauto].
    + destruct Hr as [[r' Hr] _]. rewrite Hr. split; [done|]. split; [|done]. apply (history_more es _ s); [done..|tauto].
  - pose proof (notify_callbacks_inv s Hs) as [H Hb]. destruct (notify_callbacks s) as [s'| |] eqn:E; [| |done].
    + destruct H as (Hi & Hreg & Hr & Hd). split; [done|]. split; [|done]. apply (history_more es _ s); [done..|]. rewrite Hr. intros Hn. split; [done|].
      assert (pc s = Body) as Hbody; [|by injection (Hb Hbody) as ->]. pose proof (tk_result s Hs) as H. rewrite Hn in H.
      destruct (pc s); try done; by destruct H as [[? ?] _].
    + split; [done|]. destruct H as [exec Hdl]. exists exec. split; [|done]. destruct Hdl as (r & cbs & Hpc & _).
      destruct (tk_called s Hs) as (before & Hreg & _). apply (h_registered es s Hh). rewrite Hreg. unfold pending. rewrite Hpc. set_solver.
  - destruct (pc s) eqn:Hpc; (split; [try done; by apply final_inv|]; split; [|done]; apply (history_more es _ s); [done|cbn; congruence|done|tauto]).
  - split; [by apply new_get_inv|]. split; [|done]. apply (history_more es _ s); [done..|]. intros Hn. split; [done|].
    intros i [Hi|[_ Hi]]%lookup_app_Some; [done|]. destruct (i - _)%nat; cbn in Hi; by simplify_eq.
  - pose proof (get_result_inv s i Hs) as H. destruct (get_result s i) as [s'| |]; [|done|].
    + destruct H as (Hi & Hreg & Hr & Hpc & Hw). split; [done|]. split; [|done]. apply (history_more es _ s); [done|by rewrite Hpc|done|by rewrite Hr].
    + left. destruct H as [H Hn]. split; [by apply (h_woken es s)|done].
  - destruct (wake_kept s i) as (Hpc & Hr & Hreg). split; [by apply getter_wake_inv|]. rewrite Hr. split; [|done]. split.
    + rewrite Hpc. by intros ?.
    + intros cb. rewrite Hreg. intros ?. apply elem_of_app. left. by apply (h_registered es s).
    + intros j Hj Hn. rewrite Hr in Hn. apply elem_of_app. destruct (decide (i = j)) as [<-|Hne]; [right; set_solver|left].
      apply (h_woken es s); [done| |done]. unfold wake in Hj. destruct (getters s !! i) as [[| | |]|]; try done.
      cbn in Hj. by rewrite list_lookup_insert_ne in Hj by done.
  - destruct (on_completed_inv s cb Hs) as (s' & -> & Hi & Hreg & Hr & Hpc & Hg). split; [done|]. split; [|done]. split.
    + rewrite Hpc. by intros ?.
    + intros cb' Hcb. apply elem_of_app. destruct Hreg as [Hreg|Hreg]; rewrite Hreg in Hcb; [left; by apply (h_registered es s)|].
      apply elem_of_app in Hcb as [Hcb|Hcb]; [left; by apply (h_registered es s)|right; set_solver].
    + intros j Hj Hn. rewrite Hr in Hn. rewrite (Hg Hn) in Hj. apply elem_of_app. left. by apply (h_woken es s).
  - pose proof (destroy_inv s Hs) as H. destruct (destroy s) as [s'| |]; [|done|by left].
    destruct H as (Hi & Hreg & Hr & Hg). split; [done|]. split; [|done]. split.
    + intros _. set_solver.
    + intros cb'. rewrite Hreg. intros ?. apply elem_of_app. left. by apply (h_registered es s).
    + intros j Hj Hn. rewrite Hr in Hn. rewrite Hg in Hj. apply elem_of_app. left. by apply (h_woken es s).
Qed.

Lemma task_steps_inv es0 es s : task_inv s -> history es0 s ->
  match steps s es with
  | Ok s' => task_inv s' /\ history (es0 ++ es) s' /\ result_ s' = foldl outcome (result_ s) es
  | Undefined => exists es1 e es2 s1, es = es1 ++ e :: es2 /\ steps s es1 = Ok s1 /\ misused (es0 ++ es1) s1 e
  | Fatal _ => exists es1 e es2 s1, es = es1 ++ e :: es2 /\ steps s es1 = Ok s1 /\ stuck (es0 ++ es1) s1 e
  end.
Proof.
  revert es0 s. induction es as [|e es IH]; intros es0 s Hs Hh; cbn [steps foldl]; [by rewrite app_nil_r|].
  pose proof (task_step_inv es0 s e Hs Hh) as H. destruct (step s e) as [s1| |] eqn:E; cbn [mbind result_bind].
  - destruct H as (Hs1 & Hh1 & <-). specialize (IH _ _ Hs1 Hh1). rewrite <- (assoc_L (++)) in IH. cbn [app] in IH.
    destruct (steps s1 es); [done|..]; destruct IH as (es1 & e' & es2 & s2 & -> & Hst & Hm); exists (e :: es1), e', es2, s2;
      (split; [done|]; split; [cbn; by rewrite E|]; by rewrite <- (assoc_L (++)) in Hm).
  - exists [], e, es, s. by rewrite app_nil_r.
  - exists [], e, es, s. by rewrite app_nil_r.
Qed.

(** ** The theorems *)

(** C21: Whatever happens to a task: the first result stays; every call of [get_result]
    that has returned has it, and none waits once there is a result; when the coroutine has
    left [return_value], the handlers that fit the result have been called once each, in the
    order in which they were registered, before the result or after. This ends only in three
    ways: somebody reads a result that is not there, after a wait that ended without a
    notification; somebody destroys the task before its coroutine is at its final suspend
    point, or uses it afterwards; or an awaiting coroutine whose executor runs functions in
    place is called with the lock held, which is a deadlock. *)
Theorem task_delivers es :
  match steps new_promise es with
  | Ok s => result_ s = foldl outcome None es
     /\ (forall i r, getters s !! i = Some (GDone r) -> result_ s = Some r)
     /\ (forall i, getters s !! i = Some GWaiting -> result_ s = None)
     /\ (forall r, pc s = Leaving \/ pc s = At_final -> result_ s = Some r -> called s = omap (handler r) (registered s))
  | Undefined => exists es1 e es2 s, es = es1 ++ e :: es2 /\ steps new_promise es1 = Ok s /\ misused es1 s e
  | Fatal _ => exists es1 e es2 s, es = es1 ++ e :: es2 /\ steps new_promise es1 = Ok s /\ stuck es1 s e
  end.
Proof.
  assert (history [] new_promise) as Hh by (by split; set_solver).
  pose proof (task_steps_inv [] es new_promise new_promise_inv Hh) as H.
  destruct (steps new_promise es) as [s| |]; [|done..]. destruct H as ([Hr Hd Hw (before & Hb & Hc)] & _ & Hres).
  split_and!; try done. intros r Hp Hr'. rewrite Hr' in Hc. rewrite Hc, Hb. f_equal.
  unfold pending. destruct Hp as [Hp|Hp]; rewrite Hp in Hr |- *; destruct Hr as [_ ->]; by rewrite app_nil_r.
Qed.

End Task.
Arguments Ret T : clear implicits.
Arguments getter T : clear implicits.
Arguments promise T : clear implicits.
Arguments task_event T : clear implicits.

(** A handler before the result, a waiting caller, a handler after the result. *)
Definition two_handlers : list (task_event Z) :=
  [Register (Then 1); Register (Catching 2); Get; Getter 0; Finish (Value 7); Call_back; Call_back; Call_back;
   Final_suspend; Register (Finally 3); Getter 0].

Theorem task_delivers_witness : exists s : promise Z, steps new_promise two_handlers = Ok s
  /\ getters s = [GDone (Value 7)] /\ called s = [(1, Some (Value 7)); (3, None)].
Proof.
  pose proof (task_delivers two_handlers) as H. destruct (steps new_promise two_handlers) as [s| |] eqn:Hs; [|by vm_compute in Hs..].
  destruct H as (_ & _ & _ & Hc). exists s. split; [done|]. vm_compute in Hs. injection Hs as <-.
  split; [done|]. apply (Hc (Value 7)); [by right|done].
Defined.

(** Three ways in which a task goes wrong. A coroutine with an executor that runs
    functions in place, as the default one does, and that awaits a task before its result
    locks [completion_lock] inside [return_value], which holds it. A wait that ends
    without a notification reads the result that is not there. A task that is destroyed as
    soon as its result is known, as the temporary task of [main] is, can be destroyed
    before its coroutine is suspended. *)
Theorem task_hazards {T} (r : Ret T) exec : runs_in_place exec = true ->
  (exists m, steps new_promise [Register (Await exec); Finish r; Call_back] = Fatal m)
  /\ steps (T := T) new_promise [Get; Getter 0; Spurious 0; Getter 0] = Undefined
  /\ steps new_promise [Get; Getter 0; Finish r; Call_back; Getter 0; Destroy] = Undefined
  /\ exists s, steps new_promise [Get; Getter 0; Finish r; Call_back; Getter 0; Final_suspend; Destroy] = Ok s.
Proof. intros He. cbn. rewrite He. split; [by eexists|]. split; [done|]. split; [done|]. by eexists. Qed.

Theorem task_hazards_witness : runs_in_place NoopExecutor = true
  /\ exists m, steps new_promise [Register (Await NoopExecutor); Finish (Value 7); Call_back] = Fatal m.
Proof. split; [done|]. apply (task_hazards (Value 7) NoopExecutor). done. Defined.
