(* ===== verification/CoChain.v ===== *)
(** Tasks that await tasks: the awaiting of task_promise.h and task_awaiter.h between several
    coroutines, the adapters sleep_awaiter.h and future_awaiter.h, and the chain of the three
    simple tasks of src/coroutine/main.cpp.

    A coroutine is its remaining operations. The promise of each is that of [CoTask]; the
    events say who goes on, so every interleaving of the executors, the timer and the threads
    of the futures is an execution. A wait may also end without a notification. *)

From S2P Require Import Prelude Result CoChannel CoTask.
From stdpp Require Import strings.
#[local] Open Scope Z_scope.

Section Chain.
Context {T : Type}.

(** What a coroutine still does: [co_return], or an exception that it does not catch;
    [co_await] of a duration in milliseconds, of a future with its result, and of a task that
    it creates with an executor of the task's own. A future that has an exception ends the program,
    since the thread that waits for it does not catch it. *)
Inductive body :=
| Co_return (r : Ret T)
| Co_sleep (ms : Z) (k : body)
| Co_future (fut : Ret T) (k : T -> body)
| Co_await (e : executor) (task : body) (k : Ret T -> body).

(** Where a coroutine is. *)
Inductive control :=
| Dispatched (b : body)                    (* its resumption is with the executor *)
| Running (b : body)
| Sleeping (due : Z) (b : body)            (* its resumption is with the timer *)
| Future_wait (fut : Ret T) (k : T -> body) (* a thread waits in [get] for it *)
| Suspending (c : nat) (k : Ret T -> body) (* in [after_suspend], before [on_completed] of the task [c] *)
| Awaiting (c : nat) (k : Ret T -> body)   (* the task [c] has its callback *)
| Returned                                 (* its promise has the result *)
| Gone.                                    (* destroyed *)

Record task := Task { exec_ : executor; prom : promise T; at_ : control }.

(** The tasks in the order of their creation, and the time of the timer's clock. *)
Record system := System { tasks : list task; now : Z }.

Definition set_task (s : system) (t : nat) (x : task) : system := System (<[t := x]> (tasks s)) (now s).
Definition move (s : system) (t : nat) (x : task) (c : control) : system := set_task s t (Task (exec_ x) (prom x) c).
Definition set_prom (s : system) (t : nat) (x : task) (p : promise T) : system := set_task s t (Task (exec_ x) p (at_ x)).

(** The call of a coroutine: [initial_suspend] gives it to its executor. *)
Definition new_task (e : executor) (b : body) : task := Task e new_promise (Dispatched b).

(** An operation of the coroutine: [await_transform], [await_suspend] and [after_suspend] of
    the awaiter, or the end. *)
Definition go (s : system) (t : nat) (x : task) (b : body) : system :=
  match b with
  | Co_return r => set_task s t (Task (exec_ x) (set_result (prom x) r) Returned)
  | Co_sleep ms k => move s t x (Sleeping (now s + ms) k)
  | Co_future fut k => move s t x (Future_wait fut k)
  | Co_await e b k =>
    let c := length (tasks s) in
    move (System (tasks s ++ [new_task e b]) (now s)) t x (Suspending c k)
  end.

(** The timer calls [resume] of a [SleepAwaiter], when it is time. *)
Definition resume_sleeper (s : system) (t : nat) (x : task) (due : Z) (b : body) : option system :=
  if due <=? now s then Some (move s t x (Dispatched b)) else None.

(** The thread of a [FutureAwaiter], once [get] returns or throws. *)
Definition resume_future (s : system) (t : nat) (x : task) (fut : Ret T) (k : T -> body) : result (option system) :=
  match fut with
  | Value v => Ok (Some (move s t x (Dispatched (k v))))
  | Exception _ => Fatal "an exception leaves the function of a thread"
  end.

(** [TaskAwaiter::after_suspend]: the task [c], which is [y], gets a callback that dispatches
    [x], if its lock is free. *)
Definition after_suspend (s : system) (t : nat) (x : task) (c : nat) (k : Ret T -> body) (y : task) : result (option system) :=
  if locked (prom y) then Ok None
  else p ← on_completed (prom y) (Await (exec_ x));
       Ok (Some (move (set_prom s c y p) t x (Awaiting c k))).

(** [TaskAwaiter::before_resume], when its [get_result] has returned, and the end of the
    expression, which destroys the awaiter with the task. *)
Definition before_resume (s : system) (t : nat) (x : task) (c : nat) (k : Ret T -> body) (y : task) (i : nat) : result (option system) :=
  match getters (prom y) !! i with
  | Some (GDone r) =>
    p ← destroy (prom y);
    Ok (Some (move (set_task s c (Task (exec_ y) p Gone)) t x (Running (k r))))
  | _ => Ok None
  end.

Inductive chain_event :=
| Run (t : nat)                 (* the executor runs the resumption *)
| Go (t : nat)                  (* the coroutine does its next operation *)
| Due (t : nat)                 (* the timer resumes it *)
| Future_ready (t : nat)        (* the thread of the future resumes it *)
| Suspend (t : nat)             (* [on_completed] of the awaited task *)
| Continue (t i : nat)          (* [await_resume]: the [i]-th [get_result] of the awaited task has returned *)
| Notify (t : nat)              (* a step of [notify_callbacks] *)
| Final (t : nat)               (* the final suspend point *)
| Get_step (t i : nat)          (* a step of the [i]-th [get_result] of the task *)
| Wake (t i : nat)              (* the wait of the [i]-th [get_result] ends, though nobody has notified it *)
| Main_register (cb : callback) (* [then], [catching] and [finally] of the first task *)
| Main_get                      (* [get_result] of the first task is called *)
| Tick (ms : Z).                (* time passes *)

(** The promise may take a step in [get_result]. *)
Definition can_get (p : promise T) (i : nat) : bool :=
  negb (locked p) && match getters p !! i with Some GLock | Some GWoken => true | _ => false end.

(** [Ok None] when the event is not possible. *)
Definition chain_step (s : system) (e : chain_event) : result (option system) :=
  let with_task t (f : task -> result (option system)) := match tasks s !! t with Some x => f x | None => Ok None end in
  match e with
  | Run t => with_task t (fun x => Ok (match at_ x with Dispatched b => Some (move s t x (Running b)) | _ => None end))
  | Go t => with_task t (fun x => Ok (match at_ x with Running b => Some (go s t x b) | _ => None end))
  | Due t => with_task t (fun x => Ok (match at_ x with
      | Sleeping due b => resume_sleeper s t x due b
      | _ => None
      end))
  | Future_ready t => with_task t (fun x =>
      match at_ x with
      | Future_wait fut k => resume_future s t x fut k
      | _ => Ok None
      end)
  | Suspend t => with_task t (fun x =>
      match at_ x with
      | Suspending c k => with_task c (fun y => after_suspend s t x c k y)
      | _ => Ok None
      end)
  | Continue t i => with_task t (fun x =>
      match at_ x with
      | Awaiting c k => with_task c (fun y => before_resume s t x c k y i)
      | _ => Ok None
      end)
  | Notify t => with_task t (fun x =>
      match pc (prom x) with
      | Notifying _ _ => p ← notify_callbacks (prom x); Ok (Some (set_prom s t x p))
      | _ => Ok None
      end)
  | Final t => with_task t (fun x => Ok (match pc (prom x) with Leaving => Some (set_prom s t x (with_pc (prom x) At_final)) | _ => None end))
  | Wake t i => with_task t (fun x => Ok (Some (set_prom s t x (wake (prom x) i))))
  | Get_step t i => with_task t (fun x =>
      if can_get (prom x) i then p ← get_result (prom x) i; Ok (Some (set_prom s t x p)) else Ok None)
  | Main_register cb => with_task 0%nat (fun x =>
      match cb with
      | Await _ => Ok None
      | _ => if locked (prom x) then Ok None else p ← on_completed (prom x) cb; Ok (Some (set_prom s 0 x p))
      end)
  | Main_get => with_task 0%nat (fun x => Ok (Some (set_prom s 0 x (with_getters (prom x) (getters (prom x) ++ [GLock])))))
  | Tick ms => Ok (if 0 <=? ms then Some (System (tasks s) (now s + ms)) else None)
  end.

Fixpoint chain_steps (s : system) (es : list chain_event) : result (option system) :=
  match es with
  | [] => Ok (Some s)
  | e :: es => o ← chain_step s e; match o with Some s' => chain_steps s' es | None => Ok None end
  end.

(** The call of the first coroutine. *)
Definition chain0 (e : executor) (b : body) : system := System [new_task e b] 0.

(** ** The meaning of a coroutine without threads *)

(** Its result, and the time that it sleeps. *)
Fixpoint eval (b : body) : Ret T :=
  match b with
  | Co_return r => r
  | Co_sleep _ k => eval k
  | Co_future (Value v) k => eval (k v)
  | Co_future (Exception e) _ => Exception e
  | Co_await _ b k => eval (k (eval b))
  end.

Fixpoint sleeps (b : body) : Z :=
  match b with
  | Co_return _ => 0
  | Co_sleep ms k => ms + sleeps k
  | Co_future (Value v) k => sleeps (k v)
  | Co_future (Exception _) _ => 0
  | Co_await _ b k => sleeps b + sleeps (k (eval b))
  end.

(** No coroutine whose executor runs functions in place awaits a task, and the futures have
    values. *)
Fixpoint awaits_safely (e : executor) (b : body) : Prop :=
  match b with
  | Co_return _ => True
  | Co_sleep _ k => awaits_safely e k
  | Co_future (Value v) k => awaits_safely e (k v)
  | Co_future (Exception _) _ => False
  | Co_await e' b k => runs_in_place e = false /\ awaits_safely e' b /\ awaits_safely e (k (eval b))
  end.

End Chain.
Arguments body T : clear implicits.
Arguments system T : clear implicits.
Arguments task T : clear implicits.
Arguments control T : clear implicits.

(** ** The chain of main.cpp *)

(** An exception that is not caught ends the coroutine. *)
Definition value {T} (r : Ret T) (k : T -> body T) : body T := match r with Value v => k v | Exception e => Co_return (Exception e) end.

Definition simple_task2 : body Z := Co_sleep 1000 (Co_return (Value 2)).
Definition simple_task3 : body Z := Co_sleep 2000 (Co_return (Value 3)).
Definition simple_task : body Z :=
  Co_await AsyncExecutor simple_task2 (fun r2 => value r2 (fun result2 =>
  Co_await NewThreadExecutor simple_task3 (fun r3 => value r3 (fun result3 =>
  Co_return (Value (wrap_s 32 (1 + result2 + result3))))))).
