(* ===== verification/CoChainProps.v ===== *)
(** What tasks that await tasks deliver: in every interleaving the value and at least the
    time of the same program without threads; and the chain of main.cpp. *)

From S2P Require Import Prelude Result CoChannel CoTask CoChain.
From stdpp Require Import strings.
#[local] Open Scope Z_scope.

Section Props.
Context {T : Type}.

(** ** The invariant *)

(** What a task is to deliver, and not before when. *)
#[local] Notation plan := (Ret T * Z)%type.

Definition cont_ok (time : Z) (vs : list plan) (t : nat) (x : task T) (v : Ret T) (d : Z) : Prop :=
  match at_ x with
  | Dispatched b | Running b => result_ (prom x) = None /\ eval b = v /\ d <= time + sleeps b /\ awaits_safely (exec_ x) b
  | Sleeping due b => result_ (prom x) = None /\ eval b = v /\ d <= due + sleeps b /\ awaits_safely (exec_ x) b
  | Future_wait fut k =>
    exists w, fut = Value w /\ result_ (prom x) = None /\ eval (k w) = v /\ d <= time + sleeps (k w) /\ awaits_safely (exec_ x) (k w)
  | Suspending c k | Awaiting c k =>
    result_ (prom x) = None /\ (t < c)%nat /\ runs_in_place (exec_ x) = false /\
    exists vc dc, vs !! c = Some (vc, dc) /\ eval (k vc) = v /\ d <= dc + sleeps (k vc) /\ awaits_safely (exec_ x) (k vc)
  | Returned => result_ (prom x) = Some v /\ d <= time
  | Gone => pc (prom x) = Destroyed
  end.

(** Nobody who runs in place awaits the task. *)
Definition deferred (cb : callback) : bool := match cb with Await exec => negb (runs_in_place exec) | _ => true end.

Section Invariant.
(** The waits that may end without a notification. *)
Variable spur : nat -> nat -> Prop.

Record prom_ok (t : nat) (p : promise T) : Prop := {
  P_inv : task_inv p;
  P_deferred : forallb deferred (registered p) = true;
  P_woken i : getters p !! i = Some GWoken -> result_ p = None -> spur t i
}.

Definition task_ok (time : Z) (vs : list plan) (t : nat) (x : task T) : Prop :=
  prom_ok t (prom x) /\ exists v d, vs !! t = Some (v, d) /\ cont_ok time vs t x v d.

Record chain_inv (s : system T) (vs : list plan) (root : plan) : Prop := {
  C_length : length vs = length (tasks s);
  C_root : vs !! 0%nat = Some root;
  C_kept x : tasks s !! 0%nat = Some x -> at_ x <> Gone;
  C_tasks t x : tasks s !! t = Some x -> task_ok (now s) vs t x
}.

Lemma task_ok_later time time' vs vs' t x : time <= time' -> task_ok time vs t x -> task_ok time' (vs ++ vs') t x.
Proof.
  intros Ht [Hp (v & d & Hv & Hc)]. split; [done|]. exists v, d. split; [by apply lookup_app_l_Some|].
  unfold cont_ok in *. destruct (at_ x); try done; try (destruct Hc as (? & ? & ? & ?); split_and!; try done; lia).
  - destruct Hc as (w & H0 & H1 & H2 & H3 & H4). exists w. split_and!; try done. lia.
  - destruct Hc as (H1 & H2 & H3 & vc & dc & H4 & H5). split_and!; try done. exists vc, dc. split; [by apply lookup_app_l_Some|done].
  - destruct Hc as (H1 & H2 & H3 & vc & dc & H4 & H5). split_and!; try done. exists vc, dc. split; [by apply lookup_app_l_Some|done].
  - destruct Hc. split; [done|lia].
Qed.

(** One task changes. *)
Lemma chain_inv_update s vs root t x' : chain_inv s vs root -> (t = 0%nat -> at_ x' <> Gone) -> task_ok (now s) vs t x' ->
  chain_inv (set_task s t x') vs root.
Proof.
  intros [Hl Hr Hk Ht] Hg Hx. split; cbn; [by rewrite length_insert|done| |].
  - intros x Hx0. apply list_lookup_insert_Some in Hx0 as [(-> & <- & _)|[_ Hx0]]; [by apply Hg|by apply Hk].
  - intros t' x Hx'. apply list_lookup_insert_Some in Hx' as [(<- & <- & _)|[_ Hx']]; [done|by apply Ht].
Qed.

(** The coroutine of a task goes on, and its promise stays. *)
Lemma inv_move s vs root t x c : chain_inv s vs root -> tasks s !! t = Some x -> at_ x <> Gone -> c <> Gone ->
  (forall v d, vs !! t = Some (v, d) -> cont_ok (now s) vs t x v d -> cont_ok (now s) vs t (Task (exec_ x) (prom x) c) v d) ->
  chain_inv (move s t x c) vs root.
Proof.
  intros Hs Hx Hg Hc Hok. apply chain_inv_update; [done|done|]. destruct (C_tasks _ _ _ Hs t x Hx) as [Hp (v & d & Hv & Hcont)].
  split; [done|]. exists v, d. split; [done|]. by apply Hok.
Qed.

(** Its promise goes on, and the result stays. *)
Lemma inv_prom s vs root t x p : chain_inv s vs root -> tasks s !! t = Some x ->
  (prom_ok t (prom x) -> prom_ok t p /\ result_ p = result_ (prom x)) -> (pc (prom x) = Destroyed -> pc p = Destroyed) ->
  chain_inv (set_prom s t x p) vs root.
Proof.
  intros Hs Hx Hp Hd. destruct (C_tasks _ _ _ Hs t x Hx) as [Hpx (v & d & Hv & Hcont)].
  apply chain_inv_update; [done| |].
  - intros ->. cbn. by apply (C_kept _ _ _ Hs x).
  - split; [by apply Hp|]. exists v, d. split; [done|]. unfold cont_ok in *. cbn.
    destruct (at_ x) eqn:Ha; try (destruct (Hp Hpx) as [_ ->]; done). by apply Hd.
Qed.

(** A task without a result is in its body. *)
Lemma no_result (p : promise T) : task_inv p -> result_ p = None -> pc p = Body.
Proof. intros [Hr _ _ _] Hn. rewrite Hn in Hr. destruct (pc p); try done; by destruct Hr as [[? ?] _]. Qed.

Lemma set_result_ok t (p : promise T) r : prom_ok t p -> result_ p = None -> prom_ok t (set_result p r).
Proof. intros [Hi Hd Hw] Hn. split; [|done..]. apply set_result_inv; [done|]. by apply no_result. Qed.

Lemma new_promise_ok t : prom_ok t (@new_promise T).
Proof. split; [apply new_promise_inv|done..]. Qed.

(** An operation of a coroutine. *)
Lemma go_inv s vs root t x b : chain_inv s vs root -> tasks s !! t = Some x -> at_ x = Running b ->
  exists vs', chain_inv (go s t x b) vs' root.
Proof.
  intros Hs Hx Ha. destruct (C_tasks _ _ _ Hs t x Hx) as [Hp (v & d & Hv & Hcont)].
  unfold cont_ok in Hcont. rewrite Ha in Hcont. destruct Hcont as (Hres & Hev & Hd & Hsafe).
  destruct b as [r|ms k|fut k|e b k]; cbn [go].
  - exists vs. apply chain_inv_update; [done|done|]. split; [by apply set_result_ok|]. exists v, d. cbn in *.
    split; [done|]. split; [by rewrite Hev|lia].
  - exists vs. apply inv_move; [done|done|by rewrite Ha|done|]. intros v' d' Hv' _. simplify_eq. cbn in *. split_and!; [done|done|lia|done].
  - destruct fut as [w|w]; [|done]. exists vs. apply inv_move; [done|done|by rewrite Ha|done|]. intros v' d' Hv' _. simplify_eq. cbn in *.
    exists w. split_and!; [done|done|done|lia|done].
  - cbn in Hev, Hd, Hsafe. destruct Hsafe as (Hin & Hsb & Hsk). exists (vs ++ [(eval b, now s + sleeps b)]).
    pose proof (C_length _ _ _ Hs) as Hl. pose proof (lookup_lt_Some _ _ _ Hx) as Hlt.
    assert (chain_inv (System (tasks s ++ [new_task e b]) (now s)) (vs ++ [(eval b, now s + sleeps b)]) root) as Hs'.
    { destruct Hs as [H1 H2 H3 H4]. split; cbn; [by rewrite !length_app, H1|by apply lookup_app_l_Some| |].
      - intros y Hy. rewrite lookup_app_l in Hy by lia. by apply H3.
      - intros t' y Hy. apply lookup_app_Some in Hy as [Hy|[Hge Hy]]; [apply (task_ok_later (now s)); [lia|by apply H4]|].
        apply list_lookup_singleton_Some in Hy as [Ht' <-]. assert (t' = length vs) as -> by lia.
        split; [apply new_promise_ok|]. exists (eval b), (now s + sleeps b). split; [by apply list_lookup_middle|].
        cbn. split_and!; [done|done|lia|done]. }
    apply (inv_move _ _ _ t x); [done|cbn; by apply lookup_app_l_Some|by rewrite Ha|done|].
    intros v' d' Hv' _. unfold cont_ok. cbn [at_ exec_ prom now]. rewrite lookup_app_l in Hv' by lia. simplify_eq. split_and!; [done|lia|done|].
    exists (eval b), (now s + sleeps b). split_and!; [rewrite <- Hl; by apply list_lookup_middle|done|lia|done].
Qed.

(** The parts of the promise that a step leaves alone. *)
Lemma registers_ok t p cb : prom_ok t p -> deferred cb = true -> exists p', on_completed p cb = Ok p'
  /\ prom_ok t p' /\ result_ p' = result_ p.
Proof.
  intros [Hi Hd Hw] Hcb. destruct (on_completed_inv p cb Hi) as (p2 & E2 & Hi2 & Hreg & Hr & _ & Hg). exists p2.
  split; [done|]. split; [|done]. split; [done| |].
  - destruct Hreg as [->| ->]; [done|]. by rewrite forallb_app, Hd; cbn; rewrite Hcb.
  - intros i Hgi Hn. rewrite Hr in Hn. rewrite (Hg Hn) in Hgi. by apply Hw.
Qed.

Lemma gets_ok t (p : promise T) i p' : prom_ok t p -> get_result p i = Ok p' -> prom_ok t p' /\ result_ p' = result_ p.
Proof.
  intros [Hi Hd Hw] E. pose proof (get_result_inv p i Hi) as H. rewrite E in H. destruct H as (Hi2 & Hreg & Hr & _ & Hg).
  split; [|done]. split; [done|by rewrite Hreg|]. rewrite Hr. intros j Hj. by apply Hw, Hg.
Qed.

Lemma notifies_ok t (p : promise T) r cbs : prom_ok t p -> pc p = Notifying r cbs ->
  exists p', notify_callbacks p = Ok p' /\ prom_ok t p' /\ result_ p' = result_ p.
Proof.
  intros [Hi Hd Hw] Hpc. destruct (notify_callbacks_inv p Hi) as [H _]. destruct (notify_callbacks p) as [p'| |]; [| |done].
  - destruct H as (Hi2 & Hreg & Hr & _). exists p'. split; [done|]. split; [|done]. split; [done|by rewrite Hreg|].
    pose proof (tk_result p Hi) as Hres. rewrite Hpc in Hres. rewrite Hr, Hres. done.
  - destruct H as (exec & r' & cbs' & Hpc' & He). destruct (tk_called p Hi) as (before & Hreg & _).
    rewrite Hreg, forallb_app in Hd. apply andb_true_iff in Hd as [_ Hd]. unfold pending in Hd. rewrite Hpc' in Hd. cbn in Hd. by rewrite He in Hd.
Qed.

Lemma final_ok t (p : promise T) : prom_ok t p -> pc p = Leaving -> prom_ok t (with_pc p At_final).
Proof. intros [Hi Hd Hw] Hpc. split; [by apply final_inv|done..]. Qed.

Lemma destroy_ok t (p p' : promise T) : prom_ok t p -> destroy p = Ok p' -> prom_ok t p'.
Proof.
  intros [Hi Hd Hw] E. pose proof (destroy_inv p Hi) as H. rewrite E in H. destruct H as (Hi2 & Hreg & Hr & Hg).
  split; [done|by rewrite Hreg|]. by rewrite Hr, Hg.
Qed.

Lemma new_get_ok t (p : promise T) : prom_ok t p -> prom_ok t (with_getters p (getters p ++ [GLock])).
Proof.
  intros [Hi Hd Hw]. split; [by apply new_get_inv|done|]. intros i [Hg|[_ Hg]]%lookup_app_Some; [by apply Hw|].
  destruct (i - _)%nat; cbn in Hg; by simplify_eq.
Qed.

Lemma wake_ok t (p : promise T) i : prom_ok t p -> spur t i -> prom_ok t (wake p i).
Proof.
  intros [Hi Hd Hw] Hs. destruct (wake_kept p i) as (_ & Hr & Hreg). split; [by apply getter_wake_inv|by rewrite Hreg|].
  intros j Hj Hn. destruct (decide (i = j)) as [<-|Hne]; [done|]. rewrite Hr in Hn. apply Hw; [|done]. unfold wake in Hj.
  destruct (getters p !! i) as [[| | |]|]; try done. cbn in Hj. by rewrite list_lookup_insert_ne in Hj.
Qed.

Lemma get_result_pc (p : promise T) i p' : get_result p i = Ok p' -> pc p' = pc p.
Proof.
  unfold get_result. intros E. destruct (locked p); [by simplify_eq|]. destruct (getters p !! i) as [[| | |]|]; try (by simplify_eq).
  destruct (result_ p); by simplify_eq.
Qed.

(** [on_completed] itself finds the lock free. *)
Lemma on_completed_ok (p : promise T) cb : exists p', on_completed p cb = Ok p' /\ pc p' = pc p.
Proof.
  unfold on_completed, call_back. destruct (locked p) eqn:Hl; [by exists p|]. destruct (result_ p); [|by eexists].
  destruct cb; try by eexists. cbn. change (locked (with_callbacks _ _ _)) with (locked p). rewrite Hl, andb_false_r. by eexists.
Qed.

(** A parent goes on with the result of the task that it awaited, and destroys it. *)
Lemma continue_inv s vs root t x c k y i r p : chain_inv s vs root -> tasks s !! t = Some x -> at_ x = Awaiting c k ->
  tasks s !! c = Some y -> getters (prom y) !! i = Some (GDone r) -> destroy (prom y) = Ok p ->
  chain_inv (move (set_task s c (Task (exec_ y) p Gone)) t x (Running (k r))) vs root.
Proof.
  intros Hs Hx Ha Hy Hg Hdes. destruct (C_tasks _ _ _ Hs t x Hx) as [_ (v & d & Hv & Hcont)].
  unfold cont_ok in Hcont. rewrite Ha in Hcont. destruct Hcont as (Hres & Htc & Hin & vc & dc & Hvc & Hev & Hd & Hsafe).
  destruct (C_tasks _ _ _ Hs c y Hy) as [Hpy (v' & d' & Hv' & Hcy)]. simplify_eq.
  assert (pc (prom y) = At_final /\ pc p = Destroyed) as [Hfin Hp].
  { unfold destroy in Hdes. replace (existsb is_done (getters (prom y))) with true in Hdes.
    - destruct (pc (prom y)); try done. by injection Hdes as <-.
    - symmetry. apply existsb_exists. exists (GDone r). split; [|done]. apply list_elem_of_In. by eapply list_elem_of_lookup_2. }
  assert (at_ y <> Gone) as Hng by (intros Hg'; unfold cont_ok in Hcy; rewrite Hg' in Hcy; congruence).
  pose proof (tk_done _ (P_inv _ _ Hpy) i r Hg) as Hr.
  assert (r = vc /\ dc <= now s) as [-> Hdc].
  { unfold cont_ok in Hcy. destruct (at_ y); try (destruct Hcy as [Hn _]; congruence); try (destruct Hcy as (? & _ & Hn & _); congruence); try done.
    destruct Hcy as [Hn ?]. split; [congruence|done]. }
  apply inv_move; [|cbn; by rewrite list_lookup_insert_ne by lia|by rewrite Ha|done|].
  - apply chain_inv_update; [done|lia|]. split; [by eapply destroy_ok|]. exists vc, dc. by split.
  - intros v2 d2 Hv2 _. simplify_eq. cbn. split_and!; [done|done|lia|done].
Qed.

Lemma suspend_inv s vs root t x c k y p : chain_inv s vs root -> tasks s !! t = Some x -> at_ x = Suspending c k ->
  tasks s !! c = Some y -> on_completed (prom y) (Await (exec_ x)) = Ok p ->
  chain_inv (move (set_prom s c y p) t x (Awaiting c k)) vs root.
Proof.
  intros Hs Hx Ha Hy E. destruct (C_tasks _ _ _ Hs t x Hx) as [_ (v & d & Hv & Hcont)].
  unfold cont_ok in Hcont. rewrite Ha in Hcont. destruct Hcont as (Hres & Htc & Hin & Hc).
  apply inv_move; [|cbn; by rewrite list_lookup_insert_ne by lia|by rewrite Ha|done|].
  - apply inv_prom; [done|done| |].
    + intros Hp. destruct (registers_ok _ _ (Await (exec_ x)) Hp) as (p2 & E2 & H); [cbn; by rewrite Hin|]. rewrite E in E2. by injection E2 as <-.
    + destruct (on_completed_ok (prom y) (Await (exec_ x))) as (p2 & E2 & Hpc). rewrite E in E2. injection E2 as <-. by rewrite Hpc.
  - intros v2 d2 Hv2 _. simplify_eq. unfold cont_ok. cbn. by split_and!.
Qed.

Lemma register_inv s vs root x cb p : chain_inv s vs root -> tasks s !! 0%nat = Some x -> deferred cb = true ->
  on_completed (prom x) cb = Ok p -> chain_inv (set_prom s 0 x p) vs root.
Proof.
  intros Hs Hx Hcb E. destruct (on_completed_ok (prom x) cb) as (p2 & E2 & Hpc). rewrite E in E2. injection E2 as <-.
  apply inv_prom; [done|done| |by rewrite Hpc]. intros Hp. destruct (registers_ok _ _ cb Hp Hcb) as (p2 & E2 & H).
  rewrite E in E2. by injection E2 as <-.
Qed.

Lemma chain_step_inv s vs root e s' : chain_inv s vs root -> (forall t i, e = Wake t i -> spur t i) ->
  chain_step s e = Ok (Some s') -> exists vs', chain_inv s' vs' root.
Proof.
  intros Hs Hsp E. destruct e as [t|t|t|t|t|t i|t|t|t i|t i|cb| |ms]; cbn [chain_step] in E;
    try (destruct (tasks s !! _) as [x|] eqn:Hx; [|done]).
  - destruct (at_ x) eqn:Ha; try done. injection E as <-. exists vs. apply inv_move; try done; [by rewrite Ha|].
    intros v d _. unfold cont_ok. by rewrite Ha.
  - destruct (at_ x) eqn:Ha; try done. injection E as <-. by eapply go_inv.
  - destruct (at_ x) as [| |due b| | | | |] eqn:Ha; try done. unfold resume_sleeper in E. destruct (Z.leb_spec due (now s)); [|done]. injection E as <-.
    exists vs. apply inv_move; try done; [by rewrite Ha|]. intros v d _. unfold cont_ok. rewrite Ha. cbn.
    intros (? & ? & ? & ?). split_and!; try done. lia.
  - destruct (at_ x) as [| | |[w|w] k| | | |] eqn:Ha; try done. unfold resume_future in E. injection E as <-. exists vs. apply inv_move; try done; [by rewrite Ha|].
    intros v d _. unfold cont_ok. rewrite Ha. cbn. by intros (w' & [= <-] & ?).
  - destruct (at_ x) as [| | | |c k| | |] eqn:Ha; try done. destruct (tasks s !! c) as [y|] eqn:Hy; [|done].
    unfold after_suspend in E. destruct (locked (prom y)); [done|]. destruct (on_completed _ _) as [p| |] eqn:Ep; cbn in E; try done. injection E as <-.
    exists vs. by eapply suspend_inv.
  - destruct (at_ x) as [| | | | |c k| |] eqn:Ha; try done. destruct (tasks s !! c) as [y|] eqn:Hy; [|done].
    unfold before_resume in E. destruct (getters (prom y) !! i) as [[| | |r]|] eqn:Hg; try done. destruct (destroy (prom y)) as [p| |] eqn:Ep; cbn in E; try done.
    injection E as <-. exists vs. by eapply continue_inv.
  - destruct (pc (prom x)) eqn:Hpc; try done. destruct (notify_callbacks _) as [p| |] eqn:Ep; cbn in E; try done. injection E as <-.
    exists vs. apply inv_prom; [done|done| |congruence]. intros Hp. destruct (notifies_ok _ _ _ _ Hp Hpc) as (p2 & E2 & H).
    rewrite Ep in E2. by injection E2 as <-.
  - destruct (pc (prom x)) eqn:Hpc; try done. injection E as <-. exists vs. apply inv_prom; [done|done| |congruence].
    intros Hp. split; [by apply final_ok|done].
  - destruct (can_get _ _); [|done]. destruct (get_result _ _) as [p| |] eqn:Ep; cbn in E; try done. injection E as <-.
    exists vs. apply inv_prom; [done|done| |]; [intros Hp; by eapply gets_ok|]. intros <-. by eapply get_result_pc.
  - injection E as <-. exists vs. destruct (wake_kept (prom x) i) as (Hpc & Hr & _). apply inv_prom; [done|done| |by rewrite Hpc].
    intros Hp. split; [|done]. apply wake_ok; [done|by apply Hsp].
  - destruct cb as [f|f|f|e]; try done; destruct (locked (prom x)); try done;
      (destruct (on_completed _ _) as [p| |] eqn:Ep; cbn in E; try done); injection E as <-; exists vs;
      (eapply register_inv; [exact Hs|exact Hx| |exact Ep]; done).
  - injection E as <-. exists vs. apply inv_prom; [done|done| |done]. intros Hp. split; [by apply new_get_ok|done].
  - destruct (Z.leb_spec 0 ms); [|done]. injection E as <-. exists vs. destruct Hs as [H1 H2 H3 H4]. split; try done.
    intros t x Hx. rewrite <- (app_nil_r vs). apply (task_ok_later (now s)); [cbn; lia|by apply H4].
Qed.

Lemma chain_steps_inv es : forall s vs root s', chain_inv s vs root -> (forall t i, Wake t i ∈ es -> spur t i) ->
  chain_steps s es = Ok (Some s') -> exists vs', chain_inv s' vs' root.
Proof.
  induction es as [|e es IH]; intros s vs root s' Hs Hsp E; cbn in E; [injection E as <-; by exists vs|].
  destruct (chain_step s e) as [[s1|]| |] eqn:E1; cbn in E; try done.
  destruct (chain_step_inv _ _ _ _ _ Hs (fun t i H => Hsp t i ltac:(subst; set_solver)) E1) as [vs1 Hs1].
  eapply IH; [exact Hs1|set_solver|exact E].
Qed.

(** What a step may find: a wait that has ended too early, or an awaited task whose
    coroutine has its result, but is not at its final suspend point. *)
Definition hazard (s : system T) (e : chain_event) : Prop :=
  match e with
  | Get_step t i => spur t i /\ exists x, tasks s !! t = Some x /\ getters (prom x) !! i = Some GWoken /\ result_ (prom x) = None
  | Continue t i => exists x c k y r, tasks s !! t = Some x /\ at_ x = Awaiting c k /\ tasks s !! c = Some y
      /\ getters (prom y) !! i = Some (GDone r) /\ pc (prom y) <> At_final
  | _ => False
  end.

Lemma chain_step_defined s vs root e : chain_inv s vs root ->
  match chain_step s e with Ok _ => True | Fatal _ => False | Undefined => hazard s e end.
Proof.
  intros Hs. destruct e as [t|t|t|t|t|t i|t|t|t i|t i|cb| |ms]; cbn [chain_step]; try done;
    (destruct (tasks s !! _) as [x|] eqn:Hx; [|done]); try done; destruct (C_tasks _ _ _ Hs _ x Hx) as [Hp (v & d & _ & Hc)].
  - unfold cont_ok in Hc. destruct (at_ x) as [| | |fut k| | | |]; try done. by destruct Hc as (w & -> & _).
  - destruct (at_ x) as [| | | |c k| | |]; try done. destruct (tasks s !! c) as [y|]; [|done]. unfold after_suspend.
    destruct (locked (prom y)); [done|]. by destruct (on_completed_ok (prom y) (Await (exec_ x))) as (p & -> & _).
  - destruct (at_ x) as [| | | | |c k| |] eqn:Ha; try done. destruct (tasks s !! c) as [y|] eqn:Hy; [|done]. unfold before_resume.
    destruct (getters (prom y) !! i) as [[| | |r]|] eqn:Hg; try done. unfold destroy. destruct (existsb _ _); [|done].
    destruct (pc (prom y)) eqn:Hpc; try done; exists x, c, k, y, r; by rewrite Hpc.
  - destruct (pc (prom x)) as [|r cbs| | |] eqn:Hpc; try done.
    by destruct (notifies_ok _ _ _ _ Hp Hpc) as (p & -> & _).
  - unfold can_get. destruct (locked (prom x)) eqn:Hl; [done|]. cbn. unfold get_result. rewrite Hl.
    destruct (getters (prom x) !! i) as [[| | |]|] eqn:Hg; try done. destruct (result_ (prom x)) eqn:Hr; [done|]. split; [|by exists x].
    apply (P_woken _ _ Hp i Hg Hr).
  - destruct cb as [f|f|f|e]; try done; (destruct (locked (prom x)); [done|]).
    + by destruct (on_completed_ok (prom x) (Then f)) as (p & -> & _).
    + by destruct (on_completed_ok (prom x) (Catching f)) as (p & -> & _).
    + by destruct (on_completed_ok (prom x) (Finally f)) as (p & -> & _).
Qed.

Lemma chain0_inv e b : awaits_safely e b -> chain_inv (chain0 e b) [(eval b, sleeps b)] (eval b, sleeps b).
Proof.
  intros Hb. split; try done.
  - intros x Hx. by injection Hx as <-.
  - intros t x Hx. destruct t; [|done]. injection Hx as <-. split; [apply new_promise_ok|].
    exists (eval b), (sleeps b). split; [done|]. cbn. split_and!; [done|done|lia|done].
Qed.

(** What the first task has delivered. *)
Lemma delivers (s : system T) v d : (exists vs, chain_inv s vs (v, d)) -> exists x, tasks s !! 0%nat = Some x
  /\ (forall r, result_ (prom x) = Some r -> r = v /\ d <= now s)
  /\ (forall i r, getters (prom x) !! i = Some (GDone r) -> r = v)
  /\ (exists later, registered (prom x) = later.1 ++ later.2 /\ called (prom x) = omap (handler v) later.1
       /\ (pc (prom x) = At_final -> later.2 = [])).
Proof.
  intros [vs Hs]. destruct (tasks s !! 0%nat) as [x|] eqn:Hx;
    [|apply lookup_ge_None in Hx; pose proof (lookup_lt_Some _ _ _ (C_root _ _ _ Hs)); rewrite (C_length _ _ _ Hs) in *; lia].
  exists x. split; [done|]. destruct (C_tasks _ _ _ Hs 0%nat x Hx) as [[Hi _ _] (v' & d' & Hv & Hc)].
  rewrite (C_root _ _ _ Hs) in Hv. injection Hv as <- <-.
  assert (forall r, result_ (prom x) = Some r -> r = v /\ d <= now s) as Hr.
  { intros r Hr. unfold cont_ok in Hc. destruct (at_ x) eqn:Ha; try (destruct Hc as [Hn _]; congruence); try (destruct Hc as (? & _ & Hn & _); congruence).
    - destruct Hc as [Hn ?]. split; [congruence|done].
    - by destruct (C_kept _ _ _ Hs x Hx). }
  split_and!; [done| |].
  - intros i r Hg. apply (Hr r). by eapply tk_done.
  - destruct (tk_called _ Hi) as (before & Hreg & Hcall). exists (before, pending (prom x)). cbn. split; [done|]. split.
    + destruct (result_ (prom x)) as [r|]; [|by destruct Hcall as [-> ->]]. by destruct (Hr r eq_refl) as [-> _].
    + intros Hf. pose proof (tk_result _ Hi) as H. unfold pending. rewrite Hf in *. by destruct H.
Qed.

End Invariant.

(** The step that stops a chain. *)
Lemma chain_stops es : forall s : system T, match chain_steps s es with
  | Ok _ => True
  | o => exists es1 e es2 s1, es = es1 ++ e :: es2 /\ chain_steps s es1 = Ok (Some s1) /\ chain_step s1 e = o
  end.
Proof.
  induction es as [|e es IH]; intros s; cbn [chain_steps]; [done|].
  destruct (chain_step s e) as [[s1|]| |] eqn:E; cbn [mbind result_bind]; try done; try (by exists [], e, es, s).
  specialize (IH s1). destruct (chain_steps s1 es); [done|..]; destruct IH as (es1 & e' & es2 & s2 & -> & Hst & Hm);
    exists (e :: es1), e', es2, s2; (split; [done|]; split; [cbn; by rewrite E|done]).
Qed.

(** C13: Take coroutines that only wait for futures with values, and of which none has an
    executor that runs functions in place and awaits a task. However the executors, the timer,
    the threads and the ends of the waits interleave, a task that awaits others has the result
    of the same program without threads, and not before the time of its sleeps is over: what
    [get_result] returns is this result, and the handlers that have been called were called
    with it, in the order of their registration, all of them once the coroutine is at its end.
    Only two things go wrong: a [get_result] whose wait has ended without a notification
    reads a result that is not there; and a coroutine that goes on with the result of the task it
    awaits destroys that task before its coroutine is at its final suspend point. *)
Theorem await_direct e (b : body T) es : awaits_safely e b ->
  match chain_steps (chain0 e b) es with
  | Ok (Some s) => exists x, tasks s !! 0%nat = Some x
     /\ (forall r, result_ (prom x) = Some r -> r = eval b /\ sleeps b <= now s)
     /\ (forall i r, getters (prom x) !! i = Some (GDone r) -> r = eval b)
     /\ (exists later, registered (prom x) = later.1 ++ later.2 /\ called (prom x) = omap (handler (eval b)) later.1
          /\ (pc (prom x) = At_final -> later.2 = []))
  | Ok None => True
  | Undefined => exists es1 ev es2 s1, es = es1 ++ ev :: es2 /\ chain_steps (chain0 e b) es1 = Ok (Some s1)
     /\ hazard (fun t i => Wake t i ∈ es1) s1 ev
  | Fatal _ => False
  end.
Proof.
  intros Hb. pose proof (chain_stops es (chain0 e b)) as H.
  assert (forall es1 s1, chain_steps (chain0 e b) es1 = Ok (Some s1) ->
    exists vs, chain_inv (fun t i => Wake t i ∈ es1) s1 vs (eval b, sleeps b)) as Hinv.
  { intros es1 s1 Hst. eapply chain_steps_inv; [by apply chain0_inv|done|exact Hst]. }
  destruct (chain_steps (chain0 e b) es) as [[s|]| |] eqn:E; [by eapply delivers, Hinv|done|..];
    destruct H as (es1 & ev & es2 & s1 & -> & Hst & Hev); destruct (Hinv _ _ Hst) as [vs Hs1];
    pose proof (chain_step_defined _ _ _ _ ev Hs1) as Hd; rewrite Hev in Hd; [done|by exists es1, ev, es2, s1].
Qed.

(** ** A schedule that completes *)

Definition leads (s s' : system T) : Prop := exists es, chain_steps s es = Ok (Some s').

Lemma leads_refl s : leads s s.
Proof. by exists []. Qed.

Lemma leads_step s s1 s2 e : chain_step s e = Ok (Some s1) -> leads s1 s2 -> leads s s2.
Proof. intros E [es Hes]. exists (e :: es). cbn. by rewrite E. Qed.

Lemma leads_trans s s1 s2 : leads s s1 -> leads s1 s2 -> leads s s2.
Proof.
  intros [es Hes] H. revert s Hes. induction es as [|e es IH]; intros s Hes; cbn in Hes; [by injection Hes as <-|].
  destruct (chain_step s e) as [[s3|]| |] eqn:E; cbn in Hes; try done. eapply leads_step; [exact E|by apply IH].
Qed.

(** The other tasks are as they were. *)
Definition others_kept (t : nat) (s s' : system T) : Prop :=
  (length (tasks s) <= length (tasks s'))%nat /\ forall u, u <> t -> (u < length (tasks s))%nat -> tasks s' !! u = tasks s !! u.

(** The task [t], which runs [b], gets to its end. *)
Definition finishes (b : body T) : Prop := forall s t x, tasks s !! t = Some x -> at_ x = Running b -> awaits_safely (exec_ x) b ->
  exists s', leads s s' /\ tasks s' !! t = Some (Task (exec_ x) (set_result (prom x) (eval b)) Returned) /\ others_kept t s s'.

Ltac look_up := cbn [tasks set_task set_prom move];
  repeat first [rewrite list_lookup_insert_eq by (rewrite ?length_insert; done) | rewrite list_lookup_insert_ne by done].

(** The end of an awaited task, once it has a result: its parent goes on with it. *)
Lemma child_ends s t c x k e v : tasks s !! t = Some x -> at_ x = Suspending c k -> t <> c -> runs_in_place (exec_ x) = false ->
  tasks s !! c = Some (Task e (set_result new_promise v) Returned) ->
  exists s', leads s s' /\ tasks s' !! t = Some (Task (exec_ x) (prom x) (Running (k v))) /\ length (tasks s') = length (tasks s)
    /\ forall u, u <> t -> u <> c -> tasks s' !! u = tasks s !! u.
Proof.
  intros Hx Ha Hne Hin Hc. pose proof (lookup_lt_Some _ _ _ Hx) as Ht. pose proof (lookup_lt_Some _ _ _ Hc) as Hlc.
  eexists. split.
  - eapply (leads_step _ _ _ (Notify c)); [cbn; rewrite Hc; reflexivity|].
    eapply (leads_step _ _ _ (Final c)); [cbn; look_up; reflexivity|].
    eapply (leads_step _ _ _ (Suspend t)); [cbn; look_up; rewrite Hx, Ha; look_up; cbn; rewrite Hin; reflexivity|].
    eapply (leads_step _ _ _ (Get_step c 0)); [cbn; look_up; reflexivity|].
    eapply (leads_step _ _ _ (Continue t 0)); [cbn; look_up; cbn; look_up; reflexivity|]. apply leads_refl.
  - look_up. split; [done|]. rewrite !length_insert. split; [done|]. intros u Hut Huc. by look_up.
Qed.

Lemma others_kept_trans t s s1 s2 : others_kept t s s1 -> others_kept t s1 s2 -> others_kept t s s2.
Proof. intros [H1 H2] [H3 H4]. split; [lia|]. intros u Hu Hl. rewrite H4 by (done || lia). by apply H2. Qed.

Lemma others_kept_update t s x : others_kept t s (set_task s t x).
Proof. split; cbn; [by rewrite length_insert|]. intros u Hu _. by look_up. Qed.

(** A task that goes on with [b] in some steps of its own gets to its end when [b] does. *)
Lemma finishes_later s s1 t x x1 b : leads s s1 -> others_kept t s s1 -> tasks s1 !! t = Some x1 -> finishes b ->
  at_ x1 = Running b -> awaits_safely (exec_ x1) b -> exec_ x1 = exec_ x -> prom x1 = prom x ->
  exists s', leads s s' /\ tasks s' !! t = Some (Task (exec_ x) (set_result (prom x) (eval b)) Returned) /\ others_kept t s s'.
Proof.
  intros Hl Hk Hx1 Hb Ha Hs He Hp. destruct (Hb s1 t x1 Hx1 Ha Hs) as (s' & Hl' & Hx' & Hk'). exists s'. rewrite <- He, <- Hp.
  split; [by eapply leads_trans|]. split; [done|by eapply others_kept_trans].
Qed.

Lemma every_body_finishes b : finishes b.
Proof.
  induction b as [r|ms b IH|fut k IH|e b IHb k IHk]; intros s t x Hx Ha Hs; pose proof (lookup_lt_Some _ _ _ Hx) as Ht.
  - exists (go s t x (Co_return r)). split; [|split].
    + eapply (leads_step _ _ _ (Go t)); [cbn; by rewrite Hx, Ha|apply leads_refl].
    + cbn [go]. by look_up.
    + apply others_kept_update.
  - eapply (finishes_later s _ t x (Task (exec_ x) (prom x) (Running b)) b); [| | |exact IH|reflexivity|exact Hs|reflexivity|reflexivity].
    + eapply (leads_step _ _ _ (Go t)); [cbn; by rewrite Hx, Ha|].
      eapply (leads_step _ _ _ (Tick (Z.max 0 ms))); [cbn; by rewrite (proj2 (Z.leb_le _ _)) by lia|].
      eapply (leads_step _ _ _ (Due t)); [cbn; look_up; cbn; unfold resume_sleeper; cbn; rewrite (proj2 (Z.leb_le _ _)) by lia; reflexivity|].
      eapply (leads_step _ _ _ (Run t)); [cbn; look_up; reflexivity|apply leads_refl].
    + split; cbn; [by rewrite !length_insert|]. intros u Hu _. by look_up.
    + by look_up.
  - destruct fut as [w|w]; [|done].
    eapply (finishes_later s _ t x (Task (exec_ x) (prom x) (Running (k w))) (k w)); [| | |exact (IH w)|reflexivity|exact Hs|reflexivity|reflexivity].
    + eapply (leads_step _ _ _ (Go t)); [cbn; by rewrite Hx, Ha|].
      eapply (leads_step _ _ _ (Future_ready t)); [cbn; look_up; reflexivity|].
      eapply (leads_step _ _ _ (Run t)); [cbn; look_up; reflexivity|apply leads_refl].
    + split; cbn; [by rewrite !length_insert|]. intros u Hu _. by look_up.
    + by look_up.
  - destruct Hs as (Hin & Hsb & Hsk). set (c := length (tasks s)).
    set (s2 := move (go s t x (Co_await e b k)) c (new_task e b) (Running b)).
    assert (t <> c) as Hne by (unfold c; lia). assert (c < length (tasks s ++ [new_task e b]))%nat as Hc by (rewrite length_app; cbn; unfold c; lia).
    assert (leads s s2) as Hl2.
    { eapply (leads_step _ _ _ (Go t)); [cbn; by rewrite Hx, Ha|].
      eapply (leads_step _ _ _ (Run c)); [|apply leads_refl]. cbn. rewrite list_lookup_insert_ne by done.
      rewrite lookup_app_r, Nat.sub_diag by done. done. }
    destruct (IHb s2 c (Task e new_promise (Running b))) as (s3 & Hl3 & Hc3 & Hk3);
      [cbn; apply list_lookup_insert_eq; by rewrite length_insert|done|done|].
    assert (tasks s3 !! t = Some (Task (exec_ x) (prom x) (Suspending c k))) as Ht3.
    { destruct Hk3 as [_ ->]; [|done|cbn; rewrite !length_insert, length_app; lia]. cbn. rewrite list_lookup_insert_ne by done.
      apply list_lookup_insert_eq. rewrite length_app. lia. }
    destruct (child_ends s3 t c _ k e (eval b) Ht3 eq_refl Hne Hin Hc3) as (s4 & Hl4 & Ht4 & Hlen & Hk4).
    eapply (finishes_later s s4 t x _ (k (eval b)));
      [by eapply leads_trans; [|eapply leads_trans]| |exact Ht4|apply IHk|reflexivity|exact Hsk|reflexivity|reflexivity].
    destruct Hk3 as [Hlen3 Hk3]. cbn in Hlen3. rewrite !length_insert, length_app in Hlen3. cbn in Hlen3. split; [lia|].
    intros u Hu Hlu. assert (u <> c) by (unfold c; lia). rewrite Hk4, Hk3; [|done|cbn; rewrite !length_insert, length_app; lia|done..].
    cbn. rewrite !list_lookup_insert_ne by done. by apply lookup_app_l.
Qed.

(** There is a schedule in which the task gets to its end. *)
Theorem chain_completes e (b : body T) : awaits_safely e b -> exists es s x, chain_steps (chain0 e b) es = Ok (Some s)
  /\ tasks s !! 0%nat = Some x /\ result_ (prom x) = Some (eval b).
Proof.
  intros Hb. destruct (every_body_finishes b (move (chain0 e b) 0%nat (new_task e b) (Running b)) 0%nat (Task e new_promise (Running b)) eq_refl eq_refl Hb)
    as (s & [es Hes] & Hx & _). exists (Run 0 :: es), s. eexists. split; [exact Hes|]. split; [exact Hx|done].
Qed.

End Props.

(** ** The chain of main.cpp *)

Lemma simple_task_safe : awaits_safely LooperExecutor simple_task.
Proof. done. Qed.

(** [main] registers its handlers, waits for the result, and all goes well. *)
Definition demo_chain : list chain_event :=
  [Main_register (Then 1); Main_register (Catching 2); Run 0; Main_get; Get_step 0 0; Go 0; Run 1; Suspend 0; Go 1; Tick 1000; Due 1; Run 1; Go 1;
   Notify 1; Notify 1; Get_step 1 0; Final 1; Continue 0 0;
   Go 0; Run 2; Suspend 0; Go 2; Tick 2000; Due 2; Run 2; Go 2; Notify 2; Notify 2; Get_step 2 0; Final 2; Continue 0 0;
   Go 0; Notify 0; Notify 0; Notify 0; Get_step 0 0; Final 0].

(** It prints 6 in both ways, after 3 seconds at least. *)
Lemma await_direct_witness : awaits_safely LooperExecutor simple_task
  /\ match chain_steps (chain0 LooperExecutor simple_task) demo_chain with
  | Ok (Some s) => exists x, tasks s !! 0%nat = Some x /\ getters (prom x) = [GDone (Value 6)] /\ called (prom x) = [(1, Some (Value 6))]
      /\ forall r, result_ (prom x) = Some r -> r = Value 6 /\ 3000 <= now s
  | _ => False
  end.
Proof.
  split; [exact simple_task_safe|]. pose proof (await_direct LooperExecutor simple_task demo_chain simple_task_safe) as H.
  destruct (chain_steps (chain0 LooperExecutor simple_task) demo_chain) as [[s|]| |] eqn:E; [|by vm_compute in E..].
  destruct H as (x & Hx & Hr & _). exists x. split; [done|].
  split; [|split; [|exact Hr]]; vm_compute in E; injection E as <-; vm_compute in Hx; injection Hx as <-; done.
Defined.

Lemma chain_completes_witness : exists es s x, chain_steps (chain0 LooperExecutor simple_task) es = Ok (Some s)
  /\ tasks s !! 0%nat = Some x /\ result_ (prom x) = Some (Value 6).
Proof. apply (chain_completes LooperExecutor simple_task simple_task_safe). Defined.

(** The parent has the result before the child is at its final suspend point, and destroys
    a coroutine that runs. *)
Example parent_destroys_early : chain_steps (chain0 LooperExecutor simple_task)
  [Run 0; Go 0; Run 1; Suspend 0; Go 1; Tick 1000; Due 1; Run 1; Go 1; Notify 1; Notify 1; Get_step 1 0; Continue 0 0] = Undefined.
Proof. by vm_compute. Qed.

(** A future with an exception ends the program. *)
Example future_terminates : chain_steps (chain0 LooperExecutor (Co_future (Exception 5) (fun v => Co_return (Value v)))) [Run 0; Go 0; Future_ready 0]
  = Fatal "an exception leaves the function of a thread" (A := option (system Z)).
Proof. by vm_compute. Qed.
