(* ===== verification/CoDemo.v ===== *)
(** The demonstration of the channel (src/coroutine/main.cpp): the coroutines
    [producer], [consumer] and [consumer2] of [main] over a channel for two values. Each
    coroutine has a looper of its own, so they interleave; a step is one operation of a
    coroutine on the channel, the end of a sleep, or a function that a looper runs. How
    long the coroutines sleep plays no part: a sleep ends at any time. *)

From S2P Require Import Prelude Result CoChannel.
#[local] Open Scope Z_scope.

(** Where [producer] is. *)
Inductive producer_at :=
| P_while (i : Z)      (* at [while (i < 10)] *)
| P_suspend (i : Z)    (* the awaiter of [channel << i] is made *)
| P_await (i : Z)      (* in [co_await (channel << i)] *)
| P_sleep (i : Z)      (* in [co_await 300ms] *)
| P_clean_up           (* in [channel.close()], the flag is set *)
| P_ended
| P_threw.             (* an exception has left the coroutine *)

(** Where a consumer is. *)
Inductive consumer_at :=
| C_while              (* at [while (channel.is_active())] *)
| C_suspend            (* the awaiter of [channel.read()] is made *)
| C_await              (* in [co_await channel.read()] *)
| C_sleep              (* in [co_await 2s] or [co_await 3s] *)
| C_ended.

(** A consumer, the number of its reads and the values it has received. *)
Record consumer := { place : consumer_at; reads : nat; received : list Z }.

Record demo := { chan : channel Z; producing : producer_at; consumers : list consumer }.

Definition new_demo : demo :=
  {| chan := new_channel 2; producing := P_while 0;
     consumers := replicate 2 {| place := C_while; reads := O; received := [] |} |}.

(** The addresses of the awaiters: every one is new. *)
Definition write_at (i : Z) : nat := (3 * Z.to_nat i)%nat.
Definition read_at (j n : nat) : nat := (3 * n + S j)%nat.

Definition await_of (s : channel Z) (a : nat) : option (await_state Z) := state <$> awaiters s !! a.

Definition with_producer (d : demo) (s : channel Z) (p : producer_at) : demo :=
  {| chan := s; producing := p; consumers := consumers d |}.
Definition with_consumer (d : demo) (s : channel Z) (j : nat) (c : consumer) : demo :=
  {| chan := s; producing := producing d; consumers := <[j := c]> (consumers d) |}.

(** A step of [producer]; [None] while it waits or when it has ended. *)
Definition producer_step (d : demo) : option (result demo) :=
  let s := chan d in
  match producing d with
  | P_while i =>
    Some (if i <? 10 then s ← step s (Write (write_at i) i LooperExecutor); Ok (with_producer d s (P_suspend i))
          else s ← step s Close; Ok (with_producer d s P_clean_up))
  | P_suspend i => Some (s ← step s (Suspend (write_at i)); Ok (with_producer d s (P_await i)))
  | P_await i =>
    match await_of s (write_at i) with
    | Some (Returned _) => Some (Ok (with_producer d s (P_sleep i)))
    | Some Threw => Some (Ok (with_producer d s P_threw))
    | _ => None
    end
  | P_sleep i => Some (Ok (with_producer d s (P_while (i + 1))))
  | P_clean_up => Some (s ← step s Clean_up; Ok (with_producer d s P_ended))
  | P_ended | P_threw => None
  end.

Definition move (c : consumer) (p : consumer_at) : consumer :=
  {| place := p; reads := reads c; received := received c |}.

(** A step of consumer [j]: the exception of the channel is caught in the loop. *)
Definition consumer_step (d : demo) (j : nat) (c : consumer) : option (result demo) :=
  let s := chan d in
  match place c with
  | C_while =>
    Some (if active s then s ← step s (Read (read_at j (reads c)) LooperExecutor); Ok (with_consumer d s j (move c C_suspend))
          else Ok (with_consumer d s j (move c C_ended)))
  | C_suspend => Some (s ← step s (Suspend (read_at j (reads c))); Ok (with_consumer d s j (move c C_await)))
  | C_await =>
    match await_of s (read_at j (reads c)) with
    | Some (Returned (Some v)) =>
      Some (Ok (with_consumer d s j {| place := C_sleep; reads := S (reads c); received := received c ++ [v] |}))
    | Some Threw => Some (Ok (with_consumer d s j {| place := C_while; reads := S (reads c); received := received c |}))
    | _ => None
    end
  | C_sleep => Some (Ok (with_consumer d s j (move c C_while)))
  | C_ended => None
  end.

Inductive demo_event :=
| Producer
| Consumer (j : nat)
| Looper (k : nat).    (* the [k]-th of the dispatched functions *)

Definition demo_step (d : demo) (e : demo_event) : option (result demo) :=
  match e with
  | Producer => producer_step d
  | Consumer j => c ← consumers d !! j; consumer_step d j c
  | Looper k =>
    if (k <? length (pending (chan d)))%nat
    then Some (s ← step (chan d) (Run k); Ok {| chan := s; producing := producing d; consumers := consumers d |})
    else None
  end.

(** An execution; what cannot move is passed over. *)
Fixpoint demo_steps (d : demo) (es : list demo_event) : result demo :=
  match es with
  | [] => Ok d
  | e :: es => match demo_step d e with None => demo_steps d es | Some r => d ← r; demo_steps d es end
  end.

(** [main] waits for the three coroutines. *)
Definition demo_over (d : demo) : bool :=
  match producing d with
  | P_ended => forallb (fun c => match place c with C_ended => true | _ => false end) (consumers d)
  | _ => false
  end.
