(* ===== verification/CoDemoProps.v ===== *)
(** The demonstration of the channel: what its consumers receive, and that it goes on
    until the three coroutines have ended. *)

From S2P Require Import Prelude Result CoChannel CoChannelProps CoDemo.
From Stdlib Require Import Sorted.
#[local] Open Scope Z_scope.

(** ** What the operations of the channel do to an awaiter *)

Section Frames.
Implicit Types (s : channel Z) (a b : nat).

(** Nothing but the states of awaiters, lists and records of deliveries has changed. *)
Record calm s s' : Prop := {
  calm_active : active s' = active s;
  calm_cleaning : cleaning s' = cleaning s;
  calm_asked : asked s' = asked s;
  calm_written : written s' = written s;
  calm_kind b : kind_of s' b = kind_of s b
}.

Lemma awaiters_set s a st b : awaiters (set_state s a st) !! b
  = (if decide (a = b) then (fun x => {| kind := kind x; exec := exec x; state := st |}) <$> awaiters s !! b else awaiters s !! b).
Proof. unfold set_state. cbn. case_decide as Hd; [subst; by rewrite lookup_alter_eq|by rewrite lookup_alter_ne]. Qed.

Lemma calm_set s a st : calm s (set_state s a st).
Proof. split; try done. apply kind_of_set. Qed.

Lemma calm_trans s1 s2 s3 : calm s1 s2 -> calm s2 s3 -> calm s1 s3.
Proof. intros [?????] [?????]. split; congruence. Qed.

Lemma calm_throw s a s' : throw false s a = Ok s' -> calm s s' /\ awaiters s' = awaiters (set_state s a Threw).
Proof.
  unfold throw, destroy. destruct (kind <$> awaiters (set_state s a Threw) !! a) as [[]|]; [..|done]; intros [= <-].
  all: split; [|done]; apply (calm_trans _ (set_state s a Threw)); [apply calm_set|by split].
Qed.

Lemma make_fresh s a k e : awaiters s !! a = None ->
  let s' := make_awaiter s a k e in
  active s' = active s /\ cleaning s' = cleaning s /\ asked s' = asked s /\ written s' = written s
  /\ forall b, awaiters s' !! b = if decide (a = b)
       then Some {| kind := k; exec := e; state := if active s then Made else Threw |} else awaiters s !! b.
Proof.
  intros Ha s'. unfold s', make_awaiter. rewrite Ha. split_and!; try done. intros b. cbn.
  case_decide as Hd; [subst; by rewrite lookup_insert_eq|by rewrite lookup_insert_ne].
Qed.

Lemma suspend_made s a x s' : awaiters s !! a = Some x -> state x = Made -> await_suspend s a = Ok s' ->
  active s' = active s /\ cleaning s' = cleaning s /\ awaiters s' = awaiters (set_state s a (if active s then Suspended else Threw))
  /\ asked s' = (match kind x with ReadAwaiter => if active s then asked s ++ [a] else asked s | _ => asked s end)
  /\ written s' = (match kind x with WriteAwaiter v => if active s then written s ++ [v] else written s | _ => written s end).
Proof.
  intros Ha Hx. unfold await_suspend. rewrite Ha, Hx.
  assert (kind_of (set_state s a Suspended) a = Some (kind x)) as Hk by (rewrite kind_of_set; unfold kind_of; by rewrite Ha).
  destruct (active s) eqn:Eac.
  - destruct (kind x) as [v|] eqn:Ek.
    + unfold try_push_writer. cbn [active set_state with_awaiters]. rewrite Eac. cbn [negb].
      rewrite (val_of_Ok _ a v) by done. cbn [mbind result_bind]. cbn.
      destruct (reader_list s); [destruct (has_room _)|]; intros [= <-]; by cbn.
    + unfold try_push_reader. cbn [active set_state with_awaiters]. rewrite Eac. cbn [negb]. cbn.
      destruct (buffer s), (writer_list s) as [|w ws]; try (intros [= <-]; by cbn);
        destruct (val_of _ w); try done; cbn; intros [= <-]; by cbn.
  - assert ((match kind x with WriteAwaiter _ => try_push_writer (set_state s a Suspended) a
             | ReadAwaiter => try_push_reader (set_state s a Suspended) a end) = Ok None) as ->.
    { unfold try_push_writer, try_push_reader. cbn [active set_state with_awaiters]. rewrite Eac. by destruct (kind x). }
    cbn [mbind result_bind]. intros [[Hac Hcl Has Hwr _] Haw]%calm_throw. rewrite Hac, Hcl, Has, Hwr, Haw. split_and!; [done|done| |by destruct (kind x)..].
    apply map_eq. intros b. rewrite !awaiters_set. case_decide; [|done]. by destruct (awaiters s !! b).
Qed.

Lemma run_one s k s' : run_pending s k = Ok s' -> calm s s' /\
  (s' = s \/ exists a r st, pending s !! k = Some (a, r) /\ state_of s a = Some Suspended
     /\ awaiters s' = awaiters (set_state s a st)
     /\ if active s then exists o, st = Returned o /\ (kind_of s a = Some ReadAwaiter -> o <> None) else st = Threw).
Proof.
  unfold run_pending. destruct (pending s !! k) as [[a r]|] eqn:Ek; [|intros [= <-]; split; [by split|by left]].
  unfold await_resume. cbn [awaiters with_pending active]. destruct (awaiters s !! a) as [x|] eqn:Ea; [|done]. cbn [lift mbind result_bind].
  destruct (state x) eqn:Ex; try done. assert (state_of s a = Some Suspended) as Hs by (unfold state_of; by rewrite Ea; cbn; rewrite Ex).
  assert (calm s (with_pending s (delete k (pending s)))) as Hc by (by split).
  destruct (active s) eqn:Eac.
  - destruct (kind x) as [v|] eqn:Ekx, r as [|w|]; try done; intros [= <-];
      (split; [eapply calm_trans; [exact Hc|apply calm_set]|right]).
    + exists a, Resume, (Returned None). split_and!; [done..|]. exists None. split; [done|].
      unfold kind_of. rewrite Ea. cbn. by rewrite Ekx.
    + exists a, (Resume_with w), (Returned (Some w)). split_and!; [done..|]. by exists (Some w).
  - intros [Hc' Haw]%calm_throw. split; [by eapply calm_trans|]. right. exists a, r, Threw. by split_and!.
Qed.

Lemma resume_all_closed s l s' : active s = false -> resume_all s l = Ok s' -> exists p, s' = with_pending s p.
Proof.
  revert s. induction l as [|[a r] l IH]; intros s Hac; cbn [resume_all]; [intros [= <-]; exists (pending s); by destruct s|].
  unfold resume_locked, await_resume. destruct (awaiters s !! a) as [x|]; [|done]. cbn [lift mbind result_bind].
  destruct (runs_in_place (exec x)); [destruct (state x); try done; by rewrite Hac|].
  cbn [mbind result_bind]. intros Hl. destruct (IH (resume s a r) Hac Hl) as [p ->]. by exists p.
Qed.

(** [close] in its two steps. *)
Lemma clean_up_frame s s' : active s = false -> clean_up s = Ok s' ->
  active s' = false /\ asked s' = asked s /\ written s' = written s /\ awaiters s' = awaiters s /\ cleaning s' = false.
Proof.
  intros Hac. unfold clean_up. destruct (cleaning s) eqn:Ecl; cbn [negb]; [|by intros [= <-]].
  destruct (vals_of s (writer_list s)); [|done..]. cbn [mbind result_bind]. destruct (resume_all _ _) as [s2| |] eqn:Er; [|done..].
  apply resume_all_closed in Er as [p ->]; [|done]. by intros [= <-].
Qed.

End Frames.

(** ** The invariant *)

(** Values are numbered as they are written: value [i] is the number of writes before it. *)
Definition sent (p : producer_at) : Z :=
  match p with P_while i | P_suspend i => i | P_await i | P_sleep i => i + 1 | _ => 10 end.

(** The awaiters that the producer has made. *)
Definition made (p : producer_at) : Z :=
  match p with P_while i => i | P_suspend i | P_await i | P_sleep i => i + 1 | _ => 10 end.

Record producer_ok (s : channel Z) (p : producer_at) : Prop := {
  po_range : match p with
             | P_while i => 0 <= i <= 10
             | P_suspend i | P_await i | P_sleep i => 0 <= i < 10
             | P_threw => False
             | _ => True
             end;
  po_active : active s = match p with P_clean_up | P_ended => false | _ => true end;
  po_clean : p = P_ended -> cleaning s = false;
  po_sent : written s = Z.of_nat <$> seq 0 (Z.to_nat (sent p));
  po_new m : made p <= Z.of_nat m -> awaiters s !! (3 * m)%nat = None;
  po_at : match p with
          | P_suspend i => exists x, awaiters s !! write_at i = Some x /\ state x = Made /\ kind x = WriteAwaiter i
          | P_await i => exists x, awaiters s !! write_at i = Some x /\ kind x = WriteAwaiter i
              /\ (state x = Suspended \/ exists o, state x = Returned o)
          | _ => True
          end
}.

(** The reads for which a consumer has made an awaiter, and those that have reached the channel. *)
Definition begun (c : consumer) : nat := match place c with C_suspend | C_await => S (reads c) | _ => reads c end.
Definition asked_by (c : consumer) : nat := match place c with C_await => S (reads c) | _ => reads c end.

(** The values of a consumer belong to reads in their order: value [v] to the read that
    was the [v]-th to ask. *)
Definition received_by (s : channel Z) (j : nat) (c : consumer) (ids : list nat) : Prop :=
  StronglySorted lt ids /\ Forall (fun m => m < reads c)%nat ids
  /\ Forall2 (fun m v => 0 <= v < Z.of_nat (length (written s)) /\ asked s !! Z.to_nat v = Some (read_at j m)) ids (received c).

Record consumer_ok (s : channel Z) (j : nat) (c : consumer) : Prop := {
  co_new m : (begun c <= m)%nat -> awaiters s !! read_at j m = None;
  co_at : match place c with
          | C_suspend => exists x, awaiters s !! read_at j (reads c) = Some x /\ kind x = ReadAwaiter
              /\ (state x = Made \/ state x = Threw)
          | C_await => exists x, awaiters s !! read_at j (reads c) = Some x /\ kind x = ReadAwaiter
              /\ state x <> Made /\ state x <> Returned None
          | C_ended => active s = false
          | _ => True
          end;
  co_asked m : read_at j m ∈ asked s -> (m < asked_by c)%nat;
  co_received : exists ids, received_by s j c ids
}.

Record demo_ok (d : demo) : Prop := {
  do_channel : channel_inv (chan d);
  do_producer : producer_ok (chan d) (producing d);
  do_two : length (consumers d) = 2%nat;
  do_consumer j c : consumers d !! j = Some c -> consumer_ok (chan d) j c;
  do_order j p q m m' : (j < 2)%nat -> (p < q)%nat -> asked (chan d) !! p = Some (read_at j m) ->
    asked (chan d) !! q = Some (read_at j m') -> (m < m')%nat;
  do_calm a x : active (chan d) = true -> awaiters (chan d) !! a = Some x -> state x <> Threw;
  do_looper a x : awaiters (chan d) !! a = Some x -> exec x = LooperExecutor
}.

#[local] Arguments read_at : simpl never.
#[local] Arguments write_at : simpl never.

Lemma read_at_inj j j' m m' : (j < 2)%nat -> (j' < 2)%nat -> read_at j m = read_at j' m' -> j = j' /\ m = m'.
Proof. unfold read_at. lia. Qed.

(** An awaiter is as it was, or its coroutine has been resumed. *)
Definition evolves (s s' : channel Z) (a : nat) : Prop :=
  awaiters s' !! a = awaiters s !! a \/
  exists x st, awaiters s !! a = Some x /\ state x = Suspended
    /\ awaiters s' !! a = Some {| kind := kind x; exec := exec x; state := st |}
    /\ if active s then exists o, st = Returned o /\ (kind x = ReadAwaiter -> o <> None) else st = Threw.

Lemma evolves_none s s' a : evolves s s' a -> awaiters s !! a = None -> awaiters s' !! a = None.
Proof. intros [->|(x & st & Hx & _)]; [done|]. by rewrite Hx. Qed.

Lemma producer_evolves s s' p : producer_ok s p -> (forall m, evolves s s' (3 * m)) -> active s' = active s ->
  cleaning s' = cleaning s -> written s' = written s -> producer_ok s' p.
Proof.
  intros [Hr Hac Hcl Hs Hn Hat] He Ha Hc Hw. split; [done|congruence|by rewrite Hc|by rewrite Hw|..].
  - intros m Hm. eapply evolves_none; [apply He|by apply Hn].
  - destruct p; try done; destruct Hat as (x & Hx & Hst); specialize (He (Z.to_nat i)); fold (write_at i) in He;
      destruct He as [->|(x' & st & Hx' & Hsu & -> & Hev)]; try (by exists x); rewrite Hx in Hx'; injection Hx' as <-.
    + destruct Hst as [Hst _]. congruence.
    + eexists. split; [done|]. split; [by destruct Hst|]. right. rewrite Hac in Hev. destruct Hev as (o & -> & _). by exists o.
Qed.

Lemma consumer_evolves s s' j c l vs : consumer_ok s j c -> (forall m, evolves s s' (read_at j m)) ->
  asked s' = asked s ++ l -> (forall m, read_at j m ∉ l) -> written s' = written s ++ vs ->
  (active s = false -> active s' = false) -> consumer_ok s' j c.
Proof.
  intros [Hn Hat Has (ids & Hsort & Hlt & Hrec)] He Hl Hnl Hvs Hac. split.
  - intros m Hm. eapply evolves_none; [apply He|by apply Hn].
  - specialize (He (reads c)). destruct (place c); try done; [| |by apply Hac].
    + destruct Hat as (x & Hx & Hk & Hst). destruct He as [->|(x' & st & Hx' & Hsu & _)]; [by exists x|].
      rewrite Hx in Hx'. injection Hx' as <-. destruct Hst; congruence.
    + destruct Hat as (x & Hx & Hk & Hst). destruct He as [->|(x' & st & Hx' & Hsu & -> & Hev)]; [by exists x|].
      rewrite Hx in Hx'. injection Hx' as <-. eexists. split; [done|]. cbn. split; [done|].
      destruct (active s); [|by subst]. destruct Hev as (o & -> & Ho). split; [done|]. intros [= ->]. by apply Ho.
  - intros m. rewrite Hl, elem_of_app. intros [Hm|Hm]; [by apply Has|by destruct (Hnl m)].
  - exists ids. split_and!; try done. eapply Forall2_impl; [exact Hrec|]. intros m v [Hv Ha].
    rewrite Hvs, Hl, length_app. split; [lia|]. by apply lookup_app_l_Some.
Qed.

(** ** A looper runs a function *)

Lemma consumer_evolves0 s s' j c : consumer_ok s j c -> (forall m, evolves s s' (read_at j m)) ->
  asked s' = asked s -> written s' = written s -> (active s = false -> active s' = false) -> consumer_ok s' j c.
Proof.
  intros Hc He Ha Hw Hac. eapply (consumer_evolves s s' j c [] []); try done; rewrite ?app_nil_r; try done.
  intros m Hm. by apply not_elem_of_nil in Hm.
Qed.

Lemma looper_ok d s' : demo_ok d -> channel_inv s' -> calm (chan d) s' -> (forall a, evolves (chan d) s' a) ->
  demo_ok {| chan := s'; producing := producing d; consumers := consumers d |}.
Proof.
  intros [Hch Hp H2 Hc Ho Hca Hlo] Hs' [Hac Hcl Has Hwr _] He. split; cbn.
  - done.
  - by apply (producer_evolves (chan d)).
  - done.
  - intros j c Hj. apply (consumer_evolves0 (chan d)); [by apply Hc|done..|by rewrite Hac].
  - intros j p q m m'. rewrite Has. apply Ho.
  - rewrite Hac. intros a x Ha Hx. destruct (He a) as [Heq|(x0 & st & Hx0 & Hsu & Heq & Hst)]; rewrite Heq in Hx.
    + by apply (Hca a).
    + injection Hx as <-. cbn. rewrite Ha in Hst. by destruct Hst as (o & -> & _).
  - intros a x Hx. destruct (He a) as [Heq|(x0 & st & Hx0 & Hsu & Heq & Hst)]; rewrite Heq in Hx; [by apply (Hlo a)|].
    injection Hx as <-. cbn. by apply (Hlo a).
Qed.

Lemma run_evolves s k s' : run_pending s k = Ok s' -> forall a, evolves s s' a.
Proof.
  intros Hr b. destruct (run_one s k s' Hr) as [_ [->|(a & r & st & _ & Hsu & Haw & Hst)]]; [by left|].
  unfold evolves. rewrite Haw, awaiters_set. case_decide as Hd; [subst b|by left]. right.
  unfold state_of in Hsu. destruct (awaiters s !! a) as [x|] eqn:Ex; [|done]. injection Hsu as Hsu.
  exists x, st. split_and!; try done. destruct (active s); [|done]. destruct Hst as (o & -> & Ho).
  exists o. split; [done|]. intros Hk. apply Ho. unfold kind_of. rewrite Ex. cbn. by rewrite Hk.
Qed.

(** ** A coroutine moves *)

Lemma handed_place s a (v : Z) n : channel_inv s -> written s = Z.of_nat <$> seq 0 n -> (a, v) ∈ handed s ->
  0 <= v < Z.of_nat (length (written s)) /\ asked s !! Z.to_nat v = Some a.
Proof.
  intros [_ Hf _] Hw (p & Hp)%list_elem_of_lookup. destruct (fl_values s Hf) as (vs & _ & Hv).
  assert (written s !! p = Some v) as Hwp by (rewrite Hv; apply lookup_app_l_Some; by rewrite list_lookup_fmap, Hp).
  assert (asked s !! p = Some a) as Hap by (rewrite (fl_asked s Hf); apply lookup_app_l_Some; by rewrite list_lookup_fmap, Hp).
  pose proof (lookup_lt_Some _ _ _ Hwp). rewrite Hw, list_lookup_fmap in Hwp. apply fmap_Some in Hwp as (q & Hq & ->).
  apply lookup_seq in Hq as [-> _]. cbn. rewrite Nat2Z.id. split; [lia|done].
Qed.

(** The producer moves without the channel. *)
Lemma producer_moves d p : demo_ok d -> producer_ok (chan d) p -> demo_ok (with_producer d (chan d) p).
Proof. intros [] Hp. by split. Qed.

(** A consumer moves, and the channel with it. *)
Lemma consumer_moves d s' j c c' : demo_ok d -> consumers d !! j = Some c -> channel_inv s' ->
  producer_ok s' (producing d) -> consumer_ok s' j c' ->
  (forall j' c', j' <> j -> consumers d !! j' = Some c' -> consumer_ok s' j' c') ->
  (forall j p q m m', (j < 2)%nat -> (p < q)%nat -> asked s' !! p = Some (read_at j m) ->
     asked s' !! q = Some (read_at j m') -> (m < m')%nat) ->
  (forall a x, active s' = true -> awaiters s' !! a = Some x -> state x <> Threw) ->
  (forall a x, awaiters s' !! a = Some x -> exec x = LooperExecutor) ->
  demo_ok (with_consumer d s' j c').
Proof.
  intros [Hch Hp H2 Hc Ho Hca Hlo] Hj Hs' Hp' Hc' Hoth ???. split; try done; cbn.
  - by rewrite length_insert.
  - intros j' c2 Hj2. destruct (decide (j' = j)) as [->|Hne].
    + rewrite list_lookup_insert_eq in Hj2 by (by apply lookup_lt_Some in Hj). by injection Hj2 as <-.
    + rewrite list_lookup_insert_ne in Hj2 by done. by apply Hoth.
Qed.

Lemma consumer_stays d j c c' : demo_ok d -> consumers d !! j = Some c -> consumer_ok (chan d) j c' ->
  demo_ok (with_consumer d (chan d) j c').
Proof.
  intros Hd Hj Hc'. pose proof Hd as [Hch Hp H2 Hc Ho Hca Hlo]. apply (consumer_moves d (chan d) j c c'); try done.
  intros j' c2 _. apply Hc.
Qed.

(** *** The consumers *)

Lemma read_new d j c : demo_ok d -> consumers d !! j = Some c -> place c = C_while -> active (chan d) = true ->
  demo_ok (with_consumer d (make_awaiter (chan d) (read_at j (reads c)) ReadAwaiter LooperExecutor) j (move c C_suspend)).
Proof.
  intros Hd Hj Hpl Hac. pose proof Hd as [Hch Hp H2 Hc Ho Hca Hlo]. pose proof (Hc j c Hj) as [Hn Hat Has Hrec].
  pose proof (lookup_lt_Some _ _ _ Hj) as Hj2. rewrite H2 in Hj2. unfold begun, asked_by in *. rewrite Hpl in *.
  assert (awaiters (chan d) !! read_at j (reads c) = None) as Hnew by (by apply Hn).
  destruct (make_fresh (chan d) (read_at j (reads c)) ReadAwaiter LooperExecutor Hnew) as (Ha & Hcl & Hask & Hwr & Haw).
  set (s' := make_awaiter _ _ _ _) in *.
  assert (forall b, b <> read_at j (reads c) -> evolves (chan d) s' b) as Hev
    by (intros b Hb; left; rewrite Haw; by rewrite decide_False by congruence).
  apply (consumer_moves d s' j c); try done.
  - by apply make_awaiter_inv.
  - apply (producer_evolves (chan d)); try done. intros m. apply Hev. unfold read_at. lia.
  - split; cbn.
    + intros m Hm. rewrite Haw, decide_False by (intros E; apply read_at_inj in E; lia). apply Hn. lia.
    + eexists. rewrite Haw, decide_True by done. split; [done|]. split; [done|]. left. cbn. by rewrite Hac.
    + rewrite Hask. done.
    + destruct Hrec as [ids Hrec]. exists ids. unfold received_by. by rewrite Hask, Hwr.
  - intros j' c' Hne Hj'. pose proof (lookup_lt_Some _ _ _ Hj') as Hj2'. rewrite H2 in Hj2'.
    apply (consumer_evolves0 (chan d)); try done; [by apply Hc| |by rewrite Ha].
    intros m. apply Hev. intros E%read_at_inj; lia.
  - intros j' p q m m'. rewrite Hask. apply Ho.
  - intros a x. rewrite Ha, Haw. case_decide; [|by apply Hca]. intros _ [= <-]. cbn. by rewrite Hac.
  - intros a x. rewrite Haw. case_decide; [|by apply Hlo]. by intros [= <-].
Qed.

Lemma read_suspends d j c : demo_ok d -> consumers d !! j = Some c -> place c = C_suspend ->
  exists s', await_suspend (chan d) (read_at j (reads c)) = Ok s' /\ demo_ok (with_consumer d s' j (move c C_await)).
Proof.
  intros Hd Hj Hpl. pose proof Hd as [Hch Hp H2 Hc Ho Hca Hlo]. pose proof (Hc j c Hj) as [Hn Hat Has (ids & Hrec)].
  pose proof (lookup_lt_Some _ _ _ Hj) as Hj2. rewrite H2 in Hj2. unfold begun, asked_by in *. rewrite Hpl in *.
  set (a := read_at j (reads c)) in *. destruct Hat as (x & Hx & Hk & Hst).
  destruct (await_suspend_inv (chan d) a Hch) as (s' & Hs & Hs'). exists s'. split; [done|].
  destruct Hst as [Hm|Ht].
  2: { (* the channel was closed in between *)
    unfold await_suspend in Hs. rewrite Hx, Ht in Hs. injection Hs as <-. apply (consumer_stays d j c); [done..|].
    split; cbn; [done| | |by exists ids].
    - exists x. by rewrite Ht.
    - intros m Hin. specialize (Has m Hin). unfold asked_by. cbn. lia. }
  destruct (suspend_made (chan d) a x s' Hx Hm Hs) as (Ha & Hcl & Haw & Hask & Hwr). rewrite Hk in Hask, Hwr.
  assert (forall b, b <> a -> evolves (chan d) s' b) as Hev
    by (intros b Hb; left; rewrite Haw, awaiters_set; by rewrite decide_False by congruence).
  assert (exists l, asked s' = asked (chan d) ++ l /\ forall b, b ∈ l -> b = a) as (l & Hl & Hla).
  { destruct (active (chan d)); [by exists [a]; split; [|intros b ->%list_elem_of_singleton]|].
    exists []. rewrite app_nil_r. split; [done|]. intros b Hb. by apply not_elem_of_nil in Hb. }
  apply (consumer_moves d s' j c); try done.
  - apply (producer_evolves (chan d)); try done. intros m. apply Hev. unfold a, read_at. lia.
  - split; cbn.
    + intros m Hm'. rewrite Haw, awaiters_set, decide_False by (intros E; apply read_at_inj in E; lia). by apply Hn.
    + fold a. rewrite Haw, awaiters_set, decide_True, Hx by done. eexists. split; [done|]. cbn. split; [done|]. by destruct (active (chan d)).
    + intros m. rewrite Hl, elem_of_app. unfold asked_by. cbn. intros [Hin|Hin].
      * specialize (Has m Hin). lia.
      * apply Hla, read_at_inj in Hin; lia.
    + exists ids. destruct Hrec as (H1 & H3 & H4). split_and!; [done..|]. eapply Forall2_impl; [exact H4|].
      intros m v [Hv Hav]. rewrite Hwr, Hl. split; [done|]. by apply lookup_app_l_Some.
  - intros j' c' Hne Hj'. pose proof (lookup_lt_Some _ _ _ Hj') as Hj2'. rewrite H2 in Hj2'.
    eapply (consumer_evolves (chan d) s' j' c' l []); try done; [by apply Hc| | |by rewrite app_nil_r|by rewrite Ha].
    + intros m. apply Hev. intros E%read_at_inj; lia.
    + intros m Hin. apply Hla, read_at_inj in Hin; lia.
  - intros j' p q m m' Hj3 Hpq. rewrite Hl. intros Hp1 Hq1.
    assert (forall n b, (asked (chan d) ++ l) !! n = Some b -> asked (chan d) !! n = Some b
      \/ (length (asked (chan d)) <= n)%nat /\ b = a) as Hcase.
    { intros n b Hb. apply lookup_app_Some in Hb as [Hb|[Hn1 Hb]]; [by left|right]. split; [done|].
      apply Hla. by eapply list_elem_of_lookup_2. }
    destruct (Hcase _ _ Hp1) as [Hp2|[Hp2 Hpa]], (Hcase _ _ Hq1) as [Hq2|[Hq2 Hqa]].
    + by apply (Ho j' p q m m').
    + apply read_at_inj in Hqa as [-> ->]; [|lia..]. apply Has. by eapply list_elem_of_lookup_2.
    + apply lookup_lt_Some in Hq2. lia.
    + assert (length l <= 1)%nat as Hl1.
      { rewrite Hask in Hl. destruct (active (chan d)); [apply app_inv_head in Hl as <-; done|].
        rewrite <- (app_nil_r (asked (chan d))) in Hl at 1. apply app_inv_head in Hl as <-. cbn. lia. }
      apply lookup_lt_Some in Hp1, Hq1. rewrite length_app in *. lia.
  - intros b y. rewrite Ha, Haw, awaiters_set. case_decide as Hd2; [|by apply Hca]. subst b. rewrite Hx. cbn. intros Hac [= <-]. cbn. by rewrite Hac.
  - intros b y. rewrite Haw, awaiters_set. case_decide as Hd2; [|by apply Hlo]. subst b. rewrite Hx. cbn. intros [= <-]. exact (Hlo a x Hx).
Qed.

Lemma received_snoc s j c ids v : received_by s j c ids -> 0 <= v < Z.of_nat (length (written s)) ->
  asked s !! Z.to_nat v = Some (read_at j (reads c)) ->
  received_by s j {| place := C_sleep; reads := S (reads c); received := received c ++ [v] |} (ids ++ [reads c]).
Proof.
  intros (Hs & Hl & Hr) Hv Ha. split_and!; cbn.
  - clear -Hs Hl. induction Hs as [|m ids Hs IH Hm]; cbn; [by repeat constructor|]. apply Forall_cons in Hl as [Hlm Hl].
    constructor; [by apply IH|]. apply Forall_app. split; [done|]. by constructor.
  - apply Forall_app. split; [|by repeat constructor]. eapply Forall_impl; [exact Hl|]. cbn. lia.
  - apply Forall2_app; [done|]. constructor; [by split|constructor].
Qed.

Lemma consumer_receives d j c : demo_ok d -> consumers d !! j = Some c -> place c = C_await ->
  await_of (chan d) (read_at j (reads c)) = Some Suspended \/
  exists c', consumer_step d j c = Some (Ok (with_consumer d (chan d) j c')) /\ demo_ok (with_consumer d (chan d) j c').
Proof.
  intros Hd Hj Hpl. pose proof Hd as [Hch Hp H2 Hc Ho Hca Hlo]. pose proof (Hc j c Hj) as [Hn Hat Has (ids & Hrec)].
  unfold begun, asked_by, consumer_step in *. rewrite Hpl in *. destruct Hat as (x & Hx & Hk & Hm & Hnone). unfold await_of. rewrite Hx. cbn.
  destruct (state x) as [| |[v|]|] eqn:Hst; try done; [by left|..]; right.
  - assert ((read_at j (reads c), v) ∈ handed (chan d)) as Hin
      by (apply (an_returned _ (ci_answers _ Hch) _ (Some v)); unfold state_of; rewrite Hx; cbn; by rewrite Hst).
    destruct (handed_place _ _ _ _ Hch (po_sent _ _ Hp) Hin) as [Hv Hav].
    eexists. split; [done|]. apply (consumer_stays d j c); [done..|]. split; cbn; [done|done|done|].
    eexists. by apply received_snoc.
  - eexists. split; [done|]. apply (consumer_stays d j c); [done..|]. split; cbn; [done|done|done|].
    exists ids. destruct Hrec as (H1 & H3 & H4). split_and!; [done| |done]. eapply Forall_impl; [exact H3|]. cbn. lia.
Qed.

(** Every step of a consumer that can move. *)
Lemma consumer_step_ok d j c : demo_ok d -> consumers d !! j = Some c ->
  match consumer_step d j c with
  | Some r => exists d', r = Ok d' /\ demo_ok d'
  | None => place c = C_ended \/ place c = C_await /\ await_of (chan d) (read_at j (reads c)) = Some Suspended
  end.
Proof.
  intros Hd Hj. pose proof (do_consumer d Hd j c Hj) as Hc. pose proof Hc as [Hn Hat Has Hrec].
  destruct (place c) eqn:Hpl.
  - unfold consumer_step. rewrite Hpl. destruct (active (chan d)) eqn:Hac.
    + eexists. split; [done|]. by apply read_new.
    + eexists. split; [done|]. apply (consumer_stays d j c); [done..|]. unfold begun, asked_by in *. rewrite Hpl in *. by split.
  - unfold consumer_step. rewrite Hpl. destruct (read_suspends d j c Hd Hj Hpl) as (s' & Hs & Hok). cbn [step]. rewrite Hs. by eexists.
  - destruct (consumer_receives d j c Hd Hj Hpl) as [Hs|(c' & -> & Hok)]; [|by eexists].
    unfold consumer_step. rewrite Hpl, Hs. by right.
  - unfold consumer_step. rewrite Hpl. eexists. split; [done|]. apply (consumer_stays d j c); [done..|].
    unfold begun, asked_by in *. rewrite Hpl in *. by split.
  - unfold consumer_step. rewrite Hpl. by left.
Qed.

(** *** The producer *)

Lemma write_at_read i j m : write_at i <> read_at j m \/ (2 <= j)%nat.
Proof. unfold write_at, read_at. lia. Qed.

(** The producer and the channel move, and leave the awaiters of the readers. *)
Lemma producer_and_channel d s' p : demo_ok d -> channel_inv s' -> producer_ok s' p ->
  (forall j m, (j < 2)%nat -> awaiters s' !! read_at j m = awaiters (chan d) !! read_at j m) ->
  asked s' = asked (chan d) -> (exists vs, written s' = written (chan d) ++ vs) ->
  (active (chan d) = false -> active s' = false) ->
  (forall a x, active s' = true -> awaiters s' !! a = Some x -> state x <> Threw) ->
  (forall a x, awaiters s' !! a = Some x -> exec x = LooperExecutor) ->
  demo_ok (with_producer d s' p).
Proof.
  intros [Hch Hp H2 Hc Ho Hca Hlo] Hs' Hp' Haw Hask [vs Hw] Hac ??. split; try done; cbn.
  - intros j c Hj. pose proof (lookup_lt_Some _ _ _ Hj) as Hj2. rewrite H2 in Hj2.
    apply (consumer_evolves (chan d) s' j c [] vs); [by apply Hc|intros m; left; by apply Haw|by rewrite app_nil_r| |done|done].
    intros m Hm. by apply not_elem_of_nil in Hm.
  - intros j p' q m m'. rewrite Hask. apply Ho.
Qed.

Lemma write_new d i : demo_ok d -> producing d = P_while i -> i < 10 ->
  demo_ok (with_producer d (make_awaiter (chan d) (write_at i) (WriteAwaiter i) LooperExecutor) (P_suspend i)).
Proof.
  intros Hd Hpi Hi. pose proof Hd as [Hch Hp H2 Hc Ho Hca Hlo]. rewrite Hpi in Hp. destruct Hp as [Hr Hac Hcl Hs Hn _].
  cbn in Hr, Hac, Hn.
  assert (awaiters (chan d) !! write_at i = None) as Hnew by (apply Hn; lia).
  destruct (make_fresh (chan d) (write_at i) (WriteAwaiter i) LooperExecutor Hnew) as (Ha & Hcl' & Hask & Hwr & Haw).
  set (s' := make_awaiter _ _ _ _) in *. rewrite Hac in Haw. apply producer_and_channel; try done.
  - by apply make_awaiter_inv.
  - split; cbn; try done; [lia|congruence|by rewrite Hwr| |].
    + intros m Hm. rewrite Haw, decide_False by (unfold write_at; lia). apply Hn. lia.
    + rewrite Haw, decide_True by done. by eexists.
  - intros j m Hj. rewrite Haw, decide_False; [done|]. destruct (write_at_read i j m); [done|lia].
  - exists []. by rewrite app_nil_r.
  - by rewrite Ha.
  - intros a x. rewrite Ha, Haw. case_decide; [|by apply Hca]. by intros _ [= <-].
  - intros a x. rewrite Haw. case_decide; [|by apply Hlo]. by intros [= <-].
Qed.

Lemma seq_snoc (i : Z) : 0 <= i -> (Z.of_nat <$> seq 0 (Z.to_nat i)) ++ [i] = Z.of_nat <$> seq 0 (Z.to_nat (i + 1)).
Proof.
  intros Hi. replace (Z.to_nat (i + 1)) with (Z.to_nat i + 1)%nat by lia. rewrite seq_app, fmap_app. cbn. do 2 f_equal. lia.
Qed.

Lemma write_suspends d i : demo_ok d -> producing d = P_suspend i ->
  exists s', await_suspend (chan d) (write_at i) = Ok s' /\ demo_ok (with_producer d s' (P_await i)).
Proof.
  intros Hd Hpi. pose proof Hd as [Hch Hp H2 Hc Ho Hca Hlo]. rewrite Hpi in Hp. destruct Hp as [Hr Hac Hcl Hs Hn Hat].
  cbn in Hr, Hac, Hn, Hs. destruct Hat as (x & Hx & Hm & Hk).
  destruct (await_suspend_inv (chan d) (write_at i) Hch) as (s' & Hsu & Hs'). exists s'. split; [done|].
  destruct (suspend_made (chan d) (write_at i) x s' Hx Hm Hsu) as (Ha & Hcl' & Haw & Hask & Hwr).
  rewrite Hk, Hac in *. apply producer_and_channel; try done.
  - split; cbn; try done.
    + rewrite Hwr, Hs. apply seq_snoc; lia.
    + intros m Hm'. rewrite Haw, awaiters_set, decide_False by (unfold write_at; lia). apply Hn. lia.
    + rewrite Haw, awaiters_set, decide_True, Hx by done. eexists. split; [done|]. split; [done|]. by left.
  - intros j m Hj. rewrite Haw, awaiters_set, decide_False; [done|]. destruct (write_at_read i j m); [done|lia].
  - by eexists.
  - congruence.
  - intros b y _. rewrite Haw, awaiters_set. case_decide as Hd2; [|by apply Hca]. subst b. rewrite Hx. cbn. by intros [= <-].
  - intros b y. rewrite Haw, awaiters_set. case_decide as Hd2; [|by apply Hlo]. subst b. rewrite Hx. cbn. intros [= <-]. exact (Hlo _ x Hx).
Qed.

Lemma close_closes d : demo_ok d -> producing d = P_while 10 -> demo_ok (with_producer d (close (chan d)) P_clean_up).
Proof.
  intros Hd Hpi. pose proof Hd as [Hch Hp H2 Hc Ho Hca Hlo]. rewrite Hpi in Hp. destruct Hp as [_ Hac _ Hs Hn _].
  cbn in Hac, Hn, Hs. pose proof (close_inv (chan d) Hch) as Hinv. unfold close in *. rewrite Hac in *.
  apply producer_and_channel; try done. exists []. by rewrite app_nil_r.
Qed.

Lemma clean_up_ends d : demo_ok d -> producing d = P_clean_up ->
  exists s', clean_up (chan d) = Ok s' /\ demo_ok (with_producer d s' P_ended).
Proof.
  intros Hd Hpi. pose proof Hd as [Hch Hp H2 Hc Ho Hca Hlo]. rewrite Hpi in Hp. destruct Hp as [_ Hac _ Hs Hn _].
  cbn in Hac, Hn, Hs. destruct (clean_up_inv (chan d) Hch) as [(s' & Hcl & Hinv & _)|(m & a & _ & _ & Hin)].
  - exists s'. split; [done|]. destruct (clean_up_frame (chan d) s' Hac Hcl) as (Hac' & Hask & Hwr & Haw & Hcle).
    apply producer_and_channel; try done.
    + split; cbn; try done; [by rewrite Hwr|]. intros k Hk. rewrite Haw. by apply Hn.
    + intros j k _. by rewrite Haw.
    + exists []. by rewrite Hwr, app_nil_r.
    + congruence.
    + intros a x. rewrite Haw. apply Hlo.
  - unfold in_place in Hin. destruct (awaiters (chan d) !! a) as [x|] eqn:Hx; [|done]. cbn in Hin. by rewrite (Hlo a x Hx) in Hin.
Qed.

Lemma producer_step_ok d : demo_ok d ->
  match producer_step d with
  | Some r => exists d', r = Ok d' /\ demo_ok d'
  | None => producing d = P_ended \/ exists i, producing d = P_await i /\ await_of (chan d) (write_at i) = Some Suspended
  end.
Proof.
  intros Hd. pose proof (do_producer d Hd) as Hp. pose proof Hp as [Hr Hac Hcl Hs Hn Hat]. unfold producer_step.
  destruct (producing d) as [i|i|i|i| | |] eqn:Hpi; try done.
  - destruct (Z.ltb_spec i 10) as [Hlt|Hge]; cbn [step mbind result_bind].
    + eexists. split; [done|]. by apply write_new.
    + replace i with 10 in Hpi by lia. eexists. split; [done|]. by apply close_closes.
  - destruct (write_suspends d i Hd Hpi) as (s' & Hsu & Hok). cbn [step]. rewrite Hsu. by eexists.
  - unfold await_of. destruct Hat as (x & Hx & _ & Hst). rewrite Hx. cbn. destruct Hst as [Hst|[o Hst]]; rewrite Hst.
    + right. exists i. split; [done|]. rewrite Hx. cbn. by rewrite Hst.
    + eexists. split; [done|]. apply producer_moves; [done|]. by split.
  - eexists. split; [done|]. apply producer_moves; [done|]. cbn in *. split; try done. cbn. lia.
  - destruct (clean_up_ends d Hd Hpi) as (s' & Hcu & Hok). cbn [step]. rewrite Hcu. by eexists.
  - by left.
Qed.

(** *** The three together *)

Lemma demo_step_ok d e : demo_ok d ->
  match demo_step d e with Some r => exists d', r = Ok d' /\ demo_ok d' | None => True end.
Proof.
  intros Hd. destruct e as [|j|k]; cbn [demo_step].
  - pose proof (producer_step_ok d Hd) as Hp. by destruct (producer_step d).
  - destruct (consumers d !! j) as [c|] eqn:Hj; [|done]. cbn [mbind option_bind].
    pose proof (consumer_step_ok d j c Hd Hj) as Hc. by destruct (consumer_step d j c).
  - destruct (k <? _)%nat; [|done]. cbn [step]. destruct (run_pending_inv (chan d) k (do_channel d Hd)) as (s' & Hs & Hs').
    rewrite Hs. eexists. split; [done|]. apply looper_ok; [done..| |by eapply run_evolves].
    by apply (run_one (chan d) k).
Qed.

Lemma demo_steps_ok d es : demo_ok d -> exists d', demo_steps d es = Ok d' /\ demo_ok d'.
Proof.
  revert d. induction es as [|e es IH]; intros d Hd; cbn [demo_steps]; [by eexists|].
  pose proof (demo_step_ok d e Hd) as He. destruct (demo_step d e) as [r|]; [|by apply IH].
  destruct He as (d1 & -> & Hd1). by apply IH.
Qed.

Lemma new_demo_ok : demo_ok new_demo.
Proof.
  split; cbn; try done.
  - apply new_channel_inv.
  - intros j c Hj. apply (lookup_replicate_1 2) in Hj as [-> _]. split; cbn; try done.
    + intros m Hm. by apply not_elem_of_nil in Hm.
    + exists []. split_and!; constructor.
Qed.

(** ** The theorems *)

(** However the three coroutines, their loopers and the end of their sleeps interleave,
    the channel is used without an undefined step, deadlock in [close] or exception in
    the producer; what has been written is 0, 1, 2, ... up to at most 9, and every
    consumer receives some of these values in their order, none twice, and none that the
    other one receives. *)
Lemma demo_order d : demo_ok d -> producing d <> P_threw
  /\ (exists n, (n <= 10)%nat /\ written (chan d) = Z.of_nat <$> seq 0 n)
  /\ (forall j c, consumers d !! j = Some c -> StronglySorted Z.lt (received c)
       /\ Forall (fun v => 0 <= v < Z.of_nat (length (written (chan d)))) (received c))
  /\ (forall c c' v, consumers d !! 0%nat = Some c -> consumers d !! 1%nat = Some c' -> v ∈ received c -> v ∉ received c').
Proof.
  intros Hd. destruct Hd as [Hch Hp H2 Hc Ho Hca Hlo]. pose proof Hp as [Hr _ _ Hs _ _]. split_and!.
  - by intros E; rewrite E in Hr.
  - exists (Z.to_nat (sent (producing d))). split; [|done]. destruct (producing d); cbn in *; lia.
  - intros j c Hj. pose proof (lookup_lt_Some _ _ _ Hj) as Hj2. rewrite H2 in Hj2.
    destruct (co_received _ _ _ (Hc j c Hj)) as (ids & Hso & _ & Hrec). split.
    + clear -Hso Hrec Ho Hj2. induction Hrec as [|m v ids vs [Hv Ha] Hrec IH]; [constructor|].
      apply StronglySorted_inv in Hso as [Hso Hm]. constructor; [by apply IH|]. clear IH Hso.
      induction Hrec as [|m' v' ids vs [Hv' Ha'] _ IH]; [constructor|]. apply Forall_cons in Hm as [Hm1 Hm]. constructor; [|by apply IH].
      destruct (Z.lt_trichotomy v v') as [Hlt|[->|Hgt]]; [done|..].
      * rewrite Ha in Ha'. injection Ha' as Ha'. apply read_at_inj in Ha' as [_ ->]; lia.
      * assert (m' < m)%nat; [|lia]. apply (Ho j (Z.to_nat v') (Z.to_nat v)); try done. lia.
    + clear -Hrec. induction Hrec as [|m v ids vs [Hv _] _ IH]; by constructor.
  - intros c c' v Hc0 Hc1 Hin Hin'. destruct (co_received _ _ _ (Hc _ _ Hc0)) as (ids & _ & _ & Hrec).
    destruct (co_received _ _ _ (Hc _ _ Hc1)) as (ids' & _ & _ & Hrec').
    apply list_elem_of_lookup in Hin as [k Hk]. apply list_elem_of_lookup in Hin' as [k' Hk'].
    destruct (Forall2_lookup_r _ _ _ _ _ Hrec Hk) as (m & _ & _ & Ha).
    destruct (Forall2_lookup_r _ _ _ _ _ Hrec' Hk') as (m' & _ & _ & Ha'). rewrite Ha in Ha'. injection Ha' as Ha'.
    apply read_at_inj in Ha' as [? _]; lia.
Qed.

(** C35: The demonstration is never stuck: until the producer and both consumers have ended,
    one of them or a looper can make a step. *)
Theorem demo_goes_on es : exists d, demo_steps new_demo es = Ok d
  /\ (demo_over d = false -> exists e, is_Some (demo_step d e)).
Proof.
  destruct (demo_steps_ok new_demo es new_demo_ok) as (d & Hes & Hd). exists d. split; [done|]. intros Hover.
  destruct (pending (chan d)) as [|q ps] eqn:Hpe.
  2: { exists (Looper 0). cbn [demo_step]. rewrite Hpe. by eexists. }
  pose proof (producer_step_ok d Hd) as Hps. destruct (producer_step d) eqn:Eps; [exists Producer; cbn; by rewrite Eps|].
  pose proof Hd as [Hch Hp H2 Hc Ho Hca Hlo]. destruct (consumers d) as [|c0 [|c1 [|]]] eqn:Ecs; try done.
  assert (forall j c, consumers d !! j = Some c -> (exists e, is_Some (demo_step d e))
    \/ place c = C_ended \/ place c = C_await /\ state_of (chan d) (read_at j (reads c)) = Some Suspended) as Hcase.
  { intros j c Hj. pose proof (consumer_step_ok d j c Hd Hj) as Hs. destruct (consumer_step d j c) eqn:Es; [left|by right].
    exists (Consumer j). cbn. rewrite Hj. cbn. by rewrite Es. }
  rewrite Ecs in Hcase. destruct (Hcase 0%nat c0 eq_refl) as [?|H0], (Hcase 1%nat c1 eq_refl) as [?|H1]; [done..|]. clear Hcase.
  assert (forall a, state_of (chan d) a = Some Suspended -> a ∈ writer_list (chan d) ++ reader_list (chan d)) as Hwait.
  { intros a Ha%(pl_susp _ _ (ci_places _ Hch)). unfold waiting in Ha. cbn in Ha. by rewrite Hpe, app_nil_r in Ha. }
  pose proof (ci_flow _ Hch) as Hf. destruct Hps as [He|(i & Hi & Hsu)].
  - pose proof (po_active _ _ Hp) as Hac. rewrite He in Hac. pose proof (fl_closed _ Hf Hac) as Hcl.
    rewrite (po_clean _ _ Hp He) in Hcl. destruct Hcl as (_ & Hw & Hr). rewrite Hw, Hr in Hwait.
    destruct H0 as [H0|[_ H0%Hwait]], H1 as [H1|[_ H1%Hwait]]; try (by apply not_elem_of_nil in H0); try (by apply not_elem_of_nil in H1).
    unfold demo_over in Hover. rewrite He, Ecs in Hover. cbn in Hover. by rewrite H0, H1 in Hover.
  - pose proof (po_active _ _ Hp) as Hac. rewrite Hi in Hac.
    pose proof (do_consumer d Hd 0%nat c0) as Hc0. rewrite Ecs in Hc0. specialize (Hc0 eq_refl). destruct H0 as [H0|[H0 Hs0]].
    { pose proof (co_at _ _ _ Hc0) as Hat. rewrite H0 in Hat. congruence. }
    pose proof (co_at _ _ _ Hc0) as Hat. rewrite H0 in Hat. destruct Hat as (x & Hx & Hk & _).
    pose proof (po_at _ _ Hp) as Hwt. rewrite Hi in Hwt. destruct Hwt as (y & Hy & Hky & _).
    assert (read_at 0 (reads c0) ∈ reader_list (chan d)) as Hin.
    { destruct (fl_values _ Hf) as (vs & Hvs & _). apply Hwait, elem_of_app in Hs0 as [Hs0|Hs0]; [|done].
      apply list_elem_of_lookup in Hs0 as [k Hk']. destruct (Forall2_lookup_l _ _ _ _ _ Hvs Hk') as (v & _ & Hv).
      unfold has_val, kind_of in Hv. rewrite Hx in Hv. cbn in Hv. congruence. }
    destruct (fl_empty _ Hf) as [_ Hw]; [by intros E; rewrite E in Hin; apply not_elem_of_nil in Hin|].
    change (state_of (chan d) (write_at i) = Some Suspended) in Hsu. apply Hwait in Hsu. rewrite Hw in Hsu. cbn in Hsu.
    pose proof (fl_readers _ Hf) as Hr. rewrite Forall_forall in Hr. specialize (Hr _ Hsu). unfold is_reader, kind_of in Hr.
    rewrite Hy in Hr. cbn in Hr. congruence.
Qed.

(** ** Two executions *)

Definition rounds (n : nat) (l : list demo_event) : list demo_event := concat (replicate n l).

(** All take turns: the consumers share the ten values, and everything ends. *)
Example demo_shares : exists d, demo_steps new_demo (rounds 80 [Producer; Looper 0; Consumer 0; Consumer 1]) = Ok d
  /\ demo_over d = true /\ received <$> consumers d = [[0; 2; 4; 6; 8]; [1; 3; 5; 7; 9]].
Proof. eexists. split; [vm_compute; reflexivity|]. split; vm_compute; reflexivity. Qed.

(** A slow consumer: the producer closes the channel over the last two values, which nobody
    receives. *)
Theorem demo_loses : exists es d, demo_steps new_demo es = Ok d /\ demo_over d = true
  /\ received <$> consumers d = [[0; 1; 2; 3; 4; 5; 6; 7]; []] /\ (dropped (chan d)).1 = [8; 9].
Proof.
  exists (rounds 40 (rounds 6 [Producer; Looper 0] ++ [Consumer 0; Looper 0]) ++ rounds 5 [Looper 0; Consumer 0; Consumer 1]).
  eexists. split; [vm_compute; reflexivity|]. split_and!; vm_compute; reflexivity.
Qed.
