(* ===== verification/CoDemoReceived.v ===== *)
(** What the demonstration of the channel loses: at its end every value has been received,
    but for those that [close] found in the buffer and at most one for each consumer, which
    it had been given when the channel was closed. *)

From S2P Require Import Prelude Result CoChannel CoChannelProps CoDemo CoDemoProps.
From Stdlib Require Import Sorted.
#[local] Open Scope Z_scope.

#[local] Arguments read_at : simpl never.
#[local] Arguments write_at : simpl never.

(** ** What an operation drops *)

Section Frames.
Implicit Types (s : channel Z).

(** The capacity, and what was dropped. *)
Definition keeps s s' : Prop := buffer_capacity s' = buffer_capacity s /\ dropped s' = dropped s.

Lemma keeps_await_resume s a r s' : await_resume false s a r = Ok s' -> keeps s s'.
Proof.
  unfold await_resume, throw, destroy. destruct (awaiters s !! a) as [x|]; [|done]. cbn [lift mbind result_bind].
  destruct (state x); try done. destruct (active s).
  - destruct (kind x), r; try done; by intros [= <-].
  - destruct (kind <$> _) as [[]|]; try done; by intros [= <-].
Qed.

Lemma keeps_push_writer s w s' : try_push_writer s w = Ok (Some s') -> keeps s s'.
Proof.
  unfold try_push_writer. destruct (negb (active s)); [done|]. destruct (val_of s w); [|done..]. cbn [mbind result_bind].
  cbn. destruct (reader_list s); [destruct (has_room _)|]; by intros [= <-].
Qed.

Lemma keeps_push_reader s r s' : try_push_reader s r = Ok (Some s') -> keeps s s'.
Proof.
  unfold try_push_reader. destruct (negb (active s)); [done|]. cbn.
  destruct (buffer s), (writer_list s) as [|w ws]; try (by intros [= <-]); destruct (val_of _ w); try done; by intros [= <-].
Qed.

Lemma keeps_suspend s a s' : await_suspend s a = Ok s' -> keeps s s'.
Proof.
  unfold await_suspend. destruct (awaiters s !! a) as [x|]; [|by intros [= <-]]. destruct (state x); try by intros [= <-].
  assert (forall o, (match kind x with WriteAwaiter _ => try_push_writer (set_state s a Suspended) a
    | ReadAwaiter => try_push_reader (set_state s a Suspended) a end) = Ok (Some o) -> keeps s o) as Hpush
    by (intros o; destruct (kind x); [intros [? ?]%keeps_push_writer|intros [? ?]%keeps_push_reader]; by split).
  destruct (match kind x with WriteAwaiter _ => _ | ReadAwaiter => _ end) as [[s1|]| |]; [|..|done|done]; cbn [mbind result_bind].
  - intros [= <-]. by apply Hpush.
  - unfold throw, destroy. destruct (kind <$> _) as [[]|]; try done; by intros [= <-].
Qed.

Lemma keeps_run s k s' : run_pending s k = Ok s' -> keeps s s'.
Proof.
  unfold run_pending. destruct (pending s !! k) as [[a r]|]; [|by intros [= <-]]. intros [? ?]%keeps_await_resume. by split.
Qed.

(** [clean_up] drops the buffer and the values of the writers. *)
Lemma clean_up_drops s s' : active s = false -> clean_up s = Ok s' -> buffer_capacity s' = buffer_capacity s
  /\ (writer_list s = [] -> dropped s' = dropped s \/ (dropped s').1 = buffer s).
Proof.
  intros Hac. unfold clean_up. destruct (cleaning s); cbn [negb]; [|intros [= <-]; split; [done|by left]].
  destruct (vals_of s (writer_list s)) as [vs| |] eqn:Ev; [|done..]. cbn [mbind result_bind].
  destruct (resume_all _ _) as [s2| |] eqn:Er; [|done..]. apply resume_all_closed in Er as [p ->]; [|done].
  intros [= <-]. split; [done|]. intros Hw. right. rewrite Hw in Ev. injection Ev as <-. cbn. apply app_nil_r.
Qed.

(** An awaiter whose coroutine goes on is as it was. *)
Definition settles s s' : Prop := forall a x, awaiters s !! a = Some x -> state x <> Made -> state x <> Suspended ->
  awaiters s' !! a = Some x.

Lemma settles_evolves s s' : (forall a, evolves s s' a) -> settles s s'.
Proof. intros He a x Hx _ Hs. destruct (He a) as [->|(y & st & Hy & Hsu & _)]; [done|]. congruence. Qed.

Lemma settles_set s s' a st x : awaiters s !! a = Some x -> state x = Made -> awaiters s' = awaiters (set_state s a st) -> settles s s'.
Proof. intros Ha Hm Hs b y Hb Hnm _. rewrite Hs, awaiters_set. case_decide; [|done]. congruence. Qed.

Lemma settles_make s a k e : awaiters s !! a = None -> settles s (make_awaiter s a k e).
Proof.
  intros Ha b y Hb _ _. destruct (make_fresh s a k e Ha) as (_ & _ & _ & _ & Haw). rewrite Haw. case_decide; [congruence|done].
Qed.

End Frames.

(** ** The invariant *)

(** Read [m] of consumer [j], which is over: the value was received or the channel was closed. *)
Definition read_over (s : channel Z) (j : nat) (c : consumer) (m : nat) : Prop :=
  exists x, awaiters s !! read_at j m = Some x
    /\ ((exists v, state x = Returned (Some v) /\ v ∈ received c)
        \/ state x = Threw /\ active s = false /\ S m = reads c /\ (place c = C_while \/ place c = C_ended)).

Record accounted (d : demo) : Prop := {
  ac_capacity : buffer_capacity (chan d) = 2;
  ac_dropped : (length (dropped (chan d)).1 <= 2)%nat;
  ac_writer a x v : awaiters (chan d) !! a = Some x -> kind x = WriteAwaiter v -> state x = Made \/ state x = Suspended ->
    exists i, (producing d = P_suspend i \/ producing d = P_await i) /\ a = write_at i;
  ac_asked a : a ∈ asked (chan d) -> exists j m, (j < 2)%nat /\ a = read_at j m;
  ac_past j c m : consumers d !! j = Some c -> (m < reads c)%nat -> read_over (chan d) j c m
}.

Lemma read_over_settles s s' j c m : settles s s' -> (active s = false -> active s' = false) -> read_over s j c m -> read_over s' j c m.
Proof.
  intros Hs Hac (x & Hx & Hc). exists x. split; [|destruct Hc as [?|(? & ? & ?)]; [by left|right; by auto]].
  apply Hs; [done|..]; destruct Hc as [(v & -> & _)|[-> _]]; done.
Qed.

(** The writers are as before, or one of them has ended. *)
Definition writers_settle (s s' : channel Z) : Prop := forall a x v, awaiters s' !! a = Some x -> kind x = WriteAwaiter v ->
  state x = Made \/ state x = Suspended -> exists y, awaiters s !! a = Some y /\ kind y = WriteAwaiter v /\ (state y = Made \/ state y = Suspended).

Lemma writers_evolve s s' : (forall a, evolves s s' a) -> writers_settle s s'.
Proof.
  intros He a x v Hx Hk Hst. destruct (He a) as [Heq|(y & st & Hy & Hsu & Heq & Hev)]; rewrite Heq in Hx; [by exists x|].
  injection Hx as <-. cbn in *. exists y. split_and!; [done..|by right].
Qed.

(** The channel moves, with the producer or alone. *)
Lemma accounted_producer d s' p : accounted d -> settles (chan d) s' -> (active (chan d) = false -> active s' = false) ->
  buffer_capacity s' = 2 -> (length (dropped s').1 <= 2)%nat -> asked s' = asked (chan d) ->
  (forall a x v, awaiters s' !! a = Some x -> kind x = WriteAwaiter v -> state x = Made \/ state x = Suspended ->
     exists i, (p = P_suspend i \/ p = P_await i) /\ a = write_at i) ->
  accounted (with_producer d s' p).
Proof.
  intros [Hc Hd Hw Ha Hp] Hs Hac Hc' Hd' Ha' Hw'. split; cbn; try done; [by rewrite Ha'|].
  intros j c m Hj Hm. eapply read_over_settles; [done..|by apply Hp].
Qed.

(** Consumer [j] moves, and the channel with it. *)
Lemma accounted_consumer d s' j c c' : demo_ok d -> accounted d -> consumers d !! j = Some c -> settles (chan d) s' ->
  (active (chan d) = false -> active s' = false) -> keeps (chan d) s' ->
  (forall a, a ∈ asked s' -> a ∈ asked (chan d) \/ exists m, a = read_at j m) -> writers_settle (chan d) s' ->
  (forall m, (m < reads c')%nat -> read_over s' j c' m) -> accounted (with_consumer d s' j c').
Proof.
  intros Hok [Hc Hd Hw Ha Hp] Hj Hs Hac [Hk1 Hk2] Ha' Hw' Hp'. pose proof (lookup_lt_Some _ _ _ Hj) as Hj2. split; cbn.
  - congruence.
  - by rewrite Hk2.
  - intros a x v Hx Hkx Hst. destruct (Hw' a x v Hx Hkx Hst) as (y & Hy & Hky & Hsty). by eapply Hw.
  - intros a [Hin|(m & ->)]%Ha'; [by apply Ha|]. exists j, m. split; [|done]. by rewrite (do_two d Hok) in Hj2.
  - intros j' c2 m Hj2' Hm. destruct (decide (j' = j)) as [->|Hne].
    + rewrite list_lookup_insert_eq in Hj2' by done. injection Hj2' as <-. by apply Hp'.
    + rewrite list_lookup_insert_ne in Hj2' by done. eapply read_over_settles; [done..|by apply Hp].
Qed.

(** A read that was over and has received its value stays so. *)
Lemma read_over_received s s' j c c' m : read_over s j c m -> active s = true \/ (place c <> C_while /\ place c <> C_ended) ->
  settles s s' -> received c ⊆ received c' -> read_over s' j c' m.
Proof.
  intros (x & Hx & Hc) Hno Hs Hre. destruct Hc as [(v & Hv & Hin)|(Ht & Hac & Hm & Hp)].
  - exists x. split; [apply Hs; [done|by rewrite Hv..]|]. left. exists v. split; [done|by apply Hre].
  - destruct Hno as [?|[? ?]]; [congruence|]. by destruct Hp.
Qed.

Lemma writers_same s s' : awaiters s' = awaiters s -> writers_settle s s'.
Proof. intros E a x v. rewrite E. by exists x. Qed.

Lemma settles_same s s' : awaiters s' = awaiters s -> settles s s'.
Proof. intros E a x Hx _ _. by rewrite E. Qed.

Lemma accounted_stays d j c c' : demo_ok d -> accounted d -> consumers d !! j = Some c ->
  (forall m, (m < reads c')%nat -> read_over (chan d) j c' m) -> accounted (with_consumer d (chan d) j c').
Proof. intros Hok Ha Hj Hp. apply (accounted_consumer d (chan d) j c); try done; [by apply settles_same|by left|by apply writers_same]. Qed.

Lemma consumer_accounted d j c d' : demo_ok d -> accounted d -> consumers d !! j = Some c ->
  consumer_step d j c = Some (Ok d') -> accounted d'.
Proof.
  intros Hok Ha Hj. pose proof (do_consumer d Hok j c Hj) as [Hn Hat _ _]. unfold consumer_step, begun in *.
  assert (forall m, (m < reads c)%nat -> read_over (chan d) j c m) as Hover by (intros m; by apply (ac_past d Ha)).
  destruct (place c) eqn:Hpl.
  - destruct (active (chan d)) eqn:Hac; cbn [step mbind result_bind]; intros [= <-].
    + assert (awaiters (chan d) !! read_at j (reads c) = None) as Hnew by (by apply Hn).
      destruct (make_fresh (chan d) (read_at j (reads c)) ReadAwaiter LooperExecutor Hnew) as (Ha' & _ & Hask & _ & Haw).
      apply (accounted_consumer d _ j c); try done; [by apply settles_make|congruence|unfold make_awaiter; by rewrite Hnew|..].
      * rewrite Hask. by left.
      * intros a x v. rewrite Haw. case_decide; [by intros [= <-]|by exists x].
      * intros m Hm. apply (read_over_received (chan d) _ j c); [by apply Hover|by left|by apply settles_make|done].
    + apply (accounted_stays d j c); try done. intros m Hm. destruct (Hover m Hm) as (x & Hx & [?|(? & ? & ? & _)]); exists x; (split; [done|]); [by left|right; auto].
  - destruct (read_suspends d j c Hok Hj Hpl) as (s' & Hs & _). cbn [step]. rewrite Hs. cbn [mbind result_bind]. intros [= <-].
    destruct Hat as (x & Hx & Hk & Hst). pose proof (keeps_suspend _ _ _ Hs) as Hke.
    assert (forall m, (m < reads c)%nat -> settles (chan d) s' -> read_over s' j (move c C_await) m) as Hmove.
    { intros m Hm Hse. apply (read_over_received (chan d) _ j c); [by apply Hover|right; by rewrite Hpl|done..]. }
    destruct Hst as [Hm|Ht].
    + destruct (suspend_made _ _ x s' Hx Hm Hs) as (Ha' & _ & Haw & Hask & _). rewrite Hk in Hask.
      assert (settles (chan d) s') as Hse by (by eapply settles_set). apply (accounted_consumer d s' j c); try done.
      * by rewrite Ha'.
      * rewrite Hask. intros a. destruct (active (chan d)); [|by left]. intros [?| ->%list_elem_of_singleton]%elem_of_app; [by left|right; by eexists].
      * intros a y v. rewrite Haw, awaiters_set. case_decide as Hd; [|by exists y]. subst a. rewrite Hx. cbn. intros [= <-]. cbn. by rewrite Hk.
      * intros m Hm'. by apply Hmove.
    + unfold await_suspend in Hs. rewrite Hx, Ht in Hs. injection Hs as <-. apply (accounted_stays d j c); try done.
      intros m Hm'. apply Hmove; [done|by apply settles_same].
  - destruct Hat as (x & Hx & Hk & _). unfold await_of. rewrite Hx. cbn.
    assert (forall m v p, (m < reads c)%nat -> read_over (chan d) j {| place := p; reads := S (reads c); received := received c ++ v |} m) as Hmove.
    { intros m v p Hm. apply (read_over_received (chan d) _ j c); [by apply Hover|right; by rewrite Hpl|by apply settles_same|set_solver]. }
    assert (forall v p, read_over (chan d) j {| place := p; reads := S (reads c); received := received c ++ v |} (reads c) ->
      accounted (with_consumer d (chan d) j {| place := p; reads := S (reads c); received := received c ++ v |})) as Hlast.
    { intros v p Hr. apply (accounted_stays d j c); try done. cbn. intros m Hm. destruct (decide (m = reads c)) as [->|]; [done|]. apply Hmove. lia. }
    destruct (state x) as [| |[v|]|] eqn:Hst; try done; intros [= <-].
    + apply Hlast. exists x. split; [done|]. left. exists v. split; [done|set_solver].
    + specialize (Hlast [] C_while). rewrite app_nil_r in Hlast. apply Hlast. exists x. split; [done|]. right. split_and!; try done; [|by left].
      apply not_true_iff_false. intros Hac. by destruct (do_calm d Hok _ _ Hac Hx).
  - intros [= <-]. apply (accounted_stays d j c); try done. intros m Hm.
    apply (read_over_received (chan d) _ j c); [by apply Hover|right; by rewrite Hpl|by apply settles_same|done].
  - done.
Qed.

Lemma producer_accounted d d' : demo_ok d -> accounted d -> producer_step d = Some (Ok d') -> accounted d'.
Proof.
  intros Hok Ha. pose proof (do_producer d Hok) as [Hr Hac Hcl Hs Hn Hat]. pose proof Ha as [Hc Hd Hw Has Hp]. unfold producer_step in *.
  destruct (producing d) as [i|i|i|i| | |] eqn:Hpi; try done.
  - destruct (Z.ltb_spec i 10) as [Hlt|Hge]; cbn [step mbind result_bind]; intros [= <-].
    + assert (awaiters (chan d) !! write_at i = None) as Hnew by (apply Hn; cbn; lia).
      destruct (make_fresh (chan d) (write_at i) (WriteAwaiter i) LooperExecutor Hnew) as (Ha' & _ & Hask & _ & Haw).
      apply accounted_producer; try done; [by apply settles_make|by rewrite Ha'|unfold make_awaiter; by rewrite Hnew..|].
      intros a x v. rewrite Haw. case_decide as Hd'; [intros _ _ _; exists i; auto|]. intros Hx Hk Hst. by destruct (Hw a x v Hx Hk Hst) as (i' & [?|?] & _).
    + unfold close. cbn in Hac. rewrite Hac. apply accounted_producer; try done; [by apply settles_same|]. intros a x v Hx Hk Hst.
      by destruct (Hw a x v Hx Hk Hst) as (i' & [?|?] & _).
  - destruct (write_suspends d i Hok Hpi) as (s' & Hsu & _). cbn [step]. rewrite Hsu. cbn [mbind result_bind]. intros [= <-].
    destruct Hat as (x & Hx & Hm & Hk). destruct (keeps_suspend _ _ _ Hsu) as [Hk1 Hk2].
    destruct (suspend_made _ _ x s' Hx Hm Hsu) as (Ha' & _ & Haw & Hask & _). rewrite Hk in Hask.
    apply accounted_producer; try done; [by eapply settles_set|by rewrite Ha'|congruence|by rewrite Hk2|].
    intros a y v. rewrite Haw, awaiters_set. case_decide as Hd'; [intros _ _ _; exists i; auto|]. intros Hy Hky Hst.
    destruct (Hw a y v Hy Hky Hst) as (i' & [[= <-]|?] & ->); done.
  - destruct Hat as (x & Hx & Hk & _). unfold await_of. rewrite Hx. cbn.
    assert (forall p, state x <> Made -> state x <> Suspended -> accounted (with_producer d (chan d) p)) as Hgo.
    { intros p Hn1 Hn2. apply accounted_producer; try done; [by apply settles_same|]. intros a y v Hy Hky Hst.
      destruct (Hw a y v Hy Hky Hst) as (i' & [?|[= <-]] & ->); [done|]. rewrite Hx in Hy. injection Hy as <-. by destruct Hst. }
    destruct (state x) eqn:Hst; try done; intros [= <-]; by apply Hgo.
  - intros [= <-]. apply accounted_producer; try done; [by apply settles_same|]. intros a y v Hy Hky Hst. by destruct (Hw a y v Hy Hky Hst) as (i' & [?|?] & _).
  - destruct (clean_up_ends d Hok Hpi) as (s' & Hcu & _). cbn [step]. rewrite Hcu. cbn [mbind result_bind]. intros [= <-].
    destruct (clean_up_frame (chan d) s' Hac Hcu) as (Hac' & Hask & Hwr & Haw & Hcle).
    destruct (clean_up_drops (chan d) s' Hac Hcu) as [Hcap Hdr]. pose proof (do_channel d Hok) as Hch.
    assert (forall a x v, awaiters (chan d) !! a = Some x -> kind x = WriteAwaiter v -> state x = Made \/ state x = Suspended -> False) as Hnone
      by (intros a x v Hx Hk Hst; by destruct (Hw a x v Hx Hk Hst) as (i' & [?|?] & _)).
    assert (writer_list (chan d) = []) as Hwl.
    { destruct (writer_list (chan d)) as [|w ws] eqn:Ew; [done|]. exfalso. destruct (fl_values _ (ci_flow _ Hch)) as (vs & Hvs & _).
      rewrite Ew in Hvs. apply Forall2_cons_inv_l in Hvs as (v & vs' & Hv & _ & _). unfold has_val, kind_of in Hv.
      destruct (awaiters (chan d) !! w) as [x|] eqn:Ex; [|done]. injection Hv as Hv. apply (Hnone w x v Ex Hv). right.
      assert (state_of (chan d) w = Some Suspended) as Hsu by (apply (pl_susp _ _ (ci_places _ Hch)); unfold waiting; rewrite Ew; by left).
      unfold state_of in Hsu. rewrite Ex in Hsu. by injection Hsu. }
    apply accounted_producer; try done; [by apply settles_same|congruence| |by intros a x v; rewrite Haw; intros Hx Hk Hst; destruct (Hnone a x v)].
    destruct (Hdr Hwl) as [-> | ->]; [done|]. pose proof (fl_bound _ (ci_flow _ Hch)) as Hb. unfold room in Hb. rewrite Hc in Hb.
    change (wrap_u 64 2) with 2 in Hb. lia.
Qed.

Lemma demo_step_accounted d e d' : demo_ok d -> accounted d -> demo_step d e = Some (Ok d') -> accounted d'.
Proof.
  intros Hok Ha. destruct e as [|j|k]; cbn [demo_step].
  - by apply producer_accounted.
  - destruct (consumers d !! j) as [c|] eqn:Hj; [|done]. by apply consumer_accounted.
  - destruct (k <? _)%nat; [|done]. cbn [step]. destruct (run_pending (chan d) k) as [s'| |] eqn:Hs; [|done..]. cbn [mbind result_bind].
    intros [= <-]. pose proof (run_evolves _ _ _ Hs) as He. destruct (run_one _ _ _ Hs) as [[Hac _ Hask _ _] _]. destruct (keeps_run _ _ _ Hs) as [Hk1 Hk2].
    pose proof Ha as [Hc Hd Hw Has Hp]. split; cbn; [congruence|by rewrite Hk2| |by rewrite Hask|].
    + intros a x v Hx Hkx Hst. destruct (writers_evolve _ _ He a x v Hx Hkx Hst) as (y & Hy & Hky & Hsty). by eapply Hw.
    + intros j c m Hj Hm. eapply read_over_settles; [by apply settles_evolves|by rewrite Hac|by apply Hp].
Qed.

Lemma demo_steps_accounted d es : demo_ok d -> accounted d -> exists d', demo_steps d es = Ok d' /\ demo_ok d' /\ accounted d'.
Proof.
  revert d. induction es as [|e es IH]; intros d Hok Ha; cbn [demo_steps]; [by exists d|].
  pose proof (demo_step_ok d e Hok) as He. destruct (demo_step d e) as [r|] eqn:Es; [|by apply IH].
  destruct He as (d1 & -> & Hd1). apply IH; [done|]. exact (demo_step_accounted d e d1 Hok Ha Es).
Qed.

Lemma new_demo_accounted : accounted new_demo.
Proof.
  split; cbn; try done; [lia|by intros a Ha; apply not_elem_of_nil in Ha|].
  intros j c m Hj. apply (lookup_replicate_1 2) in Hj as [-> _]. cbn. lia.
Qed.

(** ** The end *)

(** What happened to a value that was given to a reader. *)
Lemma handed_fate d a v : demo_ok d -> accounted d -> (a, v) ∈ handed (chan d) ->
  exists j c m, consumers d !! j = Some c /\ a = read_at j m
    /\ (v ∈ received c \/ (S m = reads c /\ state_of (chan d) a = Some Threw) \/ place c = C_await).
Proof.
  intros Hok Ha Hin. pose proof (do_channel d Hok) as Hch.
  assert (a ∈ asked (chan d)) as Hask.
  { rewrite (fl_asked _ (ci_flow _ Hch)), elem_of_app. left. by apply (list_elem_of_fmap_2 fst _ (a, v)). }
  destruct (ac_asked d Ha a Hask) as (j & m & Hj & ->). destruct (lookup_lt_is_Some_2 (consumers d) j) as [c Hc]; [by rewrite (do_two d Hok)|].
  exists j, c, m. split; [done|]. split; [done|]. pose proof (co_asked _ _ _ (do_consumer d Hok j c Hc) m Hask) as Hm.
  unfold asked_by in Hm. destruct (decide (m < reads c)%nat) as [Hlt|Hge]; [|destruct (place c); auto; lia].
  destruct (ac_past d Ha j c m Hc Hlt) as (x & Hx & [(w & Hw & Hrec)|(Ht & _ & Hs & _)]).
  - left. assert ((read_at j m, w) ∈ handed (chan d)) as Hin'
      by (apply (an_returned _ (ci_answers _ Hch) _ (Some w)); unfold state_of; rewrite Hx; cbn; by rewrite Hw).
    replace v with w; [done|]. apply list_elem_of_lookup in Hin as [p Hp]. apply list_elem_of_lookup in Hin' as [q Hq].
    assert (NoDup (handed (chan d)).*1) as Hnd.
    { pose proof (an_once _ (ci_answers _ Hch)) as Hn. rewrite (fl_asked _ (ci_flow _ Hch)) in Hn. by apply NoDup_app in Hn as (? & _). }
    assert (p = q) as -> by (apply (NoDup_lookup _ p q (read_at j m) Hnd); rewrite list_lookup_fmap; by rewrite ?Hp, ?Hq). congruence.
  - right. left. split; [done|]. unfold state_of. rewrite Hx. cbn. by rewrite Ht.
Qed.

(** The value that the last read of consumer [j] was given and did not take. *)
Definition lost_by (d : demo) (j : nat) (c : consumer) : list Z :=
  match list_find (fun p => p.1 = read_at j (pred (reads c))) (handed (chan d)) with
  | Some (_, p) => match state_of (chan d) p.1 with Some Threw => [p.2] | _ => [] end
  | None => []
  end.

Lemma lost_by_length d j c : (length (lost_by d j c) <= 1)%nat.
Proof. unfold lost_by. destruct (list_find _ _) as [[i p]|]; [|cbn; lia]. destruct (state_of _ _) as [[]|]; cbn; lia. Qed.

Lemma lost_by_handed d j c v : v ∈ lost_by d j c -> exists a, (a, v) ∈ handed (chan d) /\ state_of (chan d) a = Some Threw.
Proof.
  unfold lost_by. destruct (list_find _ _) as [[i [a w]]|] eqn:E; [|by intros Hv; apply not_elem_of_nil in Hv].
  apply list_find_Some in E as (Hi & _ & _). apply list_elem_of_lookup_2 in Hi. cbn.
  destruct (state_of (chan d) a) as [[]|] eqn:Es; try (by intros Hv; apply not_elem_of_nil in Hv).
  intros ->%list_elem_of_singleton. by exists a.
Qed.

Lemma lost_by_in d j c m v : channel_inv (chan d) -> (read_at j m, v) ∈ handed (chan d) -> S m = reads c ->
  state_of (chan d) (read_at j m) = Some Threw -> v ∈ lost_by d j c.
Proof.
  intros Hch Hin Hm Hs. unfold lost_by. rewrite <- Hm. cbn [pred].
  assert (NoDup (handed (chan d)).*1) as Hnd.
  { pose proof (an_once _ (ci_answers _ Hch)) as Hn. rewrite (fl_asked _ (ci_flow _ Hch)) in Hn. by apply NoDup_app in Hn as (? & _). }
  destruct (list_find _ _) as [[i [a w]]|] eqn:E.
  - apply list_find_Some in E as (Hi & Ha & _). cbn in Ha. subst a. cbn. rewrite Hs. apply list_elem_of_lookup in Hin as [p Hp].
    assert (p = i) as -> by (apply (NoDup_lookup _ p i (read_at j m) Hnd); rewrite list_lookup_fmap; by rewrite ?Hp, ?Hi).
    rewrite Hp in Hi. injection Hi as ->. by left.
  - apply list_find_None in E. rewrite Forall_forall in E. by destruct (E _ Hin).
Qed.

(** C12: However the three coroutines, their loopers and the end of their sleeps interleave,
    the channel is used without an undefined step, deadlock in [close] or exception in
    the producer; what has been written is 0, 1, 2, ... up to at most 9, and each consumer
    receives some of these values in their order, none twice, and none that the other one
    receives. When the three have ended, all ten values have been written, and each of them
    has been received but for at most four: two that [close] found in the buffer, and one
    for each consumer that it had been given when the channel was closed. So the consumers
    receive at least six values. *)
Theorem demo_received es : exists d c c', demo_steps new_demo es = Ok d /\ consumers d = [c; c']
  /\ producing d <> P_threw
  /\ (exists n, (n <= 10)%nat /\ written (chan d) = Z.of_nat <$> seq 0 n)
  /\ StronglySorted Z.lt (received c) /\ StronglySorted Z.lt (received c')
  /\ (forall v, v ∈ received c \/ v ∈ received c' -> v ∈ written (chan d))
  /\ (forall v, v ∈ received c -> v ∉ received c')
  /\ (demo_over d = true -> length (written (chan d)) = 10%nat /\ (6 <= length (received c) + length (received c'))%nat
        /\ exists lost, (length lost <= 2)%nat /\ (length (dropped (chan d)).1 <= 2)%nat
          /\ (forall v, v ∈ lost -> exists a, (a, v) ∈ handed (chan d) /\ state_of (chan d) a = Some Threw)
          /\ forall v, v ∈ written (chan d) -> v ∈ received c \/ v ∈ received c' \/ v ∈ (dropped (chan d)).1 \/ v ∈ lost).
Proof.
  destruct (demo_steps_accounted new_demo es new_demo_ok new_demo_accounted) as (d & Hes & Hok & Ha).
  pose proof (do_two d Hok) as H2. destruct (consumers d) as [|c [|c' [|]]] eqn:Ec; try done. exists d, c, c'.
  destruct (demo_order d Hok) as (Hth & (n & Hn & Hw) & Hrec & Hdis). rewrite Ec in *.
  destruct (Hrec 0%nat c eq_refl) as [Hs1 Hr1], (Hrec 1%nat c' eq_refl) as [Hs2 Hr2].
  assert (forall v, 0 <= v < Z.of_nat (length (written (chan d))) -> v ∈ written (chan d)) as Hin.
  { intros v Hv. rewrite Hw, length_fmap, length_seq in Hv. rewrite Hw. apply list_elem_of_fmap. exists (Z.to_nat v). split; [lia|]. apply elem_of_seq. lia. }
  split_and!; try done; [by exists n| |exact (fun v => Hdis c c' v eq_refl eq_refl)|].
  { rewrite Forall_forall in Hr1, Hr2. intros v [Hv|Hv]; apply Hin; auto. }
  intros Hover. unfold demo_over in Hover. destruct (producing d) eqn:Hpr; try done. rewrite Ec in Hover. cbn in Hover.
  pose proof (do_producer d Hok) as Hp. rewrite Hpr in Hp. pose proof (po_sent _ _ Hp) as Hsent. cbn in Hsent.
  assert (length (written (chan d)) = 10%nat) as Hlen by (by rewrite Hsent). split; [done|].
  set (lost := lost_by d 0 c ++ lost_by d 1 c').
  assert (length lost <= 2)%nat as Hll by (unfold lost; rewrite length_app; pose proof (lost_by_length d 0 c); pose proof (lost_by_length d 1 c'); lia).
  assert (forall v, v ∈ written (chan d) -> v ∈ received c \/ v ∈ received c' \/ v ∈ (dropped (chan d)).1 \/ v ∈ lost) as Hall.
  { intros v Hv. pose proof (do_channel d Hok) as Hch. pose proof (ci_flow _ Hch) as Hf. destruct (fl_values _ Hf) as (vs & Hvs & E).
    pose proof (fl_closed _ Hf (po_active _ _ Hp)) as Hem. rewrite (po_clean _ _ Hp eq_refl) in Hem. destruct Hem as (Hb & Hwl & _).
    rewrite Hwl in Hvs. apply Forall2_nil_inv_l in Hvs as ->. rewrite E, Hb, !app_nil_r, elem_of_app in Hv.
    destruct Hv as [([a w] & -> & Hv)%list_elem_of_fmap|Hv]; [|by auto]. cbn.
    destruct (handed_fate d a w Hok Ha Hv) as (j & x & m & Hj & -> & Hcase). rewrite Ec in Hj. destruct j as [|[|j]]; [| |done]; injection Hj as <-.
    - destruct Hcase as [?|[[Hm Hs]|Hpl]]; [by left|..]; [|by rewrite Hpl in Hover].
      right. right. right. apply elem_of_app. left. by eapply lost_by_in.
    - destruct Hcase as [?|[[Hm Hs]|Hpl]]; [by right; left|..]; [|rewrite Hpl in Hover; by destruct (place c)].
      right. right. right. apply elem_of_app. right. by eapply lost_by_in. }
  split; [|exists lost; split_and!; [done|apply Ha| |done]].
  - assert (NoDup (written (chan d))) as Hnd by (rewrite Hw; apply NoDup_fmap_2; [apply _|apply NoDup_seq]).
    assert (written (chan d) ⊆+ received c ++ received c' ++ (dropped (chan d)).1 ++ lost) as Hsub.
    { apply NoDup_submseteq; [done|]. intros v Hv. rewrite !elem_of_app. by apply Hall. }
    apply submseteq_length in Hsub. rewrite !length_app in Hsub. pose proof (ac_dropped d Ha). lia.
  - intros v [Hv|Hv]%elem_of_app; by eapply lost_by_handed.
Qed.
