(* ===== verification/CoGenerator.v ===== *)
(** Generators (src/coroutine/generator.h): the protocol of [has_next] and [next] over a
    coroutine, and the generators made of other generators, against functions on lists. *)

From S2P Require Import Prelude.
#[local] Open Scope Z_scope.

(** What a coroutine does when it is resumed with its frame: it yields a value and waits
    with a new frame, or reaches its end; [unhandled_exception] makes an exception an end
    too. [None]: it is still running when the fuel is used up. *)
Inductive outcome (F T : Type) :=
| Yield (v : T) (s : F)
| Finish.
Arguments Yield {F T} v s.
Arguments Finish {F T}.

Definition coroutine (F T : Type) : Type := nat -> F -> option (outcome F T).

(** More fuel does not change what it does. *)
Class Lawful {F T} (body : coroutine F T) : Prop :=
  more_fuel n m s o : (n <= m)%nat -> body n s = Some o -> body m s = Some o.

(** [Generator] with its [promise_type]. *)
Record Generator (F T : Type) := { frame : F; done : bool; value : option T; is_ready : bool }.
Arguments frame {F T} _.
Arguments done {F T} _.
Arguments value {F T} _.
Arguments is_ready {F T} _.

(** [get_return_object]; the coroutine is suspended at its start. *)
Definition start {F T} (s : F) : Generator F T := {| frame := s; done := false; value := None; is_ready := false |}.

(** What [next] returns, or [ExhaustedException]. *)
Inductive next_result (T : Type) := Next (v : T) | Exhausted.
Arguments Next {T} v.
Arguments Exhausted {T}.

Section Protocol.
Context {F T : Type} (body : coroutine F T).
Implicit Types (g h : Generator F T) (n m : nat).

(** [handle.resume()]; [yield_value] and [await_transform] store the value. *)
Definition resume (n : nat) (g : Generator F T) : option (Generator F T) :=
  match body n (frame g) with
  | Some (Yield v s) => Some {| frame := s; done := false; value := Some v; is_ready := true |}
  | Some Finish => Some {| frame := frame g; done := true; value := value g; is_ready := is_ready g |}
  | None => None
  end.

Definition has_next (n : nat) (g : Generator F T) : option (bool * Generator F T) :=
  if done g then Some (false, g) else
  g ← (if is_ready g then Some g else resume n g);
  Some (negb (done g), g).

Definition next (n : nat) (g : Generator F T) : option (next_result T * Generator F T) :=
  match has_next n g with
  | Some (true, g) =>
    v ← value g;
    Some (Next v, {| frame := frame g; done := done g; value := value g; is_ready := false |})
  | Some (false, g) => Some (Exhausted, g)
  | None => None
  end.

(** [fold], and [for_each] and [sum] as the loops they are. *)
Fixpoint fold {R} (n : nat) (f : R -> T -> R) (acc : R) (g : Generator F T) : option R :=
  match n with
  | O => None
  | S n =>
    match has_next n g with
    | Some (true, g) =>
      match next n g with
      | Some (Next v, g) => fold n f (f acc v) g
      | _ => None
      end
    | Some (false, _) => Some acc
    | None => None
    end
  end.

Definition sum (n : nat) (zero : T) (add : T -> T -> T) (g : Generator F T) : option T := fold n add zero g.

Definition for_each {W} (n : nat) (f : T -> W -> W) (w : W) (g : Generator F T) : option W :=
  fold n (fun w v => f v w) w g.

(** ** What a generator delivers *)

Inductive produces : Generator F T -> list T -> Prop :=
| produces_nil n g g' : next n g = Some (Exhausted, g') -> produces g []
| produces_cons n g v g' l : next n g = Some (Next v, g') -> produces g' l -> produces g (v :: l).

(** The same of a suspended coroutine. *)
Inductive runs : F -> list T -> Prop :=
| runs_nil n s : body n s = Some Finish -> runs s []
| runs_cons n s v s' l : body n s = Some (Yield v s') -> runs s' l -> runs s (v :: l).

Definition idle g (s : F) : Prop := frame g = s /\ done g = false /\ is_ready g = false.

Lemma start_idle s : idle (start s) s.
Proof. done. Qed.

Lemma runs_produces g s l : runs s l -> idle g s -> produces g l.
Proof.
  intros Hr. revert g. induction Hr as [n s Hb|n s v s' l Hb _ IH]; intros g (Hf & Hd & Hi).
  - eapply (produces_nil n). unfold next, has_next, resume. by rewrite Hd, Hi, Hf, Hb.
  - eapply (produces_cons n); [unfold next, has_next, resume; by rewrite Hd, Hi, Hf, Hb|]. by apply IH.
Qed.

Context `{!Lawful body}.

Lemma has_next_more n m g x : (n <= m)%nat -> has_next n g = Some x -> has_next m g = Some x.
Proof.
  intros Hle. unfold has_next, resume. destruct (done g); [by intros|]. destruct (is_ready g); [by intros|].
  destruct (body n (frame g)) as [o|] eqn:Hb; [|by intros]. by rewrite (more_fuel n m _ o Hle Hb).
Qed.

Lemma next_more n m g x : (n <= m)%nat -> next n g = Some x -> next m g = Some x.
Proof.
  intros Hle. unfold next. destruct (has_next n g) as [y|] eqn:Hh; [|by intros].
  by rewrite (has_next_more n m g y Hle Hh).
Qed.

(** [next] behind a successful [has_next]. *)
Lemma next_has_next n g v g' : next n g = Some (Next v, g') ->
  exists g1, has_next n g = Some (true, g1) /\ next n g1 = Some (Next v, g').
Proof.
  unfold next at 1. destruct (has_next n g) as [[[] g1]|] eqn:Hh; [|by intros|by intros].
  intros Hv. exists g1. split; [done|]. unfold next. assert (has_next n g1 = Some (true, g1)) as ->; [|done].
  unfold has_next, resume in *. destruct (done g); [done|]. destruct (is_ready g) eqn:Hi.
  - cbn in Hh. injection Hh as Hd <-. apply negb_true_iff in Hd. rewrite Hd, Hi. cbn. by rewrite Hd.
  - destruct (body n (frame g)) as [[w s|]|]; cbn in Hh; try done. by injection Hh as <-.
Qed.

Lemma next_exhausted n g g' : next n g = Some (Exhausted, g') -> has_next n g = Some (false, g').
Proof.
  unfold next. destruct (has_next n g) as [[[] g1]|]; cbn; [|by intros [= ->]|done]. by destruct (value g1).
Qed.

(** A coroutine that does some work and goes on as another one. *)
Lemma runs_skip n s s' l : (forall k, (n <= k)%nat -> body (S k) s = body k s') -> runs s' l -> runs s l.
Proof.
  intros Hs Hr. inversion Hr as [m ? Hb|m ? v s2 l' Hb Hl]; subst.
  - apply (runs_nil (S (Nat.max n m))). rewrite Hs by lia. eapply more_fuel, Hb. lia.
  - apply (runs_cons (S (Nat.max n m)) _ _ s2); [|done]. rewrite Hs by lia. eapply more_fuel, Hb. lia.
Qed.

Lemma fold_list {R} (f : R -> T -> R) g l : produces g l ->
  exists n, forall m acc, (n <= m)%nat -> fold m f acc g = Some (foldl f acc l).
Proof.
  induction 1 as [n g g' Hn|n g v g' l Hn _ [n' IH]].
  - exists (S n). intros [|m] acc Hm; [lia|]. cbn [fold].
    by rewrite (has_next_more n m g _ ltac:(lia) (next_exhausted _ _ _ Hn)).
  - exists (S (Nat.max n n')). intros [|m] acc Hm; [lia|]. cbn [fold].
    destruct (next_has_next _ _ _ _ Hn) as (g1 & Hh & Hn1).
    rewrite (has_next_more n m g _ ltac:(lia) Hh).
    rewrite (next_more n m g1 _ ltac:(lia) Hn1). cbn. apply IH. lia.
Qed.

End Protocol.

(** ** The generators of the library *)

(** [from_list] and, with the arguments as the list, [from]. *)
Definition from_list {T} : coroutine (list T) T := fun _ l =>
  match l with [] => Some Finish | t :: l => Some (Yield t l) end.

(** [from_array] with the length [n]; the frame is [i]. Reading outside the array has no
    outcome. *)
Definition from_array {T} (array : list T) (n : Z) : coroutine Z T := fun _ i =>
  if i <? n then (t ← aget array i; Some (Yield t (i + 1))) else Some Finish.

Section Combinators.
Context {F T : Type} (body : coroutine F T).

(** The generator a combinator is called on is part of the frame of its coroutine, which
    reaches it through [this]. *)

Definition map {U} (f : T -> U) : coroutine (Generator F T) U := fun n g =>
  match has_next body n g with
  | Some (true, g) => match next body n g with Some (Next v, g) => Some (Yield (f v) g) | _ => None end
  | Some (false, _) => Some Finish
  | None => None
  end.

Fixpoint filter (f : T -> bool) (n : nat) (g : Generator F T) : option (outcome (Generator F T) T) :=
  match n with
  | O => None
  | S n =>
    match has_next body n g with
    | Some (true, g) =>
      match next body n g with
      | Some (Next v, g) => if f v then Some (Yield v g) else filter f n g
      | _ => None
      end
    | Some (false, _) => Some Finish
    | None => None
    end
  end.

(** [while (i++ < n && has_next())]. *)
Definition take (n : Z) : coroutine (Z * Generator F T) T := fun k '(i, g) =>
  if i <? n then
    match has_next body k g with
    | Some (true, g) => match next body k g with Some (Next v, g) => Some (Yield v (i + 1, g)) | _ => None end
    | Some (false, _) => Some Finish
    | None => None
    end
  else Some Finish.

Definition take_while (f : T -> bool) : coroutine (Generator F T) T := fun n g =>
  match has_next body n g with
  | Some (true, g) =>
    match next body n g with
    | Some (Next v, g) => if f v then Some (Yield v g) else Some Finish
    | _ => None
    end
  | Some (false, _) => Some Finish
  | None => None
  end.

(** [f] gives generators with the coroutine [inner]. *)
Context {F2 U : Type} (inner : coroutine F2 U).

Fixpoint flat_map (f : T -> Generator F2 U) (n : nat) (s : Generator F T * option (Generator F2 U))
  : option (outcome (Generator F T * option (Generator F2 U)) U) :=
  match n, s with
  | O, _ => None
  | S n, (g, Some generator) =>
    match has_next inner n generator with
    | Some (true, generator) =>
      match next inner n generator with Some (Next v, generator) => Some (Yield v (g, Some generator)) | _ => None end
    | Some (false, _) => flat_map f n (g, None)
    | None => None
    end
  | S n, (g, None) =>
    match has_next body n g with
    | Some (true, g) => match next body n g with Some (Next v, g) => flat_map f n (g, Some (f v)) | _ => None end
    | Some (false, _) => Some Finish
    | None => None
    end
  end.

(** ** More fuel changes nothing *)

Context `{!Lawful body} `{!Lawful inner}.

#[export] Instance from_list_lawful : Lawful (@from_list T).
Proof. by intros n m l o _. Qed.

#[export] Instance from_array_lawful (array : list T) k : Lawful (from_array array k).
Proof. by intros n m i o _. Qed.

(** A step of a coroutine that asks a generator first. *)
Ltac ask b n m Hle :=
  let x := fresh "x" in let H := fresh "H" in
  lazymatch goal with
  | |- context [has_next b n ?g] =>
    destruct (has_next b n g) as [x|] eqn:H; [rewrite (has_next_more b n m g x Hle H); destruct x as [[] ?]|done]
  | |- context [next b n ?g] =>
    destruct (next b n g) as [x|] eqn:H; [rewrite (next_more b n m g x Hle H); destruct x as [[] ?]|done]
  end.

#[export] Instance map_lawful {V} (f : T -> V) : Lawful (map f).
Proof. intros n m g o Hle. unfold map. ask body n m Hle; [|done]. by ask body n m Hle. Qed.

#[export] Instance filter_lawful f : Lawful (filter f).
Proof.
  intros n. induction n as [|n IH]; intros [|m] g o Hle; try done; [lia|]. apply le_S_n in Hle. cbn [filter].
  ask body n m Hle; [|done]. ask body n m Hle; [|done]. destruct (f v); [done|]. by apply IH.
Qed.

#[export] Instance take_lawful k : Lawful (take k).
Proof. intros n m [i g] o Hle. unfold take. case_bool; [|done]. ask body n m Hle; [|done]. by ask body n m Hle. Qed.

#[export] Instance take_while_lawful f : Lawful (take_while f).
Proof. intros n m g o Hle. unfold take_while. ask body n m Hle; [|done]. by ask body n m Hle. Qed.

#[export] Instance flat_map_lawful f : Lawful (flat_map f).
Proof.
  intros n. induction n as [|n IH]; intros [|m] [g [i|]] o Hle; try done; try lia; apply le_S_n in Hle; cbn [flat_map].
  - ask inner n m Hle; [by ask inner n m Hle|]. by apply IH.
  - ask body n m Hle; [|done]. ask body n m Hle; [|done]. by apply IH.
Qed.

End Combinators.

(** ** Combinators and lists *)

Fixpoint take_while_list {T} (f : T -> bool) (l : list T) : list T :=
  match l with [] => [] | x :: l => if f x then x :: take_while_list f l else [] end.

Lemma from_list_runs {T} (l : list T) : runs from_list l l.
Proof. induction l as [|x l IH]; [by apply (runs_nil _ 0)|by apply (runs_cons _ 0 _ x l)]. Qed.

Lemma from_array_runs {T} (array : list T) i l : drop i array = l ->
  runs (from_array array (Z.of_nat (length array))) (Z.of_nat i) l.
Proof.
  revert i. induction l as [|x l IH]; intros i Hl.
  - apply (runs_nil _ 0). unfold from_array. apply (f_equal length) in Hl. rewrite length_drop in Hl. cbn in Hl.
    case_bool; [lia|done].
  - assert (array !! i = Some x) as Hx by (by rewrite <- (Nat.add_0_r i), <- lookup_drop, Hl).
    apply (runs_cons _ 0 _ x (Z.of_nat (S i))).
    + unfold from_array. apply lookup_lt_Some in Hx as Hlt. case_bool; [|lia]. rewrite aget_nat, Hx. cbn. by rewrite Z_of_nat_succ.
    + apply IH. by rewrite <- Nat.add_1_r, <- drop_drop, Hl.
Qed.

Section Lists.
Context {F T : Type} {body : coroutine F T} `{!Lawful body}.
Implicit Types (g : Generator F T) (l : list T).

Lemma map_runs {U} (f : T -> U) g l : produces body g l -> runs (map body f) g (f <$> l).
Proof.
  induction 1 as [n g g' Hn|n g v g' l Hn _ IH].
  - apply (runs_nil _ n). unfold map. by rewrite (next_exhausted _ _ _ _ Hn).
  - apply (runs_cons _ n _ _ g'); [|done]. destruct (next_has_next _ _ _ _ _ Hn) as (g1 & Hh & Hn1).
    unfold map. by rewrite Hh, Hn1.
Qed.

Lemma filter_runs f g l : produces body g l -> runs (filter body f) g (List.filter f l).
Proof.
  induction 1 as [n g g' Hn|n g v g' l Hn _ IH].
  - apply (runs_nil _ (S n)). cbn. by rewrite (next_exhausted _ _ _ _ Hn).
  - destruct (next_has_next _ _ _ _ _ Hn) as (g1 & Hh & Hn1). cbn [List.filter]. destruct (f v) eqn:Hf.
    + apply (runs_cons _ (S n) _ _ g'); [|done]. cbn. by rewrite Hh, Hn1, Hf.
    + apply (runs_skip _ n g g'); [|done]. intros k Hk. cbn [filter].
      by rewrite (has_next_more _ n k _ _ Hk Hh), (next_more _ n k _ _ Hk Hn1), Hf.
Qed.

Lemma take_while_runs f g l : produces body g l ->
  runs (take_while body f) g (take_while_list f l).
Proof.
  induction 1 as [n g g' Hn|n g v g' l Hn _ IH].
  - apply (runs_nil _ n). unfold take_while. by rewrite (next_exhausted _ _ _ _ Hn).
  - destruct (next_has_next _ _ _ _ _ Hn) as (g1 & Hh & Hn1). cbn [take_while_list]. destruct (f v) eqn:Hf.
    + apply (runs_cons _ n _ _ g'); [|done]. unfold take_while. by rewrite Hh, Hn1, Hf.
    + apply (runs_nil _ n). unfold take_while. by rewrite Hh, Hn1, Hf.
Qed.

Lemma take_runs k i g l : produces body g l -> 0 <= i ->
  runs (take body k) (i, g) (firstn (Z.to_nat (k - i)) l).
Proof.
  intros Hp. revert i. induction Hp as [n g g' Hn|n g v g' l Hn _ IH]; intros i Hi.
  - rewrite firstn_nil. apply (runs_nil _ n). unfold take. case_bool; [|done]. by rewrite (next_exhausted _ _ _ _ Hn).
  - destruct (next_has_next _ _ _ _ _ Hn) as (g1 & Hh & Hn1). destruct (Z.ltb_spec i k) as [Hlt|Hge].
    + replace (Z.to_nat (k - i)) with (S (Z.to_nat (k - (i + 1)))) by lia. cbn [firstn].
      apply (runs_cons _ n _ _ (i + 1, g')); [|apply IH; lia]. unfold take. case_bool; [|lia]. by rewrite Hh, Hn1.
    + replace (Z.to_nat (k - i)) with O by lia. cbn. apply (runs_nil _ n). unfold take. case_bool; [lia|done].
Qed.

Context {F2 U : Type} {inner : coroutine F2 U} `{!Lawful inner}.

(** The values of the generator that is being expanded, then those of the others. *)
Lemma flat_map_inner (f : T -> Generator F2 U) g (h : Generator F2 U) (l1 l2 : list U) : produces inner h l1 ->
  runs (flat_map body inner f) (g, None) l2 -> runs (flat_map body inner f) (g, Some h) (l1 ++ l2).
Proof.
  intros Hp Hr. induction Hp as [n h h' Hn|n h v h' l1 Hn _ IH].
  - apply (runs_skip _ n _ (g, None)); [|done]. intros k Hk. cbn [flat_map].
    by rewrite (has_next_more _ n k _ _ Hk (next_exhausted _ _ _ _ Hn)).
  - destruct (next_has_next _ _ _ _ _ Hn) as (h1 & Hh & Hn1).
    apply (runs_cons _ (S n) _ _ (g, Some h')); [|done]. cbn. by rewrite Hh, Hn1.
Qed.

Lemma flat_map_runs (f : T -> Generator F2 U) (k : T -> list U) g l : (forall x, x ∈ l -> produces inner (f x) (k x)) ->
  produces body g l -> runs (flat_map body inner f) (g, None) (l ≫= k).
Proof.
  intros Hk Hp. induction Hp as [n g g' Hn|n g v g' l Hn _ IH].
  - apply (runs_nil _ (S n)). cbn. by rewrite (next_exhausted _ _ _ _ Hn).
  - destruct (next_has_next _ _ _ _ _ Hn) as (g1 & Hh & Hn1).
    apply (runs_skip _ n _ (g', Some (f v))).
    + intros m Hm. cbn [flat_map]. by rewrite (has_next_more _ n m _ _ Hm Hh), (next_more _ n m _ _ Hm Hn1).
    + cbn. apply flat_map_inner; [apply Hk; set_solver|]. apply IH. set_solver.
Qed.

End Lists.

(** ** The theorems *)

(** C22: Of a generator that delivers the list [l], the generators made by [map], [filter],
    [take], [take_while] and [flat_map] deliver what the functions on lists give for [l],
    and [fold] returns the fold of [l]; [from_list] and [from_array] deliver their list.
    Each of them needs a finite amount of fuel. *)
Theorem generator_lists {F T F2 U R} (body : coroutine F T) (inner : coroutine F2 U) `{!Lawful body, !Lawful inner} g l
    (f : T -> U) (p : T -> bool) (k : Z) (e : T -> Generator F2 U) (le : T -> list U) (a : R -> T -> R) (r : R)
    (Hg : produces body g l) (He : forall x, x ∈ l -> produces inner (e x) (le x)) :
  produces (map body f) (start g) (f <$> l)
  /\ produces (filter body p) (start g) (List.filter p l)
  /\ produces (take body k) (start (0, g)) (firstn (Z.to_nat k) l)
  /\ produces (take_while body p) (start g) (take_while_list p l)
  /\ produces (flat_map body inner e) (start (g, None)) (l ≫= le)
  /\ (exists n, forall m, (n <= m)%nat -> fold body m a r g = Some (foldl a r l))
  /\ produces from_list (start l) l
  /\ produces (from_array l (Z.of_nat (length l))) (start 0) l.
Proof.
  split_and!; try (eapply runs_produces; [|apply start_idle]).
  - by apply map_runs.
  - by apply filter_runs.
  - pose proof (take_runs k 0 g l Hg ltac:(lia)) as Ht. by rewrite Z.sub_0_r in Ht.
  - by apply take_while_runs.
  - by apply flat_map_runs.
  - destruct (fold_list body a g l Hg) as [n Hn]. exists n. intros m Hm. by apply Hn.
  - apply from_list_runs.
  - by apply (from_array_runs l 0).
Qed.

Theorem generator_lists_witness :
  produces (filter from_list Z.even) (start (start [1; 2; 3; 4])) [2; 4]
  /\ produces (flat_map from_list from_list (fun x => start [x; - x])) (start (start [1; 2; 3; 4], None)) [1; -1; 2; -2; 3; -3; 4; -4]
  /\ exists n, forall m, (n <= m)%nat -> fold from_list m Z.add 0 (start [1; 2; 3; 4]) = Some 10.
Proof.
  assert (forall l : list Z, produces from_list (start l) l) as Hl
    by (intros l; eapply runs_produces; [apply from_list_runs|apply start_idle]).
  destruct (generator_lists from_list from_list (start [1; 2; 3; 4]) [1; 2; 3; 4] id Z.even 2
    (fun x => start [x; - x]) (fun x => [x; - x]) Z.add 0 (Hl _) (fun x _ => Hl _)) as (_ & Hf & _ & _ & Hm & Hs & _).
  exact (conj Hf (conj Hm Hs)).
Defined.

(** [take] asks its generator for no more values than it delivers, so it also works on a
    generator without an end. *)
Inductive delivers {F T} (body : coroutine F T) : Generator F T -> list T -> Generator F T -> Prop :=
| delivers_nil g : delivers body g [] g
| delivers_cons n g v g1 l g' : next body n g = Some (Next v, g1) -> delivers body g1 l g' -> delivers body g (v :: l) g'.

Theorem take_stops {F T} (body : coroutine F T) `{!Lawful body} g l g' i : delivers body g l g' -> 0 <= i ->
  runs (take body (i + Z.of_nat (length l))) (i, g) l
  /\ exists n, take body (i + Z.of_nat (length l)) n (i + Z.of_nat (length l), g') = Some Finish.
Proof.
  intros Hd. revert i. induction Hd as [g|n g v g1 l g' Hn _ IH]; intros i Hi.
  - replace (i + Z.of_nat (length [])) with i by (cbn; lia). split; [apply (runs_nil _ 0)|exists O]; unfold take; case_bool; (lia || done).
  - replace (i + Z.of_nat (length (v :: l))) with (i + 1 + Z.of_nat (length l)) by (cbn; lia).
    destruct (IH (i + 1) ltac:(lia)) as [Hr Hf]. split; [|done]. destruct (next_has_next _ _ _ _ _ Hn) as (g2 & Hh & Hn2).
    apply (runs_cons _ n _ _ (i + 1, g1)); [|done]. unfold take. case_bool; [|lia]. by rewrite Hh, Hn2.
Qed.
