(* ===== verification/CoSeries.v ===== *)
(** The generators of the demonstration (src/coroutine/main.cpp): [sequence] and
    [fibonacci] as coroutines over [CoGenerator], and what [main] prints of them. *)

From S2P Require Import Prelude CoGenerator.
#[local] Open Scope Z_scope.

(** The frame of [sequence] at the head of its loop. *)
Record sequence_frame := { seq_i : Z; seq_p : Z }.

Definition sequence : coroutine sequence_frame Z := fun _ s =>
  Some (if seq_p s <? 5 then Yield (seq_i s) {| seq_i := seq_i s + 1; seq_p := seq_p s + 1 |} else Finish).

(** Where [fibonacci] is suspended. *)
Inductive fibonacci_frame :=
| Fib_start
| Fib_zero                (* at [co_yield 0] *)
| Fib_one                 (* at [co_yield 1] *)
| Fib_loop (a b : Z).     (* at [co_yield a + b] *)

Definition fibonacci : coroutine fibonacci_frame Z := fun _ s =>
  Some match s with
       | Fib_start => Yield 0 Fib_zero
       | Fib_zero => Yield 1 Fib_one
       | Fib_one => Yield (0 + 1) (Fib_loop 0 1)
       | Fib_loop a b =>
         let b := a + b in
         let a := b - a in
         Yield (a + b) (Fib_loop a b)
       end.

#[export] Instance sequence_lawful : Lawful sequence.
Proof. by intros n m s o _. Qed.
#[export] Instance fibonacci_lawful : Lawful fibonacci.
Proof. by intros n m s o _. Qed.

(** [while (gen.has_next()) std::cout << gen.next()]; the fuel is for the rounds. *)
Fixpoint print_all {F} (body : coroutine F Z) (rounds : nat) (g : Generator F Z) : option (list Z) :=
  match rounds with
  | O => None
  | S rounds =>
    match has_next body 0 g with
    | Some (true, g) =>
      match next body 0 g with
      | Some (Next v, g) => l ← print_all body rounds g; Some (v :: l)
      | _ => None
      end
    | Some (false, _) => Some []
    | None => None
    end
  end.

(** [for (int i = 0; i < n; i++) std::cout << gen.next()] *)
Fixpoint print_next {F} (body : coroutine F Z) (n : nat) (g : Generator F Z) : option (list Z) :=
  match n with
  | O => Some []
  | S n =>
    match next body 0 g with
    | Some (Next v, g) => l ← print_next body n g; Some (v :: l)
    | _ => None
    end
  end.

(** ** Theorems *)

(** [main] prints 0 to 4; the loop ends after the five values. *)
Theorem sequence_printed rounds : (5 < rounds)%nat -> print_all sequence rounds (start {| seq_i := 0; seq_p := 0 |}) = Some [0; 1; 2; 3; 4].
Proof. intros Hr. destruct rounds as [|[|[|[|[|[|rounds]]]]]]; try lia. reflexivity. Qed.

Fixpoint fib (n : nat) : Z :=
  match n with
  | O => 0
  | S n' => match n' with O => 1 | S n'' => fib n' + fib n'' end
  end.

Lemma fib_SS n : fib (S (S n)) = fib (S n) + fib n.
Proof. done. Qed.

(** The same with one addition for each number. *)
Fixpoint fib_pair (n : nat) : Z * Z :=
  match n with O => (0, 1) | S n => let '(a, b) := fib_pair n in (b, a + b) end.

Lemma fib_pair_fib n : fib_pair n = (fib n, fib (S n)).
Proof. induction n as [|n IH]; [done|]. cbn [fib_pair]. rewrite IH, fib_SS. f_equal. lia. Qed.

Lemma fib_fast n : fib n = (fib_pair n).1.
Proof. by rewrite fib_pair_fib. Qed.

Lemma next_idle {F} (body : coroutine F Z) g s v s' : idle g s -> body 0%nat s = Some (Yield v s') ->
  exists g', next body 0 g = Some (Next v, g') /\ idle g' s'.
Proof.
  intros (Hf & Hd & Hi) Hb. unfold next, has_next, resume. rewrite Hd, Hi, Hf, Hb. cbn. eexists. split; [done|]. by split_and!.
Qed.

(** From number [k] on, in the loop. *)
Lemma fibonacci_loop n k g : idle g (Fib_loop (fib k) (fib (S k))) ->
  print_next fibonacci n g = Some (fib <$> seq (S (S (S k))) n).
Proof.
  revert k g. induction n as [|n IH]; intros k g Hg; [done|]. cbn [print_next seq fmap list_fmap].
  destruct (next_idle fibonacci g _ (fib (S (S (S k)))) (Fib_loop (fib (S k)) (fib (S (S k)))) Hg) as (g' & -> & Hg').
  { unfold fibonacci. rewrite (fib_SS (S k)), (fib_SS k). cbv zeta.
    replace (fib k + fib (S k)) with (fib (S k) + fib k) by lia.
    replace (fib (S k) + fib k - fib k) with (fib (S k)) by lia. do 2 f_equal. lia. }
  by rewrite (IH (S k) g' Hg').
Qed.

(** [fibonacci] delivers the Fibonacci numbers, as many as are asked for. They are numbers
    of an [int] up to number 46; computing number 47 overflows. *)
Theorem fibonacci_printed n : print_next fibonacci n (start Fib_start) = Some (fib <$> seq 0 n)
  /\ (forall k, (k <= 46)%nat -> 0 <= fib k < 2 ^ 31) /\ 2 ^ 31 <= fib 47.
Proof.
  split_and!.
  - assert (idle (start Fib_start : Generator _ Z) Fib_start) as H0 by done.
    destruct n as [|n]; [done|]. cbn [print_next].
    destruct (next_idle fibonacci _ _ 0 Fib_zero H0 eq_refl) as (g1 & -> & H1).
    destruct n as [|n]; [done|]. cbn [print_next].
    destruct (next_idle fibonacci _ _ 1 Fib_one H1 eq_refl) as (g2 & -> & H2).
    destruct n as [|n]; [done|]. cbn [print_next].
    destruct (next_idle fibonacci _ _ 1 (Fib_loop 0 1) H2 eq_refl) as (g3 & -> & H3).
    by rewrite (fibonacci_loop n 0 g3 H3).
  - assert (forall k, 0 <= fib k <= fib (S k)) as Hmono.
    { induction k as [|k IH]; [cbn; lia|]. rewrite fib_SS. lia. }
    intros k Hk. split; [apply Hmono|]. apply (Z.le_lt_trans _ (fib 46)); [|rewrite fib_fast; vm_compute; reflexivity].
    induction Hk as [|m Hk IH]; [lia|]. pose proof (Hmono m). lia.
  - rewrite fib_fast. vm_compute. discriminate.
Qed.
