(* ===== verification/CoPrint.v ===== *)
(** The printing helpers of the coroutines, src/coroutine/ioutils.h and ioutils.cpp: the name
    of a file within its path, and the line that [Println] prints. The time and the number of
    the thread, which [debug] prints before, are left out. *)

From S2P Require Import Prelude Result.
#[local] Open Scope Z_scope.

Section Print.
(** Whether the macro [_WIN32] is defined. *)
Context (_WIN32 : bool).

Definition separator : Z := if _WIN32 then 92 else 47.

(** The memory from [path] on is [mem]; pointers are numbers of places in it. *)
Fixpoint file_name_loop (fuel : nat) (mem : list Z) (path file : Z) : result (option Z) :=
  match fuel with
  | O => Ok None
  | S fuel =>
    c ← rget mem path;
    if c =? 0 then Ok (Some file)
    else
      let path := path + 1 in
      file_name_loop fuel mem path (if c =? separator then path else file)
  end.

Definition file_name (fuel : nat) (mem : list Z) : result (option Z) := file_name_loop fuel mem 0 0.

End Print.

(** What [Println] prints: the texts of its arguments, with the counter [i] of [n] of them. *)
Fixpoint printer (n i : nat) (u : list (list Z)) : list Z :=
  match u with
  | [] => []
  | arg :: u => let i := S i in arg ++ (if (n =? i)%nat then [10] else [32]) ++ printer n i u
  end.

Definition Println (u : list (list Z)) : list Z := printer (length u) 0 u.

(** ** The theorems *)

(** [dir] is what is before the last part [base] of a path. *)
Definition splits (sep : Z) (s dir base : list Z) : Prop := s = dir ++ base /\ sep ∉ base /\ (dir = [] \/ last dir = Some sep).

Lemma splits_snoc sep s dir base c : splits sep s dir base ->
  if c =? sep then splits sep (s ++ [c]) (s ++ [c]) [] else splits sep (s ++ [c]) dir (base ++ [c]).
Proof.
  intros (-> & Hb & Hd). destruct (Z.eqb_spec c sep) as [->|Hne].
  - split_and!; [by rewrite app_nil_r|apply not_elem_of_nil|right; apply last_snoc].
  - split_and!; [by rewrite (assoc_L (++))| |done]. rewrite elem_of_app, list_elem_of_singleton. intros [H|H]; done.
Qed.

Lemma file_name_loop_ok w rest s : forall fuel pre dir base, 0 ∉ s -> (length s < fuel)%nat -> splits (separator w) pre dir base ->
  exists dir' base', splits (separator w) (pre ++ s) dir' base'
    /\ file_name_loop w fuel (pre ++ s ++ 0 :: rest) (Z.of_nat (length pre)) (Z.of_nat (length dir)) = Ok (Some (Z.of_nat (length dir'))).
Proof.
  induction s as [|c s IH]; intros [|fuel] pre dir base Hz Hf Hsp; cbn [length] in Hf; try lia; cbn [file_name_loop]; unfold rget; rewrite aget_nat; cbn [app].
  - rewrite (list_lookup_middle pre _ 0) by done. cbn. exists dir, base. by rewrite app_nil_r.
  - rewrite (list_lookup_middle pre _ c) by done. apply not_elem_of_cons in Hz as [Hc Hz]. cbn [lift mbind result_bind].
    rewrite (proj2 (Z.eqb_neq c 0)) by done. pose proof (splits_snoc _ _ _ _ c Hsp) as Hn.
    replace (Z.of_nat (length pre) + 1) with (Z.of_nat (length (pre ++ [c]))) by (rewrite length_app; cbn; lia).
    change (c :: s ++ 0 :: rest) with ([c] ++ (s ++ 0 :: rest)). change (c :: s) with ([c] ++ s). rewrite !(assoc_L (++) pre [c]).
    destruct (c =? separator w); eapply IH; first [done|lia|exact Hn].
Qed.

(** A path that ends within its memory: [file_name] returns the place after its last
    separator, or its beginning. *)
Theorem file_name_last (w : bool) (s rest : list Z) : 0 ∉ s ->
  exists dir base, s = dir ++ base /\ separator w ∉ base /\ (dir = [] \/ last dir = Some (separator w))
    /\ file_name w (S (length s)) (s ++ 0 :: rest) = Ok (Some (Z.of_nat (length dir))).
Proof.
  intros Hz. destruct (file_name_loop_ok w rest s (S (length s)) [] [] []) as (dir & base & (H1 & H2 & H3) & E); [done|lia| |by exists dir, base].
  split_and!; [done|apply not_elem_of_nil|by left].
Qed.

(** "src/co/main.cpp", with more memory behind it *)
Lemma file_name_last_witness : let s := [115; 114; 99; 47; 99; 111; 47; 109; 46; 99] in
  0 ∉ s /\ exists dir base, s = dir ++ base /\ 47 ∉ base /\ (dir = [] \/ last dir = Some 47)
    /\ file_name false 11 (s ++ [0; 47; 47]) = Ok (Some (Z.of_nat (length dir))).
Proof. intros s. assert (0 ∉ s) as Hs by (unfold s; set_solver by lia). split; [exact Hs|]. exact (file_name_last false s [47; 47] Hs). Defined.

(** The texts with a blank between them. *)
Definition join (u : list (list Z)) : list Z := match u with [] => [] | arg :: u => arg ++ (u ≫= fun x => 32 :: x) end.

Lemma printer_join u : forall i arg, printer (S (i + length u)) i (arg :: u) = join (arg :: u) ++ [10].
Proof.
  induction u as [|x u IH]; intros i arg; cbn [printer length].
  - rewrite Nat.add_0_r, Nat.eqb_refl. cbn. by rewrite !app_nil_r.
  - rewrite (proj2 (Nat.eqb_neq _ _)) by lia. replace (S (i + S (length u))) with (S (S i + length u)) by lia.
    specialize (IH (S i) x). cbn [printer] in IH. rewrite IH. unfold join. by rewrite <- (assoc_L (++) arg).
Qed.

(** [Println] prints its arguments with a blank between them and ends the line; without
    arguments it prints nothing, not even the end of the line. *)
Theorem Println_line (u : list (list Z)) : Println u = match u with [] => [] | _ => join u ++ [10] end.
Proof. destruct u as [|arg u]; [done|]. apply (printer_join u 0 arg). Qed.
