(* ===== verification/MmapTest.v ===== *)
(** The benchmark of file writes against mapped files (src/mmap-test.c): the content, the
    arguments of the threads, and the loops of the four thread functions. The kernel's
    replies to [write] and [read] and the mapping are inputs. *)

From S2P Require Import Prelude Result.
From stdpp Require Import strings.
#[local] Open Scope Z_scope.

Definition CONTENT_SIZE : Z := 1024 * 1024 * 4.
Definition SAMPLE_STRING : list Z := [83; 65; 77; 80].
Definition MAX_THREAD_COUNT : nat := 64.
Definition MB : Z := 1024 * 1024.

Definition is_int (z : Z) : bool := (- 2 ^ 31 <=? z) && (z <? 2 ^ 31).

(** ** [main] *)

(** The loop that fills the content, [n] rounds from [cursor] on. *)
Fixpoint fill_content (n : nat) (cursor : Z) (content : list Z) : result (list Z) :=
  match n with
  | O => Ok content
  | S n =>
    content ← poke content cursor SAMPLE_STRING;
    fill_content n (cursor + Z.of_nat (length SAMPLE_STRING)) content
  end.

(** [enable_sync] is [None] until it is assigned. *)
Record thread_args := { thread_no : Z; file_size : Z; enable_sync : option bool }.

Definition set_sync (sync : bool) (a : thread_args) : thread_args :=
  {| thread_no := thread_no a; file_size := file_size a; enable_sync := Some sync |}.

(** A round of the loop over the arguments: [args->enable_sync] is that of [args[0]]. *)
Definition fill_arg (size : Z) (sync : bool) (args : list thread_args) (i : nat) : list thread_args :=
  let old := match args !! i with Some a => enable_sync a | None => None end in
  let args := <[i := {| thread_no := Z.of_nat i; file_size := size; enable_sync := old |}]> args in
  match args with a :: l => set_sync sync a :: l | [] => [] end.

Definition fill_args (size : Z) (sync : bool) (args : list thread_args) : list thread_args :=
  foldl (fill_arg size sync) args (seq 0 (length args)).

(** The threads are stored in arrays of [MAX_THREAD_COUNT]. *)
Definition create_threads (args : list thread_args) : result (list thread_args) :=
  if Nat.leb (length args) MAX_THREAD_COUNT then Ok args else Undefined.

(** [if(args->enable_sync)] *)
Definition syncs (a : thread_args) : result bool := lift (enable_sync a).

(** ** The thread functions *)

Section Threads.
Context (content : list Z).

(** The loop of [test_file_write]: the bytes in the file, and the replies of [write] that
    are left; [None] while the next reply is not there. *)
Fixpoint file_write (written total_size : Z) (file : list Z) (replies : list Z) : option (list Z * list Z) :=
  if written <? total_size then
    match replies with
    | [] => None
    | n :: replies =>
      let file := file ++ take (Z.to_nat n) content in
      if n <? CONTENT_SIZE then Some (file, replies)
      else file_write (written + n) total_size file replies
    end
  else Some (file, replies).

(** The loop of [test_file_read], with what it has read. *)
Fixpoint file_read (r total_size : Z) (replies : list Z) : option (Z * list Z) :=
  if r <? total_size then
    match replies with
    | [] => None
    | n :: replies => if n <? CONTENT_SIZE then Some (r, replies) else file_read (r + n) total_size replies
    end
  else Some (r, replies).

(** The loop of [test_mmap_write] over the mapped bytes; [i] is an [int]. [None]: the fuel
    is used up. *)
Fixpoint mmap_write (fuel : nat) (i cursor total_size : Z) (mapped : list Z) : option (result (list Z)) :=
  match fuel with
  | O => None
  | S fuel =>
    if i <? total_size then
      match src ← peek content 0 CONTENT_SIZE; poke mapped cursor src with
      | Ok mapped =>
        if is_int (i + CONTENT_SIZE)
        then mmap_write fuel (i + CONTENT_SIZE) (cursor + CONTENT_SIZE) total_size mapped
        else Some Undefined
      | e => Some e
      end
    else Some (Ok mapped)
  end.

(** The loop of [test_mmap_read]; [r] is a [long long]. *)
Fixpoint mmap_read (fuel : nat) (r cursor total_size : Z) (mapped buffer : list Z) : option (result (list Z)) :=
  match fuel with
  | O => None
  | S fuel =>
    if r <? total_size then
      match src ← peek mapped cursor CONTENT_SIZE; poke buffer 0 src with
      | Ok buffer => mmap_read fuel (r + CONTENT_SIZE) (cursor + CONTENT_SIZE) total_size mapped buffer
      | e => Some e
      end
    else Some (Ok buffer)
  end.

Definition test_mmap_write (fuel : nat) (a : thread_args) (mapped : list Z) : option (result (list Z)) :=
  mmap_write fuel 0 0 (file_size a * MB) mapped.

Definition test_file_write (a : thread_args) (replies : list Z) : option (list Z * list Z) :=
  file_write 0 (file_size a * 1024 * 1024) [] replies.

(** ** The content *)

Lemma fill_content_spec n pre rest : length rest = (4 * n)%nat ->
  fill_content n (Z.of_nat (length pre)) (pre ++ rest) = Ok (pre ++ concat (replicate n SAMPLE_STRING)).
Proof.
  revert pre rest. induction n as [|n IH]; intros pre rest Hlen.
  - assert (rest = []) as -> by (apply nil_length_inv; lia). done.
  - do 4 (destruct rest as [|? rest]; [cbn in Hlen; lia|]). cbn in Hlen. cbn [fill_content]. unfold poke.
    rewrite length_app. cbn [length SAMPLE_STRING]. case_bool; cbn [andb mbind result_bind]; try lia.
    rewrite Nat2Z.id, take_app_length, drop_app_ge by lia.
    replace (length pre + 4 - length pre)%nat with 4%nat by lia. cbn [drop].
    replace (Z.of_nat (length pre) + Z.of_nat 4) with (Z.of_nat (length (pre ++ SAMPLE_STRING))) by (rewrite length_app; cbn; lia).
    rewrite (assoc_L (++)), drop_0, IH by lia. cbn [replicate concat]. by rewrite <- (assoc_L (++)).
Qed.

(** ** Mapped writes *)

Hypothesis Hcontent : CONTENT_SIZE <= Z.of_nat (length content).

Definition block : list Z := take (Z.to_nat CONTENT_SIZE) content.

Lemma CONTENT_SIZE_eq : CONTENT_SIZE = 2 ^ 22.
Proof. reflexivity. Qed.
#[local] Opaque CONTENT_SIZE.

Lemma block_length : Z.of_nat (length block) = CONTENT_SIZE.
Proof. unfold block. rewrite length_take. pose proof CONTENT_SIZE_eq. lia. Qed.

Lemma peek_block : peek content 0 CONTENT_SIZE = Ok block.
Proof. unfold peek. pose proof CONTENT_SIZE_eq. by case_bool; try lia. Qed.

Lemma poke_block pre rest : poke (pre ++ rest) (Z.of_nat (length pre)) block =
  if CONTENT_SIZE <=? Z.of_nat (length rest) then Ok (pre ++ block ++ drop (Z.to_nat CONTENT_SIZE) rest) else Undefined.
Proof.
  unfold poke. rewrite length_app, block_length. case_bool; cbn [andb]; try lia; try done.
  rewrite Nat2Z.id, take_app_length, drop_app_ge by lia.
  replace (length pre + length block - length pre)%nat with (Z.to_nat CONTENT_SIZE) by (pose proof block_length; lia). done.
Qed.

(** After [p] bytes: [n] whole blocks and [rr] bytes are left. *)
Lemma mmap_write_loop n pre rest rr fuel : Z.of_nat (length rest) = Z.of_nat n * CONTENT_SIZE + rr -> 0 <= rr < CONTENT_SIZE ->
  Z.of_nat (length pre) < 2 ^ 31 -> (n + 2 <= fuel)%nat ->
  mmap_write fuel (Z.of_nat (length pre)) (Z.of_nat (length pre)) (Z.of_nat (length pre + length rest)) (pre ++ rest)
  = Some (if (Z.of_nat (length pre + length rest) <? 2 ^ 31) && (rr =? 0)
          then Ok (pre ++ concat (replicate n block)) else Undefined).
Proof.
  pose proof CONTENT_SIZE_eq as HC. revert pre rest fuel. induction n as [|n IH]; intros pre rest fuel Hrest Hrr Hpre Hfuel;
    (destruct fuel as [|fuel]; [lia|]); cbn [mmap_write]; rewrite peek_block; cbn [mbind result_bind]; rewrite poke_block.
  - destruct (Z.eqb_spec rr 0) as [->|Hne].
    + assert (rest = []) as -> by (apply nil_length_inv; lia). rewrite Nat.add_0_r. case_bool; (done || lia).
    + rewrite andb_false_r. case_bool; (done || lia).
  - assert (CONTENT_SIZE <= Z.of_nat (length rest)) as Hle by lia.
    destruct (Z.ltb_spec (Z.of_nat (length pre)) (Z.of_nat (length pre + length rest))); [|lia].
    destruct (Z.leb_spec CONTENT_SIZE (Z.of_nat (length rest))); [|lia]. cbn [mbind result_bind].
    pose proof block_length as Hb. set (rest' := drop (Z.to_nat CONTENT_SIZE) rest).
    assert (Z.of_nat (length rest') = Z.of_nat n * CONTENT_SIZE + rr) as Hrest' by (unfold rest'; rewrite length_drop; lia).
    unfold is_int. destruct (Z.ltb_spec (Z.of_nat (length pre) + CONTENT_SIZE) (2 ^ 31)) as [Hlt|Hge].
    + destruct (Z.leb_spec (- 2 ^ 31) (Z.of_nat (length pre) + CONTENT_SIZE)); [|lia]. cbn [andb].
      replace (Z.of_nat (length pre) + CONTENT_SIZE) with (Z.of_nat (length (pre ++ block))) by (rewrite length_app; lia).
      replace (length pre + length rest)%nat with (length (pre ++ block) + length rest')%nat by (rewrite length_app; lia).
      rewrite (assoc_L (++)), IH; [|done|done|rewrite length_app; lia|lia]. cbn [replicate concat].
      by rewrite <- (assoc_L (++)).
    + rewrite andb_false_r. destruct (Z.ltb_spec (Z.of_nat (length pre + length rest)) (2 ^ 31)); [lia|done].
Qed.

(** C38: [test_mmap_write] of a file of [size] MB fills a mapping of that size with copies of
    the content if the size is a multiple of 4 MB below 2048 MB; for any other size it
    copies behind the mapping or overflows [i]. *)
Theorem mmap_write_exact a mapped : 0 <= file_size a -> Z.of_nat (length mapped) = file_size a * MB ->
  exists enough, forall fuel, (enough <= fuel)%nat -> test_mmap_write fuel a mapped
    = Some (if (file_size a mod 4 =? 0) && (file_size a <? 2048)
            then Ok (concat (replicate (Z.to_nat (file_size a / 4)) block)) else Undefined).
Proof.
  intros Hsz Hlen. set (size := file_size a) in *. exists (Z.to_nat (size / 4) + 2)%nat. intros fuel Hfuel.
  assert (MB = 2 ^ 20) as HM by done. pose proof CONTENT_SIZE_eq as HC.
  pose proof (Z.div_mod size 4) as Hd. pose proof (Z.mod_pos_bound size 4) as Hm.
  assert (0 <= size / 4) by (apply Z.div_pos; lia).
  unfold test_mmap_write. fold size. rewrite <- Hlen.
  pose proof (mmap_write_loop (Z.to_nat (size / 4)) [] mapped (size mod 4 * MB) fuel) as Hloop. cbn [length Nat.add app] in Hloop.
  change (Z.of_nat 0) with 0 in Hloop.
  rewrite Hloop; [|lia..|done]. rewrite Hlen. f_equal. case_bool; cbn [andb]; try done; lia.
Qed.

(** ** Mapped reads *)

(** After [p] bytes: [n] whole blocks and [rr] bytes are left. *)
Lemma mmap_read_loop n mapped p rr buffer fuel :
  Z.of_nat (length mapped) = p + Z.of_nat n * CONTENT_SIZE + rr -> 0 <= rr < CONTENT_SIZE -> 0 <= p ->
  CONTENT_SIZE <= Z.of_nat (length buffer) -> (n + 2 <= fuel)%nat ->
  exists b, mmap_read fuel p p (Z.of_nat (length mapped)) mapped buffer = Some (if rr =? 0 then Ok b else Undefined)
    /\ length b = length buffer.
Proof.
  pose proof CONTENT_SIZE_eq as HC. revert p buffer fuel. induction n as [|n IH]; intros p buffer fuel Hm Hrr Hp Hb Hfuel;
    (destruct fuel as [|fuel]; [lia|]); cbn [mmap_read]; unfold peek.
  - exists buffer. split; [|done]. destruct (Z.eqb_spec rr 0) as [->|Hne]; case_bool; cbn; (done || lia).
  - rewrite (proj2 (Z.ltb_lt p _)), (proj2 (Z.leb_le 0 p)), (proj2 (Z.leb_le 0 CONTENT_SIZE)),
      (proj2 (Z.leb_le (p + CONTENT_SIZE) _)) by lia. cbn [andb mbind result_bind]. unfold poke.
    rewrite length_take, length_drop, (proj2 (Z.leb_le (0 + _) _)) by lia. cbn [andb Z.leb Z.compare].
    match goal with |- context [mmap_read _ _ _ _ _ ?b] => set (b1 := b) end.
    assert (length b1 = length buffer) as Hb1.
    { unfold b1. rewrite !length_app, length_take, length_drop, !length_take, length_drop. lia. }
    destruct (IH (p + CONTENT_SIZE) b1 fuel) as (b & -> & Hl); [lia..|]. exists b. split; [done|congruence].
Qed.

(** [test_mmap_read] reads behind the mapping unless the size is a multiple of 4 MB; it
    has no bound of 2048 MB, since [r] is a [long long]. *)
Theorem mmap_read_exact size mapped buffer : 0 <= size -> Z.of_nat (length mapped) = size * MB ->
  CONTENT_SIZE <= Z.of_nat (length buffer) -> forall fuel, (Z.to_nat (size / 4) + 2 <= fuel)%nat ->
  exists b, mmap_read fuel 0 0 (size * MB) mapped buffer = Some (if size mod 4 =? 0 then Ok b else Undefined).
Proof.
  intros Hsz Hm Hb fuel Hfuel. assert (MB = 2 ^ 20) as HM by done. pose proof CONTENT_SIZE_eq as HC.
  pose proof (Z.div_mod size 4) as Hd. pose proof (Z.mod_pos_bound size 4) as Hmod. assert (0 <= size / 4) by (apply Z.div_pos; lia).
  destruct (mmap_read_loop (Z.to_nat (size / 4)) mapped 0 (size mod 4 * MB) buffer fuel) as (b & Hr & _); [lia..|].
  exists b. rewrite <- Hm, Hr. do 2 f_equal. case_bool; (done || lia).
Qed.

(** ** Written files *)

(** [n] complete writes are as many as the loop makes. *)
Lemma file_write_complete n written total file replies :
  total <= written + Z.of_nat n * CONTENT_SIZE -> (0 < Z.of_nat n -> written + (Z.of_nat n - 1) * CONTENT_SIZE < total) ->
  file_write written total file (replicate n CONTENT_SIZE ++ replies) = Some (file ++ concat (replicate n block), replies).
Proof.
  pose proof CONTENT_SIZE_eq as HC. revert written file. induction n as [|n IH]; intros written file Hle Hlt.
  - cbn [replicate app concat]. rewrite app_nil_r. destruct replies; cbn [file_write]; case_bool; (done || lia).
  - cbn [replicate app file_write concat]. case_bool; [lia| |lia].
    rewrite IH; [|lia..]. fold block. by rewrite <- (assoc_L (++)).
Qed.

(** When no write fails, [test_file_write] fills the file up to the first multiple of
    4 MB that is not below the size asked for. *)
Theorem file_write_rounds_up a replies : 0 <= file_size a ->
  let n := Z.to_nat ((file_size a + 3) / 4) in
  test_file_write a (replicate n CONTENT_SIZE ++ replies) = Some (concat (replicate n block), replies).
Proof.
  intros Hsz n. pose proof CONTENT_SIZE_eq as HC. pose proof (Z.div_mod (file_size a + 3) 4) as Hd.
  pose proof (Z.mod_pos_bound (file_size a + 3) 4) as Hm. assert (0 <= (file_size a + 3) / 4) by (apply Z.div_pos; lia).
  unfold test_file_write. rewrite (file_write_complete n); [done|unfold n; lia..].
Qed.

End Threads.

(** ** The arguments *)

Definition new_args (n : nat) : list thread_args := repeat {| thread_no := 0; file_size := 0; enable_sync := None |} n.

Lemma fill_arg_sync size sync a l i : Forall (fun x => enable_sync x = None) l ->
  exists a' l', fill_arg size sync (a :: l) i = a' :: l' /\ enable_sync a' = Some sync
    /\ Forall (fun x => enable_sync x = None) l' /\ length l' = length l.
Proof.
  intros Hl. destruct i as [|i]; [by eexists _, _|].
  eexists (set_sync sync a), (<[i := _]> l). split; [reflexivity|]. split; [done|]. rewrite length_insert. split; [|done].
  apply Forall_insert; [done|]. cbn. destruct (l !! i) as [x|] eqn:Hx; [|done]. rewrite Forall_lookup in Hl. by eapply Hl.
Qed.

Lemma fill_args_sync size sync js a l : Forall (fun x => enable_sync x = None) l -> js <> [] ->
  exists a' l', foldl (fill_arg size sync) (a :: l) js = a' :: l' /\ enable_sync a' = Some sync
    /\ Forall (fun x => enable_sync x = None) l' /\ length l' = length l.
Proof.
  revert a l. induction js as [|i js IH]; intros a l Hl Hne; [done|]. cbn [foldl].
  destruct (fill_arg_sync size sync a l i Hl) as (a1 & l1 & -> & Ha1 & Hl1 & Hlen). destruct js as [|j js]; [by eexists _, _|].
  destruct (IH a1 l1 Hl1 ltac:(done)) as (a2 & l2 & -> & Ha2 & Hl2 & Hlen2). eexists _, _. split_and!; try done. congruence.
Qed.

(** Only the first thread is told whether to synchronize: the others read a value that
    nobody has set. *)
Theorem sync_of_first_only n size sync : (0 < n)%nat ->
  syncs <$> fill_args size sync (new_args n) = Ok sync :: repeat Undefined (n - 1).
Proof.
  intros Hn. destruct n as [|n]; [lia|]. unfold fill_args, new_args. cbn [repeat length]. rewrite repeat_length.
  destruct (fill_args_sync size sync (seq 0 (S n)) {| thread_no := 0; file_size := 0; enable_sync := None |}
    (repeat {| thread_no := 0; file_size := 0; enable_sync := None |} n)) as (a' & l' & -> & Ha & Hl & Hlen).
  - apply Forall_forall. intros x Hx%list_elem_of_In%List.repeat_spec. by subst.
  - done.
  - rewrite repeat_length in Hlen. cbn. unfold syncs at 1. rewrite Ha. f_equal. rewrite Nat.sub_0_r, <- Hlen.
    clear -Hl. induction Hl as [|x l Hx _ IH]; [done|]. cbn. unfold syncs at 1. by rewrite Hx, IH.
Qed.

(** ** The witness of [mmap_write_exact] *)

Theorem mmap_write_exact_witness : exists content mapped enough,
  CONTENT_SIZE <= Z.of_nat (length content) /\ Z.of_nat (length mapped) = 5 * MB
  /\ test_mmap_write content enough {| thread_no := 0; file_size := 5; enable_sync := None |} mapped = Some Undefined.
Proof.
  set (content := repeat 0 (Z.to_nat CONTENT_SIZE)). set (mapped := repeat 0 (Z.to_nat (5 * MB))).
  assert (CONTENT_SIZE <= Z.of_nat (length content)) as Hc by (unfold content; rewrite repeat_length; pose proof CONTENT_SIZE_eq; lia).
  assert (Z.of_nat (length mapped) = 5 * MB) as Hm by (unfold mapped; rewrite repeat_length; unfold MB; lia).
  destruct (mmap_write_exact content Hc {| thread_no := 0; file_size := 5; enable_sync := None |} mapped) as [enough H];
    [cbn; lia|exact Hm|].
  exists content, mapped, enough. split; [exact Hc|]. split; [exact Hm|]. rewrite H; [reflexivity|lia].
Defined.
