(* ===== verification/KernelProbes.v ===== *)
(** The two kernel probes written in C: src/bcc-python/task_switch.c, which counts the
    switches between tasks, and vfsreadlat.c, which makes a histogram of the latencies of
    reads. The tables and the histogram are those of BCC, interfaces here. A probe is one step: what it
    does on two processors at once is outside the model. *)

From S2P Require Import Prelude.
#[local] Open Scope Z_scope.

(** ** The tables *)

(** A table with a bound on its entries: [t_store] is [None] when a new key finds no room. *)
Class Table (K V M : Type) := {
  t_new : M;
  t_lookup : M -> K -> option V;
  t_store : M -> K -> V -> option M;
  t_remove : M -> K -> M
}.

Class TableLaws (K V M : Type) `{Table K V M, EqDecision K} (capacity : nat) := {
  lookup_new k : t_lookup t_new k = None;
  lookup_store m m' k v k' : t_store m k v = Some m' ->
    t_lookup m' k' = if decide (k = k') then Some v else t_lookup m k';
  store_known m k v : t_lookup m k <> None -> t_store m k v <> None;
  store_room m k v (ks : list K) : NoDup ks -> (length ks < capacity)%nat -> (forall k', t_lookup m k' <> None -> k' ∈ ks) ->
    t_store m k v <> None;
  lookup_remove m k k' : t_lookup (t_remove m k) k' = if decide (k = k') then None else t_lookup m k'
}.

(** A finite map with a bound is such a table. *)
Definition bounded_store `{Countable K} {V} (capacity : nat) (m : gmap K V) (k : K) (v : V) : option (gmap K V) :=
  match m !! k with
  | Some _ => Some (<[k := v]> m)
  | None => if (size m <? capacity)%nat then Some (<[k := v]> m) else None
  end.

Definition bounded_table (K V : Type) `{Countable K} (capacity : nat) : Table K V (gmap K V) :=
  {| t_new := ∅; t_lookup m k := m !! k; t_store := bounded_store capacity; t_remove m k := delete k m |}.

Lemma bounded_laws (K V : Type) `{Countable K} capacity : @TableLaws K V (gmap K V) (bounded_table K V capacity) _ capacity.
Proof.
  split; cbn [t_new t_lookup t_store t_remove bounded_table].
  - intros k. apply lookup_empty.
  - intros m m' k v k' Hs. assert (m' = <[k := v]> m) as ->
      by (unfold bounded_store in Hs; destruct (m !! k); [|destruct (_ <? _)%nat]; by simplify_eq).
    apply lookup_insert.
  - intros m k v Hk. unfold bounded_store. by destruct (m !! k).
  - intros m k v ks Hn Hl Hks. unfold bounded_store. destruct (m !! k); [done|].
    assert (size m <= length ks)%nat as Hs.
    { rewrite <- size_dom. rewrite <- (size_list_to_set (C := gset K) ks) by done. apply subseteq_size.
      intros k' Hk'. apply elem_of_list_to_set, Hks. by apply elem_of_dom in Hk' as [? ->]. }
    by rewrite (proj2 (Nat.ltb_lt _ _)) by lia.
  - intros m k k'. apply lookup_delete.
Qed.

Section LookupOrInit.
Context {K V M : Type} `{Table K V M}.

(** [lookup_or_try_init]: the value, in the table from now on. *)
Definition lookup_or_try_init (m : M) (k : K) (zero : V) : option (V * M) :=
  match t_lookup m k with
  | Some v => Some (v, m)
  | None => m ← t_store m k zero; Some (zero, m)
  end.

End LookupOrInit.

(** [increment] of a table of counters. *)
Definition increment {K M} `{Table K Z M} (m : M) (k : K) : M :=
  match lookup_or_try_init m k 0 with
  | Some (v, m) => default m (t_store m k (wrap_u 64 (v + 1)))
  | None => m
  end.

(** An array of counters, which [increment] leaves alone outside of it. *)
Class Histogram (D : Type) := {
  h_new : D;
  h_read : D -> Z -> Z;
  h_increment : D -> Z -> D
}.

Class HistogramLaws (D : Type) `{Histogram D} (slots : Z) := {
  h_read_new b : 0 <= b < slots -> h_read h_new b = 0;
  h_read_increment d k b : 0 <= b < slots ->
    h_read (h_increment d k) b = if decide (k = b) then wrap_u 64 (h_read d b + 1) else h_read d b
}.

(** A finite map is such an array. *)
Definition array_histogram (slots : Z) : Histogram (gmap Z Z) :=
  {| h_new := ∅; h_read m b := default 0 (m !! b);
     h_increment m k := if (0 <=? k) && (k <? slots) then <[k := wrap_u 64 (default 0 (m !! k) + 1)]> m else m |}.

Lemma array_laws slots : @HistogramLaws (gmap Z Z) (array_histogram slots) slots.
Proof.
  split; cbn [h_read h_new h_increment array_histogram]; [done|]. intros m k b Hb. case_decide as Hk.
  - subst k. rewrite (proj2 (Z.leb_le 0 b)), (proj2 (Z.ltb_lt b slots)) by lia. cbn [andb]. by rewrite lookup_insert_eq.
  - destruct (_ && _); [by rewrite lookup_insert_ne|done].
Qed.

(** ** Switches between tasks *)

(** [key_t]: the previous and the current task. *)
Definition key_t : Type := Z * Z.

Section Switches.
Context {M : Type} `{Table key_t Z M}.

(** [count_sched], for the task that [prev] points to and the result of
    [bpf_get_current_pid_tgid]. *)
Definition switch_key (prev_pid pid_tgid : Z) : key_t := (wrap_u 32 prev_pid, wrap_u 32 pid_tgid).

Definition count_sched (stats : M) (prev_pid pid_tgid : Z) : M :=
  let key := switch_key prev_pid pid_tgid in
  match lookup_or_try_init stats key 0 with
  | Some (val, stats) => default stats (t_store stats key (wrap_u 64 (val + 1)))
  | None => stats
  end.

Definition count_all (stats : M) (es : list (Z * Z)) : M := foldl (fun m e => count_sched m e.1 e.2) stats es.

End Switches.

(** ** Latencies of reads *)

(** A probe at the entry or the return of a read: the task and the time. *)
Inductive probe_event :=
| Do_entry (pid : Z) (ts : Z)
| Do_return (pid : Z) (ts : Z).

Section Latency.
Context {St Di : Type} `{Table Z Z St} `{Histogram Di}.

(** BCC's logarithm of an unsigned number. *)
Context (bpf_log2l : Z -> Z).

Definition do_entry (start : St) (pid_tgid now : Z) : St :=
  let pid := wrap_u 32 pid_tgid in
  let ts := wrap_u 64 now in
  default start (t_store start pid ts).

Definition do_return (start : St) (dist : Di) (pid_tgid now : Z) : St * Di :=
  let pid := wrap_u 32 pid_tgid in
  match t_lookup start pid with
  | Some tsp =>
    let delta := wrap_u 64 (now - tsp) in
    (t_remove start pid, h_increment dist (bpf_log2l (delta / 1000)))
  | None => (start, dist)
  end.

Definition probe (t : St * Di) (e : probe_event) : St * Di :=
  match e with
  | Do_entry pid now => (do_entry t.1 pid now, t.2)
  | Do_return pid now => do_return t.1 t.2 pid now
  end.

Definition probe_all (t : St * Di) (es : list probe_event) : St * Di := foldl probe t es.

End Latency.

(** ** What the tables count *)

Definition occurrences `{EqDecision A} (x : A) (l : list A) : Z := Z.of_nat (length (filter (fun y => y = x) l)).

Lemma occurrences_snoc `{EqDecision A} (x y : A) l :
  occurrences x (l ++ [y]) = occurrences x l + (if decide (y = x) then 1 else 0).
Proof. unfold occurrences. rewrite filter_app, length_app. cbn. case_decide; cbn; lia. Qed.

Lemma remove_dups_app `{EqDecision A} (l l' : list A) : (length (remove_dups l) <= length (remove_dups (l ++ l')))%nat.
Proof.
  apply submseteq_length, NoDup_submseteq; [apply NoDup_remove_dups|]. intros x. rewrite !elem_of_remove_dups. set_solver.
Qed.

Lemma wrap_next n : wrap_u 64 (wrap_u 64 n + 1) = wrap_u 64 (n + 1).
Proof. unfold wrap_u. by rewrite Zplus_mod_idemp_l. Qed.

Section Counters.
Context {K M : Type} `{TableLaws K Z M capacity}.

(** A counter with its key among [ks], when these leave room. *)
Lemma increment_spec (m : M) k (ks : list K) : (forall k', t_lookup m k' <> None -> k' ∈ ks) ->
  (length (remove_dups (ks ++ [k])) <= capacity)%nat ->
  forall k', t_lookup (increment m k) k' =
    if decide (k = k') then Some (wrap_u 64 (default 0 (t_lookup m k) + 1)) else t_lookup m k'.
Proof.
  intros Hks Hc k'. unfold increment, lookup_or_try_init. destruct (t_lookup m k) as [v|] eqn:Ek; cbn.
  - destruct (t_store m k (wrap_u 64 (v + 1))) as [m'|] eqn:Es; [|by destruct (store_known m k (wrap_u 64 (v + 1))); rewrite ?Ek].
    cbn. by rewrite (lookup_store m m' k _ k' Es).
  - assert (exists ks', NoDup ks' /\ (length ks' < capacity)%nat /\ forall k', t_lookup m k' <> None -> k' ∈ ks') as (ks' & Hn & Hl & Hin).
    { exists (filter (fun y => y <> k) (remove_dups (ks ++ [k]))). split_and!.
      - apply NoDup_filter, NoDup_remove_dups.
      - apply (Nat.lt_le_trans _ (length (remove_dups (ks ++ [k])))); [|done].
        apply (length_filter_lt _ _ k); [apply elem_of_remove_dups; set_solver|naive_solver].
      - intros k2 Hk2. apply list_elem_of_filter. split; [by intros ->|]. apply elem_of_remove_dups. specialize (Hks k2 Hk2). set_solver. }
    destruct (t_store m k 0) as [m1|] eqn:E1; [|by destruct (store_room m k 0 ks')]. cbn.
    pose proof (lookup_store m m1 k 0 k E1) as Hk1. rewrite decide_True in Hk1 by done.
    destruct (t_store m1 k _) as [m2|] eqn:E2; [|by destruct (store_known m1 k (wrap_u 64 (0 + 1))); rewrite ?Hk1]. cbn.
    rewrite (lookup_store m1 m2 k _ k' E2). case_decide; [done|]. by rewrite (lookup_store m m1 k 0 k' E1), decide_False.
Qed.

(** A table that has counted the keys [ks]. *)
Definition counted (m : M) (ks : list K) : Prop :=
  forall k, t_lookup m k = if decide (k ∈ ks) then Some (wrap_u 64 (occurrences k ks)) else None.

Lemma counted_new : counted t_new [].
Proof. intros k. rewrite decide_False by apply not_elem_of_nil. apply lookup_new. Qed.

Lemma counted_snoc m ks k : counted m ks -> (length (remove_dups (ks ++ [k])) <= capacity)%nat ->
  counted (increment m k) (ks ++ [k]).
Proof.
  intros Hm Hc k'. rewrite (increment_spec m k ks); [|intros k2; rewrite Hm; by case_decide|done].
  rewrite occurrences_snoc. case_decide as Hk.
  - subst k'. rewrite decide_True by set_solver. f_equal. rewrite Hm. case_decide as Hin; cbn; [apply wrap_next|].
    assert (occurrences k ks = 0) as ->; [|done]. unfold occurrences. destruct (filter _ ks) as [|y l] eqn:Ef; [done|].
    assert (y ∈ filter (fun y => y = k) ks) as [-> Hy]%list_elem_of_filter by (rewrite Ef; by left). done.
  - rewrite Hm, Z.add_0_r. repeat case_decide; set_solver.
Qed.

End Counters.

(** ** The theorems *)

Section Theorems.
Context {M : Type} `{TableLaws key_t Z M capacity}.

(** The key of a switch. *)
Definition switch_of (e : Z * Z) : key_t := switch_key e.1 e.2.

Lemma count_sched_increment m e : count_sched m e.1 e.2 = increment m (switch_of e).
Proof. done. Qed.

Lemma count_all_counted es : (length (remove_dups (switch_of <$> es)) <= capacity)%nat ->
  counted (count_all t_new es) (switch_of <$> es).
Proof.
  induction es as [|e es IH] using rev_ind; intros Hc; [apply counted_new|].
  rewrite fmap_app in *. unfold count_all. rewrite foldl_app. cbn [foldl fmap list_fmap] in *. rewrite count_sched_increment.
  apply counted_snoc; [|done]. apply IH. etrans; [apply remove_dups_app|exact Hc].
Qed.

(** As long as the switches have no more different keys than the table has room for, the
    table has an entry for exactly the pairs of tasks that were switched, with the number
    of their switches in 64 bits; tasks are told apart by the low 32 bits. *)
Theorem switches_counted es k : (length (remove_dups (switch_of <$> es)) <= capacity)%nat ->
  t_lookup (count_all t_new es) k =
    if decide (k ∈ switch_of <$> es) then Some (wrap_u 64 (occurrences k (switch_of <$> es))) else None.
Proof. intros Hc. by apply count_all_counted. Qed.

(** A pair that finds the table full is not counted. *)
Theorem full_not_counted (m : M) prev curr : t_lookup m (switch_key prev curr) = None ->
  t_store m (switch_key prev curr) 0 = None -> count_sched m prev curr = m.
Proof. intros Hk Hs. unfold count_sched, lookup_or_try_init. by rewrite Hk, Hs. Qed.

End Theorems.

Section Histogram.
Context {St Di : Type} {started : nat} {slots : Z} `{LS : !Table Z Z St} `{LD : !Histogram Di}.
Context `{!TableLaws Z Z St started} `{!HistogramLaws Di slots} (bpf_log2l : Z -> Z).

Definition task_of (e : probe_event) : Z := match e with Do_entry p _ | Do_return p _ => wrap_u 32 p end.

(** The time of the read that a task is in: its last event is the entry. *)
Definition reading (p : Z) (es : list probe_event) : option Z :=
  match last (filter (fun e => task_of e = p) es) with
  | Some (Do_entry _ ts) => Some (wrap_u 64 ts)
  | _ => None
  end.

(** The latency that a return completes. *)
Definition latency (es : list probe_event) (e : probe_event) : list Z :=
  match e with
  | Do_return p now => match reading (wrap_u 32 p) es with Some ts => [wrap_u 64 (now - ts)] | None => [] end
  | _ => []
  end.

(** The latencies of the reads of a sequence of events: [seen] is what came before. *)
Fixpoint latencies (seen es : list probe_event) : list Z :=
  match es with [] => [] | e :: es => latency seen e ++ latencies (seen ++ [e]) es end.

Lemma latencies_snoc seen es e : latencies seen (es ++ [e]) = latencies seen es ++ latency (seen ++ es) e.
Proof.
  revert seen. induction es as [|e' es IH]; intros seen; cbn; [by rewrite !app_nil_r|].
  by rewrite IH, <- !(assoc_L (++)).
Qed.

Lemma reading_snoc p es e : reading p (es ++ [e]) =
  if decide (task_of e = p) then match e with Do_entry _ ts => Some (wrap_u 64 ts) | _ => None end else reading p es.
Proof.
  unfold reading. rewrite filter_app, filter_cons. case_decide.
  - by rewrite filter_nil, last_snoc.
  - by rewrite filter_nil, app_nil_r.
Qed.

Definition slots_of (es : list probe_event) : list Z := (fun d => bpf_log2l (d / 1000)) <$> latencies [] es.

(** The empty tables. *)
Definition no_reads : St * Di := (t_new, h_new).

Lemma start_full_enough (m : St) p ts es : (forall q, t_lookup m q = reading q es) ->
  (length (remove_dups ((task_of <$> es) ++ [p])) <= started)%nat -> t_store m p ts <> None.
Proof.
  intros Hm Hst. destruct (t_lookup m p) eqn:El; [apply store_known; by rewrite El|].
  apply (store_room m _ _ (filter (fun q => q <> p) (remove_dups ((task_of <$> es) ++ [p])))).
  - apply NoDup_filter, NoDup_remove_dups.
  - eapply Nat.lt_le_trans; [|exact Hst]. apply (length_filter_lt _ _ p); [apply elem_of_remove_dups; set_solver|naive_solver].
  - intros q Hq. apply list_elem_of_filter. split; [by intros ->|]. apply elem_of_remove_dups, elem_of_app. left.
    rewrite Hm in Hq. unfold reading in Hq. destruct (last _) as [e|] eqn:Ela; [|done].
    apply last_Some_elem_of, list_elem_of_filter in Ela as [<- Hin]. by apply list_elem_of_fmap_2.
Qed.

(** What the histogram has after the slots [ks] were counted. *)
Definition tallied (d : Di) (ks : list Z) : Prop := forall b, 0 <= b < slots -> h_read d b = wrap_u 64 (occurrences b ks).

Lemma tallied_snoc d ks k : tallied d ks -> tallied (h_increment d k) (ks ++ [k]).
Proof.
  intros Hd b Hb. rewrite h_read_increment, occurrences_snoc, Hd by done. case_decide; [apply wrap_next|by rewrite Z.add_0_r].
Qed.

Lemma probe_all_spec es : (length (remove_dups (task_of <$> es)) <= started)%nat ->
  let t := probe_all bpf_log2l no_reads es in
  (forall p, t_lookup t.1 p = reading p es) /\ tallied t.2 (slots_of es).
Proof.
  induction es as [|e es IH] using rev_ind; intros Hst.
  { split; [intros p; apply lookup_new|intros b Hb; by apply h_read_new]. }
  rewrite fmap_app in Hst. cbn [fmap list_fmap] in Hst.
  destruct IH as [H1 H2]; [by etrans; [apply remove_dups_app|]|]. unfold probe_all. rewrite foldl_app. cbn [foldl].
  fold (probe_all bpf_log2l no_reads es). set (t := probe_all _ _ _) in *. unfold slots_of. rewrite latencies_snoc, fmap_app.
  fold (slots_of es). cbn [app]. destruct e as [p now|p now]; cbn [probe].
  - cbn [latency fmap list_fmap fst snd]. rewrite app_nil_r. split; [|done]. intros q. rewrite reading_snoc. cbn [task_of] in *.
    unfold do_entry. pose proof (start_full_enough t.1 _ (wrap_u 64 now) es H1 Hst).
    destruct (t_store t.1 (wrap_u 32 p) (wrap_u 64 now)) as [m'|] eqn:Es; [|done]. cbn [default].
    rewrite (lookup_store _ _ _ _ _ Es). case_decide; [done|apply H1].
  - unfold do_return. rewrite H1. cbn [latency]. destruct (reading (wrap_u 32 p) es) as [ts|] eqn:Er; cbn [fst snd].
    + split; [|by apply tallied_snoc].
      intros q. rewrite lookup_remove, reading_snoc. cbn [task_of]. case_decide; [done|apply H1].
    + cbn [fmap list_fmap]. rewrite app_nil_r. split; [|done]. intros q. rewrite reading_snoc. cbn [task_of].
      case_decide as Hd; [|apply H1]. subst q. by rewrite H1.
Qed.

(** As long as the table of entries has room, the histogram has in every slot the
    number of the reads whose latency in microseconds has that logarithm: a read is a
    return whose task had its last event at the entry, so a return without an entry counts
    nothing and of two entries in a row the second counts. *)
Theorem reads_counted es b : (length (remove_dups (task_of <$> es)) <= started)%nat -> 0 <= b < slots ->
  h_read (probe_all bpf_log2l no_reads es).2 b
    = wrap_u 64 (Z.of_nat (length (filter (fun d => bpf_log2l (d / 1000) = b) (latencies [] es)))).
Proof.
  intros Hst Hb. destruct (probe_all_spec es Hst) as [_ Hc]. rewrite (Hc b Hb). unfold occurrences, slots_of. do 2 f_equal.
  induction (latencies [] es) as [|d l IH]; [done|]. cbn [fmap list_fmap]. rewrite !filter_cons. case_decide; cbn [length]; by rewrite IH.
Qed.

End Histogram.

(** ** Instances *)

(** [BPF_HASH(stats, struct key_t, u64, 1024)], and tables of the default sizes. *)
Definition stats_table : Table key_t Z (gmap key_t Z) := bounded_table key_t Z 1024.
Definition start_table : Table Z Z (gmap Z Z) := bounded_table Z Z 10240.
Definition dist_table : Histogram (gmap Z Z) := array_histogram 64.

Definition demo_switches : list (Z * Z) := [(1, 2); (2, 1); (1, 2); (1, 7 * 2 ^ 32 + 2)].

Lemma switches_counted_witness :
  @t_lookup _ _ _ stats_table (@count_all _ stats_table (@t_new _ _ _ stats_table) demo_switches) (1, 2) = Some 3.
Proof.
  rewrite (@switches_counted _ stats_table _ 1024 (bounded_laws key_t Z 1024) demo_switches (1, 2)); [vm_compute; reflexivity|].
  vm_compute. lia.
Defined.

Definition demo_reads : list probe_event := [Do_return 5 100; Do_entry 5 1000; Do_entry 6 2000; Do_return 5 9000; Do_return 6 4000; Do_return 6 5000].

Lemma reads_counted_witness :
  @h_read _ dist_table (@probe_all _ _ start_table dist_table (fun z => Z.log2 z + 1)
    (@no_reads _ _ start_table dist_table) demo_reads).2 4 = 1.
Proof.
  rewrite (@reads_counted _ _ 10240 64 start_table dist_table (bounded_laws Z Z 10240) (array_laws 64)
    (fun z => Z.log2 z + 1) demo_reads 4); [vm_compute; reflexivity|vm_compute; lia|lia].
Defined.
