(* ===== verification/Reflect.v ===== *)
(** The fields of a struct that are known when it is compiled, src/reflect.h: the schema of a
    struct and the calls of a function for each of its fields. *)

From S2P Require Import Prelude.
From stdpp Require Import strings.
#[local] Open Scope Z_scope.

(** ** Schemas *)

(** The types of fields; a function for the fields is a template, with an instance for each. *)
Inductive field_type := Int | String_.

Definition denote (t : field_type) : Type := match t with Int => Z | String_ => string end.

(** A pointer to a member of [T] of the type [ty], and the name of the field. *)
Record field_schema (T : Type) := Field {
  ty : field_type;
  get : T -> denote ty;
  set : denote ty -> T -> T;
  field_name : string
}.
Arguments Field {T} ty get set field_name.
Arguments ty {T} f.
Arguments get {T} f v.
Arguments set {T} f x v.
Arguments field_name {T} f.

(** [struct_schema<T>()], which is the empty tuple where no specialization is made. *)
Class StructSchema (T : Type) := struct_schema : list (field_schema T).

#[export] Instance no_schema (T : Type) : StructSchema T | 100 := [].

(** [DEFINE_STRUCT_FIELD] and [DEFINE_STRUCT_SCHEMA] *)
Definition DEFINE_STRUCT_FIELD {T} (t : field_type) (get : T -> denote t) (set : denote t -> T -> T) (FieldName : string) : field_schema T :=
  Field t get set FieldName.
Definition DEFINE_STRUCT_SCHEMA (T : Type) (fields : list (field_schema T)) : StructSchema T := fields.

(** ** The calls *)

Section Calls.
Context {M : Type}.

(** The calls for the places [Is], in their order; [None]: a place outside of the tuple, which
    does not compile. *)
Fixpoint for_each_tuple_at {X} (tuple : list X) (fn : X -> M -> M) (Is : list nat) (m : M) : option M :=
  match Is with
  | [] => Some m
  | i :: Is => x ← tuple !! i; for_each_tuple_at tuple fn Is (fn x m)
  end.

(** With [std::make_index_sequence] of the size of the tuple. *)
Definition for_each_tuple {X} (tuple : list X) (fn : X -> M -> M) (m : M) : option M :=
  for_each_tuple_at tuple fn (seq 0 (length tuple)) m.
End Calls.

Section Fields.
Context {T M : Type} `{StructSchema T}.
(** What is called: it can change the field that it gets, and other variables. *)
Context (fn : forall t, denote t -> string -> M -> denote t * M).

Definition call_field (f : field_schema T) (vm : T * M) : T * M :=
  let (x, m) := fn (ty f) (get f vm.1) (field_name f) vm.2 in (set f x vm.1, m).

Definition for_each_field (value : T) (m : M) : option (T * M) := for_each_tuple struct_schema call_field (value, m).
End Fields.

(** ** The struct of the example *)

Record Data := MkData { a : Z; b : string }.

#[export] Instance Data_schema : StructSchema Data :=
  DEFINE_STRUCT_SCHEMA Data
    [DEFINE_STRUCT_FIELD Int a (fun x v => MkData x (b v)) "a";
     DEFINE_STRUCT_FIELD String_ b (fun x v => MkData (a v) x) "b"].

(** ** The theorems *)

Lemma for_each_tuple_drop {X M} (fn : X -> M -> M) l : forall pre m,
  for_each_tuple_at (pre ++ l) fn (seq (length pre) (length l)) m = Some (foldl (fun m x => fn x m) m l).
Proof.
  induction l as [|x l IH]; intros pre m; [done|]. cbn [length seq for_each_tuple_at foldl].
  rewrite (list_lookup_middle pre l x) by done. cbn. specialize (IH (pre ++ [x]) (fn x m)).
  rewrite length_app, <- (assoc_L (++)), Nat.add_1_r in IH. exact IH.
Qed.

(** Every element of the tuple is visited once, in their order. *)
Theorem for_each_tuple_order {X M} (fn : X -> M -> M) (l : list X) (m : M) :
  for_each_tuple l fn m = Some (foldl (fun m x => fn x m) m l).
Proof. apply (for_each_tuple_drop fn l []). Qed.

(** The fields are different parts of the struct. *)
Record lawful {T} (l : list (field_schema T)) : Prop := {
  get_set f x v : f ∈ l -> get f (set f x v) = x;
  get_set_ne i j f f' x v : l !! i = Some f -> l !! j = Some f' -> i <> j -> get f (set f' x v) = get f v
}.

Section Lawful.
Context {T M : Type} (fn : forall t, denote t -> string -> M -> denote t * M).

Lemma calls_keep (l : list (field_schema T)) : forall f v m, (forall f' x v, f' ∈ l -> get f (set f' x v) = get f v) ->
  get f (foldl (fun vm f => call_field fn f vm) (v, m) l).1 = get f v.
Proof.
  induction l as [|f' l IH]; intros f v m Hf; [done|]. cbn. unfold call_field at 2. cbn.
  destruct (fn (ty f') (get f' v) (field_name f') m) as [x m']. rewrite IH; [apply Hf; left|]. intros f2 x2 v2 H2. apply Hf. by right.
Qed.

(** The function is called with each field once, in the order of the schema: its value is the
    one that the struct had before, and its result is the one that the struct has at the end. *)
Theorem for_each_field_each `{Sch : StructSchema T} (v : T) (m : M) : lawful struct_schema ->
  exists v' m', for_each_field fn v m = Some (v', m')
  /\ forall i f, struct_schema !! i = Some f ->
     get f v' = (fn (ty f) (get f v) (field_name f) (foldl (fun vm f => call_field fn f vm) (v, m) (take i struct_schema)).2).1.
Proof.
  intros [Hgs Hne]. unfold for_each_field. rewrite for_each_tuple_order.
  destruct (foldl _ (v, m) struct_schema) as [v' m'] eqn:E. exists v', m'. split; [done|]. intros i f Hi.
  rewrite <- (take_drop_middle _ i f Hi) in E. rewrite foldl_app in E. cbn in E.
  pose proof (calls_keep (take i struct_schema) f v m) as Hb.
  destruct (foldl _ (v, m) (take i struct_schema)) as [v1 m1]. cbn in Hb |- *.
  unfold call_field at 2 in E. cbn in E. rewrite Hb in E.
  - destruct (fn (ty f) (get f v) (field_name f) m1) as [x m2]. cbn.
    pose proof (calls_keep (drop (S i) struct_schema) f (set f x v1) m2) as Ha. rewrite E in Ha. cbn in Ha. rewrite Ha.
    + apply Hgs. by eapply list_elem_of_lookup_2.
    + intros f' x' v2 (j & Hj)%list_elem_of_lookup_1. rewrite lookup_drop in Hj. apply (Hne i (S i + j)%nat); [done..|lia].
  - intros f' x' v2 (j & Hj)%list_elem_of_lookup_1. apply lookup_take_Some in Hj as [Hj Hlt]. apply (Hne i j); [done..|lia].
Qed.

End Lawful.

Lemma Data_lawful : lawful (T := Data) struct_schema.
Proof.
  split.
  - intros f x v Hf. unfold struct_schema, Data_schema, DEFINE_STRUCT_SCHEMA in Hf. apply elem_of_cons in Hf as [->|[->|Hf]%elem_of_cons]; [done..|].
    by apply not_elem_of_nil in Hf.
  - intros [|[|i]] [|[|j]] f f' x v Hi Hj Hij; cbn in Hi, Hj; simplify_eq; done.
Qed.

(** A function that notes the names and adds one to the integers. *)
Definition note (t : field_type) : denote t -> string -> list string -> denote t * list string :=
  match t with Int => fun x n m => (x + 1, m ++ [n]) | String_ => fun x n m => (x, m ++ [n]) end.

(** The fields of the example are visited as "a" and then "b". *)
Lemma for_each_field_each_witness : exists v, for_each_field note (MkData 3 "three") [] = Some (v, ["a"; "b"]) /\ a v = 4 /\ b v = "three".
Proof.
  destruct (for_each_field_each note (MkData 3 "three") [] Data_lawful) as (v' & m' & E & Hf). exists v'.
  pose proof (Hf 0%nat _ eq_refl) as Ha. pose proof (Hf 1%nat _ eq_refl) as Hb. cbn in Ha, Hb.
  split; [|done]. rewrite E. cbn in E. by injection E as <- <-.
Defined.
